(** * A shallow embedding of [mm.c]: a segregated free-list allocator
      with boundary tags, and the properties of it that the design
      document states.

    The C program keeps all of its data inside one byte region handed
    out by the host ([mem_sbrk]) plus two static pointers.  The
    embedding keeps exactly that: a byte-addressed memory, the break,
    the two globals.  Machine integers are [Z] with the wrap-around of
    each C conversion written out ([u32], [i32], [u64]); the data model
    is LP64 (pointers and [size_t] 64 bits, [int] and the boundary tags
    32 bits), little endian. *)

From Stdlib Require Import ZArith List Lia Bool.
Import ListNotations.
Local Open Scope Z_scope.

(** ** Machine integers *)

Definition u32 (x : Z) : Z := x mod 2 ^ 32.
Definition u64 (x : Z) : Z := x mod 2 ^ 64.
Definition i32 (x : Z) : Z := (x + 2 ^ 31) mod 2 ^ 32 - 2 ^ 31.

(** Pointer arithmetic on 64-bit addresses. *)
Definition padd (p d : Z) : Z := u64 (p + d).

(** ** Constants and macros of the source *)

Definition WSIZE : Z := 4.
Definition DSIZE : Z := 8.
Definition CHUNKSIZE : Z := Z.shiftl 1 16.
Definition OVERHEAD : Z := 8.
Definition NULL : Z := 0.

Definition MIN (x y : Z) : Z := if x >? y then y else x.
Definition PACK (size alloc : Z) : Z := Z.lor size alloc.

(** ** Memory and allocator state *)

Definition memory := Z -> Z.

Definition byte_of (v i : Z) : Z := (v / 2 ^ (8 * i)) mod 256.

Definition load32 (m : memory) (p : Z) : Z :=
  (m p) mod 256 + 2 ^ 8 * ((m (p + 1)) mod 256)
  + 2 ^ 16 * ((m (p + 2)) mod 256) + 2 ^ 24 * ((m (p + 3)) mod 256).

Definition store32 (m : memory) (p v : Z) : memory :=
  fun a => if (p <=? a) && (a <? p + 4) then byte_of v (a - p) else m a.

(** A pointer-sized slot is two consecutive words, low word first. *)
Definition load64 (m : memory) (p : Z) : Z :=
  load32 m p + 2 ^ 32 * load32 m (p + 4).

Definition store64 (m : memory) (p v : Z) : memory :=
  store32 (store32 m p v) (p + 4) (v / 2 ^ 32).

(** [memcpy dst src n] for regions that do not overlap. *)
Definition copy_bytes (m : memory) (dst src n : Z) : memory :=
  fun a => if (dst <=? a) && (a <? dst + n) then m (src + (a - dst)) else m a.

(** [mem_lo, mem_hi) is the arena owned by the host; [mem_brk] is its
    current break.  [heap_listp] and [ptr_classes] are the two static
    globals.  [copies] records the calls of [memcpy] as
    (destination, source, byte count), most recent first. *)
Record state : Type := mkState {
  mem : memory;
  mem_lo : Z;
  mem_brk : Z;
  mem_hi : Z;
  heap_listp : Z;
  ptr_classes : Z;
  copies : list (Z * Z * Z)
}.

Definition set_mem (s : state) (m : memory) : state :=
  mkState m (mem_lo s) (mem_brk s) (mem_hi s) (heap_listp s) (ptr_classes s) (copies s).
Definition set_brk (s : state) (b : Z) : state :=
  mkState (mem s) (mem_lo s) b (mem_hi s) (heap_listp s) (ptr_classes s) (copies s).
Definition set_heap_listp (s : state) (p : Z) : state :=
  mkState (mem s) (mem_lo s) (mem_brk s) (mem_hi s) p (ptr_classes s) (copies s).
Definition set_ptr_classes (s : state) (p : Z) : state :=
  mkState (mem s) (mem_lo s) (mem_brk s) (mem_hi s) (heap_listp s) p (copies s).
Definition log_copy (s : state) (c : Z * Z * Z) : state :=
  mkState (mem s) (mem_lo s) (mem_brk s) (mem_hi s) (heap_listp s) (ptr_classes s)
          (c :: copies s).

(** The state in which the program starts: statics are zero, the break
    is at the base of the arena, the arena holds whatever it holds. *)
Definition boot (m : memory) (lo hi : Z) : state :=
  mkState m lo lo hi NULL NULL [].

(** ** The monad: state, plus the two ways a call may fail to return *)

Inductive outcome (A : Type) : Type :=
| Ok (a : A) (s : state)
| Segv                      (* an access outside the host's arena *)
| Exit1.                     (* [exit(1)] *)
Arguments Ok {A} a s.
Arguments Segv {A}.
Arguments Exit1 {A}.

Definition M (A : Type) : Type := state -> outcome A.

Definition ret {A} (a : A) : M A := fun s => Ok a s.
Definition bind {A B} (c : M A) (k : A -> M B) : M B :=
  fun s => match c s with
           | Ok a s' => k a s'
           | Segv => Segv
           | Exit1 => Exit1
           end.

Notation "x <- c ;; k" := (bind c (fun x => k))
  (at level 61, c at next level, right associativity).
Notation "c ;;; k" := (bind c (fun _ => k))
  (at level 61, right associativity).

Definition valid (s : state) (p n : Z) : bool :=
  (mem_lo s <=? p) && (p + n <=? mem_hi s).

Definition GET (p : Z) : M Z :=
  fun s => if valid s p 4 then Ok (load32 (mem s) p) s else Segv.
Definition PUT (p v : Z) : M unit :=
  fun s => if valid s p 4 then Ok tt (set_mem s (store32 (mem s) p v)) else Segv.
Definition GET_I (p : Z) : M Z :=
  fun s => if valid s p 4 then Ok (i32 (load32 (mem s) p)) s else Segv.

(** Reading and writing a [char *] object. *)
Definition GETP (p : Z) : M Z :=
  fun s => if valid s p 8 then Ok (load64 (mem s) p) s else Segv.
Definition PUTP (p v : Z) : M unit :=
  fun s => if valid s p 8 then Ok tt (set_mem s (store64 (mem s) p v)) else Segv.

Definition GET_SIZE (p : Z) : M Z := w <- GET p ;; ret (Z.land w (u32 (Z.lnot 7))).
Definition GET_ALLOC (p : Z) : M Z := w <- GET p ;; ret (Z.land w 1).

Definition HDRP (bp : Z) : Z := padd bp (- WSIZE).
Definition FTRP (bp : Z) : M Z :=
  sz <- GET_SIZE (HDRP bp) ;; ret (padd bp (u32 (sz - DSIZE))).
Definition NEXT_BLKP (bp : Z) : M Z :=
  sz <- GET_SIZE (padd bp (- WSIZE)) ;; ret (padd bp sz).
Definition PREV_BLKP (bp : Z) : M Z :=
  sz <- GET_SIZE (padd bp (- DSIZE)) ;; ret (padd bp (- sz)).

Definition SUCC (bp : Z) : M Z := d <- GET_I (padd bp WSIZE) ;; ret (padd bp d).
Definition PRED (bp : Z) : M Z := d <- GET_I bp ;; ret (padd bp d).

(** The globals. *)
Definition get_heap_listp : M Z := fun s => Ok (heap_listp s) s.
Definition get_ptr_classes : M Z := fun s => Ok (ptr_classes s) s.

(** [ptr_classes[k]] as an lvalue, then read and written. *)
Definition class_slot (k : Z) : M Z :=
  t <- get_ptr_classes ;; ret (padd t (DSIZE * k)).
Definition get_class (k : Z) : M Z := a <- class_slot k ;; GETP a.
Definition set_class (k v : Z) : M unit := a <- class_slot k ;; PUTP a v.

(** Modelled from the spec: the host region primitive [mem_sbrk], whose
    source is not part of the repository.  [extend(n)] returns the base
    of the newly added tail bytes, or reports failure; the region only
    grows.  [None] stands for a refusal, which the call site receives
    as the failure value [(void * )-1] (see [sbrk_ptr]). *)
Definition mem_sbrk (incr : Z) : M (option Z) :=
  fun s =>
    if (incr <? 0) || (mem_hi s <? mem_brk s + incr)
    then Ok None s
    else Ok (Some (mem_brk s)) (set_brk s (mem_brk s + incr)).

(** ** The free-list index *)

(** One arm of [append_to_class]: the seven arms of the source differ
    only in the index [k].  Here and below an lvalue that the source
    reads several times with no store in between is read once. *)
Definition append_arm (k bp : Z) : M unit :=
  PUT bp 0 ;;;
  h <- get_class k ;;
  (if negb (h =? NULL) then
     PUT (padd bp 4) (h - bp) ;;;
     h' <- get_class k ;;
     PUT h' (bp - h')
   else
     PUT (padd bp 4) 0) ;;;
  set_class k bp.

Definition append_to_class (bp size : Z) : M unit :=
  if size <=? 512 then append_arm 0 bp
  else if size <=? 1024 then append_arm 1 bp
  else if size <=? 2048 then append_arm 2 bp
  else if size <=? 4096 then append_arm 3 bp
  else if size <=? 8192 then append_arm 4 bp
  else if size <=? 16384 then append_arm 5 bp
  else append_arm 6 bp.

(** One arm of [delete_from_class]. *)
Definition delete_arm (k ptr : Z) : M unit :=
  h <- get_class k ;;
  if ptr =? h then
    w <- GET (padd ptr 4) ;;
    (if w =? 0 then set_class k NULL
     else su <- SUCC ptr ;; set_class k su)
  else
    w <- GET (padd ptr 4) ;;
    (if w =? 0 then
       pr <- PRED ptr ;; PUT (padd pr 4) 0
     else
       pr <- PRED ptr ;;
       su <- SUCC ptr ;;
       PUT (padd pr 4) (su - pr) ;;;
       su' <- SUCC ptr ;;
       pr' <- PRED ptr ;;
       PUT su' (pr' - su')).

Definition delete_from_class (bp prev : Z) : M unit :=
  sel <-
    (if prev =? 0 then
       nx <- NEXT_BLKP bp ;; sz <- GET_SIZE (HDRP nx) ;; ret (nx, i32 sz)
     else if prev =? 1 then
       pv <- PREV_BLKP bp ;; sz <- GET_SIZE (HDRP pv) ;; ret (pv, i32 sz)
     else if prev =? 2 then
       sz <- GET_SIZE (HDRP bp) ;; ret (bp, i32 sz)
     else ret (NULL, 0)) ;;
  let ptr := fst sel in
  let ptr_size := snd sel in
  if ptr_size <=? 512 then delete_arm 0 ptr
  else if ptr_size <=? 1024 then delete_arm 1 ptr
  else if ptr_size <=? 2048 then delete_arm 2 ptr
  else if ptr_size <=? 4096 then delete_arm 3 ptr
  else if ptr_size <=? 8192 then delete_arm 4 ptr
  else if ptr_size <=? 16384 then delete_arm 5 ptr
  else delete_arm 6 ptr.

(** ** Fit search *)

(** The loop [for (; ; increment += 1)] of one arm of [find_fit]:
    [base] is the first bucket, [todo] counts the increments left
    before the test [increment == limit] succeeds; after [break]
    the arm returns [*temp], the head just read. *)
Fixpoint fit_loop (asize base increment : Z) (todo : nat) : M Z :=
  h <- get_class (base + increment) ;;
  hit <-
    (if negb (h =? NULL) then
       sz <- GET_SIZE (HDRP h) ;;
       ret (0 <=? i32 (sz - asize))
     else ret false) ;;
  if (hit : bool) then ret h
  else
    match todo with
    | O => ret NULL
    | S todo' => fit_loop asize base (increment + 1) todo'
    end.

Definition find_fit (asize : Z) : M Z :=
  if asize <=? 512 then fit_loop asize 0 0 6
  else if asize <=? 1024 then fit_loop asize 1 0 5
  else if asize <=? 2048 then fit_loop asize 2 0 4
  else if asize <=? 4096 then fit_loop asize 3 0 3
  else if asize <=? 8192 then fit_loop asize 4 0 2
  else if asize <=? 16384 then fit_loop asize 5 0 1
  else
    h <- get_class 6 ;;
    if negb (h =? NULL) then
      sz <- GET_SIZE (HDRP h) ;;
      if 0 <=? i32 (sz - asize) then ret h else ret NULL
    else ret NULL.

(** ** Coalescing, heap extension, placement *)

(** The four cases of [coalesce], given the neighbours' allocated bits
    and the block's size as read at the top of the function. *)
Definition coalesce_cases (bp prev_alloc next_alloc size : Z) : M Z :=
  if negb (prev_alloc =? 0) && negb (next_alloc =? 0) then      (* Case 1 *)
    append_to_class bp (i32 size) ;;;
    ret bp
  else if negb (prev_alloc =? 0) && (next_alloc =? 0) then      (* Case 2 *)
    nx <- NEXT_BLKP bp ;;
    next_size <- GET_SIZE (HDRP nx) ;;
    let size := u32 (size + i32 next_size) in
    delete_from_class bp 0 ;;;
    PUT (HDRP bp) (PACK size 0) ;;;
    f <- FTRP bp ;;
    PUT f (PACK size 0) ;;;
    append_to_class bp (i32 size) ;;;
    ret bp
  else if (prev_alloc =? 0) && negb (next_alloc =? 0) then      (* Case 3 *)
    pv <- PREV_BLKP bp ;;
    prev_size <- GET_SIZE (HDRP pv) ;;
    let size := u32 (size + i32 prev_size) in
    delete_from_class bp 1 ;;;
    f <- FTRP bp ;;
    PUT f (PACK size 0) ;;;
    pv <- PREV_BLKP bp ;;
    PUT (HDRP pv) (PACK size 0) ;;;
    bp' <- PREV_BLKP bp ;;
    append_to_class bp' (i32 size) ;;;
    ret bp'
  else                                                          (* Case 4 *)
    pv <- PREV_BLKP bp ;;
    ps <- GET_SIZE (HDRP pv) ;;
    nx <- NEXT_BLKP bp ;;
    nf <- FTRP nx ;;
    ns <- GET_SIZE nf ;;
    let size := u32 (size + u32 (ps + ns)) in
    delete_from_class bp 1 ;;;
    delete_from_class bp 0 ;;;
    pv <- PREV_BLKP bp ;;
    PUT (HDRP pv) (PACK size 0) ;;;
    nx <- NEXT_BLKP bp ;;
    nf <- FTRP nx ;;
    PUT nf (PACK size 0) ;;;
    bp' <- PREV_BLKP bp ;;
    append_to_class bp' (i32 size) ;;;
    ret bp'.

Definition coalesce (bp : Z) : M Z :=
  pv <- PREV_BLKP bp ;;
  pf <- FTRP pv ;;
  prev_alloc <- GET_ALLOC pf ;;
  nx <- NEXT_BLKP bp ;;
  next_alloc <- GET_ALLOC (HDRP nx) ;;
  size <- GET_SIZE (HDRP bp) ;;
  coalesce_cases bp prev_alloc next_alloc size.

Definition extend_heap (words : Z) : M Z :=
  let size := u32 (if negb (words mod 2 =? 0)
                   then u64 (u64 (words + 1) * WSIZE)
                   else u64 (words * WSIZE)) in
  r <- mem_sbrk (i32 size) ;;
  match r with
  | None => ret NULL
  | Some bp =>
      PUT (HDRP bp) (PACK size 0) ;;;
      f <- FTRP bp ;;
      PUT f (PACK size 0) ;;;
      nx <- NEXT_BLKP bp ;;
      PUT (HDRP nx) (PACK 0 1) ;;;
      coalesce bp
  end.

Definition place (bp asize : Z) : M unit :=
  csize <- GET_SIZE (HDRP bp) ;;
  delete_from_class bp 2 ;;;
  if DSIZE + OVERHEAD <=? u64 (csize - asize) then
    PUT (HDRP bp) (PACK asize 1) ;;;
    f <- FTRP bp ;;
    PUT f (PACK asize 1) ;;;
    bp' <- NEXT_BLKP bp ;;
    PUT (HDRP bp') (PACK (u64 (csize - asize)) 0) ;;;
    f' <- FTRP bp' ;;
    PUT f' (PACK (u64 (csize - asize)) 0) ;;;
    append_to_class bp' (i32 (u64 (csize - asize)))
  else
    PUT (HDRP bp) (PACK csize 1) ;;;
    f <- FTRP bp ;;
    PUT f (PACK csize 1).

(** ** The public operations *)

Definition set_global_ptr_classes (p : Z) : M unit :=
  fun s => Ok tt (set_ptr_classes s p).
Definition set_global_heap_listp (p : Z) : M unit :=
  fun s => Ok tt (set_heap_listp s p).

(** The pointer a call site receives from [mem_sbrk]: the base of the
    bytes granted, or [(void * )-1], the value [extend_heap] tests for,
    when the host refuses. *)
Definition SBRK_FAILED : Z := u64 (-1).
Definition sbrk_ptr (r : option Z) : Z :=
  match r with
  | Some p => p
  | None => SBRK_FAILED
  end.

(** The part of [mm_init] that comes before the call of [extend_heap].
    Its two requests are tested against [NULL].  A host arena does not
    start at address 0, so the base of the bytes granted is not [NULL],
    and neither is [(void * )-1]: both tests fall through, and after a
    refusal the stores go through the failure value. *)
Definition mm_init_before_extend : M Z :=
  r <- mem_sbrk (7 * DSIZE) ;;
  let p := sbrk_ptr r in
  set_global_ptr_classes p ;;;
  set_class 0 NULL ;;;
  set_class 1 NULL ;;;
  set_class 2 NULL ;;;
  set_class 3 NULL ;;;
  set_class 4 NULL ;;;
  set_class 5 NULL ;;;
  r <- mem_sbrk (4 * WSIZE) ;;
  let h := sbrk_ptr r in
  set_global_heap_listp h ;;;
  PUT h 0 ;;;
  PUT (padd h WSIZE) (PACK OVERHEAD 1) ;;;
  PUT (padd h DSIZE) (PACK OVERHEAD 1) ;;;
  PUT (padd (padd h WSIZE) DSIZE) (PACK 0 1) ;;;
  set_global_heap_listp (padd h DSIZE) ;;;
  ret 0.

Definition mm_init : M Z :=
  r <- mm_init_before_extend ;;
  if negb (r =? 0) then ret r
  else
    bp <- extend_heap (CHUNKSIZE / WSIZE) ;;
    if bp =? NULL then ret (-1)
    else
      h <- get_heap_listp ;;
      set_class 6 (padd h 8) ;;;
      c <- get_class 6 ;;
      PUT c 0 ;;;
      c <- get_class 6 ;;
      PUT (padd c 4) 0 ;;;
      ret 0.

Definition mm_malloc (size : Z) : M Z :=
  if size <=? 0 then ret NULL
  else
    let asize :=
      if size <=? DSIZE then DSIZE + OVERHEAD
      else u32 (u64 (DSIZE * (u64 (size + OVERHEAD + (DSIZE - 1)) / DSIZE))) in
    bp <- find_fit asize ;;
    if negb (bp =? NULL) then
      place bp asize ;;; ret bp
    else
      let extendsize := MIN asize CHUNKSIZE in
      bp <- extend_heap (extendsize / WSIZE) ;;
      if bp =? NULL then ret NULL
      else place bp asize ;;; ret bp.

Definition mm_free (bp : Z) : M unit :=
  size <- GET_SIZE (HDRP bp) ;;
  PUT (HDRP bp) (PACK size 0) ;;;
  f <- FTRP bp ;;
  PUT f (PACK size 0) ;;;
  coalesce bp ;;;
  ret tt.

Definition memcpy (dst src n : Z) : M unit :=
  fun s =>
    if valid s dst n && valid s src n
    then Ok tt (log_copy (set_mem s (copy_bytes (mem s) dst src n)) (dst, src, n))
    else Segv.

Definition exit1 {A} : M A := fun _ => Exit1.

Definition mm_realloc (ptr size : Z) : M Z :=
  newp <- mm_malloc size ;;
  if newp =? NULL then exit1
  else
    copySize <- GET_SIZE (HDRP ptr) ;;
    let copySize := if size <? copySize then size else copySize in
    memcpy newp ptr copySize ;;;
    mm_free ptr ;;;
    ret newp.

(** ** Vocabulary of the design document *)

(** Bucket assignment by upper bound, as the data model words it. *)
Definition bucket_of (size : Z) : Z :=
  if size <=? 512 then 0
  else if size <=? 1024 then 1
  else if size <=? 2048 then 2
  else if size <=? 4096 then 3
  else if size <=? 8192 then 4
  else if size <=? 16384 then 5
  else 6.

(** The state a call leaves behind and the value it returns, when it
    returns. *)
Definition after {A} (c : M A) (s : state) : state :=
  match c s with Ok _ s' => s' | _ => s end.
Definition value {A} (c : M A) (s : state) : option A :=
  match c s with Ok a _ => Some a | _ => None end.

(** Decoded fields of a block, read straight from memory. *)
Definition hdr (s : state) (bp : Z) : Z := load32 (mem s) (HDRP bp).
Definition size_of (s : state) (bp : Z) : Z := Z.land (hdr s bp) (u32 (Z.lnot 7)).
Definition alloc_of (s : state) (bp : Z) : Z := Z.land (hdr s bp) 1.
Definition ftr (s : state) (bp : Z) : Z :=
  load32 (mem s) (padd bp (u32 (size_of s bp - DSIZE))).
Definition pred_offset (s : state) (bp : Z) : Z := i32 (load32 (mem s) bp).
Definition succ_offset (s : state) (bp : Z) : Z := i32 (load32 (mem s) (bp + 4)).
Definition bucket_head (s : state) (k : Z) : Z := load64 (mem s) (ptr_classes s + 8 * k).

(** A host arena of 20 MiB at address 4096 whose bytes are all zero,
    and the allocator states of the scenarios below. *)
Definition fresh : state := boot (fun _ => 0) 4096 (4096 + 20 * 1048576).
Definition initialised : state := after mm_init fresh.

(** After [a = allocate(16)] on the initialised heap. *)
Definition one_small_block : state := after (mm_malloc 16) initialised.

(** After [allocate(65528)], which takes the whole initial chunk. *)
Definition chunk_taken : state := after (mm_malloc 65528) initialised.

(** A host arena like [fresh], except that the eight bytes which become
    class-table slot 6 hold the stale address [g]. *)
Definition stale (g : Z) : state :=
  boot (store64 (fun _ => 0) (4096 + 48) g) 4096 (4096 + 20 * 1048576).

(** After [a = allocate(4294967295)] on the initialised heap: the
    adjusted size of the request does not fit the 32-bit [asize] of
    [mm_malloc].  Then after [b = allocate(16)], and after [free(a)]. *)
Definition wrapped_taken : state := after (mm_malloc 4294967295) initialised.
Definition wrapped_pair : state := after (mm_malloc 16) wrapped_taken.
Definition wrapped_freed : state := after (mm_free 4168) wrapped_pair.

(** ** The heap as the design document describes it *)

Definition b2z (a : bool) : Z := if a then 1 else 0.

(** The blocks between prologue and epilogue, in address order, each
    with its size and its allocated flag. *)
Definition layout := list (Z * bool).

Fixpoint total (bl : layout) : Z :=
  match bl with
  | [] => 0
  | (sz, _) :: r => sz + total r
  end.

(** The block with payload [bp] carries matching boundary tags for
    [(sz, a)]. *)
Definition tagged (m : memory) (bp sz : Z) (a : bool) : Prop :=
  16 <= sz /\ sz mod 8 = 0 /\
  load32 m (bp - 4) = sz + b2z a /\ load32 m (bp + sz - 8) = sz + b2z a.

Fixpoint tiles (m : memory) (bp : Z) (bl : layout) : Prop :=
  match bl with
  | [] => True
  | (sz, a) :: r => tagged m bp sz a /\ tiles m (bp + sz) r
  end.

(** The blocks of a layout with their payload addresses. *)
Fixpoint cells (bp : Z) (bl : layout) : list (Z * Z * bool) :=
  match bl with
  | [] => []
  | (sz, a) :: r => (bp, sz, a) :: cells (bp + sz) r
  end.

Fixpoint adjacent_free (bl : layout) : bool :=
  match bl with
  | [] => false
  | (_, a) :: r =>
      (negb a && match r with (_, a') :: _ => negb a' | [] => false end)
      || adjacent_free r
  end.

(** A free list laid out in memory: each member's [succ] offset leads
    to the next member, whose [pred] offset leads back; the last
    member's [succ] word is zero.  Nothing is said about the [pred]
    word of the first member. *)
Fixpoint chain (m : memory) (l : list Z) : Prop :=
  match l with
  | [] => True
  | x :: r =>
      match r with
      | [] => load32 m (x + 4) = 0
      | y :: _ =>
          i32 (load32 m (x + 4)) = y - x /\ load32 m (x + 4) <> 0 /\
          i32 (load32 m y) = x - y /\ chain m r
      end
  end.

(** [Rep s bl fl]: the memory of [s] holds the class table, the
    prologue, the blocks [bl] and the epilogue, and bucket [k] is the
    list [fl k] of free blocks of [bl]. *)
Record Rep (s : state) (bl : layout) (fl : Z -> list Z) : Prop := mkRep {
  rep_lo : 0 <= mem_lo s;
  rep_hi : mem_hi s <= 2 ^ 62;
  rep_span : mem_hi s - mem_lo s < 2 ^ 31;
  rep_table : ptr_classes s = mem_lo s;
  rep_listp : heap_listp s = mem_lo s + 64;
  rep_brk : mem_brk s = mem_lo s + 72 + total bl;
  rep_room : mem_brk s <= mem_hi s;
  rep_prologue : load32 (mem s) (mem_lo s + 60) = 9 /\ load32 (mem s) (mem_lo s + 64) = 9;
  rep_epilogue : load32 (mem s) (mem_brk s - 4) = 1;
  rep_tiles : tiles (mem s) (mem_lo s + 72) bl;
  rep_heads : forall k, 0 <= k <= 6 -> load64 (mem s) (mem_lo s + 8 * k) = hd NULL (fl k);
  rep_chain : forall k, 0 <= k <= 6 -> chain (mem s) (fl k);
  rep_nodup : forall k, 0 <= k <= 6 -> NoDup (fl k);
  rep_sound : forall k x, 0 <= k <= 6 -> In x (fl k) ->
              exists sz, In (x, sz, false) (cells (mem_lo s + 72) bl) /\ bucket_of sz = k
}.

(** [Heap s bl fl]: in addition every free block is on the list of its
    bucket and no two neighbours are both free. *)
Record Heap (s : state) (bl : layout) (fl : Z -> list Z) : Prop := mkHeap {
  heap_rep : Rep s bl fl;
  heap_complete : forall x sz, In (x, sz, false) (cells (mem_lo s + 72) bl) ->
                  In x (fl (bucket_of sz));
  heap_merged : adjacent_free bl = false
}.

(** Replacing the list of one bucket. *)
Definition upd (fl : Z -> list Z) (k : Z) (l : list Z) : Z -> list Z :=
  fun j => if j =? k then l else fl j.


(** [chain] split into its two halves: the links between neighbours,
    and the zero [succ] word of the last member. *)
Fixpoint links (m : memory) (l : list Z) : Prop :=
  match l with
  | [] => True
  | x :: r =>
      match r with
      | [] => True
      | y :: _ =>
          i32 (load32 m (x + 4)) = y - x /\ load32 m (x + 4) <> 0 /\
          i32 (load32 m y) = x - y /\ links m r
      end
  end.

Definition ended (m : memory) (l : list Z) : Prop :=
  match l with
  | [] => True
  | x :: r => load32 m (last r x + 4) = 0
  end.

(** Whether the last (first) block of a layout is free. *)
Fixpoint last_free (bl : layout) : bool :=
  match bl with
  | [] => false
  | (_, a) :: r =>
      match r with
      | [] => negb a
      | _ :: _ => last_free r
      end
  end.

Definition first_free (bl : layout) : bool :=
  match bl with
  | (_, a) :: _ => negb a
  | [] => false
  end.


(** Writing matching tags [(sz, a)] on the block at [x]. *)
Definition retag (m : memory) (x sz : Z) (a : bool) : memory :=
  store32 (store32 m (x - 4) (sz + b2z a)) (x + sz - 8) (sz + b2z a).

(** What [place] makes of a free block of [csz] bytes. *)
Definition placed (csz asize : Z) : layout :=
  if 16 <=? csz - asize then [(asize, true); (csz - asize, false)] else [(csz, true)].

(** Boundary-tag coalescing on layouts: a free last block of [l1] and
    a free first block of [l2] are absorbed into the block between
    them. *)
Fixpoint take_last_free (l : layout) : layout * Z :=
  match l with
  | [] => ([], 0)
  | (sz, a) :: r =>
      match r with
      | [] => if a then ([(sz, a)], 0) else ([], sz)
      | _ :: _ => let (r', p) := take_last_free r in ((sz, a) :: r', p)
      end
  end.

Definition take_first_free (l : layout) : layout * Z :=
  match l with
  | (sz, false) :: r => (r, sz)
  | _ => (l, 0)
  end.

Definition coalesced (l1 : layout) (sz : Z) (l2 : layout) : layout :=
  fst (take_last_free l1)
  ++ (snd (take_last_free l1) + sz + snd (take_first_free l2), false)
  :: fst (take_first_free l2).

(** A heap in which the free block between [l1] and [l2] has just been
    created and is not yet on any list. *)
Record Pending (s : state) (l1 : layout) (sz : Z) (l2 : layout) (fl : Z -> list Z) : Prop :=
  mkPending {
  pend_rep : Rep s (l1 ++ (sz, false) :: l2) fl;
  pend_out : forall k, 0 <= k <= 6 -> ~ In (mem_lo s + 72 + total l1) (fl k);
  pend_complete : forall x sz', In (x, sz', false) (cells (mem_lo s + 72) (l1 ++ (sz, false) :: l2)) ->
                    x <> mem_lo s + 72 + total l1 -> In x (fl (bucket_of sz'));
  pend_left : adjacent_free l1 = false;
  pend_right : adjacent_free l2 = false
}.


(** Fit search as the design document words it: examine the head of
    bucket [k]; if it exists and fits, return it; otherwise move to the
    next bucket, up to bucket [k + n]; if no head fits, none. *)
Fixpoint scan_heads (s : state) (fits : Z -> bool) (k : Z) (n : nat) : Z :=
  let h := bucket_head s k in
  if negb (h =? NULL) && fits h then h
  else
    match n with
    | O => NULL
    | S n' => scan_heads s fits (k + 1) n'
    end.

Definition first_fit (s : state) (asize : Z) : Z :=
  scan_heads s (fun h => asize <=? size_of s h)
             (bucket_of asize) (Z.to_nat (6 - bucket_of asize)).

(** The comparison the code makes: [(int)(GET_SIZE(...) - asize) >= 0]. *)
Definition code_fits (s : state) (asize h : Z) : bool :=
  0 <=? i32 (size_of s h - asize).

(** Only [memcpy] touches the copy log. *)
Definition keeps_log {A} (c : M A) : Prop :=
  forall s a s', c s = Ok a s' -> copies s' = copies s.


(** The adjusted block size of a request, as the design document
    states it: 16 for requests of at most 8 bytes, otherwise the request
    plus 8 bytes of overhead, rounded up to a multiple of 8. *)
Definition roundup8 (n : Z) : Z := 8 * ((n + 7) / 8).
Definition adjusted (size : Z) : Z := if size <=? 8 then 16 else roundup8 (size + 8).


(** The memory [mm_init] leaves behind before it extends the heap:
    class-table slots 0 to 5 cleared, padding, prologue and epilogue
    written. *)
Definition init_mem (m : memory) (lo : Z) : memory :=
  let m := store64 m lo NULL in
  let m := store64 m (lo + 8) NULL in
  let m := store64 m (lo + 16) NULL in
  let m := store64 m (lo + 24) NULL in
  let m := store64 m (lo + 32) NULL in
  let m := store64 m (lo + 40) NULL in
  let m := store32 m (lo + 56) 0 in
  let m := store32 m (lo + 60) 9 in
  let m := store32 m (lo + 64) 9 in
  store32 m (lo + 68) 1.


(** ** Quiescent states of runs within the allocator's limits *)

(** The walk over the heap: it starts at the prologue, and the size in
    each block's header leads to the next block, until the zero-sized
    epilogue. *)
Inductive block_at (s : state) : Z -> Prop :=
| block_first : block_at s (heap_listp s)
| block_next b : block_at s b -> 0 < size_of s b -> block_at s (b + size_of s b).

(** A payload the client holds: an allocated block of the walk other
    than the prologue. *)
Definition live (s : state) (p : Z) : Prop :=
  block_at s p /\ p <> heap_listp s /\ 0 < size_of s p /\ alloc_of s p = 1.

(** The client stores a byte into memory. *)
Definition poke (s : state) (a v : Z) : state :=
  set_mem s (fun x => if x =? a then v else mem s x).

(** The states between public calls of a run that stays within these
    limits: [mm_init] has returned 0 on a host arena of less than 2 GiB
    that is fresh, that is, the eight bytes that become slot 6 of the
    class table are zero; requests stay below [2^32 - 15] bytes, so
    that the 32-bit adjusted size does not wrap; the client frees and
    reallocates only payloads it holds, and writes only inside them.
    States outside these limits (a stale slot 6, a request that wraps, a
    second release) are the subject of separate statements. *)
Inductive reachable : state -> Prop :=
| reach_init m lo hi s :
    0 <= lo -> hi <= 2 ^ 62 -> hi - lo < 2 ^ 31 ->
    load64 m (lo + 6 * DSIZE) = NULL ->
    mm_init (boot m lo hi) = Ok 0 s -> reachable s
| reach_malloc s size p s' :
    reachable s -> 0 <= size -> size + 15 < 2 ^ 32 ->
    mm_malloc size s = Ok p s' -> reachable s'
| reach_free s p s' :
    reachable s -> live s p -> mm_free p s = Ok tt s' -> reachable s'
| reach_realloc s p size q s' :
    reachable s -> live s p -> 0 < size -> size + 15 < 2 ^ 32 ->
    mm_realloc p size s = Ok q s' -> reachable s'
| reach_poke s p a v :
    reachable s -> live s p -> p <= a < p + size_of s p - DSIZE ->
    reachable (poke s a v).

(** The neighbours [coalesce] looks at, and the block it produces. *)
Definition prev_blk (s : state) (bp : Z) : Z :=
  bp - Z.land (load32 (mem s) (bp - DSIZE)) (u32 (Z.lnot 7)).
Definition next_blk (s : state) (bp : Z) : Z := bp + size_of s bp.
Definition prev_free (s : state) (bp : Z) : bool := alloc_of s (prev_blk s bp) =? 0.
Definition next_free (s : state) (bp : Z) : bool := alloc_of s (next_blk s bp) =? 0.
Definition merged_start (s : state) (bp : Z) : Z :=
  if prev_free s bp then prev_blk s bp else bp.
Definition merged_size (s : state) (bp : Z) (size : Z) : Z :=
  (if prev_free s bp then size_of s (prev_blk s bp) else 0)
  + size
  + (if next_free s bp then size_of s (next_blk s bp) else 0).


(** ** Executable checks and the scenarios of the design document *)

(** [walk_to s n b p]: the walk from block [b] reaches [p] within [n]
    steps. *)
Fixpoint walk_to (s : state) (n : nat) (b p : Z) : bool :=
  if b =? p then true
  else
    match n with
    | O => false
    | S n' => (0 <? size_of s b) && walk_to s n' (b + size_of s b) p
    end.

Definition live_check (s : state) (p : Z) : bool :=
  walk_to s 64 (heap_listp s) p && negb (p =? heap_listp s)
  && (0 <? size_of s p) && (alloc_of s p =? 1).

(** The members of a free list, following [succ] offsets from [x]. *)
Fixpoint list_from (s : state) (n : nat) (x : Z) : list Z :=
  match n with
  | O => []
  | S n' =>
      x :: (if succ_offset s x =? 0 then [] else list_from s n' (x + succ_offset s x))
  end.

Definition bucket_list (s : state) (k : Z) : list Z :=
  if bucket_head s k =? NULL then [] else list_from s 64 (bucket_head s k).

(** [n] requests of [size] bytes in a row, and the payloads returned. *)
Fixpoint allocate_n (n : nat) (size : Z) (s : state) : state :=
  match n with
  | O => s
  | S n' => after (mm_malloc size) (allocate_n n' size s)
  end.


Definition free_all (ps : list Z) (s : state) : state :=
  fold_left (fun s p => after (mm_free p) s) ps s.

(** Scenario 2: ten blocks [a0..a9] of 1000 bytes; then [a0], [a2],
    [a4], [a6] and [a8] are freed, in that order. *)
Definition ten_blocks : state := allocate_n 10 1000 initialised.
Definition five_freed : state := free_all [4168; 6184; 8200; 10216; 12232] ten_blocks.

(** One more request of 1000 bytes takes the head of bucket 1. *)
Definition head_reused : state := after (mm_malloc 1000) five_freed.


(** Bucket 1 holds a 600-byte block at its head and a 1000-byte block
    behind it: blocks of 1000, 24, 600 and 24 bytes are allocated, then
    the first and the third are freed. *)
Definition deep_fit : state :=
  free_all [4168; 5192]
    (after (mm_malloc 16) (after (mm_malloc 592)
       (after (mm_malloc 16) (after (mm_malloc 992) initialised)))).


(** ** What the operations never change *)

(** [steady c]: when [c] returns, the arena bounds and the two globals
    are what they were, and the break has not been lowered. *)
Definition steady {A} (c : M A) : Prop :=
  forall s a s', c s = Ok a s' ->
    mem_lo s' = mem_lo s /\ mem_hi s' = mem_hi s /\
    heap_listp s' = heap_listp s /\ ptr_classes s' = ptr_classes s /\
    mem_brk s <= mem_brk s'.


(** ** The heap checker *)

(** The lines [mm_checkheap] prints. *)
Inductive message : Set :=
| HeapLine (p : Z)                              (* Heap (%p): *)
| BlockLine (bp hsize halloc fsize falloc : Z)  (* %p: header: [%d:%c] footer: [%d:%c] *)
| EOLLine (bp : Z)                              (* %p: EOL *)
| NotAligned (bp : Z)                           (* Error: %p is not doubleword aligned *)
| TagMismatch                                   (* Error: header does not match footer *)
| BadPrologue                                   (* Bad prologue header *)
| BadEpilogue.                                  (* Bad epilogue header *)

(** [printblock] reads both tags before it looks at the size. *)
Definition printblock (bp : Z) : M (list message) :=
  hsize <- GET_SIZE (HDRP bp) ;;
  halloc <- GET_ALLOC (HDRP bp) ;;
  f <- FTRP bp ;;
  fsize <- GET_SIZE f ;;
  f' <- FTRP bp ;;
  falloc <- GET_ALLOC f' ;;
  if hsize =? 0 then ret [EOLLine bp]
  else ret [BlockLine bp hsize halloc fsize falloc].

(** [(uint32_t)bp % 8], then [GET(HDRP(bp)) != GET(FTRP(bp))]. *)
Definition checkblock (bp : Z) : M (list message) :=
  h <- GET (HDRP bp) ;;
  f <- FTRP bp ;;
  w <- GET f ;;
  ret ((if negb (u32 bp mod 8 =? 0) then [NotAligned bp] else [])
       ++ (if negb (h =? w) then [TagMismatch] else [])).

(** The loop [for (bp = heap_listp; GET_SIZE(HDRP(bp)) > 0;
    bp = NEXT_BLKP(bp))]: it returns the block at which it stops and
    the lines printed on the way.  [fuel] bounds the number of
    iterations; [None] means that the bound was reached. *)
Fixpoint checkheap_loop (fuel : nat) (verbose bp : Z) : M (option (Z * list message)) :=
  sz <- GET_SIZE (HDRP bp) ;;
  if 0 <? sz then
    match fuel with
    | O => ret None
    | S n =>
        o1 <- (if negb (verbose =? 0) then printblock bp else ret []) ;;
        o2 <- checkblock bp ;;
        nx <- NEXT_BLKP bp ;;
        r <- checkheap_loop n verbose nx ;;
        ret (match r with
             | Some (e, o) => Some (e, o1 ++ o2 ++ o)
             | None => None
             end)
    end
  else ret (Some (bp, [])).

Definition mm_checkheap (fuel : nat) (verbose : Z) : M (option (list message)) :=
  h <- get_heap_listp ;;
  sz <- GET_SIZE (HDRP h) ;;
  o1 <- (if negb (sz =? DSIZE) then ret [BadPrologue]
         else al <- GET_ALLOC (HDRP h) ;; ret (if al =? 0 then [BadPrologue] else [])) ;;
  o2 <- checkblock h ;;
  r <- checkheap_loop fuel verbose h ;;
  match r with
  | None => ret None
  | Some (bp, o3) =>
      o4 <- (if negb (verbose =? 0) then printblock bp else ret []) ;;
      sz' <- GET_SIZE (HDRP bp) ;;
      o5 <- (if negb (sz' =? 0) then ret [BadEpilogue]
             else al <- GET_ALLOC (HDRP bp) ;; ret (if al =? 0 then [BadEpilogue] else [])) ;;
      ret (Some ((if negb (verbose =? 0) then [HeapLine h] else [])
                 ++ o1 ++ o2 ++ o3 ++ o4 ++ o5))
  end.

(** The blocks the walk reaches from [a]. *)
Inductive walk (s : state) (a : Z) : Z -> Prop :=
| walk_here : walk s a a
| walk_next b : walk s a b -> 0 < size_of s b -> walk s a (b + size_of s b).


(** [keeps_payloads s bl m']: in the payload of every allocated block
    of [bl], the memory [m'] holds what the memory of [s] holds. *)
Definition keeps_payloads (s : state) (bl : layout) (m' : memory) : Prop :=
  forall x sz a, In (x, sz, true) (cells (mem_lo s + 72) bl) ->
                 x <= a < x + sz - 8 -> m' a = mem s a.


(** The size of the allocated block [place] makes of a free block of
    [csz] bytes: the request when the remainder can stand as a block
    of its own, the whole block otherwise. *)
Definition placed_size (csz asize : Z) : Z :=
  if 16 <=? csz - asize then asize else csz.


(** Ten blocks of 1000 bytes, the first of them freed. *)
Definition first_freed : state := after (mm_free 4168) ten_blocks.


(** [preserves R c]: when [c] returns, the states before and after are
    related by [R]. *)
Definition preserves {A} (R : state -> state -> Prop) (c : M A) : Prop :=
  forall s a s', c s = Ok a s' -> R s s'.

(** Nothing changed; the break did not move. *)
Definition unchanged (s s' : state) : Prop := s' = s.
Definition same_brk (s s' : state) : Prop := mem_brk s' = mem_brk s.


(** Going from member to member by the [succ] offsets alone, the way
    [SUCC] does; the [succ] word of the last member is not read. *)
Fixpoint succ_path (m : memory) (l : list Z) : Prop :=
  match l with
  | [] => True
  | x :: r =>
      match r with
      | [] => True
      | y :: _ =>
          load32 m (x + 4) <> 0 /\ i32 (load32 m (x + 4)) = y - x /\ succ_path m r
      end
  end.


(** * Properties *)

(** ** Machine integers *)

Lemma u32_range x : 0 <= u32 x < 2 ^ 32.
Proof. unfold u32. apply Z.mod_pos_bound. reflexivity. Qed.

Lemma u64_range x : 0 <= u64 x < 2 ^ 64.
Proof. unfold u64. apply Z.mod_pos_bound. reflexivity. Qed.

Lemma u32_small x : 0 <= x < 2 ^ 32 -> u32 x = x.
Proof. intros. unfold u32. apply Z.mod_small. assumption. Qed.

Lemma u64_small x : 0 <= x < 2 ^ 64 -> u64 x = x.
Proof. intros. unfold u64. apply Z.mod_small. assumption. Qed.

Lemma padd_small p d : 0 <= p + d < 2 ^ 64 -> padd p d = p + d.
Proof. intros. unfold padd. apply u64_small. assumption. Qed.

Lemma i32_small x : - 2 ^ 31 <= x < 2 ^ 31 -> i32 x = x.
Proof.
  intros. unfold i32. rewrite Z.mod_small; lia.
Qed.

Lemma i32_u32 x : i32 (u32 x) = i32 x.
Proof.
  unfold i32, u32. f_equal.
  rewrite Zplus_mod_idemp_l. reflexivity.
Qed.

Lemma u32_i32 x : u32 (i32 x) = u32 x.
Proof.
  unfold i32, u32.
  rewrite <- Zminus_mod_idemp_l.
  rewrite Z.mod_mod by lia.
  rewrite Zminus_mod_idemp_l. f_equal. lia.
Qed.

(** ** Memory *)

Lemma byte_sum v :
  (v / 2 ^ (8 * 0)) mod 256 + 2 ^ 8 * ((v / 2 ^ (8 * 1)) mod 256)
  + 2 ^ 16 * ((v / 2 ^ (8 * 2)) mod 256) + 2 ^ 24 * ((v / 2 ^ (8 * 3)) mod 256)
  = v mod 2 ^ 32.
Proof.
  change (2 ^ (8 * 0)) with 1. change (2 ^ (8 * 1)) with 256.
  change (2 ^ (8 * 2)) with (256 * 256). change (2 ^ (8 * 3)) with (256 * 256 * 256).
  rewrite Z.div_1_r.
  rewrite <- !Z.div_div by lia.
  pose proof (Z.div_mod v 256 ltac:(lia)) as H0.
  pose proof (Z.div_mod (v / 256) 256 ltac:(lia)) as H1.
  pose proof (Z.div_mod (v / 256 / 256) 256 ltac:(lia)) as H2.
  pose proof (Z.div_mod (v / 256 / 256 / 256) 256 ltac:(lia)) as H3.
  pose proof (Z.mod_pos_bound v 256 ltac:(lia)).
  pose proof (Z.mod_pos_bound (v / 256) 256 ltac:(lia)).
  pose proof (Z.mod_pos_bound (v / 256 / 256) 256 ltac:(lia)).
  pose proof (Z.mod_pos_bound (v / 256 / 256 / 256) 256 ltac:(lia)).
  apply Z.mod_unique with (q := v / 256 / 256 / 256 / 256); lia.
Qed.

Lemma byte_of_range v i : 0 <= byte_of v i < 256.
Proof. unfold byte_of. apply Z.mod_pos_bound. reflexivity. Qed.

Lemma load32_range m p : 0 <= load32 m p < 2 ^ 32.
Proof.
  unfold load32.
  pose proof (Z.mod_pos_bound (m p) 256 ltac:(lia)).
  pose proof (Z.mod_pos_bound (m (p + 1)) 256 ltac:(lia)).
  pose proof (Z.mod_pos_bound (m (p + 2)) 256 ltac:(lia)).
  pose proof (Z.mod_pos_bound (m (p + 3)) 256 ltac:(lia)).
  lia.
Qed.

Lemma load32_store32_same m p v : load32 (store32 m p v) p = u32 v.
Proof.
  unfold load32, store32, u32.
  replace ((p <=? p) && (p <? p + 4)) with true
    by (symmetry; apply andb_true_iff; split; [apply Z.leb_le | apply Z.ltb_lt]; lia).
  replace ((p <=? p + 1) && (p + 1 <? p + 4)) with true
    by (symmetry; apply andb_true_iff; split; [apply Z.leb_le | apply Z.ltb_lt]; lia).
  replace ((p <=? p + 2) && (p + 2 <? p + 4)) with true
    by (symmetry; apply andb_true_iff; split; [apply Z.leb_le | apply Z.ltb_lt]; lia).
  replace ((p <=? p + 3) && (p + 3 <? p + 4)) with true
    by (symmetry; apply andb_true_iff; split; [apply Z.leb_le | apply Z.ltb_lt]; lia).
  replace (p - p) with 0 by lia. replace (p + 1 - p) with 1 by lia.
  replace (p + 2 - p) with 2 by lia. replace (p + 3 - p) with 3 by lia.
  unfold byte_of. rewrite !Z.mod_mod by lia.
  apply byte_sum.
Qed.

Lemma store32_other m p v a : a < p \/ p + 4 <= a -> store32 m p v a = m a.
Proof.
  intros H. unfold store32.
  destruct (p <=? a) eqn:E1; destruct (a <? p + 4) eqn:E2; simpl; try reflexivity.
  apply Z.leb_le in E1. apply Z.ltb_lt in E2. lia.
Qed.

Lemma load32_store32_other m p v q :
  q + 4 <= p \/ p + 4 <= q -> load32 (store32 m p v) q = load32 m q.
Proof.
  intros H. unfold load32. rewrite !store32_other by lia. reflexivity.
Qed.

Lemma load64_range m p : 0 <= load64 m p < 2 ^ 64.
Proof.
  unfold load64. pose proof (load32_range m p). pose proof (load32_range m (p + 4)).
  lia.
Qed.

Lemma load64_store32_other m p v q :
  q + 8 <= p \/ p + 4 <= q -> load64 (store32 m p v) q = load64 m q.
Proof.
  intros H. unfold load64. rewrite !load32_store32_other by lia. reflexivity.
Qed.

Lemma load32_store64_other m p v q :
  q + 4 <= p \/ p + 8 <= q -> load32 (store64 m p v) q = load32 m q.
Proof.
  intros H. unfold store64. rewrite !load32_store32_other by lia. reflexivity.
Qed.

Lemma load64_store64_other m p v q :
  q + 8 <= p \/ p + 8 <= q -> load64 (store64 m p v) q = load64 m q.
Proof.
  intros H. unfold store64. rewrite !load64_store32_other by lia. reflexivity.
Qed.

Lemma load64_store64_same m p v : 0 <= v < 2 ^ 64 -> load64 (store64 m p v) p = v.
Proof.
  intros H. unfold load64, store64.
  rewrite load32_store32_same.
  rewrite load32_store32_other by lia.
  rewrite load32_store32_same.
  unfold u32.
  pose proof (Z.div_mod v (2 ^ 32) ltac:(lia)).
  rewrite (Z.mod_small (v / 2 ^ 32)).
  - lia.
  - split.
    + apply Z.div_pos; lia.
    + apply Z.div_lt_upper_bound; lia.
Qed.

(** ** Running the monad *)

Lemma bind_Ok {A B} (c : M A) (k : A -> M B) s a s' :
  c s = Ok a s' -> bind c k s = k a s'.
Proof. intros H. unfold bind. rewrite H. reflexivity. Qed.

Lemma bind_inv {A B} (c : M A) (k : A -> M B) s b s'' :
  bind c k s = Ok b s'' -> exists a s', c s = Ok a s' /\ k a s' = Ok b s''.
Proof.
  unfold bind. destruct (c s) as [a s'| |]; try discriminate.
  intros H. exists a, s'. split; [reflexivity | assumption].
Qed.

Lemma bind_Segv {A B} (c : M A) (k : A -> M B) s :
  c s = Segv -> bind c k s = Segv.
Proof. intros H. unfold bind. rewrite H. reflexivity. Qed.

Lemma valid_intro s p n : mem_lo s <= p -> p + n <= mem_hi s -> valid s p n = true.
Proof.
  intros. unfold valid. apply andb_true_iff. split; apply Z.leb_le; assumption.
Qed.

Lemma valid_elim s p n : valid s p n = true -> mem_lo s <= p /\ p + n <= mem_hi s.
Proof.
  unfold valid. intros H. apply andb_true_iff in H. destruct H as [H1 H2].
  apply Z.leb_le in H1. apply Z.leb_le in H2. split; assumption.
Qed.

Lemma GET_ok s p :
  mem_lo s <= p -> p + 4 <= mem_hi s -> GET p s = Ok (load32 (mem s) p) s.
Proof. intros. unfold GET. rewrite valid_intro by assumption. reflexivity. Qed.

Lemma GET_I_ok s p :
  mem_lo s <= p -> p + 4 <= mem_hi s -> GET_I p s = Ok (i32 (load32 (mem s) p)) s.
Proof. intros. unfold GET_I. rewrite valid_intro by assumption. reflexivity. Qed.

Lemma PUT_ok s p v :
  mem_lo s <= p -> p + 4 <= mem_hi s ->
  PUT p v s = Ok tt (set_mem s (store32 (mem s) p v)).
Proof. intros. unfold PUT. rewrite valid_intro by assumption. reflexivity. Qed.

Lemma GETP_ok s p :
  mem_lo s <= p -> p + 8 <= mem_hi s -> GETP p s = Ok (load64 (mem s) p) s.
Proof. intros. unfold GETP. rewrite valid_intro by assumption. reflexivity. Qed.

Lemma PUTP_ok s p v :
  mem_lo s <= p -> p + 8 <= mem_hi s ->
  PUTP p v s = Ok tt (set_mem s (store64 (mem s) p v)).
Proof. intros. unfold PUTP. rewrite valid_intro by assumption. reflexivity. Qed.

Lemma GET_SIZE_ok s p :
  mem_lo s <= p -> p + 4 <= mem_hi s ->
  GET_SIZE p s = Ok (Z.land (load32 (mem s) p) (u32 (Z.lnot 7))) s.
Proof. intros. unfold GET_SIZE. rewrite (bind_Ok _ _ _ _ _ (GET_ok s p H H0)). reflexivity. Qed.

Lemma GET_ALLOC_ok s p :
  mem_lo s <= p -> p + 4 <= mem_hi s ->
  GET_ALLOC p s = Ok (Z.land (load32 (mem s) p) 1) s.
Proof. intros. unfold GET_ALLOC. rewrite (bind_Ok _ _ _ _ _ (GET_ok s p H H0)). reflexivity. Qed.

Lemma get_class_ok s k :
  0 <= ptr_classes s + 8 * k < 2 ^ 64 ->
  mem_lo s <= ptr_classes s + 8 * k -> ptr_classes s + 8 * k + 8 <= mem_hi s ->
  get_class k s = Ok (bucket_head s k) s.
Proof.
  intros. unfold get_class, class_slot, get_ptr_classes, bind, ret, DSIZE.
  rewrite padd_small by assumption. apply GETP_ok; assumption.
Qed.

Lemma set_class_ok s k v :
  0 <= ptr_classes s + 8 * k < 2 ^ 64 ->
  mem_lo s <= ptr_classes s + 8 * k -> ptr_classes s + 8 * k + 8 <= mem_hi s ->
  set_class k v s = Ok tt (set_mem s (store64 (mem s) (ptr_classes s + 8 * k) v)).
Proof.
  intros. unfold set_class, class_slot, get_ptr_classes, bind, ret, DSIZE.
  rewrite padd_small by assumption. apply PUTP_ok; assumption.
Qed.

(** The seven-way cascades select the arm of [bucket_of]. *)
Lemma append_to_class_arm bp size : append_to_class bp size = append_arm (bucket_of size) bp.
Proof.
  unfold append_to_class, bucket_of.
  repeat match goal with |- context [if ?c then _ else _] => destruct c end; reflexivity.
Qed.

Lemma bucket_of_range size : 0 <= bucket_of size <= 6.
Proof.
  unfold bucket_of.
  repeat match goal with |- context [if ?c then _ else _] => destruct c end; lia.
Qed.

(** ** [append_to_class], run on an arbitrary state *)

Ltac proj := cbn [mem mem_lo mem_hi mem_brk heap_listp ptr_classes copies set_mem set_brk
                  set_heap_listp set_ptr_classes log_copy fst snd] in *.

Lemma set_mem_set_mem s m1 m2 : set_mem (set_mem s m1) m2 = set_mem s m2.
Proof. reflexivity. Qed.

Lemma bucket_head_set_mem s m' k :
  bucket_head (set_mem s m') k = load64 m' (ptr_classes s + 8 * k).
Proof. reflexivity. Qed.

Section Append.
Variables (s : state) (k bp slot h : Z).
Hypothesis slot_def : slot = ptr_classes s + 8 * k.
Hypothesis h_def : h = bucket_head s k.
Hypothesis slot_range : 0 <= slot /\ slot + 8 <= 2 ^ 64.
Hypothesis slot_valid : mem_lo s <= slot /\ slot + 8 <= mem_hi s.
Hypothesis bp_range : 0 <= bp /\ bp + 8 <= 2 ^ 64.
Hypothesis bp_valid : mem_lo s <= bp /\ bp + 8 <= mem_hi s.
Hypothesis bp_slot : slot + 8 <= bp \/ bp + 8 <= slot.

Lemma append_arm_empty :
  h = NULL ->
  append_arm k bp s =
  Ok tt (set_mem s (store64 (store32 (store32 (mem s) bp 0) (bp + 4) 0) slot bp)).
Proof.
  intros Hh. unfold append_arm.
  erewrite bind_Ok by (apply PUT_ok; lia).
  erewrite bind_Ok by (apply get_class_ok; proj; lia).
  rewrite bucket_head_set_mem, <- slot_def.
  rewrite load64_store32_other by lia.
  replace (load64 (mem s) slot) with h by (rewrite h_def, slot_def; reflexivity).
  rewrite Hh. cbn [Z.eqb negb NULL].
  rewrite padd_small by lia.
  erewrite bind_Ok by (apply PUT_ok; proj; lia).
  rewrite set_class_ok by (proj; lia).
  proj. rewrite <- slot_def. reflexivity.
Qed.

Lemma append_arm_nonempty :
  h <> NULL ->
  mem_lo s <= h /\ h + 4 <= mem_hi s ->
  slot + 8 <= h \/ h + 4 <= slot ->
  append_arm k bp s =
  Ok tt (set_mem s (store64 (store32 (store32 (store32 (mem s) bp 0) (bp + 4) (h - bp))
                                     h (bp - h)) slot bp)).
Proof.
  intros Hh Hv Hd. unfold append_arm.
  assert (E : load64 (mem s) slot = h) by (rewrite h_def, slot_def; reflexivity).
  erewrite bind_Ok by (apply PUT_ok; lia).
  erewrite bind_Ok by (apply get_class_ok; proj; lia).
  rewrite bucket_head_set_mem, <- slot_def.
  rewrite load64_store32_other by lia. rewrite E.
  replace (h =? NULL) with false by (symmetry; apply Z.eqb_neq; assumption).
  cbn [negb]. rewrite padd_small by lia.
  erewrite bind_Ok.
  2:{ erewrite bind_Ok by (apply PUT_ok; proj; lia).
      erewrite bind_Ok by (apply get_class_ok; proj; lia).
      rewrite !set_mem_set_mem, bucket_head_set_mem, <- slot_def. proj.
      rewrite !load64_store32_other by lia. rewrite E.
      apply PUT_ok; proj; lia. }
  rewrite set_class_ok by (proj; lia).
  proj. rewrite <- slot_def. reflexivity.
Qed.
End Append.

(** ** Only [memcpy] writes the copy log *)

Lemma keeps_ret {A} (a : A) : keeps_log (ret a).
Proof. intros s a' s' H. inversion H. reflexivity. Qed.

Lemma keeps_bind {A B} (c : M A) (k : A -> M B) :
  keeps_log c -> (forall a, keeps_log (k a)) -> keeps_log (bind c k).
Proof.
  intros Hc Hk s b s'' H. apply bind_inv in H. destruct H as (a & s' & H1 & H2).
  rewrite (Hk a _ _ _ H2). apply (Hc _ _ _ H1).
Qed.

Lemma keeps_if {A} (b : bool) (c1 c2 : M A) :
  keeps_log c1 -> keeps_log c2 -> keeps_log (if b then c1 else c2).
Proof. destruct b; auto. Qed.

Lemma keeps_GET p : keeps_log (GET p).
Proof. intros s a s'. unfold GET. destruct (valid s p 4); intros H; inversion H. reflexivity. Qed.
Lemma keeps_GET_I p : keeps_log (GET_I p).
Proof. intros s a s'. unfold GET_I. destruct (valid s p 4); intros H; inversion H. reflexivity. Qed.
Lemma keeps_PUT p v : keeps_log (PUT p v).
Proof. intros s a s'. unfold PUT. destruct (valid s p 4); intros H; inversion H. reflexivity. Qed.
Lemma keeps_GETP p : keeps_log (GETP p).
Proof. intros s a s'. unfold GETP. destruct (valid s p 8); intros H; inversion H. reflexivity. Qed.
Lemma keeps_PUTP p v : keeps_log (PUTP p v).
Proof. intros s a s'. unfold PUTP. destruct (valid s p 8); intros H; inversion H. reflexivity. Qed.
Lemma keeps_get_ptr_classes : keeps_log get_ptr_classes.
Proof. intros s a s' H. inversion H. reflexivity. Qed.
Lemma keeps_get_heap_listp : keeps_log get_heap_listp.
Proof. intros s a s' H. inversion H. reflexivity. Qed.
Lemma keeps_mem_sbrk n : keeps_log (mem_sbrk n).
Proof.
  intros s a s'. unfold mem_sbrk.
  destruct ((n <? 0) || (mem_hi s <? mem_brk s + n)); intros H; inversion H; reflexivity.
Qed.

Create HintDb keeps.
#[local] Hint Resolve keeps_ret keeps_GET keeps_GET_I keeps_PUT keeps_GETP keeps_PUTP
  keeps_get_ptr_classes keeps_get_heap_listp keeps_mem_sbrk : keeps.

Ltac keeps :=
  repeat first
    [ apply keeps_bind; [ | intros ]
    | apply keeps_if
    | match goal with |- keeps_log (match ?x with _ => _ end) => destruct x end
    | solve [ auto with keeps ] ].

Lemma keeps_GET_SIZE p : keeps_log (GET_SIZE p).
Proof. unfold GET_SIZE. keeps. Qed.
Lemma keeps_GET_ALLOC p : keeps_log (GET_ALLOC p).
Proof. unfold GET_ALLOC. keeps. Qed.
#[local] Hint Resolve keeps_GET_SIZE keeps_GET_ALLOC : keeps.
Lemma keeps_FTRP p : keeps_log (FTRP p).
Proof. unfold FTRP. keeps. Qed.
Lemma keeps_NEXT_BLKP p : keeps_log (NEXT_BLKP p).
Proof. unfold NEXT_BLKP. keeps. Qed.
Lemma keeps_PREV_BLKP p : keeps_log (PREV_BLKP p).
Proof. unfold PREV_BLKP. keeps. Qed.
Lemma keeps_SUCC p : keeps_log (SUCC p).
Proof. unfold SUCC. keeps. Qed.
Lemma keeps_PRED p : keeps_log (PRED p).
Proof. unfold PRED. keeps. Qed.
Lemma keeps_get_class k : keeps_log (get_class k).
Proof. unfold get_class, class_slot. keeps. Qed.
Lemma keeps_set_class k v : keeps_log (set_class k v).
Proof. unfold set_class, class_slot. keeps. Qed.
#[local] Hint Resolve keeps_FTRP keeps_NEXT_BLKP keeps_PREV_BLKP keeps_SUCC keeps_PRED
  keeps_get_class keeps_set_class : keeps.
Lemma keeps_append_arm k bp : keeps_log (append_arm k bp).
Proof. unfold append_arm. keeps. Qed.
Lemma keeps_delete_arm k bp : keeps_log (delete_arm k bp).
Proof. unfold delete_arm. keeps. Qed.
#[local] Hint Resolve keeps_append_arm keeps_delete_arm : keeps.
Lemma keeps_append_to_class bp size : keeps_log (append_to_class bp size).
Proof. unfold append_to_class. keeps. Qed.
Lemma keeps_delete_from_class bp prev : keeps_log (delete_from_class bp prev).
Proof. unfold delete_from_class. keeps. Qed.
#[local] Hint Resolve keeps_append_to_class keeps_delete_from_class : keeps.
Lemma keeps_fit_loop asize base todo : forall increment,
  keeps_log (fit_loop asize base increment todo).
Proof. induction todo; intros; cbn [fit_loop]; keeps. Qed.
#[local] Hint Resolve keeps_fit_loop : keeps.
Lemma keeps_find_fit asize : keeps_log (find_fit asize).
Proof. unfold find_fit. keeps. Qed.
Lemma keeps_coalesce bp : keeps_log (coalesce bp).
Proof. unfold coalesce, coalesce_cases. keeps. Qed.
#[local] Hint Resolve keeps_find_fit keeps_coalesce : keeps.
Lemma keeps_extend_heap words : keeps_log (extend_heap words).
Proof. unfold extend_heap. keeps. Qed.
Lemma keeps_place bp asize : keeps_log (place bp asize).
Proof. unfold place. keeps. Qed.
#[local] Hint Resolve keeps_extend_heap keeps_place : keeps.
Lemma keeps_mm_malloc size : keeps_log (mm_malloc size).
Proof. unfold mm_malloc. keeps. Qed.
Lemma keeps_mm_free bp : keeps_log (mm_free bp).
Proof. unfold mm_free. keeps. Qed.

Lemma value_after {A} (c : M A) s a : value c s = Some a -> c s = Ok a (after c s).
Proof.
  unfold value, after. destruct (c s); intros H; inversion H. reflexivity.
Qed.

(** ** Layouts *)

Lemma load32_agree m m' p :
  (forall a, p <= a < p + 4 -> m' a = m a) -> load32 m' p = load32 m p.
Proof.
  intros H. unfold load32. rewrite !H by lia. reflexivity.
Qed.

Lemma load64_agree m m' p :
  (forall a, p <= a < p + 8 -> m' a = m a) -> load64 m' p = load64 m p.
Proof.
  intros H. unfold load64. rewrite !(load32_agree m m'); [reflexivity| |]; intros; apply H; lia.
Qed.

Lemma total_app l1 l2 : total (l1 ++ l2) = total l1 + total l2.
Proof.
  induction l1 as [|[sz a] l1 IH]; cbn [total app]; [reflexivity|]. rewrite IH. lia.
Qed.

Lemma tiles_total m bl : forall bp, tiles m bp bl -> 0 <= total bl.
Proof.
  induction bl as [|[sz a] r IH]; cbn [tiles total]; intros bp H; [lia|].
  destruct H as [[H16 _] Hr]. specialize (IH _ Hr). lia.
Qed.

Lemma tiles_app m l1 l2 : forall bp,
  tiles m bp (l1 ++ l2) <-> tiles m bp l1 /\ tiles m (bp + total l1) l2.
Proof.
  induction l1 as [|[sz a] l1 IH]; cbn [tiles total app]; intros bp.
  - replace (bp + 0) with bp by lia. tauto.
  - rewrite IH. replace (bp + sz + total l1) with (bp + (sz + total l1)) by lia. tauto.
Qed.

Lemma cells_app l1 l2 : forall bp,
  cells bp (l1 ++ l2) = cells bp l1 ++ cells (bp + total l1) l2.
Proof.
  induction l1 as [|[sz a] l1 IH]; cbn [cells total app]; intros bp.
  - replace (bp + 0) with bp by lia. reflexivity.
  - rewrite IH.
    replace (bp + sz + total l1) with (bp + (sz + total l1)) by lia. reflexivity.
Qed.

Lemma tagged_agree m m' bp sz a :
  (forall x, bp - 4 <= x < bp + sz - 4 -> m' x = m x) ->
  tagged m bp sz a -> tagged m' bp sz a.
Proof.
  intros H (H1 & H2 & H3 & H4). unfold tagged.
  rewrite !(load32_agree m m'); [tauto| |]; intros; apply H; lia.
Qed.

Lemma tiles_agree m m' bl : forall bp,
  (forall x, bp - 4 <= x < bp + total bl - 4 -> m' x = m x) ->
  tiles m bp bl -> tiles m' bp bl.
Proof.
  induction bl as [|[sz a] r IH]; cbn [tiles total]; intros bp H Ht; [exact I|].
  destruct Ht as [Hg Hr]. pose proof (tiles_total _ _ _ Hr). pose proof Hg as [H16 _].
  split.
  - apply (tagged_agree m); [|assumption]. intros; apply H; lia.
  - apply IH; [|assumption]. intros; apply H; lia.
Qed.

(** Where the blocks of a tiled layout lie. *)
Lemma cells_inside m bl : forall bp x sz a,
  tiles m bp bl -> In (x, sz, a) (cells bp bl) ->
  bp <= x /\ x + sz <= bp + total bl /\ tagged m x sz a.
Proof.
  induction bl as [|[s0 a0] r IH]; cbn [tiles cells total]; intros bp x sz a Ht Hin; [contradiction|].
  destruct Ht as [Hg Hr]. pose proof (tiles_total _ _ _ Hr). pose proof Hg as [H16 _].
  destruct Hin as [Hin|Hin].
  - inversion Hin; subst. split; [lia|]. split; [lia|]. assumption.
  - specialize (IH _ _ _ _ Hr Hin). destruct IH as (? & ? & ?).
    split; [lia|]. split; [lia|]. assumption.
Qed.

Lemma cells_split bl : forall bp x sz a,
  In (x, sz, a) (cells bp bl) ->
  exists l1 l2, bl = l1 ++ (sz, a) :: l2 /\ x = bp + total l1.
Proof.
  induction bl as [|[s0 a0] r IH]; cbn [cells]; intros bp x sz a Hin; [contradiction|].
  destruct Hin as [Hin|Hin].
  - inversion Hin; subst. exists [], r. split; [reflexivity|]. cbn [total]. lia.
  - destruct (IH _ _ _ _ Hin) as (l1 & l2 & E & Ex).
    exists ((s0, a0) :: l1), l2. subst r. split; [reflexivity|]. cbn [total]. lia.
Qed.

Lemma cells_middle l1 sz a l2 bp :
  In (bp + total l1, sz, a) (cells bp (l1 ++ (sz, a) :: l2)).
Proof.
  rewrite cells_app. apply in_or_app. right. left. reflexivity.
Qed.

(** Two blocks of a tiled layout are the same block or do not
    overlap. *)
Lemma cells_apart m bl : forall bp x sz a y sz' a',
  tiles m bp bl -> In (x, sz, a) (cells bp bl) -> In (y, sz', a') (cells bp bl) ->
  (x = y /\ sz = sz' /\ a = a') \/ x + sz <= y \/ y + sz' <= x.
Proof.
  induction bl as [|[s0 a0] r IH]; cbn [tiles cells]; intros bp x sz a y sz' a' Ht Hx Hy;
    [contradiction|].
  destruct Ht as [Hg Hr]. pose proof Hg as [H16 _].
  destruct Hx as [Hx|Hx], Hy as [Hy|Hy].
  - inversion Hx; inversion Hy; subst. left. repeat split; reflexivity.
  - inversion Hx; subst.
    destruct (cells_inside _ _ _ _ _ _ Hr Hy) as (? & ? & ?). right. left. lia.
  - inversion Hy; subst.
    destruct (cells_inside _ _ _ _ _ _ Hr Hx) as (? & ? & ?). right. right. lia.
  - apply (IH _ _ _ _ _ _ _ Hr Hx Hy).
Qed.

(** Tiling only reads the boundary tags. *)
Lemma tiles_agree_tags m m' bl : forall bp,
  (forall x sz a, In (x, sz, a) (cells bp bl) ->
     load32 m' (x - 4) = load32 m (x - 4) /\
     load32 m' (x + sz - 8) = load32 m (x + sz - 8)) ->
  tiles m bp bl -> tiles m' bp bl.
Proof.
  induction bl as [|[sz a] r IH]; cbn [tiles cells]; intros bp H Ht; [exact I|].
  destruct Ht as [(H1 & H2 & H3 & H4) Hr]. split.
  - destruct (H bp sz a (or_introl eq_refl)) as [E1 E2].
    unfold tagged. rewrite E1, E2. tauto.
  - apply IH; [|assumption]. intros x s0 a0 Hin. apply (H x s0 a0). right. assumption.
Qed.

(** ** Free lists in memory *)

Lemma last_cons (y : Z) r : forall x, last (y :: r) x = last r y.
Proof.
  revert y. induction r as [|z r IH]; intros y x; [reflexivity|].
  change (last (y :: z :: r) x) with (last (z :: r) x).
  rewrite !IH. reflexivity.
Qed.

Lemma chain_links_ended m l : chain m l <-> links m l /\ ended m l.
Proof.
  induction l as [|x r IH]; cbn [chain links ended]; [tauto|].
  destruct r as [|y r']; [cbn [last]; tauto|].
  rewrite IH. rewrite last_cons. cbn [ended]. tauto.
Qed.

Lemma links_app m l1 x r :
  links m (l1 ++ x :: r) <-> links m (l1 ++ [x]) /\ links m (x :: r).
Proof.
  induction l1 as [|a l1 IH]; cbn [app].
  - cbn [links]. tauto.
  - destruct l1 as [|b l1']; cbn [app] in *.
    + cbn [links]. tauto.
    + change (links m (a :: b :: l1' ++ x :: r)) with
        (i32 (load32 m (a + 4)) = b - a /\ load32 m (a + 4) <> 0 /\
         i32 (load32 m b) = a - b /\ links m (b :: l1' ++ x :: r)).
      change (links m (a :: b :: l1' ++ [x])) with
        (i32 (load32 m (a + 4)) = b - a /\ load32 m (a + 4) <> 0 /\
         i32 (load32 m b) = a - b /\ links m (b :: l1' ++ [x])).
      rewrite IH. tauto.
Qed.

(** [links m (x :: r)] reads the [succ] word of [x] and both words of
    every member of [r]. *)
Lemma links_agree m m' r : forall x,
  (forall a, x + 4 <= a < x + 8 -> m' a = m a) ->
  (forall y, In y r -> forall a, y <= a < y + 8 -> m' a = m a) ->
  links m (x :: r) -> links m' (x :: r).
Proof.
  induction r as [|y r IH]; intros x Hx Hr H; [exact I|].
  change (i32 (load32 m (x + 4)) = y - x /\ load32 m (x + 4) <> 0 /\
          i32 (load32 m y) = x - y /\ links m (y :: r)) in H.
  change (i32 (load32 m' (x + 4)) = y - x /\ load32 m' (x + 4) <> 0 /\
          i32 (load32 m' y) = x - y /\ links m' (y :: r)).
  destruct H as (H1 & H2 & H3 & H4).
  rewrite (load32_agree m m' (x + 4)) by (intros; apply Hx; lia).
  rewrite (load32_agree m m' y) by (intros; apply (Hr y); [left; reflexivity | lia]).
  repeat split; try assumption.
  apply IH; try assumption.
  - intros; apply (Hr y); [left; reflexivity | lia].
  - intros z Hz; apply Hr. right. assumption.
Qed.

Lemma links_agree_all m m' l :
  (forall y, In y l -> forall a, y <= a < y + 8 -> m' a = m a) ->
  links m l -> links m' l.
Proof.
  destruct l as [|x r]; intros H Hl; [exact I|].
  apply (links_agree m); try assumption.
  - intros; apply (H x); [left; reflexivity | lia].
  - intros y Hy; apply H. right. assumption.
Qed.

Lemma ended_agree m m' l :
  (forall y, In y l -> forall a, y + 4 <= a < y + 8 -> m' a = m a) ->
  ended m l -> ended m' l.
Proof.
  destruct l as [|x r]; cbn [ended]; intros H He; [exact I|].
  rewrite (load32_agree m m'); [assumption|].
  intros a Ha. apply (H (last r x)); [|lia].
  clear. revert x. induction r as [|y r IH]; intros x.
  - left. reflexivity.
  - right. rewrite last_cons. apply IH.
Qed.

Lemma chain_agree m m' l :
  (forall y, In y l -> forall a, y <= a < y + 8 -> m' a = m a) ->
  chain m l -> chain m' l.
Proof.
  intros H. rewrite !chain_links_ended. intros [Hl He]. split.
  - apply (links_agree_all m); assumption.
  - apply (ended_agree m); [|assumption]. intros; apply (H y); [assumption | lia].
Qed.

Lemma ended_app m l x : ended m (l ++ [x]) <-> load32 m (x + 4) = 0.
Proof.
  destruct l as [|a l]; cbn [app ended last]; [tauto|].
  rewrite last_last. tauto.
Qed.

Lemma ended_app_cons m l x r : ended m (l ++ x :: r) <-> ended m (x :: r).
Proof.
  destruct l as [|a l]; cbn [app ended]; [tauto|].
  replace (last (l ++ x :: r) a) with (last r x); [tauto|].
  clear. revert a. induction l as [|b l IH]; intros a; cbn [app].
  - rewrite last_cons. reflexivity.
  - rewrite last_cons. apply IH.
Qed.

(** ** What a represented heap guarantees *)

Section RepFacts.
Variables (s : state) (bl : layout) (fl : Z -> list Z).
Hypothesis HR : Rep s bl fl.

Lemma cell_bounds x sz a :
  In (x, sz, a) (cells (mem_lo s + 72) bl) ->
  mem_lo s + 72 <= x /\ x + sz <= mem_brk s /\ tagged (mem s) x sz a.
Proof.
  intros Hin. destruct (cells_inside _ _ _ _ _ _ (rep_tiles _ _ _ HR) Hin) as (H1 & H2 & H3).
  rewrite (rep_brk _ _ _ HR). split; [lia|]. split; [lia|]. assumption.
Qed.

Lemma member_cell k x :
  0 <= k <= 6 -> In x (fl k) ->
  exists sz, In (x, sz, false) (cells (mem_lo s + 72) bl) /\ bucket_of sz = k /\
             mem_lo s + 72 <= x /\ x + sz <= mem_brk s /\ 16 <= sz.
Proof.
  intros Hk Hin. destruct (rep_sound _ _ _ HR k x Hk Hin) as (sz & Hc & Hb).
  destruct (cell_bounds _ _ _ Hc) as (H1 & H2 & H3 & _).
  exists sz. repeat split; assumption.
Qed.

Lemma free_cells_apart x sz y sz' a a' :
  In (x, sz, a) (cells (mem_lo s + 72) bl) ->
  In (y, sz', a') (cells (mem_lo s + 72) bl) ->
  x <> y -> x + sz <= y \/ y + sz' <= x.
Proof.
  intros Hx Hy Hne.
  destruct (cells_apart _ _ _ _ _ _ _ _ _ (rep_tiles _ _ _ HR) Hx Hy) as [(E & _)|H];
    [contradiction | assumption].
Qed.

Lemma cell_size_unique x sz sz' a a' :
  In (x, sz, a) (cells (mem_lo s + 72) bl) ->
  In (x, sz', a') (cells (mem_lo s + 72) bl) ->
  sz = sz' /\ a = a'.
Proof.
  intros Hx Hy.
  destruct (cells_apart _ _ _ _ _ _ _ _ _ (rep_tiles _ _ _ HR) Hx Hy) as [(_ & E)|H];
    [assumption|].
  destruct (cell_bounds _ _ _ Hx) as (_ & _ & H16 & _).
  destruct (cell_bounds _ _ _ Hy) as (_ & _ & H16' & _). lia.
Qed.

Lemma members_apart k j x y :
  0 <= k <= 6 -> 0 <= j <= 6 -> In x (fl k) -> In y (fl j) -> x <> y ->
  x + 16 <= y \/ y + 16 <= x.
Proof.
  intros Hk Hj Hx Hy Hne.
  destruct (member_cell _ _ Hk Hx) as (sz & Hcx & _ & _ & _ & Hsz).
  destruct (member_cell _ _ Hj Hy) as (sz' & Hcy & _ & _ & _ & Hsz').
  destruct (free_cells_apart _ _ _ _ _ _ Hcx Hcy Hne); lia.
Qed.

Lemma member_bucket k j x :
  0 <= k <= 6 -> 0 <= j <= 6 -> In x (fl k) -> In x (fl j) -> k = j.
Proof.
  intros Hk Hj Hx Hy.
  destruct (member_cell _ _ Hk Hx) as (sz & Hcx & Hb & _).
  destruct (member_cell _ _ Hj Hy) as (sz' & Hcy & Hb' & _).
  destruct (cell_size_unique _ _ _ _ _ Hcx Hcy) as [E _]. subst sz'. congruence.
Qed.

End RepFacts.

Lemma upd_same fl k l : upd fl k l k = l.
Proof. unfold upd. rewrite Z.eqb_refl. reflexivity. Qed.

Lemma upd_other fl k l j : j <> k -> upd fl k l j = fl j.
Proof. intros H. unfold upd. apply Z.eqb_neq in H. rewrite H. reflexivity. Qed.

(** Rewriting one bucket.  If the memory changes only in slot [k] and
    in the link words of blocks that are on list [k] before or after,
    and the new list is laid out properly, the heap is represented
    again, with list [k] replaced. *)
Lemma Rep_update_list s bl fl k l' m' :
  Rep s bl fl -> 0 <= k <= 6 ->
  (forall a, ~ (mem_lo s + 8 * k <= a < mem_lo s + 8 * k + 8) ->
             (forall y, In y (fl k) \/ In y l' -> ~ (y <= a < y + 8)) ->
             m' a = mem s a) ->
  load64 m' (mem_lo s + 8 * k) = hd NULL l' ->
  chain m' l' ->
  NoDup l' ->
  (forall y, In y l' -> exists sz, In (y, sz, false) (cells (mem_lo s + 72) bl) /\
                                   bucket_of sz = k) ->
  Rep (set_mem s m') bl (upd fl k l').
Proof.
  intros HR Hk F Hhd Hch Hnd Hsnd.
  assert (Hfoot : forall y, In y (fl k) \/ In y l' ->
            exists sz, In (y, sz, false) (cells (mem_lo s + 72) bl) /\ bucket_of sz = k).
  { intros y [Hy|Hy]; [|apply Hsnd; assumption].
    destruct (member_cell _ _ _ HR k y Hk Hy) as (sz & ? & ? & _). exists sz. tauto. }
  assert (Hlow : forall a, a < mem_lo s + 72 ->
            ~ (mem_lo s + 8 * k <= a < mem_lo s + 8 * k + 8) -> m' a = mem s a).
  { intros a Ha Hs. apply F; [assumption|]. intros y Hy.
    destruct (Hfoot y Hy) as (sz & Hc & _).
    destruct (cell_bounds _ _ _ HR _ _ _ Hc) as (? & _). lia. }
  assert (Htag : forall x sz a b, In (x, sz, a) (cells (mem_lo s + 72) bl) ->
            x - 4 <= b < x \/ x + sz - 8 <= b < x + sz - 4 -> m' b = mem s b).
  { intros x sz a b Hc Hb.
    destruct (cell_bounds _ _ _ HR _ _ _ Hc) as (Hx1 & Hx2 & Hx3 & _).
    apply F; [lia|]. intros y Hy.
    destruct (Hfoot y Hy) as (szy & Hcy & _).
    destruct (cell_bounds _ _ _ HR _ _ _ Hcy) as (Hy1 & Hy2 & Hy3 & _).
    destruct (Z.eq_dec x y) as [E|Hne].
    - subst y. destruct (cell_size_unique _ _ _ HR _ _ _ _ _ Hc Hcy) as [E _]. subst szy. lia.
    - destruct (free_cells_apart _ _ _ HR _ _ _ _ _ _ Hc Hcy Hne); lia. }
  pose proof (rep_brk _ _ _ HR) as Hbrk.
  constructor; proj; try apply HR.
  - destruct (rep_prologue _ _ _ HR) as [P1 P2].
    rewrite !(load32_agree (mem s) m'); [split; assumption| |]; intros; apply Hlow; lia.
  - rewrite (load32_agree (mem s) m'); [apply HR|].
    intros a Ha. apply F.
    + pose proof (tiles_total _ _ _ (rep_tiles _ _ _ HR)). lia.
    + intros y Hy. destruct (Hfoot y Hy) as (szy & Hcy & _).
      destruct (cell_bounds _ _ _ HR _ _ _ Hcy) as (Hy1 & Hy2 & Hy3 & _). lia.
  - apply (tiles_agree_tags (mem s)); [|apply HR].
    intros x sz a Hc. split; apply load32_agree; intros b Hb;
      apply (Htag x sz a b Hc); lia.
  - intros j Hj. destruct (Z.eq_dec j k) as [E|Hne].
    + subst j. rewrite upd_same. assumption.
    + rewrite upd_other by assumption. rewrite <- (rep_heads _ _ _ HR j Hj).
      apply load64_agree. intros a Ha. apply Hlow; lia.
  - intros j Hj. destruct (Z.eq_dec j k) as [E|Hne].
    + subst j. rewrite upd_same. assumption.
    + rewrite upd_other by assumption.
      apply (chain_agree (mem s)); [|apply HR; assumption].
      intros z Hz a Ha.
      destruct (member_cell _ _ _ HR j z Hj Hz) as (szz & Hcz & Hbz & Hz1 & Hz2 & Hz3).
      apply F; [lia|]. intros y Hy.
      destruct (Hfoot y Hy) as (szy & Hcy & Hby).
      destruct (cell_bounds _ _ _ HR _ _ _ Hcy) as (Hy1 & Hy2 & Hy3 & _).
      destruct (Z.eq_dec z y) as [E|Hzy].
      * subst y. destruct (cell_size_unique _ _ _ HR _ _ _ _ _ Hcz Hcy) as [E _].
        subst szy. congruence.
      * destruct (free_cells_apart _ _ _ HR _ _ _ _ _ _ Hcz Hcy Hzy); lia.
  - intros j Hj. destruct (Z.eq_dec j k) as [E|Hne].
    + subst j. rewrite upd_same. assumption.
    + rewrite upd_other by assumption. apply HR; assumption.
  - intros j x Hj Hx. destruct (Z.eq_dec j k) as [E|Hne].
    + subst j. rewrite upd_same in Hx. apply Hsnd. assumption.
    + rewrite upd_other in Hx by assumption. apply (rep_sound _ _ _ HR); assumption.
Qed.

(** The same update leaves the payloads of the allocated blocks
    alone. *)
Lemma Rep_update_list_full s bl fl k l' m' :
  Rep s bl fl -> 0 <= k <= 6 ->
  (forall a, ~ (mem_lo s + 8 * k <= a < mem_lo s + 8 * k + 8) ->
             (forall y, In y (fl k) \/ In y l' -> ~ (y <= a < y + 8)) ->
             m' a = mem s a) ->
  load64 m' (mem_lo s + 8 * k) = hd NULL l' ->
  chain m' l' ->
  NoDup l' ->
  (forall y, In y l' -> exists sz, In (y, sz, false) (cells (mem_lo s + 72) bl) /\
                                   bucket_of sz = k) ->
  Rep (set_mem s m') bl (upd fl k l') /\ keeps_payloads s bl m'.
Proof.
  intros HR Hk F Hhd Hch Hnd Hsnd.
  split; [apply Rep_update_list; assumption|].
  intros x sz a Hc Ha.
  destruct (cell_bounds _ _ _ HR _ _ _ Hc) as (Hx1 & Hx2 & Hx3 & _).
  apply F; [lia|]. intros y Hy.
  assert (Hfoot : exists szy, In (y, szy, false) (cells (mem_lo s + 72) bl)).
  { destruct Hy as [Hy|Hy].
    - destruct (member_cell _ _ _ HR k y Hk Hy) as (szy & ? & _). exists szy. assumption.
    - destruct (Hsnd y Hy) as (szy & ? & _). exists szy. assumption. }
  destruct Hfoot as (szy & Hcy).
  destruct (cell_bounds _ _ _ HR _ _ _ Hcy) as (Hy1 & Hy2 & Hy3 & _).
  destruct (cells_apart _ _ _ _ _ _ _ _ _ (rep_tiles _ _ _ HR) Hc Hcy) as [(_ & _ & E)|D];
    [discriminate | lia].
Qed.

Lemma store64_other m p v a : a < p \/ p + 8 <= a -> store64 m p v a = m a.
Proof.
  intros H. unfold store64. rewrite !store32_other by lia. reflexivity.
Qed.

Lemma i32_u32_small x : - 2 ^ 31 <= x < 2 ^ 31 -> i32 (u32 x) = x.
Proof. intros H. rewrite i32_u32. apply i32_small. assumption. Qed.

Lemma u32_nonzero x : - 2 ^ 31 <= x < 2 ^ 31 -> x <> 0 -> u32 x <> 0.
Proof.
  intros H Hx E. apply Hx. rewrite <- (i32_u32_small x H). rewrite E. reflexivity.
Qed.

Lemma SUCC_ok s x :
  mem_lo s <= x + 4 -> x + 8 <= mem_hi s -> 0 <= x -> x + 4 < 2 ^ 64 ->
  SUCC x s = Ok (padd x (i32 (load32 (mem s) (x + 4)))) s.
Proof.
  intros. unfold SUCC, WSIZE. rewrite padd_small by lia.
  erewrite bind_Ok by (apply GET_I_ok; lia). reflexivity.
Qed.

Lemma PRED_ok s x :
  mem_lo s <= x -> x + 4 <= mem_hi s ->
  PRED x s = Ok (padd x (i32 (load32 (mem s) x))) s.
Proof.
  intros. unfold PRED.
  erewrite bind_Ok by (apply GET_I_ok; lia). reflexivity.
Qed.

Lemma links_snoc_agree m m' l : forall p,
  (forall y, In y l -> forall a, y <= a < y + 8 -> m' a = m a) ->
  (forall a, p <= a < p + 4 -> m' a = m a) ->
  links m (l ++ [p]) -> links m' (l ++ [p]).
Proof.
  induction l as [|x l IH]; intros p Hl Hp H; [exact I|].
  destruct l as [|y l'].
  - cbn [app links] in *. destruct H as (H1 & H2 & H3 & _).
    rewrite (load32_agree m m' (x + 4))
      by (intros; apply (Hl x); [left; reflexivity | lia]).
    rewrite (load32_agree m m' p) by assumption. tauto.
  - change (i32 (load32 m (x + 4)) = y - x /\ load32 m (x + 4) <> 0 /\
            i32 (load32 m y) = x - y /\ links m ((y :: l') ++ [p])) in H.
    change (i32 (load32 m' (x + 4)) = y - x /\ load32 m' (x + 4) <> 0 /\
            i32 (load32 m' y) = x - y /\ links m' ((y :: l') ++ [p])).
    destruct H as (H1 & H2 & H3 & H4).
    rewrite (load32_agree m m' (x + 4))
      by (intros; apply (Hl x); [left; reflexivity | lia]).
    rewrite (load32_agree m m' y)
      by (intros; apply (Hl y); [right; left; reflexivity | lia]).
    repeat split; try assumption.
    apply IH; try assumption. intros z Hz. apply Hl. right. assumption.
Qed.

Lemma hd_app_cons (d p : Z) l t : hd d (l ++ p :: t) = hd d (l ++ [p]).
Proof. destruct l; reflexivity. Qed.

Lemma NoDup_hd_not (d x p : Z) l r : NoDup (l ++ p :: x :: r) -> hd d (l ++ p :: x :: r) <> x.
Proof.
  intros H. destruct l as [|a l]; cbn [app hd] in *.
  - inversion H as [|? ? Hn _]; subst. intros E. subst. apply Hn. left. reflexivity.
  - inversion H as [|? ? Hn _]; subst. intros E. subst. apply Hn.
    apply in_or_app. right. right. left. reflexivity.
Qed.

(** ** [delete_from_class] on a represented heap *)

Section Delete.
Variables (s : state) (bl : layout) (fl : Z -> list Z) (k : Z).
Hypothesis HR : Rep s bl fl.
Hypothesis Hk : 0 <= k <= 6.

Lemma member_valid y :
  In y (fl k) ->
  mem_lo s + 72 <= y /\ y + 16 <= mem_brk s /\ mem_brk s <= mem_hi s /\
  0 <= mem_lo s /\ mem_hi s <= 2 ^ 62 /\ mem_hi s - mem_lo s < 2 ^ 31.
Proof.
  intros Hy. destruct (member_cell _ _ _ HR k y Hk Hy) as (sz & _ & _ & ? & ? & ?).
  pose proof (rep_room _ _ _ HR). pose proof (rep_lo _ _ _ HR).
  pose proof (rep_hi _ _ _ HR). pose proof (rep_span _ _ _ HR). lia.
Qed.

Lemma get_class_Rep : get_class k s = Ok (hd NULL (fl k)) s.
Proof.
  pose proof (rep_room _ _ _ HR). pose proof (rep_lo _ _ _ HR).
  pose proof (rep_hi _ _ _ HR). pose proof (rep_brk _ _ _ HR).
  pose proof (tiles_total _ _ _ (rep_tiles _ _ _ HR)).
  rewrite get_class_ok; rewrite ?(rep_table _ _ _ HR); try lia.
  unfold bucket_head. rewrite (rep_table _ _ _ HR), (rep_heads _ _ _ HR k Hk). reflexivity.
Qed.

Lemma set_class_Rep v :
  set_class k v s = Ok tt (set_mem s (store64 (mem s) (mem_lo s + 8 * k) v)).
Proof.
  pose proof (rep_room _ _ _ HR). pose proof (rep_lo _ _ _ HR).
  pose proof (rep_hi _ _ _ HR). pose proof (rep_brk _ _ _ HR).
  pose proof (tiles_total _ _ _ (rep_tiles _ _ _ HR)).
  rewrite set_class_ok; rewrite ?(rep_table _ _ _ HR); try lia. reflexivity.
Qed.

(** Removing the head. *)
Lemma delete_arm_head_full x r :
  fl k = x :: r ->
  exists m', delete_arm k x s = Ok tt (set_mem s m') /\
             Rep (set_mem s m') bl (upd fl k r) /\
             keeps_payloads s bl m'.
Proof.
  intros E.
  assert (Hx : In x (fl k)) by (rewrite E; left; reflexivity).
  destruct (member_valid x Hx) as (V1 & V2 & V3 & V4 & V5 & V6).
  pose proof (rep_chain _ _ _ HR k Hk) as Hch. rewrite E in Hch.
  pose proof (rep_nodup _ _ _ HR k Hk) as Hnd. rewrite E in Hnd.
  unfold delete_arm.
  rewrite (bind_Ok _ _ _ _ _ get_class_Rep). rewrite E. cbn [hd].
  rewrite Z.eqb_refl.
  rewrite padd_small by lia.
  erewrite bind_Ok by (apply GET_ok; lia).
  destruct r as [|y r'].
  - cbn [chain] in Hch. rewrite Hch. cbn [Z.eqb].
    rewrite set_class_Rep. eexists. split; [reflexivity|].
    apply Rep_update_list_full; try assumption.
    + intros a Ha _. apply store64_other. lia.
    + apply load64_store64_same. unfold NULL. cbn [hd]. lia.
    + exact I.
    + constructor.
    + intros y [].
  - change (i32 (load32 (mem s) (x + 4)) = y - x /\ load32 (mem s) (x + 4) <> 0 /\
            i32 (load32 (mem s) y) = x - y /\ chain (mem s) (y :: r')) in Hch.
    destruct Hch as (C1 & C2 & C3 & C4).
    assert (Hy : In y (fl k)) by (rewrite E; right; left; reflexivity).
    destruct (member_valid y Hy) as (W1 & W2 & _).
    replace (load32 (mem s) (x + 4) =? 0) with false by (symmetry; apply Z.eqb_neq; assumption).
    erewrite bind_Ok by (apply SUCC_ok; lia).
    rewrite C1, padd_small by lia. replace (x + (y - x)) with y by lia.
    rewrite set_class_Rep. eexists. split; [reflexivity|].
    apply Rep_update_list_full; try assumption.
    + intros a Ha _. apply store64_other. lia.
    + apply load64_store64_same. cbn [hd]. lia.
    + apply (chain_agree (mem s)); [|assumption].
      intros z Hz a Ha. apply store64_other.
      assert (Hz' : In z (fl k)) by (rewrite E; right; assumption).
      destruct (member_valid z Hz') as (? & _). lia.
    + inversion Hnd; assumption.
    + intros z Hz. assert (Hz' : In z (fl k)) by (rewrite E; right; assumption).
      destruct (member_cell _ _ _ HR k z Hk Hz') as (sz & ? & ? & _). exists sz. tauto.
Qed.

Lemma delete_arm_head x r :
  fl k = x :: r ->
  exists m', delete_arm k x s = Ok tt (set_mem s m') /\
             Rep (set_mem s m') bl (upd fl k r).
Proof.
  intros E. destruct (delete_arm_head_full x r E) as (m' & R & H & _).
  exists m'. split; assumption.
Qed.

Lemma members_sep y z :
  In y (fl k) -> In z (fl k) -> y <> z -> y + 16 <= z \/ z + 16 <= y.
Proof. intros. apply (members_apart _ _ _ HR k k); assumption. Qed.

(** Removing the last member, which has a predecessor. *)
Lemma delete_arm_last_full l1 p x :
  fl k = l1 ++ [p; x] ->
  exists m', delete_arm k x s = Ok tt (set_mem s m') /\
             Rep (set_mem s m') bl (upd fl k (l1 ++ [p])) /\
             keeps_payloads s bl m'.
Proof.
  intros E.
  assert (Hx : In x (fl k)) by (rewrite E; apply in_or_app; right; right; left; reflexivity).
  assert (Hp : In p (fl k)) by (rewrite E; apply in_or_app; right; left; reflexivity).
  assert (Hl1 : forall y, In y l1 -> In y (fl k))
    by (intros; rewrite E; apply in_or_app; left; assumption).
  destruct (member_valid x Hx) as (V1 & V2 & V3 & V4 & V5 & V6).
  destruct (member_valid p Hp) as (P1 & P2 & _).
  pose proof (rep_chain _ _ _ HR k Hk) as Hch. rewrite E in Hch.
  pose proof (rep_nodup _ _ _ HR k Hk) as Hnd. rewrite E in Hnd.
  apply chain_links_ended in Hch. destruct Hch as [Hli Hen].
  apply links_app in Hli. destruct Hli as [Hli1 Hli2].
  cbn [links] in Hli2. destruct Hli2 as (L1 & L2 & L3 & _).
  change (l1 ++ [p; x]) with (l1 ++ p :: [x]) in Hen.
  replace (l1 ++ p :: [x]) with ((l1 ++ [p]) ++ [x]) in Hen by (rewrite <- app_assoc; reflexivity).
  apply ended_app in Hen.
  assert (Hpx : p <> x).
  { apply NoDup_remove_2 in Hnd. intros ->. apply Hnd. apply in_or_app. right. left. reflexivity. }
  assert (Hnl1 : forall y, In y l1 -> y <> p).
  { intros y Hy ->. apply NoDup_remove_2 in Hnd. apply Hnd. apply in_or_app. left. assumption. }
  unfold delete_arm.
  rewrite (bind_Ok _ _ _ _ _ get_class_Rep). rewrite E.
  replace (x =? hd NULL (l1 ++ [p; x])) with false
    by (symmetry; apply Z.eqb_neq; intros Eh; apply (NoDup_hd_not NULL x p l1 [] Hnd); auto).
  rewrite padd_small by lia.
  erewrite bind_Ok by (apply GET_ok; lia).
  rewrite Hen. cbn [Z.eqb].
  erewrite bind_Ok by (apply PRED_ok; lia).
  rewrite L3. rewrite (padd_small x) by lia. replace (x + (p - x)) with p by lia.
  rewrite padd_small by lia.
  rewrite PUT_ok by lia.
  eexists. split; [reflexivity|].
  apply Rep_update_list_full; try assumption.
  - intros a _ Ha. apply store32_other.
    specialize (Ha p (or_introl Hp)). lia.
  - rewrite load64_store32_other by lia.
    rewrite (rep_heads _ _ _ HR k Hk), E. apply hd_app_cons.
  - apply chain_links_ended. split.
    + apply (links_snoc_agree (mem s)); try assumption.
      * intros y Hy a Ha. apply store32_other.
        destruct (members_sep y p (Hl1 y Hy) Hp (Hnl1 y Hy)); lia.
      * intros a Ha. apply store32_other. lia.
    + apply ended_app. rewrite load32_store32_same. reflexivity.
  - replace (l1 ++ [p; x]) with ((l1 ++ [p]) ++ [x]) in Hnd by (rewrite <- app_assoc; reflexivity).
    apply NoDup_remove_1 in Hnd. rewrite app_nil_r in Hnd. assumption.
  - intros y Hy.
    assert (Hy' : In y (fl k)).
    { rewrite E. apply in_app_or in Hy. apply in_or_app.
      destruct Hy as [Hy|[Hy|[]]]; [left; assumption | right; left; assumption]. }
    destruct (member_cell _ _ _ HR k y Hk Hy') as (sz & ? & ? & _). exists sz. tauto.
Qed.

Lemma delete_arm_last l1 p x :
  fl k = l1 ++ [p; x] ->
  exists m', delete_arm k x s = Ok tt (set_mem s m') /\
             Rep (set_mem s m') bl (upd fl k (l1 ++ [p])).
Proof.
  intros E. destruct (delete_arm_last_full l1 p x E) as (m' & R & H & _).
  exists m'. split; assumption.
Qed.

(** Removing a member that has a predecessor and a successor. *)
Lemma delete_arm_middle_full l1 p x y r :
  fl k = l1 ++ p :: x :: y :: r ->
  exists m', delete_arm k x s = Ok tt (set_mem s m') /\
             Rep (set_mem s m') bl (upd fl k (l1 ++ p :: y :: r)) /\
             keeps_payloads s bl m'.
Proof.
  intros E.
  assert (Hx : In x (fl k)) by (rewrite E; apply in_or_app; right; right; left; reflexivity).
  assert (Hp : In p (fl k)) by (rewrite E; apply in_or_app; right; left; reflexivity).
  assert (Hy : In y (fl k))
    by (rewrite E; apply in_or_app; right; right; right; left; reflexivity).
  assert (Hl1 : forall z, In z l1 -> In z (fl k))
    by (intros; rewrite E; apply in_or_app; left; assumption).
  assert (Hr : forall z, In z r -> In z (fl k))
    by (intros; rewrite E; apply in_or_app; right; right; right; right; assumption).
  destruct (member_valid x Hx) as (V1 & V2 & V3 & V4 & V5 & V6).
  destruct (member_valid p Hp) as (P1 & P2 & _).
  destruct (member_valid y Hy) as (Y1 & Y2 & _).
  pose proof (rep_chain _ _ _ HR k Hk) as Hch. rewrite E in Hch.
  pose proof (rep_nodup _ _ _ HR k Hk) as Hnd. rewrite E in Hnd.
  apply chain_links_ended in Hch. destruct Hch as [Hli Hen].
  apply links_app in Hli. destruct Hli as [Hli1 Hli2].
  change (i32 (load32 (mem s) (p + 4)) = x - p /\ load32 (mem s) (p + 4) <> 0 /\
          i32 (load32 (mem s) x) = p - x /\
          i32 (load32 (mem s) (x + 4)) = y - x /\ load32 (mem s) (x + 4) <> 0 /\
          i32 (load32 (mem s) y) = x - y /\ links (mem s) (y :: r)) in Hli2.
  destruct Hli2 as (L1 & L2 & L3 & L4 & L5 & L6 & L7).
  replace (l1 ++ p :: x :: y :: r) with ((l1 ++ [p; x]) ++ y :: r) in Hen
    by (rewrite <- app_assoc; reflexivity).
  apply ended_app_cons in Hen.
  assert (Hnd' : NoDup (l1 ++ p :: y :: r)).
  { replace (l1 ++ p :: x :: y :: r) with ((l1 ++ [p]) ++ x :: y :: r) in Hnd
      by (rewrite <- app_assoc; reflexivity).
    apply NoDup_remove_1 in Hnd. rewrite <- app_assoc in Hnd. exact Hnd. }
  assert (Hpx : p <> x).
  { apply NoDup_remove_2 in Hnd. intros ->. apply Hnd. apply in_or_app. right. left. reflexivity. }
  assert (Hpy : p <> y).
  { apply NoDup_remove_2 in Hnd'. intros ->. apply Hnd'. apply in_or_app. right. left. reflexivity. }
  assert (Hxy : x <> y).
  { replace (l1 ++ p :: x :: y :: r) with ((l1 ++ [p]) ++ x :: y :: r) in Hnd
      by (rewrite <- app_assoc; reflexivity).
    apply NoDup_remove_2 in Hnd. intros ->. apply Hnd. apply in_or_app. right. left. reflexivity. }
  assert (Hnl1p : forall z, In z l1 -> z <> p).
  { intros z Hz ->. apply NoDup_remove_2 in Hnd'. apply Hnd'. apply in_or_app. left. assumption. }
  assert (Hnl1y : forall z, In z l1 -> z <> y).
  { intros z Hz ->.
    replace (l1 ++ p :: y :: r) with ((l1 ++ [p]) ++ y :: r) in Hnd'
      by (rewrite <- app_assoc; reflexivity).
    apply NoDup_remove_2 in Hnd'. apply Hnd'. apply in_or_app. left.
    apply in_or_app. left. assumption. }
  assert (Hnrp : forall z, In z r -> z <> p).
  { intros z Hz ->. apply NoDup_remove_2 in Hnd'. apply Hnd'. apply in_or_app. right.
    right. assumption. }
  assert (Hnry : forall z, In z r -> z <> y).
  { intros z Hz ->.
    replace (l1 ++ p :: y :: r) with ((l1 ++ [p]) ++ y :: r) in Hnd'
      by (rewrite <- app_assoc; reflexivity).
    apply NoDup_remove_2 in Hnd'. apply Hnd'. apply in_or_app. right. assumption. }
  pose proof (members_sep p x Hp Hx Hpx) as Spx.
  pose proof (members_sep p y Hp Hy Hpy) as Spy.
  pose proof (members_sep x y Hx Hy Hxy) as Sxy.
  unfold delete_arm.
  rewrite (bind_Ok _ _ _ _ _ get_class_Rep). rewrite E.
  replace (x =? hd NULL (l1 ++ p :: x :: y :: r)) with false
    by (symmetry; apply Z.eqb_neq; intros Eh; apply (NoDup_hd_not NULL x p l1 (y :: r) Hnd); auto).
  rewrite padd_small by lia.
  erewrite bind_Ok by (apply GET_ok; lia).
  replace (load32 (mem s) (x + 4) =? 0) with false by (symmetry; apply Z.eqb_neq; assumption).
  erewrite bind_Ok by (apply PRED_ok; lia).
  rewrite L3. rewrite (padd_small x (p - x)) by lia. replace (x + (p - x)) with p by lia.
  erewrite bind_Ok by (apply SUCC_ok; lia).
  rewrite L4. rewrite (padd_small x (y - x)) by lia. replace (x + (y - x)) with y by lia.
  rewrite (padd_small p 4) by lia.
  erewrite bind_Ok by (apply PUT_ok; lia).
  erewrite bind_Ok by (apply SUCC_ok; proj; lia).
  erewrite bind_Ok by (apply PRED_ok; proj; lia).
  proj.
  rewrite !load32_store32_other by lia.
  rewrite L3, L4. rewrite (padd_small x (p - x)), (padd_small x (y - x)) by lia.
  replace (x + (p - x)) with p by lia. replace (x + (y - x)) with y by lia.
  rewrite PUT_ok by (proj; lia). proj.
  eexists. split; [reflexivity|].
  apply Rep_update_list_full; try assumption.
  - intros a _ Ha.
    pose proof (Ha p (or_introl Hp)). pose proof (Ha y (or_introl Hy)).
    rewrite !store32_other by lia. reflexivity.
  - rewrite !load64_store32_other by lia.
    rewrite (rep_heads _ _ _ HR k Hk), E.
    rewrite (hd_app_cons NULL p l1 (x :: y :: r)), (hd_app_cons NULL p l1 (y :: r)).
    reflexivity.
  - apply chain_links_ended. split.
    + apply links_app. split.
      * apply (links_snoc_agree (mem s)); try assumption.
        -- intros z Hz a Ha.
           destruct (members_sep z p (Hl1 z Hz) Hp (Hnl1p z Hz));
             destruct (members_sep z y (Hl1 z Hz) Hy (Hnl1y z Hz));
             rewrite !store32_other by lia; reflexivity.
        -- intros a Ha. rewrite !store32_other by lia. reflexivity.
      * change (i32 (load32 (store32 (store32 (mem s) (p + 4) (y - p)) y (p - y)) (p + 4)) = y - p /\
                load32 (store32 (store32 (mem s) (p + 4) (y - p)) y (p - y)) (p + 4) <> 0 /\
                i32 (load32 (store32 (store32 (mem s) (p + 4) (y - p)) y (p - y)) y) = p - y /\
                links (store32 (store32 (mem s) (p + 4) (y - p)) y (p - y)) (y :: r)).
        rewrite load32_store32_other by lia.
        rewrite !load32_store32_same.
        rewrite !i32_u32_small by lia.
        repeat split.
        -- apply u32_nonzero; lia.
        -- apply (links_agree (mem s)); try assumption.
           ++ intros a Ha. rewrite !store32_other by lia. reflexivity.
           ++ intros z Hz a Ha.
              destruct (members_sep z p (Hr z Hz) Hp (Hnrp z Hz));
                destruct (members_sep z y (Hr z Hz) Hy (Hnry z Hz));
                rewrite !store32_other by lia; reflexivity.
    + replace (l1 ++ p :: y :: r) with ((l1 ++ [p]) ++ y :: r)
        by (rewrite <- app_assoc; reflexivity).
      apply ended_app_cons. apply (ended_agree (mem s)); [|assumption].
      intros z [Hz|Hz] a Ha.
      * subst z. rewrite !store32_other by lia. reflexivity.
      * destruct (members_sep z p (Hr z Hz) Hp (Hnrp z Hz));
          destruct (members_sep z y (Hr z Hz) Hy (Hnry z Hz));
          rewrite !store32_other by lia; reflexivity.
  - intros z Hz.
    assert (Hz' : In z (fl k)).
    { rewrite E. apply in_app_or in Hz. apply in_or_app.
      destruct Hz as [Hz|[Hz|Hz]]; [left; assumption | right; left; assumption |].
      right. right. right. assumption. }
    destruct (member_cell _ _ _ HR k z Hk Hz') as (sz & ? & ? & _). exists sz. tauto.
Qed.

Lemma delete_arm_middle l1 p x y r :
  fl k = l1 ++ p :: x :: y :: r ->
  exists m', delete_arm k x s = Ok tt (set_mem s m') /\
             Rep (set_mem s m') bl (upd fl k (l1 ++ p :: y :: r)).
Proof.
  intros E. destruct (delete_arm_middle_full l1 p x y r E) as (m' & R & H & _).
  exists m'. split; assumption.
Qed.

(** Removing any member. *)
Lemma delete_arm_Rep_full l1 x r :
  fl k = l1 ++ x :: r ->
  exists m', delete_arm k x s = Ok tt (set_mem s m') /\
             Rep (set_mem s m') bl (upd fl k (l1 ++ r)) /\
             keeps_payloads s bl m'.
Proof.
  intros E. destruct l1 as [|a l1'] using rev_ind.
  - apply delete_arm_head_full. assumption.
  - clear IHl1'. rewrite <- app_assoc in E. cbn [app] in E.
    rewrite <- app_assoc. cbn [app].
    destruct r as [|y r'].
    + apply delete_arm_last_full. assumption.
    + apply delete_arm_middle_full. assumption.
Qed.

Lemma delete_arm_Rep l1 x r :
  fl k = l1 ++ x :: r ->
  exists m', delete_arm k x s = Ok tt (set_mem s m') /\
             Rep (set_mem s m') bl (upd fl k (l1 ++ r)).
Proof.
  intros E. destruct (delete_arm_Rep_full l1 x r E) as (m' & R & H & _).
  exists m'. split; assumption.
Qed.

End Delete.

(** ** Boundary tags as bit fields *)

Lemma size_mask w : 0 <= w < 2 ^ 32 -> Z.land w (u32 (Z.lnot 7)) = 8 * (w / 8).
Proof.
  intros H.
  change (u32 (Z.lnot 7)) with (Z.ldiff (Z.ones 32) (Z.ones 3)).
  assert (E : Z.land w (Z.ldiff (Z.ones 32) (Z.ones 3))
              = Z.ldiff (Z.land w (Z.ones 32)) (Z.ones 3)).
  { apply Z.bits_inj'. intros n Hn.
    rewrite !Z.land_spec, !Z.ldiff_spec, !Z.land_spec.
    destruct (Z.testbit w n), (Z.testbit (Z.ones 32) n), (Z.testbit (Z.ones 3) n); reflexivity. }
  rewrite E. rewrite Z.land_ones by lia. rewrite Z.mod_small by assumption.
  rewrite Z.ldiff_ones_r by lia.
  rewrite Z.shiftr_div_pow2, Z.shiftl_mul_pow2 by lia.
  change (2 ^ 3) with 8. lia.
Qed.

Lemma alloc_mask w : Z.land w 1 = w mod 2.
Proof. change 1 with (Z.ones 1). rewrite Z.land_ones by lia. reflexivity. Qed.

Lemma tag_size sz a :
  0 <= sz < 2 ^ 32 - 1 -> sz mod 8 = 0 -> Z.land (sz + b2z a) (u32 (Z.lnot 7)) = sz.
Proof.
  intros H H8. rewrite size_mask by (destruct a; cbn [b2z]; lia).
  pose proof (Z.div_mod sz 8 ltac:(lia)) as D. rewrite H8 in D.
  replace ((sz + b2z a) / 8) with (sz / 8); [lia|].
  apply Z.div_unique with (r := b2z a); destruct a; cbn [b2z]; lia.
Qed.

Lemma tag_alloc sz a : sz mod 8 = 0 -> Z.land (sz + b2z a) 1 = b2z a.
Proof.
  intros H8. rewrite alloc_mask.
  pose proof (Z.div_mod sz 8 ltac:(lia)) as D. rewrite H8 in D.
  symmetry. apply Z.mod_unique with (q := 4 * (sz / 8)); destruct a; cbn [b2z]; lia.
Qed.

Lemma PACK_tag sz a : 0 <= sz -> sz mod 8 = 0 -> PACK sz (b2z a) = sz + b2z a.
Proof.
  intros H0 H8. unfold PACK. destruct a; cbn [b2z].
  - rewrite <- Z.lxor_lor, <- Z.add_nocarry_lxor; try reflexivity.
    + rewrite alloc_mask. pose proof (Z.div_mod sz 8 ltac:(lia)) as D. rewrite H8 in D.
      symmetry. apply Z.mod_unique with (q := 4 * (sz / 8)); lia.
    + rewrite alloc_mask. pose proof (Z.div_mod sz 8 ltac:(lia)) as D. rewrite H8 in D.
      symmetry. apply Z.mod_unique with (q := 4 * (sz / 8)); lia.
  - rewrite Z.lor_0_r. lia.
Qed.

(** ** [append_to_class] on a represented heap *)

Lemma append_arm_full s bl fl k bp sz :
  Rep s bl fl -> 0 <= k <= 6 ->
  In (bp, sz, false) (cells (mem_lo s + 72) bl) -> bucket_of sz = k ->
  ~ In bp (fl k) ->
  exists m', append_arm k bp s = Ok tt (set_mem s m') /\
             Rep (set_mem s m') bl (upd fl k (bp :: fl k)) /\
             keeps_payloads s bl m'.
Proof.
  intros HR Hk Hc Hb Hn.
  destruct (cell_bounds _ _ _ HR _ _ _ Hc) as (B1 & B2 & B3 & _).
  pose proof (rep_room _ _ _ HR) as R1. pose proof (rep_lo _ _ _ HR) as R2.
  pose proof (rep_hi _ _ _ HR) as R3. pose proof (rep_span _ _ _ HR) as R4.
  pose proof (rep_table _ _ _ HR) as R5.
  pose proof (rep_heads _ _ _ HR k Hk) as Hh.
  pose proof (rep_chain _ _ _ HR k Hk) as Hch.
  assert (Hsep : forall y, In y (fl k) -> bp + 16 <= y \/ y + 16 <= bp).
  { intros y Hy. destruct (member_cell _ _ _ HR k y Hk Hy) as (szy & Hcy & _ & _ & _ & Hy16).
    assert (bp <> y) by (intros ->; contradiction).
    destruct (free_cells_apart _ _ _ HR _ _ _ _ _ _ Hc Hcy H); lia. }
  assert (Hsnd : forall y, In y (bp :: fl k) ->
            exists sz0, In (y, sz0, false) (cells (mem_lo s + 72) bl) /\ bucket_of sz0 = k).
  { intros y [<-|Hy]; [exists sz; tauto|].
    destruct (member_cell _ _ _ HR k y Hk Hy) as (szy & ? & ? & _). exists szy. tauto. }
  assert (Hcase : fl k = [] \/ exists h t, fl k = h :: t)
    by (destruct (fl k) as [|h t]; [left; reflexivity | right; exists h, t; reflexivity]).
  destruct Hcase as [E|(h & t & E)].
  - rewrite (append_arm_empty s k bp (mem_lo s + 8 * k) NULL); try lia.
    2:{ unfold bucket_head. rewrite R5, Hh, E. reflexivity. }
    eexists. split; [reflexivity|].
    rewrite E in Hsnd. rewrite E.
    apply Rep_update_list_full; try assumption.
    + intros a Ha1 Ha2. pose proof (Ha2 bp (or_intror (or_introl eq_refl))).
      rewrite store64_other by lia. rewrite !store32_other by lia. reflexivity.
    + apply load64_store64_same. cbn [hd]. lia.
    + cbn [chain]. rewrite load32_store64_other by lia.
      rewrite load32_store32_same. reflexivity.
    + constructor; [intros []|constructor].
  - assert (Hhin : In h (fl k)) by (rewrite E; left; reflexivity).
    destruct (member_valid _ _ _ _ HR Hk h Hhin) as (H1 & H2 & _).
    pose proof (Hsep h Hhin) as Sh.
    rewrite E in Hh. cbn [hd] in Hh.
    rewrite (append_arm_nonempty s k bp (mem_lo s + 8 * k) h); try lia.
    2:{ unfold bucket_head. rewrite R5, Hh. reflexivity. }
    2:{ unfold NULL. lia. }
    eexists. split; [reflexivity|].
    apply Rep_update_list_full; try assumption.
    + intros a Ha1 Ha2. pose proof (Ha2 bp (or_intror (or_introl eq_refl))).
      pose proof (Ha2 h (or_introl Hhin)).
      rewrite store64_other by lia. rewrite !store32_other by lia. reflexivity.
    + apply load64_store64_same. cbn [hd]. lia.
    + rewrite E. rewrite E in Hch.
      apply chain_links_ended in Hch. destruct Hch as [Hli Hen].
      apply chain_links_ended. split.
      * change (i32 (load32 (store64 (store32 (store32 (store32 (mem s) bp 0) (bp + 4) (h - bp))
                                       h (bp - h)) (mem_lo s + 8 * k) bp) (bp + 4)) = h - bp /\
                load32 (store64 (store32 (store32 (store32 (mem s) bp 0) (bp + 4) (h - bp))
                                       h (bp - h)) (mem_lo s + 8 * k) bp) (bp + 4) <> 0 /\
                i32 (load32 (store64 (store32 (store32 (store32 (mem s) bp 0) (bp + 4) (h - bp))
                                       h (bp - h)) (mem_lo s + 8 * k) bp) h) = bp - h /\
                links (store64 (store32 (store32 (store32 (mem s) bp 0) (bp + 4) (h - bp))
                                       h (bp - h)) (mem_lo s + 8 * k) bp) (h :: t)).
        rewrite !load32_store64_other by lia.
        rewrite (load32_store32_other _ h) by lia.
        rewrite !load32_store32_same.
        rewrite !i32_u32_small by lia.
        repeat split.
        -- apply u32_nonzero; lia.
        -- apply (links_agree (mem s)); try assumption.
           ++ intros a Ha. rewrite store64_other by lia. rewrite !store32_other by lia.
              reflexivity.
           ++ intros z Hz a Ha.
              assert (Hz' : In z (fl k)) by (rewrite E; right; assumption).
              destruct (member_valid _ _ _ _ HR Hk z Hz') as (Z1 & Z2 & _).
              pose proof (Hsep z Hz').
              assert (h <> z).
              { pose proof (rep_nodup _ _ _ HR k Hk) as Hnd. rewrite E in Hnd.
                apply NoDup_cons_iff in Hnd. destruct Hnd as [Hnin _].
                intros Ez. apply Hnin. rewrite Ez. assumption. }
              pose proof (members_sep _ _ _ _ HR Hk h z Hhin Hz' H0).
              rewrite store64_other by lia. rewrite !store32_other by lia. reflexivity.
      * replace (bp :: h :: t) with ([bp] ++ h :: t) by reflexivity.
        apply ended_app_cons. apply (ended_agree (mem s)); [|assumption].
        intros z Hz a Ha.
        assert (Hz' : In z (fl k)) by (rewrite E; assumption).
        destruct (member_valid _ _ _ _ HR Hk z Hz') as (Z1 & Z2 & _).
        pose proof (Hsep z Hz').
        assert (h + 4 <= a \/ a < h).
        { destruct Hz as [<-|Hz]; [lia|].
          assert (h <> z).
          { pose proof (rep_nodup _ _ _ HR k Hk) as Hnd. rewrite E in Hnd.
            apply NoDup_cons_iff in Hnd. destruct Hnd as [Hnin _].
            intros Ez. apply Hnin. rewrite Ez. assumption. }
          pose proof (members_sep _ _ _ _ HR Hk h z Hhin Hz' H0). lia. }
        rewrite store64_other by lia. rewrite !store32_other by lia. reflexivity.
    + constructor; [assumption|]. apply (rep_nodup _ _ _ HR k Hk).
Qed.

Lemma append_arm_Rep s bl fl k bp sz :
  Rep s bl fl -> 0 <= k <= 6 ->
  In (bp, sz, false) (cells (mem_lo s + 72) bl) -> bucket_of sz = k ->
  ~ In bp (fl k) ->
  exists m', append_arm k bp s = Ok tt (set_mem s m') /\
             Rep (set_mem s m') bl (upd fl k (bp :: fl k)).
Proof.
  intros HR Hk Hc Hb Hn.
  destruct (append_arm_full _ _ _ _ _ _ HR Hk Hc Hb Hn) as (m' & R & H & _).
  exists m'. split; assumption.
Qed.

(** ** Reading the tags of a block of the layout *)

Lemma GET_SIZE_tag s p sz a :
  mem_lo s <= p -> p + 4 <= mem_hi s ->
  load32 (mem s) p = sz + b2z a -> 0 <= sz < 2 ^ 32 - 1 -> sz mod 8 = 0 ->
  GET_SIZE p s = Ok sz s.
Proof.
  intros. rewrite GET_SIZE_ok by assumption. rewrite H1, tag_size by assumption. reflexivity.
Qed.

Lemma GET_ALLOC_tag s p sz a :
  mem_lo s <= p -> p + 4 <= mem_hi s ->
  load32 (mem s) p = sz + b2z a -> sz mod 8 = 0 ->
  GET_ALLOC p s = Ok (b2z a) s.
Proof.
  intros. rewrite GET_ALLOC_ok by assumption. rewrite H1, tag_alloc by assumption. reflexivity.
Qed.

Lemma HDRP_small bp : 4 <= bp < 2 ^ 64 -> HDRP bp = bp - 4.
Proof. intros. unfold HDRP, WSIZE. rewrite padd_small by lia. lia. Qed.

Section Cell.
Variables (s : state) (bl : layout) (fl : Z -> list Z).
Hypothesis HR : Rep s bl fl.
Variables (x sz : Z) (a : bool).
Hypothesis Hc : In (x, sz, a) (cells (mem_lo s + 72) bl).

Lemma cell_facts :
  mem_lo s + 72 <= x /\ x + sz <= mem_brk s /\ mem_brk s <= mem_hi s /\
  0 <= mem_lo s /\ mem_hi s <= 2 ^ 62 /\ mem_hi s - mem_lo s < 2 ^ 31 /\
  16 <= sz /\ sz mod 8 = 0 /\
  load32 (mem s) (x - 4) = sz + b2z a /\ load32 (mem s) (x + sz - 8) = sz + b2z a.
Proof.
  destruct (cell_bounds _ _ _ HR _ _ _ Hc) as (B1 & B2 & B3 & B4 & B5 & B6).
  pose proof (rep_room _ _ _ HR). pose proof (rep_lo _ _ _ HR).
  pose proof (rep_hi _ _ _ HR). pose proof (rep_span _ _ _ HR).
  repeat split; assumption.
Qed.

Lemma cell_GET_SIZE : GET_SIZE (HDRP x) s = Ok sz s.
Proof.
  destruct cell_facts as (F1 & F2 & F3 & F4 & F5 & F6 & F7 & F8 & F9 & F10).
  rewrite HDRP_small by lia. apply (GET_SIZE_tag _ _ _ a); try assumption; lia.
Qed.

Lemma cell_GET_ALLOC : GET_ALLOC (HDRP x) s = Ok (b2z a) s.
Proof.
  destruct cell_facts as (F1 & F2 & F3 & F4 & F5 & F6 & F7 & F8 & F9 & F10).
  rewrite HDRP_small by lia. apply (GET_ALLOC_tag _ _ sz); try assumption; lia.
Qed.

Lemma cell_FTRP : FTRP x s = Ok (x + sz - 8) s.
Proof.
  destruct cell_facts as (F1 & F2 & F3 & F4 & F5 & F6 & F7 & F8 & F9 & F10).
  unfold FTRP. rewrite (bind_Ok _ _ _ _ _ cell_GET_SIZE). unfold ret, DSIZE.
  rewrite u32_small by lia. rewrite padd_small by lia. f_equal. lia.
Qed.

Lemma cell_NEXT_BLKP : NEXT_BLKP x s = Ok (x + sz) s.
Proof.
  destruct cell_facts as (F1 & F2 & F3 & F4 & F5 & F6 & F7 & F8 & F9 & F10).
  unfold NEXT_BLKP. change (padd x (- WSIZE)) with (HDRP x).
  rewrite (bind_Ok _ _ _ _ _ cell_GET_SIZE). unfold ret.
  rewrite padd_small by lia. reflexivity.
Qed.

End Cell.

Lemma delete_cascade ptr ptr_size :
  (if ptr_size <=? 512 then delete_arm 0 ptr
   else if ptr_size <=? 1024 then delete_arm 1 ptr
   else if ptr_size <=? 2048 then delete_arm 2 ptr
   else if ptr_size <=? 4096 then delete_arm 3 ptr
   else if ptr_size <=? 8192 then delete_arm 4 ptr
   else if ptr_size <=? 16384 then delete_arm 5 ptr
   else delete_arm 6 ptr) = delete_arm (bucket_of ptr_size) ptr.
Proof.
  unfold bucket_of.
  repeat match goal with |- context [if ?c then _ else _] => destruct c end; reflexivity.
Qed.

(** ** Rewriting the tags of a run of blocks *)

Lemma Rep_retile s l1 X l2 fl X' m' :
  Rep s (l1 ++ X ++ l2) fl ->
  total X' = total X ->
  (forall a, a < mem_lo s + 72 + total l1 - 4 \/ mem_lo s + 72 + total l1 + total X - 4 <= a ->
             m' a = mem s a) ->
  tiles m' (mem_lo s + 72 + total l1) X' ->
  (forall k y sz, 0 <= k <= 6 -> In y (fl k) ->
                  ~ In (y, sz, false) (cells (mem_lo s + 72 + total l1) X)) ->
  Rep (set_mem s m') (l1 ++ X' ++ l2) fl.
Proof.
  intros HR HT F Ht Hout.
  pose proof (rep_tiles _ _ _ HR) as Htl.
  apply tiles_app in Htl. destruct Htl as [T1 T2].
  apply tiles_app in T2. destruct T2 as [T2 T3].
  pose proof (tiles_total _ _ _ T1) as N1. pose proof (tiles_total _ _ _ T2) as N2.
  pose proof (tiles_total _ _ _ T3) as N3.
  pose proof (rep_brk _ _ _ HR) as Hbrk. rewrite !total_app in Hbrk.
  assert (Hmem : forall k y, 0 <= k <= 6 -> In y (fl k) ->
            exists sz, bucket_of sz = k /\ 16 <= sz /\
              (In (y, sz, false) (cells (mem_lo s + 72) l1) /\
                 y + sz <= mem_lo s + 72 + total l1 \/
               In (y, sz, false) (cells (mem_lo s + 72 + total l1 + total X) l2) /\
                 mem_lo s + 72 + total l1 + total X <= y)).
  { intros k y Hk Hy.
    destruct (member_cell _ _ _ HR k y Hk Hy) as (sz & Hc & Hb & _ & _ & H16).
    exists sz. split; [assumption|]. split; [assumption|].
    rewrite !cells_app in Hc. apply in_app_or in Hc. destruct Hc as [Hc|Hc].
    - left. split; [assumption|].
      destruct (cells_inside _ _ _ _ _ _ T1 Hc) as (_ & ? & _). lia.
    - apply in_app_or in Hc. destruct Hc as [Hc|Hc].
      + exfalso. apply (Hout k y sz Hk Hy). assumption.
      + right. split; [assumption|].
        destruct (cells_inside _ _ _ _ _ _ T3 Hc) as (? & _). lia. }
  constructor; proj; try apply HR.
  - rewrite Hbrk, !total_app. lia.
  - destruct (rep_prologue _ _ _ HR) as [P1 P2].
    rewrite !(load32_agree (mem s) m'); [split; assumption| |]; intros; apply F; lia.
  - rewrite (load32_agree (mem s) m'); [apply HR|]. intros; apply F; lia.
  - apply tiles_app. split; [|apply tiles_app; split].
    + apply (tiles_agree (mem s)); [|assumption]. intros; apply F; lia.
    + assumption.
    + rewrite HT. apply (tiles_agree (mem s)); [|assumption]. intros; apply F; lia.
  - intros k Hk. rewrite <- (rep_heads _ _ _ HR k Hk).
    apply load64_agree. intros; apply F; lia.
  - intros k Hk. apply (chain_agree (mem s)); [|apply HR; assumption].
    intros y Hy a Ha. destruct (Hmem k y Hk Hy) as (sz & _ & H16 & [[_ H]|[_ H]]); apply F; lia.
  - intros k y Hk Hy. destruct (Hmem k y Hk Hy) as (sz & Hb & _ & [[H _]|[H _]]);
      exists sz; (split; [|assumption]); rewrite !cells_app; apply in_or_app.
    + left. assumption.
    + right. apply in_or_app. right. rewrite HT. assumption.
Qed.

Lemma members_outside s l1 X l2 fl :
  Rep s (l1 ++ X ++ l2) fl ->
  (forall k y sz, 0 <= k <= 6 -> In y (fl k) ->
                  ~ In (y, sz, false) (cells (mem_lo s + 72 + total l1) X)) ->
  forall k y, 0 <= k <= 6 -> In y (fl k) ->
    y + 16 <= mem_lo s + 72 + total l1 \/ mem_lo s + 72 + total l1 + total X <= y.
Proof.
  intros HR Hout k y Hk Hy.
  pose proof (rep_tiles _ _ _ HR) as Htl.
  apply tiles_app in Htl. destruct Htl as [T1 T2].
  apply tiles_app in T2. destruct T2 as [T2 T3].
  destruct (member_cell _ _ _ HR k y Hk Hy) as (sz & Hc & Hb & _ & _ & H16).
  rewrite !cells_app in Hc. apply in_app_or in Hc. destruct Hc as [Hc|Hc].
  - destruct (cells_inside _ _ _ _ _ _ T1 Hc) as (_ & ? & _). lia.
  - apply in_app_or in Hc. destruct Hc as [Hc|Hc].
    + exfalso. apply (Hout k y sz Hk Hy). assumption.
    + destruct (cells_inside _ _ _ _ _ _ T3 Hc) as (? & _). lia.
Qed.

(** Retiling and the payloads of the allocated blocks around: nothing
    changes in the blocks of [l1] and [l2], whatever layout [Y] of the
    same extent without allocated block stands between them. *)
Lemma keeps_retile s l1 X l2 fl m' :
  Rep s (l1 ++ X ++ l2) fl ->
  (forall a, a < mem_lo s + 72 + total l1 - 4 \/ mem_lo s + 72 + total l1 + total X - 4 <= a ->
             m' a = mem s a) ->
  forall Y, total Y = total X ->
    (forall y sy, ~ In (y, sy, true) (cells (mem_lo s + 72 + total l1) Y)) ->
    keeps_payloads s (l1 ++ Y ++ l2) m'.
Proof.
  intros HR F Y HT HY x sz a Hc Ha.
  pose proof (rep_tiles _ _ _ HR) as Htl.
  apply tiles_app in Htl. destruct Htl as [T1 T2].
  apply tiles_app in T2. destruct T2 as [T2 T3].
  rewrite !cells_app in Hc. apply in_app_or in Hc. destruct Hc as [Hc|Hc].
  - destruct (cells_inside _ _ _ _ _ _ T1 Hc) as (_ & ? & _). apply F. lia.
  - apply in_app_or in Hc. destruct Hc as [Hc|Hc]; [exfalso; apply (HY _ _ Hc)|].
    rewrite HT in Hc.
    destruct (cells_inside _ _ _ _ _ _ T3 Hc) as (? & _). apply F. lia.
Qed.

Lemma allocs_retile base l1 X X' l2 x sz :
  total X' = total X ->
  (forall y sy, ~ In (y, sy, true) (cells (base + total l1) X)) ->
  In (x, sz, true) (cells base (l1 ++ X ++ l2)) ->
  In (x, sz, true) (cells base (l1 ++ X' ++ l2)).
Proof.
  intros HT HX Hc. rewrite !cells_app in *. apply in_app_or in Hc. apply in_or_app.
  destruct Hc as [Hc|Hc]; [left; assumption|]. right.
  apply in_app_or in Hc. apply in_or_app.
  destruct Hc as [Hc|Hc]; [exfalso; apply (HX _ _ Hc)|]. right. rewrite HT. assumption.
Qed.

Lemma keeps_trans s bl m1 bl1 m2 :
  keeps_payloads s bl m1 ->
  (forall x sz, In (x, sz, true) (cells (mem_lo s + 72) bl) ->
                In (x, sz, true) (cells (mem_lo s + 72) bl1)) ->
  keeps_payloads (set_mem s m1) bl1 m2 ->
  keeps_payloads s bl m2.
Proof.
  intros K1 I K2 x sz a Hc Ha.
  rewrite (K2 x sz a (I _ _ Hc) Ha). proj. apply (K1 x sz a Hc Ha).
Qed.

Lemma keeps_step s bl s1 bl1 m2 :
  keeps_payloads s bl (mem s1) -> mem_lo s1 = mem_lo s ->
  (forall x sz, In (x, sz, true) (cells (mem_lo s + 72) bl) ->
                In (x, sz, true) (cells (mem_lo s + 72) bl1)) ->
  keeps_payloads s1 bl1 m2 ->
  keeps_payloads s bl m2.
Proof.
  intros K1 E I K2 x sz a Hc Ha.
  pose proof (I _ _ Hc) as Hc1. rewrite <- E in Hc1.
  rewrite (K2 x sz a Hc1 Ha). apply (K1 x sz a Hc Ha).
Qed.

Lemma keeps_refl s bl : keeps_payloads s bl (mem s).
Proof. intros x sz a _ _. reflexivity. Qed.

Lemma no_alloc_1 base sz : forall y sy, ~ In (y, sy, true) (cells base [(sz, false)]).
Proof. intros y sy [H|[]]. discriminate H. Qed.

Lemma no_alloc_2 base sz sz' :
  forall y sy, ~ In (y, sy, true) (cells base [(sz, false); (sz', false)]).
Proof. intros y sy [H|[H|[]]]; discriminate H. Qed.

Lemma no_alloc_3 base sz sz' sz'' :
  forall y sy, ~ In (y, sy, true) (cells base [(sz, false); (sz', false); (sz'', false)]).
Proof. intros y sy [H|[H|[H|[]]]]; discriminate H. Qed.

(** ** Adjacent free blocks *)

Lemma last_free_cons b c l : last_free (b :: c :: l) = last_free (c :: l).
Proof. destruct b. reflexivity. Qed.

Lemma last_free_app l1 b l2 : last_free (l1 ++ b :: l2) = last_free (b :: l2).
Proof.
  induction l1 as [|c l1 IH]; [reflexivity|].
  cbn [app]. destruct (l1 ++ b :: l2) eqn:E.
  - destruct l1; discriminate.
  - rewrite last_free_cons. apply IH.
Qed.

Lemma adjacent_free_app l1 l2 :
  adjacent_free (l1 ++ l2)
  = adjacent_free l1 || adjacent_free l2 || (last_free l1 && first_free l2).
Proof.
  induction l1 as [|[sz a] l1 IH]; cbn [app].
  - cbn [adjacent_free last_free]. destruct (adjacent_free l2); reflexivity.
  - cbn [adjacent_free]. rewrite IH.
    destruct l1 as [|[sz' a'] l1'].
    + cbn [app adjacent_free last_free first_free].
      destruct l2 as [|[sz2 a2] l2']; cbn [first_free];
        destruct a; try destruct a2; cbn [negb andb orb];
        destruct (adjacent_free _); reflexivity.
    + cbn [app]. rewrite last_free_cons.
      destruct a, a'; cbn [negb andb orb];
        destruct (adjacent_free ((sz', _) :: l1')), (adjacent_free l2),
          (last_free ((sz', _) :: l1')), (first_free l2); reflexivity.
Qed.

(** ** Writing the two tags of a block *)

Lemma retag_tagged m x sz a :
  16 <= sz < 2 ^ 32 - 1 -> sz mod 8 = 0 -> tagged (retag m x sz a) x sz a.
Proof.
  intros H H8. unfold tagged, retag. split; [lia|]. split; [assumption|].
  rewrite load32_store32_other by lia. rewrite !load32_store32_same.
  rewrite !u32_small by (destruct a; cbn [b2z]; lia). tauto.
Qed.

Lemma retag_other m x sz a b :
  8 <= sz -> b < x - 4 \/ x + sz - 4 <= b -> retag m x sz a b = m b.
Proof.
  intros H Hb. unfold retag. rewrite !store32_other by lia. reflexivity.
Qed.

Lemma retag_inner m x sz a b :
  x <= b < x + sz - 8 -> retag m x sz a b = m b.
Proof.
  intros Hb. unfold retag. rewrite !store32_other by lia. reflexivity.
Qed.

(** [PUT(HDRP(bp), PACK(size, alloc)); PUT(FTRP(bp), PACK(size, alloc));] *)
Lemma put_tags {B} s x sz a (K : unit -> M B) :
  mem_lo s <= x - 4 -> x + sz - 4 <= mem_hi s -> mem_hi s <= 2 ^ 62 -> 0 <= mem_lo s ->
  8 <= sz < 2 ^ 32 - 1 -> sz mod 8 = 0 ->
  bind (PUT (HDRP x) (PACK sz (b2z a)))
       (fun _ => bind (FTRP x) (fun f => bind (PUT f (PACK sz (b2z a))) K)) s
  = K tt (set_mem s (retag (mem s) x sz a)).
Proof.
  intros V1 V2 V3 V4 H H8.
  rewrite HDRP_small by lia. rewrite PACK_tag by lia.
  erewrite bind_Ok by (apply PUT_ok; lia).
  assert (EF : FTRP x (set_mem s (store32 (mem s) (x - 4) (sz + b2z a)))
               = Ok (x + sz - 8) (set_mem s (store32 (mem s) (x - 4) (sz + b2z a)))).
  { unfold FTRP. rewrite HDRP_small by lia.
    erewrite bind_Ok.
    2:{ apply (GET_SIZE_tag _ _ sz a); proj; try lia.
        rewrite load32_store32_same. apply u32_small. destruct a; cbn [b2z]; lia. }
    unfold ret, DSIZE. rewrite u32_small by lia. rewrite padd_small by lia.
    f_equal. lia. }
  rewrite (bind_Ok _ _ _ _ _ EF).
  erewrite bind_Ok by (apply PUT_ok; proj; lia).
  proj. reflexivity.
Qed.

Lemma in_drop_mid (y b : Z) la lb : In y (la ++ b :: lb) -> y <> b -> In y (la ++ lb).
Proof.
  intros H Hne. apply in_app_or in H. apply in_or_app.
  destruct H as [H|[H|H]]; [left; assumption | congruence | right; assumption].
Qed.

Lemma in_add_mid (y b : Z) la lb : In y (la ++ lb) -> In y (la ++ b :: lb).
Proof.
  intros H. apply in_app_or in H. apply in_or_app.
  destruct H as [H|H]; [left; assumption | right; right; assumption].
Qed.

Lemma i32_size sz : 0 <= sz < 2 ^ 31 -> i32 sz = sz.
Proof. intros. apply i32_small. lia. Qed.

(** [delete_from_class(bp, 2)]: the block itself. *)
Lemma delete_from_class_self_full s bl fl bp sz la lb :
  Rep s bl fl ->
  In (bp, sz, false) (cells (mem_lo s + 72) bl) ->
  fl (bucket_of sz) = la ++ bp :: lb ->
  exists m', delete_from_class bp 2 s = Ok tt (set_mem s m') /\
             Rep (set_mem s m') bl (upd fl (bucket_of sz) (la ++ lb)) /\
             keeps_payloads s bl m'.
Proof.
  intros HR Hc E.
  destruct (cell_facts _ _ _ HR _ _ _ Hc) as (F1 & F2 & F3 & F4 & F5 & F6 & F7 & F8 & F9 & F10).
  unfold delete_from_class.
  repeat match goal with |- context [?a =? ?b] =>
    let v := eval vm_compute in (a =? b) in change (a =? b) with v end.
  cbv iota.
  erewrite bind_Ok.
  2:{ erewrite bind_Ok by (apply (cell_GET_SIZE _ _ _ HR _ _ _ Hc)). reflexivity. }
  cbn [fst snd]. rewrite delete_cascade. rewrite i32_size by lia.
  apply delete_arm_Rep_full; try assumption. apply bucket_of_range.
Qed.

Lemma delete_from_class_self s bl fl bp sz la lb :
  Rep s bl fl ->
  In (bp, sz, false) (cells (mem_lo s + 72) bl) ->
  fl (bucket_of sz) = la ++ bp :: lb ->
  exists m', delete_from_class bp 2 s = Ok tt (set_mem s m') /\
             Rep (set_mem s m') bl (upd fl (bucket_of sz) (la ++ lb)).
Proof.
  intros H0 H1 H2.
  destruct (delete_from_class_self_full _ _ _ _ _ _ _ H0 H1 H2) as (m' & R & H & _).
  exists m'. split; assumption.
Qed.

(** [delete_from_class(bp, 0)]: the next block. *)
Lemma delete_from_class_next_full s bl fl bp sz a ns la lb :
  Rep s bl fl ->
  In (bp, sz, a) (cells (mem_lo s + 72) bl) ->
  In (bp + sz, ns, false) (cells (mem_lo s + 72) bl) ->
  fl (bucket_of ns) = la ++ (bp + sz) :: lb ->
  exists m', delete_from_class bp 0 s = Ok tt (set_mem s m') /\
             Rep (set_mem s m') bl (upd fl (bucket_of ns) (la ++ lb)) /\
             keeps_payloads s bl m'.
Proof.
  intros HR Hc Hn E.
  destruct (cell_facts _ _ _ HR _ _ _ Hn) as (F1 & F2 & F3 & F4 & F5 & F6 & F7 & F8 & F9 & F10).
  unfold delete_from_class.
  repeat match goal with |- context [?a =? ?b] =>
    let v := eval vm_compute in (a =? b) in change (a =? b) with v end.
  cbv iota.
  erewrite bind_Ok.
  2:{ erewrite bind_Ok by (apply (cell_NEXT_BLKP _ _ _ HR _ _ _ Hc)).
      erewrite bind_Ok by (apply (cell_GET_SIZE _ _ _ HR _ _ _ Hn)). reflexivity. }
  cbn [fst snd]. rewrite delete_cascade. rewrite i32_size by lia.
  apply delete_arm_Rep_full; try assumption. apply bucket_of_range.
Qed.

Lemma delete_from_class_next s bl fl bp sz a ns la lb :
  Rep s bl fl ->
  In (bp, sz, a) (cells (mem_lo s + 72) bl) ->
  In (bp + sz, ns, false) (cells (mem_lo s + 72) bl) ->
  fl (bucket_of ns) = la ++ (bp + sz) :: lb ->
  exists m', delete_from_class bp 0 s = Ok tt (set_mem s m') /\
             Rep (set_mem s m') bl (upd fl (bucket_of ns) (la ++ lb)).
Proof.
  intros H0 H1 H2 H3.
  destruct (delete_from_class_next_full _ _ _ _ _ _ _ _ _ H0 H1 H2 H3) as (m' & R & H & _).
  exists m'. split; assumption.
Qed.

Lemma PREV_BLKP_cell s bl fl pv ps pa :
  Rep s bl fl ->
  In (pv, ps, pa) (cells (mem_lo s + 72) bl) ->
  PREV_BLKP (pv + ps) s = Ok pv s.
Proof.
  intros HR Hc.
  destruct (cell_facts _ _ _ HR _ _ _ Hc) as (F1 & F2 & F3 & F4 & F5 & F6 & F7 & F8 & F9 & F10).
  unfold PREV_BLKP, DSIZE. rewrite padd_small by lia.
  erewrite bind_Ok.
  2:{ apply (GET_SIZE_tag _ _ ps pa); try lia.
      replace (pv + ps + -8) with (pv + ps - 8) by lia. assumption. }
  unfold ret. rewrite padd_small by lia. f_equal. lia.
Qed.

(** [delete_from_class(bp, 1)]: the previous block. *)
Lemma delete_from_class_prev_full s bl fl pv ps la lb :
  Rep s bl fl ->
  In (pv, ps, false) (cells (mem_lo s + 72) bl) ->
  fl (bucket_of ps) = la ++ pv :: lb ->
  exists m', delete_from_class (pv + ps) 1 s = Ok tt (set_mem s m') /\
             Rep (set_mem s m') bl (upd fl (bucket_of ps) (la ++ lb)) /\
             keeps_payloads s bl m'.
Proof.
  intros HR Hc E.
  destruct (cell_facts _ _ _ HR _ _ _ Hc) as (F1 & F2 & F3 & F4 & F5 & F6 & F7 & F8 & F9 & F10).
  unfold delete_from_class.
  repeat match goal with |- context [?a =? ?b] =>
    let v := eval vm_compute in (a =? b) in change (a =? b) with v end.
  cbv iota.
  erewrite bind_Ok.
  2:{ erewrite bind_Ok by (apply (PREV_BLKP_cell _ _ _ _ _ _ HR Hc)).
      erewrite bind_Ok by (apply (cell_GET_SIZE _ _ _ HR _ _ _ Hc)). reflexivity. }
  cbn [fst snd]. rewrite delete_cascade. rewrite i32_size by lia.
  apply delete_arm_Rep_full; try assumption. apply bucket_of_range.
Qed.

Lemma delete_from_class_prev s bl fl pv ps la lb :
  Rep s bl fl ->
  In (pv, ps, false) (cells (mem_lo s + 72) bl) ->
  fl (bucket_of ps) = la ++ pv :: lb ->
  exists m', delete_from_class (pv + ps) 1 s = Ok tt (set_mem s m') /\
             Rep (set_mem s m') bl (upd fl (bucket_of ps) (la ++ lb)).
Proof.
  intros H0 H1 H2.
  destruct (delete_from_class_prev_full _ _ _ _ _ _ _ H0 H1 H2) as (m' & R & H & _).
  exists m'. split; assumption.
Qed.

Lemma put_tags_end s x sz a :
  mem_lo s <= x - 4 -> x + sz - 4 <= mem_hi s -> mem_hi s <= 2 ^ 62 -> 0 <= mem_lo s ->
  8 <= sz < 2 ^ 32 - 1 -> sz mod 8 = 0 ->
  bind (PUT (HDRP x) (PACK sz (b2z a)))
       (fun _ => bind (FTRP x) (fun f => PUT f (PACK sz (b2z a)))) s
  = Ok tt (set_mem s (retag (mem s) x sz a)).
Proof.
  intros V1 V2 V3 V4 H H8.
  pose proof (put_tags s x sz a (fun _ => ret tt) V1 V2 V3 V4 H H8) as P.
  unfold ret in P. rewrite <- P. unfold bind.
  destruct (PUT (HDRP x) (PACK sz (b2z a)) s) as [[] s1| |]; try reflexivity.
  destruct (FTRP x s1) as [f s2| |]; try reflexivity.
  destruct (PUT f (PACK sz (b2z a)) s2) as [[] s3| |]; reflexivity.
Qed.

Lemma mod8_sub a b : a mod 8 = 0 -> b mod 8 = 0 -> (a - b) mod 8 = 0.
Proof.
  intros Ha Hb. rewrite Zminus_mod, Ha, Hb. reflexivity.
Qed.

Lemma mod8_add a b : a mod 8 = 0 -> b mod 8 = 0 -> (a + b) mod 8 = 0.
Proof.
  intros Ha Hb. rewrite Zplus_mod, Ha, Hb. reflexivity.
Qed.

(** ** [place] *)

Lemma place_full s l1 csz l2 fl asize :
  Heap s (l1 ++ (csz, false) :: l2) fl ->
  16 <= asize -> asize mod 8 = 0 -> asize <= csz ->
  exists m' fl',
    place (mem_lo s + 72 + total l1) asize s = Ok tt (set_mem s m') /\
    Heap (set_mem s m') (l1 ++ placed csz asize ++ l2) fl' /\
    keeps_payloads s (l1 ++ (csz, false) :: l2) m'.
Proof.
  intros [HR Hcomp Hadj] Ha16 Ha8 Hle.
  set (bp := mem_lo s + 72 + total l1) in *.
  assert (Hc : In (bp, csz, false) (cells (mem_lo s + 72) (l1 ++ (csz, false) :: l2)))
    by apply cells_middle.
  destruct (cell_facts _ _ _ HR _ _ _ Hc) as (F1 & F2 & F3 & F4 & F5 & F6 & F7 & F8 & F9 & F10).
  pose proof (Hcomp _ _ Hc) as Hin. apply in_split in Hin. destruct Hin as (la & lb & E).
  destruct (delete_from_class_self_full _ _ _ _ _ _ _ HR Hc E) as (m1 & D1 & HR1 & K1).
  set (fl1 := upd fl (bucket_of csz) (la ++ lb)) in *.
  set (s1 := set_mem s m1) in *.
  assert (Hnd : NoDup (la ++ bp :: lb))
    by (rewrite <- E; apply (rep_nodup _ _ _ HR); apply bucket_of_range).
  assert (Hsub : forall k y, 0 <= k <= 6 -> In y (fl1 k) -> In y (fl k) /\ y <> bp).
  { intros k y Hk Hy. unfold fl1, upd in Hy.
    destruct (k =? bucket_of csz) eqn:Ek.
    - apply Z.eqb_eq in Ek. subst k. split.
      + rewrite E. apply in_add_mid. assumption.
      + intros ->. apply NoDup_remove_2 in Hnd. contradiction.
    - apply Z.eqb_neq in Ek. split; [assumption|]. intros ->. apply Ek.
      apply (member_bucket _ _ _ HR k (bucket_of csz) bp); try assumption.
      + apply bucket_of_range.
      + rewrite E. apply in_or_app. right. left. reflexivity. }
  assert (Hkeep : forall k y, 0 <= k <= 6 -> In y (fl k) -> y <> bp -> In y (fl1 k)).
  { intros k y Hk Hy Hne. unfold fl1, upd.
    destruct (k =? bucket_of csz) eqn:Ek; [|assumption].
    apply Z.eqb_eq in Ek. subst k. rewrite E in Hy. apply (in_drop_mid y bp); assumption. }
  assert (Hout : forall k y sz, 0 <= k <= 6 -> In y (fl1 k) ->
            ~ In (y, sz, false) (cells (mem_lo s1 + 72 + total l1) [(csz, false)])).
  { intros k y sz Hk Hy [Hy'|[]]. inversion Hy'. apply (Hsub k y Hk Hy). subst. reflexivity. }
  pose proof (rep_tiles _ _ _ HR) as Htl.
  apply tiles_app in Htl. destruct Htl as [T1 T2]. destruct T2 as [_ T3].
  pose proof (tiles_total _ _ _ T1) as N1. pose proof (tiles_total _ _ _ T3) as N3.
  assert (Hff : first_free l2 = false /\ last_free l1 = false /\
                adjacent_free l1 = false /\ adjacent_free l2 = false).
  { change (l1 ++ (csz, false) :: l2) with (l1 ++ [(csz, false)] ++ l2) in Hadj.
    rewrite !adjacent_free_app in Hadj. cbn [adjacent_free last_free first_free negb andb orb] in Hadj.
    destruct (first_free l2), (last_free l1), (adjacent_free l1), (adjacent_free l2);
      try discriminate; repeat split; reflexivity. }
  destruct Hff as (Hf2 & Hf1 & Ha1 & Ha2).
  unfold place.
  rewrite (bind_Ok _ _ _ _ _ (cell_GET_SIZE _ _ _ HR _ _ _ Hc)).
  rewrite (bind_Ok _ _ _ _ _ D1).
  unfold DSIZE, OVERHEAD. rewrite u64_small by lia.
  unfold placed. change (8 + 8) with 16.
  destruct (16 <=? csz - asize) eqn:Esplit.
  - apply Z.leb_le in Esplit.
    change 1 with (b2z true). change 0 with (b2z false).
    rewrite (put_tags s1 bp asize true) by (unfold s1; proj; lia).
    set (m2 := retag (mem s1) bp asize true).
    assert (T2 : tagged m2 bp asize true) by (apply retag_tagged; lia).
    destruct T2 as (_ & _ & T2h & T2f).
    erewrite bind_Ok.
    2:{ unfold NEXT_BLKP, WSIZE. rewrite padd_small by lia.
        erewrite bind_Ok.
        2:{ apply (GET_SIZE_tag _ _ asize true); unfold s1; proj; try lia. exact T2h. }
        unfold ret. rewrite padd_small by lia. reflexivity. }
    pose proof (mod8_sub _ _ F8 Ha8) as Hr8.
    rewrite (put_tags _ (bp + asize) (csz - asize) false)
      by (unfold s1; proj; first [exact Hr8 | lia]).
    proj. fold m2.
    set (m3 := retag m2 (bp + asize) (csz - asize) false).
    assert (HR3 : Rep (set_mem s1 m3) (l1 ++ [(asize, true); (csz - asize, false)] ++ l2) fl1).
    { apply (Rep_retile s1 l1 [(csz, false)] l2 fl1); try assumption.
      - cbn [total]. lia.
      - intros b Hb. unfold s1 in Hb. proj. cbn [total] in Hb. fold bp in Hb.
        unfold m3, m2. rewrite !retag_other by lia. reflexivity.
      - unfold s1. proj. fold bp. cbn [tiles]. split; [|split; [|exact I]].
        + apply (tagged_agree m2); [|apply retag_tagged; lia].
          intros b Hb. unfold m3. apply retag_other; lia.
        + apply retag_tagged; [lia | exact Hr8]. }
    assert (K3 : keeps_payloads s1 (l1 ++ [(csz, false)] ++ l2) m3).
    { apply (keeps_retile s1 l1 [(csz, false)] l2 fl1 m3 HR1);
        [|reflexivity|apply no_alloc_1].
      intros b Hb. unfold s1 in Hb. proj. cbn [total] in Hb. fold bp in Hb.
      unfold m3, m2. rewrite !retag_other by lia. reflexivity. }
    assert (Hc3 : In (bp + asize, csz - asize, false)
                     (cells (mem_lo s + 72) (l1 ++ [(asize, true); (csz - asize, false)] ++ l2))).
    { rewrite cells_app. apply in_or_app. right. cbn [app cells]. right. left.
      fold bp. reflexivity. }
    assert (Hn3 : ~ In (bp + asize) (fl1 (bucket_of (csz - asize)))).
    { intros Hy.
      pose proof (members_outside s1 l1 [(csz, false)] l2 fl1 HR1 Hout _ _
                    (bucket_of_range _) Hy) as Ho.
      unfold s1 in Ho. proj. cbn [total] in Ho. fold bp in Ho. lia. }
    destruct (append_arm_full _ _ _ _ _ _ HR3 (bucket_of_range _) Hc3 eq_refl Hn3)
      as (m4 & A4 & HR4 & K4).
    rewrite append_to_class_arm. rewrite i32_size by lia.
    unfold s1 in *. rewrite !set_mem_set_mem in *. fold m3. rewrite A4.
    exists m4. eexists. split; [reflexivity|].
    split.
    2:{ apply (keeps_trans s _ m3 (l1 ++ [(asize, true); (csz - asize, false)] ++ l2));
          [|intros x sz Hx|exact K4].
        - apply (keeps_trans s _ m1 (l1 ++ [(csz, false)] ++ l2));
            [exact K1 | intros; assumption | exact K3].
        - apply (allocs_retile _ l1 [(csz, false)]);
            [cbn [total]; lia | apply no_alloc_1 | exact Hx]. }
    constructor; [exact HR4| |].
    + proj. intros y sz Hy.
      rewrite cells_app in Hy. apply in_app_or in Hy.
      unfold upd. destruct (bucket_of sz =? bucket_of (csz - asize)) eqn:Ek.
      * destruct Hy as [Hy|Hy].
        -- right. apply Z.eqb_eq in Ek. rewrite <- Ek. apply Hkeep; [apply bucket_of_range| |].
           ++ apply Hcomp. rewrite cells_app. apply in_or_app. left. assumption.
           ++ destruct (cells_inside _ _ _ _ _ _ T1 Hy) as (_ & ? & ? & _). fold bp in H. lia.
        -- cbn [app cells] in Hy. destruct Hy as [Hy|[Hy|Hy]].
           ++ inversion Hy.
           ++ inversion Hy; subst. left. reflexivity.
           ++ right. apply Z.eqb_eq in Ek. rewrite <- Ek. apply Hkeep; [apply bucket_of_range| |].
              ** apply Hcomp. rewrite cells_app. apply in_or_app. right. right.
                 replace (mem_lo s + 72 + total l1 + csz)
                   with (mem_lo s + 72 + total l1 + asize + (csz - asize)) by lia. assumption.
              ** replace (mem_lo s + 72 + total l1 + asize + (csz - asize)) with (bp + csz) in Hy
                   by (unfold bp; lia).
                 destruct (cells_inside _ _ _ _ _ _ T3 Hy) as (? & _). fold bp in H. lia.
      * destruct Hy as [Hy|Hy].
        -- apply Hkeep; [apply bucket_of_range| |].
           ++ apply Hcomp. rewrite cells_app. apply in_or_app. left. assumption.
           ++ destruct (cells_inside _ _ _ _ _ _ T1 Hy) as (_ & ? & ? & _). fold bp in H. lia.
        -- cbn [app cells] in Hy. destruct Hy as [Hy|[Hy|Hy]].
           ++ inversion Hy.
           ++ inversion Hy; subst. rewrite Z.eqb_refl in Ek. discriminate.
           ++ apply Hkeep; [apply bucket_of_range| |].
              ** apply Hcomp. rewrite cells_app. apply in_or_app. right. right.
                 replace (mem_lo s + 72 + total l1 + csz)
                   with (mem_lo s + 72 + total l1 + asize + (csz - asize)) by lia. assumption.
              ** replace (mem_lo s + 72 + total l1 + asize + (csz - asize)) with (bp + csz) in Hy
                   by (unfold bp; lia).
                 destruct (cells_inside _ _ _ _ _ _ T3 Hy) as (? & _). fold bp in H. lia.
    + rewrite !adjacent_free_app. cbn [adjacent_free last_free first_free negb andb orb].
      rewrite Hf2, Ha1, Ha2. destruct (last_free l1); reflexivity.
  - apply Z.leb_gt in Esplit.
    change 1 with (b2z true).
    rewrite (put_tags_end s1 bp csz true) by (unfold s1; proj; lia).
    set (m2 := retag (mem s1) bp csz true).
    unfold s1. rewrite set_mem_set_mem.
    exists m2, fl1. split; [reflexivity|].
    assert (HR3 : Rep (set_mem s1 m2) (l1 ++ [(csz, true)] ++ l2) fl1).
    { apply (Rep_retile s1 l1 [(csz, false)] l2 fl1); try assumption.
      - reflexivity.
      - intros b Hb. unfold s1 in Hb. proj. cbn [total] in Hb. fold bp in Hb.
        unfold m2. rewrite !retag_other by lia. reflexivity.
      - unfold s1. proj. fold bp. cbn [tiles]. split; [|exact I].
        apply retag_tagged; [lia | assumption]. }
    assert (K3 : keeps_payloads s1 (l1 ++ [(csz, false)] ++ l2) m2).
    { apply (keeps_retile s1 l1 [(csz, false)] l2 fl1 m2 HR1);
        [|reflexivity|apply no_alloc_1].
      intros b Hb. unfold s1 in Hb. proj. cbn [total] in Hb. fold bp in Hb.
      unfold m2. rewrite !retag_other by lia. reflexivity. }
    unfold s1 in HR3. rewrite set_mem_set_mem in HR3.
    split.
    2:{ apply (keeps_trans s _ m1 (l1 ++ [(csz, false)] ++ l2));
          [exact K1 | intros; assumption | exact K3]. }
    constructor; [exact HR3| |].
    + proj. intros y sz Hy.
      rewrite cells_app in Hy. apply in_app_or in Hy.
      destruct Hy as [Hy|Hy].
      * apply Hkeep; [apply bucket_of_range| |].
        -- apply Hcomp. rewrite cells_app. apply in_or_app. left. assumption.
        -- destruct (cells_inside _ _ _ _ _ _ T1 Hy) as (_ & ? & ? & _). fold bp in H. lia.
      * cbn [app cells] in Hy. destruct Hy as [Hy|Hy].
        -- inversion Hy.
        -- apply Hkeep; [apply bucket_of_range| |].
           ++ apply Hcomp. rewrite cells_app. apply in_or_app. right. right. assumption.
           ++ destruct (cells_inside _ _ _ _ _ _ T3 Hy) as (? & _). fold bp in H. lia.
    + rewrite !adjacent_free_app. cbn [adjacent_free last_free first_free negb andb orb].
      rewrite Ha1, Ha2. destruct (last_free l1); reflexivity.
Qed.

Lemma place_spec s l1 csz l2 fl asize :
  Heap s (l1 ++ (csz, false) :: l2) fl ->
  16 <= asize -> asize mod 8 = 0 -> asize <= csz ->
  exists m' fl',
    place (mem_lo s + 72 + total l1) asize s = Ok tt (set_mem s m') /\
    Heap (set_mem s m') (l1 ++ placed csz asize ++ l2) fl'.
Proof.
  intros HH H16 H8 Hle.
  destruct (place_full _ _ _ _ _ _ HH H16 H8 Hle) as (m' & fl' & R & H & _).
  exists m', fl'. split; assumption.
Qed.

(** ** Coalescing *)

Lemma take_last_free_cons sz a b r :
  take_last_free ((sz, a) :: b :: r)
  = (let (r', p) := take_last_free (b :: r) in ((sz, a) :: r', p)).
Proof. reflexivity. Qed.

Lemma take_last_free_snoc l ps : take_last_free (l ++ [(ps, false)]) = (l, ps).
Proof.
  induction l as [|[sz a] l IH]; [reflexivity|].
  cbn [app].
  assert (E : exists b r, l ++ [(ps, false)] = b :: r)
    by (destruct l; eexists; eexists; reflexivity).
  destruct E as (b & r & E). rewrite E, take_last_free_cons, <- E, IH. reflexivity.
Qed.

Lemma take_last_free_none l : last_free l = false -> take_last_free l = (l, 0).
Proof.
  induction l as [|[sz a] l IH]; [reflexivity|].
  destruct l as [|b l'].
  - cbn [last_free take_last_free]. destruct a; [reflexivity|discriminate].
  - rewrite last_free_cons. intros H. rewrite take_last_free_cons, (IH H). reflexivity.
Qed.

Lemma last_free_snoc l sz a : last_free (l ++ [(sz, a)]) = negb a.
Proof. rewrite last_free_app. reflexivity. Qed.

Lemma layout_last_case (l : layout) :
  last_free l = false \/ exists l' ps, l = l' ++ [(ps, false)].
Proof.
  destruct l as [|b l] using rev_ind; [left; reflexivity|].
  destruct b as [ps [|]].
  - left. apply last_free_snoc.
  - right. exists l, ps. reflexivity.
Qed.

Lemma layout_first_case (l : layout) :
  first_free l = false \/ exists ns l', l = (ns, false) :: l'.
Proof.
  destruct l as [|[ns [|]] l']; [left; reflexivity | left; reflexivity |].
  right. exists ns, l'. reflexivity.
Qed.

Lemma prev_block_reads s bl fl pv ps pa :
  Rep s bl fl ->
  In (pv, ps, pa) (cells (mem_lo s + 72) bl) ->
  PREV_BLKP (pv + ps) s = Ok pv s /\
  FTRP pv s = Ok (pv + ps - 8) s /\
  GET_ALLOC (pv + ps - 8) s = Ok (b2z pa) s.
Proof.
  intros HR Hc.
  destruct (cell_facts _ _ _ HR _ _ _ Hc) as (F1 & F2 & F3 & F4 & F5 & F6 & F7 & F8 & F9 & F10).
  split; [apply (PREV_BLKP_cell _ _ _ _ _ _ HR Hc)|].
  split; [apply (cell_FTRP _ _ _ HR _ _ _ Hc)|].
  apply (GET_ALLOC_tag _ _ ps); try assumption; lia.
Qed.

Lemma prologue_reads s bl fl :
  Rep s bl fl ->
  PREV_BLKP (mem_lo s + 72) s = Ok (mem_lo s + 64) s /\
  FTRP (mem_lo s + 64) s = Ok (mem_lo s + 64) s /\
  GET_ALLOC (mem_lo s + 64) s = Ok 1 s.
Proof.
  intros HR.
  pose proof (rep_room _ _ _ HR). pose proof (rep_lo _ _ _ HR).
  pose proof (rep_hi _ _ _ HR). pose proof (rep_brk _ _ _ HR).
  pose proof (tiles_total _ _ _ (rep_tiles _ _ _ HR)).
  destruct (rep_prologue _ _ _ HR) as [P1 P2].
  split; [|split].
  - unfold PREV_BLKP, DSIZE. rewrite padd_small by lia.
    erewrite bind_Ok.
    2:{ apply (GET_SIZE_tag _ _ 8 true); try lia; [|reflexivity].
        replace (mem_lo s + 72 + - (8)) with (mem_lo s + 64) by lia. exact P2. }
    unfold ret. rewrite padd_small by lia. f_equal. lia.
  - unfold FTRP. rewrite HDRP_small by lia.
    erewrite bind_Ok.
    2:{ apply (GET_SIZE_tag _ _ 8 true); try lia; [|reflexivity].
        replace (mem_lo s + 64 - 4) with (mem_lo s + 60) by lia. exact P1. }
    unfold ret, DSIZE. change (u32 (8 - 8)) with 0. rewrite padd_small by lia.
    f_equal. lia.
  - apply (GET_ALLOC_tag _ _ 8 true); try lia; [exact P2|reflexivity].
Qed.

Lemma coalesce_reads s l1 sz a l2 fl :
  Rep s (l1 ++ (sz, a) :: l2) fl ->
  coalesce (mem_lo s + 72 + total l1) s
  = coalesce_cases (mem_lo s + 72 + total l1)
      (b2z (negb (last_free l1))) (b2z (negb (first_free l2))) sz s.
Proof.
  intros HR.
  set (bp := mem_lo s + 72 + total l1).
  assert (Hc : In (bp, sz, a) (cells (mem_lo s + 72) (l1 ++ (sz, a) :: l2)))
    by apply cells_middle.
  destruct (cell_facts _ _ _ HR _ _ _ Hc) as (F1 & F2 & F3 & F4 & F5 & F6 & F7 & F8 & F9 & F10).
  pose proof (rep_brk _ _ _ HR) as Hbrk. rewrite total_app in Hbrk. cbn [total] in Hbrk.
  assert (Hprev : exists pv pf, PREV_BLKP bp s = Ok pv s /\ FTRP pv s = Ok pf s /\
                    GET_ALLOC pf s = Ok (b2z (negb (last_free l1))) s).
  { destruct l1 as [|b l1'] using rev_ind.
    - destruct (prologue_reads _ _ _ HR) as (P1 & P2 & P3).
      exists (mem_lo s + 64), (mem_lo s + 64). unfold bp. cbn [total last_free negb b2z].
      replace (mem_lo s + 72 + 0) with (mem_lo s + 72) by lia. tauto.
    - clear IHl1'. destruct b as [ps pa].
      assert (Hp : In (mem_lo s + 72 + total l1', ps, pa)
                      (cells (mem_lo s + 72) ((l1' ++ [(ps, pa)]) ++ (sz, a) :: l2))).
      { rewrite <- app_assoc. apply cells_middle. }
      destruct (prev_block_reads _ _ _ _ _ _ HR Hp) as (P1 & P2 & P3).
      exists (mem_lo s + 72 + total l1'), (mem_lo s + 72 + total l1' + ps - 8).
      unfold bp. rewrite total_app. cbn [total].
      replace (mem_lo s + 72 + (total l1' + (ps + 0))) with (mem_lo s + 72 + total l1' + ps) by lia.
      rewrite last_free_snoc, Bool.negb_involutive. tauto. }
  destruct Hprev as (pv & pf & P1 & P2 & P3).
  assert (Hnext : GET_ALLOC (HDRP (bp + sz)) s = Ok (b2z (negb (first_free l2))) s).
  { destruct l2 as [|[ns na] l2'].
    - cbn [first_free negb b2z total] in *.
      rewrite HDRP_small by lia.
      apply (GET_ALLOC_tag _ _ 0 true); try lia; [|reflexivity].
      replace (bp + sz - 4) with (mem_brk s - 4) by (unfold bp; lia).
      apply (rep_epilogue _ _ _ HR).
    - cbn [first_free]. rewrite Bool.negb_involutive.
      assert (Hn : In (bp + sz, ns, na) (cells (mem_lo s + 72) (l1 ++ (sz, a) :: (ns, na) :: l2'))).
      { replace (l1 ++ (sz, a) :: (ns, na) :: l2') with ((l1 ++ [(sz, a)]) ++ (ns, na) :: l2')
          by (rewrite <- app_assoc; reflexivity).
        replace (bp + sz) with (mem_lo s + 72 + total (l1 ++ [(sz, a)]))
          by (rewrite total_app; cbn [total]; unfold bp; lia).
        apply cells_middle. }
      apply (cell_GET_ALLOC _ _ _ HR _ _ _ Hn). }
  unfold coalesce. fold bp.
  rewrite (bind_Ok _ _ _ _ _ P1), (bind_Ok _ _ _ _ _ P2), (bind_Ok _ _ _ _ _ P3).
  rewrite (bind_Ok _ _ _ _ _ (cell_NEXT_BLKP _ _ _ HR _ _ _ Hc)).
  rewrite (bind_Ok _ _ _ _ _ Hnext).
  rewrite (bind_Ok _ _ _ _ _ (cell_GET_SIZE _ _ _ HR _ _ _ Hc)).
  reflexivity.
Qed.

Lemma upd_cons_keep fl k b j x : In x (fl j) -> In x (upd fl k (b :: fl k) j).
Proof.
  intros H. unfold upd. destruct (j =? k) eqn:E; [|assumption].
  apply Z.eqb_eq in E. subst j. right. assumption.
Qed.

Lemma upd_cons_new fl k b : In b (upd fl k (b :: fl k) k).
Proof. rewrite upd_same. left. reflexivity. Qed.

(** Case 1: both neighbours allocated. *)
Lemma coalesce_case1_full s l1 sz l2 fl :
  Pending s l1 sz l2 fl -> last_free l1 = false -> first_free l2 = false ->
  exists m' fl',
    coalesce_cases (mem_lo s + 72 + total l1) 1 1 sz s
    = Ok (mem_lo s + 72 + total l1) (set_mem s m') /\
    Heap (set_mem s m') (l1 ++ (sz, false) :: l2) fl' /\
    keeps_payloads s (l1 ++ (sz, false) :: l2) m' /\
    hd NULL (fl' (bucket_of sz)) = mem_lo s + 72 + total l1.
Proof.
  intros [HR Hout Hcomp Hl Hr] Hlf Hff.
  set (bp := mem_lo s + 72 + total l1) in *.
  assert (Hc : In (bp, sz, false) (cells (mem_lo s + 72) (l1 ++ (sz, false) :: l2)))
    by apply cells_middle.
  destruct (cell_facts _ _ _ HR _ _ _ Hc) as (F1 & F2 & F3 & F4 & F5 & F6 & F7 & F8 & F9 & F10).
  destruct (append_arm_full _ _ _ _ _ _ HR (bucket_of_range _) Hc eq_refl
              (Hout _ (bucket_of_range _))) as (m1 & A1 & HR1 & K1).
  unfold coalesce_cases. change (negb (1 =? 0) && negb (1 =? 0)) with true. cbv iota.
  rewrite append_to_class_arm, i32_size by lia.
  rewrite (bind_Ok _ _ _ _ _ A1). unfold ret.
  exists m1, (upd fl (bucket_of sz) (bp :: fl (bucket_of sz))). split; [reflexivity|].
  split; [|split; [exact K1 | rewrite upd_same; reflexivity]].
  constructor; [exact HR1| |].
  - proj. intros x sz' Hx. destruct (Z.eq_dec x bp) as [->|Hne].
    + destruct (cell_size_unique _ _ _ HR _ _ _ _ _ Hx Hc) as [-> _]. apply upd_cons_new.
    + apply upd_cons_keep. apply Hcomp; assumption.
  - change (l1 ++ (sz, false) :: l2) with (l1 ++ [(sz, false)] ++ l2).
    rewrite !adjacent_free_app. cbn [adjacent_free last_free first_free negb andb orb].
    rewrite Hl, Hr, Hlf, Hff. reflexivity.
Qed.

Lemma coalesce_case1 s l1 sz l2 fl :
  Pending s l1 sz l2 fl -> last_free l1 = false -> first_free l2 = false ->
  exists m' fl',
    coalesce_cases (mem_lo s + 72 + total l1) 1 1 sz s
    = Ok (mem_lo s + 72 + total l1) (set_mem s m') /\
    Heap (set_mem s m') (l1 ++ (sz, false) :: l2) fl'.
Proof.
  intros HP Hlf Hff.
  destruct (coalesce_case1_full _ _ _ _ _ HP Hlf Hff) as (m' & fl' & C & HH & _).
  exists m', fl'. split; assumption.
Qed.

(** Case 2: the next block is free. *)
Lemma coalesce_case2_full s l1 sz ns l2 fl :
  Pending s l1 sz ((ns, false) :: l2) fl -> last_free l1 = false ->
  exists m' fl',
    coalesce_cases (mem_lo s + 72 + total l1) 1 0 sz s
    = Ok (mem_lo s + 72 + total l1) (set_mem s m') /\
    Heap (set_mem s m') (l1 ++ (sz + ns, false) :: l2) fl' /\
    keeps_payloads s (l1 ++ (sz, false) :: (ns, false) :: l2) m' /\
    hd NULL (fl' (bucket_of (sz + ns))) = mem_lo s + 72 + total l1.
Proof.
  intros [HR Hout Hcomp Hl Hr] Hlf.
  set (bp := mem_lo s + 72 + total l1) in *.
  assert (Hc : In (bp, sz, false) (cells (mem_lo s + 72) (l1 ++ (sz, false) :: (ns, false) :: l2)))
    by apply cells_middle.
  assert (Hn : In (bp + sz, ns, false)
                  (cells (mem_lo s + 72) (l1 ++ (sz, false) :: (ns, false) :: l2))).
  { replace (l1 ++ (sz, false) :: (ns, false) :: l2)
      with ((l1 ++ [(sz, false)]) ++ (ns, false) :: l2) by (rewrite <- app_assoc; reflexivity).
    replace (bp + sz) with (mem_lo s + 72 + total (l1 ++ [(sz, false)]))
      by (rewrite total_app; cbn [total]; unfold bp; lia).
    apply cells_middle. }
  destruct (cell_facts _ _ _ HR _ _ _ Hc) as (F1 & F2 & F3 & F4 & F5 & F6 & F7 & F8 & F9 & F10).
  destruct (cell_facts _ _ _ HR _ _ _ Hn) as (G1 & G2 & _ & _ & _ & _ & G7 & G8 & G9 & G10).
  assert (Hnb : bp + sz <> bp) by lia.
  pose proof (Hcomp _ _ Hn Hnb) as Hin. apply in_split in Hin. destruct Hin as (la & lb & E).
  destruct (delete_from_class_next_full _ _ _ _ _ _ _ _ _ HR Hc Hn E) as (m1 & D1 & HR1 & K1).
  set (fl1 := upd fl (bucket_of ns) (la ++ lb)) in *.
  set (s1 := set_mem s m1) in *.
  assert (Hnd : NoDup (la ++ (bp + sz) :: lb))
    by (rewrite <- E; apply (rep_nodup _ _ _ HR); apply bucket_of_range).
  assert (Hsub : forall k y, 0 <= k <= 6 -> In y (fl1 k) ->
            In y (fl k) /\ y <> bp + sz /\ y <> bp).
  { intros k y Hk Hy. unfold fl1, upd in Hy.
    assert (Hyk : In y (fl k) /\ y <> bp + sz).
    { destruct (k =? bucket_of ns) eqn:Ek.
      - apply Z.eqb_eq in Ek. subst k. split.
        + rewrite E. apply in_add_mid. assumption.
        + intros ->. apply NoDup_remove_2 in Hnd. contradiction.
      - apply Z.eqb_neq in Ek. split; [assumption|]. intros ->. apply Ek.
        apply (member_bucket _ _ _ HR k (bucket_of ns) (bp + sz)); try assumption.
        + apply bucket_of_range.
        + rewrite E. apply in_or_app. right. left. reflexivity. }
    destruct Hyk as [Hy1 Hy2]. repeat split; try assumption.
    intros ->. apply (Hout k Hk). assumption. }
  assert (Hkeep : forall k y, 0 <= k <= 6 -> In y (fl k) -> y <> bp + sz -> In y (fl1 k)).
  { intros k y Hk Hy Hne. unfold fl1, upd.
    destruct (k =? bucket_of ns) eqn:Ek; [|assumption].
    apply Z.eqb_eq in Ek. subst k. rewrite E in Hy. apply (in_drop_mid y (bp + sz)); assumption. }
  assert (Hout1 : forall k y sz0, 0 <= k <= 6 -> In y (fl1 k) ->
            ~ In (y, sz0, false) (cells (mem_lo s1 + 72 + total l1) [(sz, false); (ns, false)])).
  { intros k y sz0 Hk Hy Hy'. destruct (Hsub k y Hk Hy) as (_ & N1 & N2).
    unfold s1 in Hy'. proj. fold bp in Hy'. cbn [cells] in Hy'.
    destruct Hy' as [Hy'|[Hy'|[]]]; inversion Hy'; congruence. }
  pose proof (rep_tiles _ _ _ HR) as Htl.
  apply tiles_app in Htl. destruct Htl as [T1 T2]. destruct T2 as [_ [_ T3]].
  pose proof (tiles_total _ _ _ T1) as N1. pose proof (tiles_total _ _ _ T3) as N3.
  assert (Hff : first_free l2 = false /\ adjacent_free l2 = false).
  { cbn [adjacent_free] in Hr. destruct l2 as [|[? [|]] ?]; cbn [first_free negb andb orb] in *;
      try discriminate; split; try reflexivity; assumption. }
  destruct Hff as (Hf2 & Ha2).
  pose proof (mod8_add _ _ F8 G8) as H8.
  unfold coalesce_cases.
  change (negb (1 =? 0) && negb (0 =? 0)) with false.
  change (negb (1 =? 0) && (0 =? 0)) with true. cbv iota.
  rewrite (bind_Ok _ _ _ _ _ (cell_NEXT_BLKP _ _ _ HR _ _ _ Hc)).
  rewrite (bind_Ok _ _ _ _ _ (cell_GET_SIZE _ _ _ HR _ _ _ Hn)).
  rewrite (i32_size ns) by lia. rewrite (u32_small (sz + ns)) by lia.
  rewrite (bind_Ok _ _ _ _ _ D1).
  change 0 with (b2z false) at 1 2.
  rewrite (put_tags s1 bp (sz + ns) false) by (unfold s1; proj; first [exact H8 | lia]).
  set (m2 := retag (mem s1) bp (sz + ns) false).
  assert (HR2 : Rep (set_mem s1 m2) (l1 ++ [(sz + ns, false)] ++ l2) fl1).
  { apply (Rep_retile s1 l1 [(sz, false); (ns, false)] l2 fl1); try assumption.
    - cbn [total]. lia.
    - intros b Hb. unfold s1 in Hb. proj. cbn [total] in Hb. fold bp in Hb.
      unfold m2. rewrite !retag_other by lia. reflexivity.
    - unfold s1. proj. fold bp. cbn [tiles]. split; [|exact I].
      apply retag_tagged; [lia | exact H8]. }
  assert (K2 : keeps_payloads s1 (l1 ++ [(sz, false); (ns, false)] ++ l2) m2).
  { apply (keeps_retile s1 l1 [(sz, false); (ns, false)] l2 fl1 m2 HR1);
      [|reflexivity|apply no_alloc_2].
    intros b Hb. unfold s1 in Hb. proj. cbn [total] in Hb. fold bp in Hb.
    unfold m2. rewrite !retag_other by lia. reflexivity. }
  assert (Hc2 : In (bp, sz + ns, false) (cells (mem_lo s + 72) (l1 ++ [(sz + ns, false)] ++ l2)))
    by apply cells_middle.
  assert (Hn2 : ~ In bp (fl1 (bucket_of (sz + ns)))).
  { intros Hy. destruct (Hsub _ _ (bucket_of_range _) Hy) as (_ & _ & N). congruence. }
  destruct (append_arm_full _ _ _ _ _ _ HR2 (bucket_of_range _) Hc2 eq_refl Hn2)
    as (m3 & A3 & HR3 & K3).
  rewrite append_to_class_arm, i32_size by lia.
  unfold s1 in *. rewrite !set_mem_set_mem in *. rewrite (bind_Ok _ _ _ _ _ A3). unfold ret.
  exists m3, (upd fl1 (bucket_of (sz + ns)) (bp :: fl1 (bucket_of (sz + ns)))).
  split; [reflexivity|].
  split; [|split; [|rewrite upd_same; reflexivity]].
  2:{ apply (keeps_trans s _ m2 (l1 ++ [(sz + ns, false)] ++ l2));
        [|intros x sz0 Hx|exact K3].
      - apply (keeps_trans s _ m1 (l1 ++ [(sz, false); (ns, false)] ++ l2));
          [exact K1 | intros; assumption | exact K2].
      - apply (allocs_retile _ l1 [(sz, false); (ns, false)]);
          [cbn [total]; lia | apply no_alloc_2 | exact Hx]. }
  constructor; [exact HR3| |].
  - proj. intros y sz0 Hy.
    destruct (Z.eq_dec y bp) as [->|Hne].
    + destruct (cell_size_unique _ _ _ HR2 _ _ _ _ _ Hy Hc2) as [-> _]. apply upd_cons_new.
    + apply upd_cons_keep.
      rewrite cells_app in Hy. apply in_app_or in Hy. destruct Hy as [Hy|Hy].
      * apply Hkeep; [apply bucket_of_range| |].
        -- apply Hcomp; [|assumption]. rewrite cells_app. apply in_or_app. left. assumption.
        -- destruct (cells_inside _ _ _ _ _ _ T1 Hy) as (_ & ? & ? & _). fold bp in H. lia.
      * cbn [app cells] in Hy.
        destruct Hy as [Hy|Hy];
          [injection Hy as Ey _; exfalso; apply Hne; symmetry; exact Ey|].
        apply Hkeep; [apply bucket_of_range| |].
        -- apply Hcomp; [|assumption]. rewrite cells_app. apply in_or_app. right. right. right.
           replace (mem_lo s + 72 + total l1 + sz + ns)
             with (mem_lo s + 72 + total l1 + (sz + ns)) by lia. assumption.
        -- fold bp in Hy. replace (bp + (sz + ns)) with (bp + sz + ns) in Hy by lia.
           destruct (cells_inside _ _ _ _ _ _ T3 Hy) as (? & _). fold bp in H. lia.
  - rewrite !adjacent_free_app. cbn [adjacent_free last_free first_free negb andb orb].
    fold (first_free l2).
    rewrite Hl, Ha2, Hlf, Hf2. reflexivity.
Qed.

Lemma coalesce_case2 s l1 sz ns l2 fl :
  Pending s l1 sz ((ns, false) :: l2) fl -> last_free l1 = false ->
  exists m' fl',
    coalesce_cases (mem_lo s + 72 + total l1) 1 0 sz s
    = Ok (mem_lo s + 72 + total l1) (set_mem s m') /\
    Heap (set_mem s m') (l1 ++ (sz + ns, false) :: l2) fl'.
Proof.
  intros HP Hlf.
  destruct (coalesce_case2_full _ _ _ _ _ _ HP Hlf) as (m' & fl' & C & HH & _).
  exists m', fl'. split; assumption.
Qed.

Lemma deleted_lists s bl fl k0 la d lb :
  Rep s bl fl -> 0 <= k0 <= 6 -> fl k0 = la ++ d :: lb ->
  (forall k y, 0 <= k <= 6 -> In y (upd fl k0 (la ++ lb) k) -> In y (fl k) /\ y <> d) /\
  (forall k y, 0 <= k <= 6 -> In y (fl k) -> y <> d -> In y (upd fl k0 (la ++ lb) k)).
Proof.
  intros HR Hk0 E.
  assert (Hnd : NoDup (la ++ d :: lb)) by (rewrite <- E; apply (rep_nodup _ _ _ HR); assumption).
  split.
  - intros k y Hk Hy. unfold upd in Hy. destruct (k =? k0) eqn:Ek.
    + apply Z.eqb_eq in Ek. subst k. split.
      * rewrite E. apply in_add_mid. assumption.
      * intros ->. apply NoDup_remove_2 in Hnd. contradiction.
    + apply Z.eqb_neq in Ek. split; [assumption|]. intros ->. apply Ek.
      apply (member_bucket _ _ _ HR k k0 d); try assumption.
      rewrite E. apply in_or_app. right. left. reflexivity.
  - intros k y Hk Hy Hne. unfold upd. destruct (k =? k0) eqn:Ek; [|assumption].
    apply Z.eqb_eq in Ek. subst k. rewrite E in Hy. apply (in_drop_mid y d); assumption.
Qed.

Lemma PREV_BLKP_raw s bp ps pa :
  mem_lo s <= bp - 8 -> bp <= mem_hi s -> mem_hi s <= 2 ^ 62 -> 0 <= mem_lo s ->
  load32 (mem s) (bp - 8) = ps + b2z pa -> 0 <= ps <= bp -> ps < 2 ^ 31 -> ps mod 8 = 0 ->
  PREV_BLKP bp s = Ok (bp - ps) s.
Proof.
  intros. unfold PREV_BLKP, DSIZE. rewrite padd_small by lia.
  erewrite bind_Ok.
  2:{ apply (GET_SIZE_tag _ _ ps pa); try lia.
      replace (bp + - (8)) with (bp - 8) by lia. assumption. }
  unfold ret. rewrite padd_small by lia. f_equal.
Qed.

(** Case 3: the previous block is free. *)
Lemma coalesce_case3_full s l1 ps sz l2 fl :
  Pending s (l1 ++ [(ps, false)]) sz l2 fl -> first_free l2 = false ->
  exists m' fl',
    coalesce_cases (mem_lo s + 72 + total (l1 ++ [(ps, false)])) 0 1 sz s
    = Ok (mem_lo s + 72 + total l1) (set_mem s m') /\
    Heap (set_mem s m') (l1 ++ (ps + sz, false) :: l2) fl' /\
    keeps_payloads s (l1 ++ (ps, false) :: (sz, false) :: l2) m' /\
    hd NULL (fl' (bucket_of (ps + sz))) = mem_lo s + 72 + total l1.
Proof.
  intros [HR Hout Hcomp Hl Hr] Hff.
  rewrite total_app in *. cbn [total] in *.
  set (pv := mem_lo s + 72 + total l1) in *.
  replace (mem_lo s + 72 + (total l1 + (ps + 0))) with (pv + ps) in * by (unfold pv; lia).
  rewrite <- app_assoc in HR, Hcomp. cbn [app] in HR, Hcomp.
  assert (Hp : In (pv, ps, false) (cells (mem_lo s + 72) (l1 ++ (ps, false) :: (sz, false) :: l2)))
    by apply cells_middle.
  assert (Hc : In (pv + ps, sz, false)
                  (cells (mem_lo s + 72) (l1 ++ (ps, false) :: (sz, false) :: l2))).
  { replace (l1 ++ (ps, false) :: (sz, false) :: l2)
      with ((l1 ++ [(ps, false)]) ++ (sz, false) :: l2) by (rewrite <- app_assoc; reflexivity).
    replace (pv + ps) with (mem_lo s + 72 + total (l1 ++ [(ps, false)]))
      by (rewrite total_app; cbn [total]; unfold pv; lia).
    apply cells_middle. }
  destruct (cell_facts _ _ _ HR _ _ _ Hc) as (F1 & F2 & F3 & F4 & F5 & F6 & F7 & F8 & F9 & F10).
  destruct (cell_facts _ _ _ HR _ _ _ Hp) as (G1 & G2 & _ & _ & _ & _ & G7 & G8 & G9 & G10).
  assert (Hpb : pv <> pv + ps) by lia.
  pose proof (Hcomp _ _ Hp Hpb) as Hin. apply in_split in Hin. destruct Hin as (la & lb & E).
  destruct (delete_from_class_prev_full _ _ _ _ _ _ _ HR Hp E) as (m1 & D1 & HR1 & K1).
  destruct (deleted_lists _ _ _ _ _ _ _ HR (bucket_of_range _) E) as [Hsub Hkeep].
  set (fl1 := upd fl (bucket_of ps) (la ++ lb)) in *.
  set (s1 := set_mem s m1) in *.
  assert (Hout1 : forall k y sz0, 0 <= k <= 6 -> In y (fl1 k) ->
            ~ In (y, sz0, false) (cells (mem_lo s1 + 72 + total l1) [(ps, false); (sz, false)])).
  { intros k y sz0 Hk Hy Hy'. destruct (Hsub k y Hk Hy) as (Hy1 & N1).
    unfold s1 in Hy'. proj. fold pv in Hy'. cbn [cells] in Hy'.
    destruct Hy' as [Hy'|[Hy'|[]]]; injection Hy' as Ey _.
    - apply N1. symmetry. exact Ey.
    - apply (Hout k Hk). rewrite Ey. assumption. }
  pose proof (rep_tiles _ _ _ HR) as Htl.
  apply tiles_app in Htl. destruct Htl as [T1 T2]. destruct T2 as [_ [_ T3]].
  pose proof (tiles_total _ _ _ T1) as N1. pose proof (tiles_total _ _ _ T3) as N3.
  assert (Hlf : last_free l1 = false /\ adjacent_free l1 = false).
  { rewrite adjacent_free_app in Hl. cbn [adjacent_free first_free negb andb orb] in Hl.
    destruct (last_free l1), (adjacent_free l1); try discriminate. split; reflexivity. }
  destruct Hlf as (Hlf & Ha1).
  pose proof (mod8_add _ _ G8 F8) as H8.
  unfold coalesce_cases.
  change (negb (0 =? 0) && negb (1 =? 0)) with false.
  change (negb (0 =? 0) && (1 =? 0)) with false.
  change ((0 =? 0) && negb (1 =? 0)) with true. cbv iota.
  rewrite (bind_Ok _ _ _ _ _ (PREV_BLKP_cell _ _ _ _ _ _ HR Hp)).
  rewrite (bind_Ok _ _ _ _ _ (cell_GET_SIZE _ _ _ HR _ _ _ Hp)).
  rewrite (i32_size ps) by lia. rewrite (u32_small (sz + ps)) by lia.
  rewrite (bind_Ok _ _ _ _ _ D1).
  rewrite (bind_Ok _ _ _ _ _ (cell_FTRP _ _ _ HR1 _ _ _ Hc)).
  unfold PACK. rewrite Z.lor_0_r.
  erewrite bind_Ok by (apply PUT_ok; unfold s1; proj; lia).
  set (m2 := store32 (mem s1) (pv + ps + sz - 8) (sz + ps)).
  erewrite bind_Ok.
  2:{ apply (PREV_BLKP_raw _ _ ps false); unfold s1; proj; try lia.
      unfold m2. rewrite load32_store32_other by lia.
      destruct (cell_facts _ _ _ HR1 _ _ _ Hp) as (_ & _ & _ & _ & _ & _ & _ & _ & _ & Q).
      exact Q. }
  replace (pv + ps - ps) with pv by lia.
  rewrite HDRP_small by lia.
  erewrite bind_Ok by (apply PUT_ok; unfold s1; proj; lia).
  proj. fold m2.
  set (m3 := store32 m2 (pv - 4) (sz + ps)).
  erewrite bind_Ok.
  2:{ apply (PREV_BLKP_raw _ _ ps false); unfold s1; proj; try lia.
      unfold m3, m2. rewrite !load32_store32_other by lia.
      destruct (cell_facts _ _ _ HR1 _ _ _ Hp) as (_ & _ & _ & _ & _ & _ & _ & _ & _ & Q).
      exact Q. }
  replace (pv + ps - ps) with pv by lia.
  assert (HR3 : Rep (set_mem s1 m3) (l1 ++ [(ps + sz, false)] ++ l2) fl1).
  { apply (Rep_retile s1 l1 [(ps, false); (sz, false)] l2 fl1); try assumption.
    - cbn [total]. lia.
    - intros b Hb. unfold s1 in Hb. proj. cbn [total] in Hb. fold pv in Hb.
      unfold m3, m2. rewrite !store32_other by lia. reflexivity.
    - unfold s1. proj. fold pv. cbn [tiles]. split; [|exact I].
      unfold tagged. split; [lia|]. split; [exact H8|].
      unfold m3, m2. rewrite load32_store32_same.
      rewrite load32_store32_other by lia.
      replace (pv + (ps + sz) - 8) with (pv + ps + sz - 8) by lia.
      rewrite load32_store32_same. rewrite u32_small by lia. cbn [b2z]. split; lia. }
  assert (K3 : keeps_payloads s1 (l1 ++ [(ps, false); (sz, false)] ++ l2) m3).
  { apply (keeps_retile s1 l1 [(ps, false); (sz, false)] l2 fl1 m3 HR1);
      [|reflexivity|apply no_alloc_2].
    intros b Hb. unfold s1 in Hb. proj. cbn [total] in Hb. fold pv in Hb.
    unfold m3, m2. rewrite !store32_other by lia. reflexivity. }
  assert (Hc3 : In (pv, ps + sz, false) (cells (mem_lo s + 72) (l1 ++ [(ps + sz, false)] ++ l2)))
    by apply cells_middle.
  assert (Hn3 : ~ In pv (fl1 (bucket_of (ps + sz)))).
  { intros Hy. destruct (Hsub _ _ (bucket_of_range _) Hy) as (_ & N). congruence. }
  destruct (append_arm_full _ _ _ _ _ _ HR3 (bucket_of_range _) Hc3 eq_refl Hn3)
    as (m4 & A4 & HR4 & K4).
  rewrite append_to_class_arm, i32_size by lia.
  replace (sz + ps) with (ps + sz) in * by lia.
  unfold s1 in *. rewrite !set_mem_set_mem in *. rewrite (bind_Ok _ _ _ _ _ A4). unfold ret.
  exists m4, (upd fl1 (bucket_of (ps + sz)) (pv :: fl1 (bucket_of (ps + sz)))).
  split; [reflexivity|].
  split; [|split; [|rewrite upd_same; reflexivity]].
  2:{ apply (keeps_trans s _ m3 (l1 ++ [(ps + sz, false)] ++ l2));
        [|intros x sz0 Hx|exact K4].
      - apply (keeps_trans s _ m1 (l1 ++ [(ps, false); (sz, false)] ++ l2));
          [exact K1 | intros; assumption | exact K3].
      - apply (allocs_retile _ l1 [(ps, false); (sz, false)]);
          [cbn [total]; lia | apply no_alloc_2 | exact Hx]. }
  constructor; [exact HR4| |].
  - proj. intros y sz0 Hy.
    destruct (Z.eq_dec y pv) as [->|Hne].
    + destruct (cell_size_unique _ _ _ HR3 _ _ _ _ _ Hy Hc3) as [-> _]. apply upd_cons_new.
    + apply upd_cons_keep.
      rewrite cells_app in Hy. apply in_app_or in Hy. destruct Hy as [Hy|Hy].
      * apply Hkeep; [apply bucket_of_range| |].
        -- apply Hcomp.
           ++ rewrite cells_app. apply in_or_app. left. assumption.
           ++ destruct (cells_inside _ _ _ _ _ _ T1 Hy) as (_ & ? & ? & _). fold pv in H. lia.
        -- assumption.
      * cbn [app cells] in Hy.
        destruct Hy as [Hy|Hy];
          [injection Hy as Ey _; exfalso; apply Hne; symmetry; exact Ey|].
        fold pv in Hy. replace (pv + (ps + sz)) with (pv + ps + sz) in Hy by lia.
        destruct (cells_inside _ _ _ _ _ _ T3 Hy) as (? & _). fold pv in H.
        apply Hkeep; [apply bucket_of_range| |assumption].
        apply Hcomp; [|lia]. rewrite cells_app. apply in_or_app. right. right. right.
        fold pv. assumption.
  - rewrite !adjacent_free_app. cbn [adjacent_free last_free first_free negb andb orb].
    fold (first_free l2). rewrite Ha1, Hr, Hlf, Hff. reflexivity.
Qed.

Lemma coalesce_case3 s l1 ps sz l2 fl :
  Pending s (l1 ++ [(ps, false)]) sz l2 fl -> first_free l2 = false ->
  exists m' fl',
    coalesce_cases (mem_lo s + 72 + total (l1 ++ [(ps, false)])) 0 1 sz s
    = Ok (mem_lo s + 72 + total l1) (set_mem s m') /\
    Heap (set_mem s m') (l1 ++ (ps + sz, false) :: l2) fl'.
Proof.
  intros HP Hff.
  destruct (coalesce_case3_full _ _ _ _ _ _ HP Hff) as (m' & fl' & C & HH & _).
  exists m', fl'. split; assumption.
Qed.

Lemma NEXT_BLKP_raw s bp sz a :
  mem_lo s <= bp - 4 -> bp <= mem_hi s -> mem_hi s <= 2 ^ 62 -> 0 <= mem_lo s ->
  load32 (mem s) (bp - 4) = sz + b2z a -> 0 <= sz < 2 ^ 32 - 1 -> sz mod 8 = 0 ->
  NEXT_BLKP bp s = Ok (bp + sz) s.
Proof.
  intros. unfold NEXT_BLKP, WSIZE. rewrite padd_small by lia.
  erewrite bind_Ok.
  2:{ apply (GET_SIZE_tag _ _ sz a); try lia.
      replace (bp + - (4)) with (bp - 4) by lia. assumption. }
  unfold ret. rewrite padd_small by lia. reflexivity.
Qed.

Lemma FTRP_raw s bp sz a :
  mem_lo s <= bp - 4 -> bp <= mem_hi s -> mem_hi s <= 2 ^ 62 -> 0 <= mem_lo s ->
  load32 (mem s) (bp - 4) = sz + b2z a -> 8 <= sz < 2 ^ 32 - 1 -> sz mod 8 = 0 ->
  FTRP bp s = Ok (bp + sz - 8) s.
Proof.
  intros. unfold FTRP. rewrite HDRP_small by lia.
  erewrite bind_Ok by (apply (GET_SIZE_tag _ _ sz a); try lia; assumption).
  unfold ret, DSIZE. rewrite u32_small by lia. rewrite padd_small by lia. f_equal. lia.
Qed.

(** Case 4: both neighbours are free. *)
Lemma coalesce_case4_full s l1 ps sz ns l2 fl :
  Pending s (l1 ++ [(ps, false)]) sz ((ns, false) :: l2) fl ->
  exists m' fl',
    coalesce_cases (mem_lo s + 72 + total (l1 ++ [(ps, false)])) 0 0 sz s
    = Ok (mem_lo s + 72 + total l1) (set_mem s m') /\
    Heap (set_mem s m') (l1 ++ (ps + sz + ns, false) :: l2) fl' /\
    keeps_payloads s (l1 ++ (ps, false) :: (sz, false) :: (ns, false) :: l2) m' /\
    hd NULL (fl' (bucket_of (ps + sz + ns))) = mem_lo s + 72 + total l1.
Proof.
  intros [HR Hout Hcomp Hl Hr].
  rewrite total_app in *. cbn [total] in *.
  set (pv := mem_lo s + 72 + total l1) in *.
  replace (mem_lo s + 72 + (total l1 + (ps + 0))) with (pv + ps) in * by (unfold pv; lia).
  rewrite <- app_assoc in HR, Hcomp. cbn [app] in HR, Hcomp.
  set (bl := l1 ++ (ps, false) :: (sz, false) :: (ns, false) :: l2) in *.
  assert (Hp : In (pv, ps, false) (cells (mem_lo s + 72) bl)) by apply cells_middle.
  assert (Hc : In (pv + ps, sz, false) (cells (mem_lo s + 72) bl)).
  { unfold bl. replace (l1 ++ (ps, false) :: (sz, false) :: (ns, false) :: l2)
      with ((l1 ++ [(ps, false)]) ++ (sz, false) :: (ns, false) :: l2)
      by (rewrite <- app_assoc; reflexivity).
    replace (pv + ps) with (mem_lo s + 72 + total (l1 ++ [(ps, false)]))
      by (rewrite total_app; cbn [total]; unfold pv; lia).
    apply cells_middle. }
  assert (Hn : In (pv + ps + sz, ns, false) (cells (mem_lo s + 72) bl)).
  { unfold bl. replace (l1 ++ (ps, false) :: (sz, false) :: (ns, false) :: l2)
      with ((l1 ++ [(ps, false); (sz, false)]) ++ (ns, false) :: l2)
      by (rewrite <- app_assoc; reflexivity).
    replace (pv + ps + sz) with (mem_lo s + 72 + total (l1 ++ [(ps, false); (sz, false)]))
      by (rewrite total_app; cbn [total]; unfold pv; lia).
    apply cells_middle. }
  destruct (cell_facts _ _ _ HR _ _ _ Hc) as (F1 & F2 & F3 & F4 & F5 & F6 & F7 & F8 & F9 & F10).
  destruct (cell_facts _ _ _ HR _ _ _ Hp) as (G1 & G2 & _ & _ & _ & _ & G7 & G8 & G9 & G10).
  destruct (cell_facts _ _ _ HR _ _ _ Hn) as (I1 & I2 & _ & _ & _ & _ & I7 & I8 & I9 & I10).
  assert (Hpb : pv <> pv + ps) by lia.
  assert (Hnb : pv + ps + sz <> pv + ps) by lia.
  pose proof (Hcomp _ _ Hp Hpb) as Hin. apply in_split in Hin. destruct Hin as (la & lb & E).
  destruct (delete_from_class_prev_full _ _ _ _ _ _ _ HR Hp E) as (m1 & D1 & HR1 & K1).
  destruct (deleted_lists _ _ _ _ _ _ _ HR (bucket_of_range _) E) as [Hsub Hkeep].
  set (fl1 := upd fl (bucket_of ps) (la ++ lb)) in *.
  set (s1 := set_mem s m1) in *.
  assert (Hin2 : In (pv + ps + sz) (fl1 (bucket_of ns))).
  { apply Hkeep; [apply bucket_of_range| |lia]. apply Hcomp; assumption. }
  apply in_split in Hin2. destruct Hin2 as (la2 & lb2 & E2).
  destruct (delete_from_class_next_full _ _ _ _ _ _ _ _ _ HR1 Hc Hn E2)
    as (m2 & D2 & HR2 & K2).
  destruct (deleted_lists _ _ _ _ _ _ _ HR1 (bucket_of_range _) E2) as [Hsub2 Hkeep2].
  set (fl2 := upd fl1 (bucket_of ns) (la2 ++ lb2)) in *.
  assert (K12 : keeps_payloads s bl m2).
  { apply (keeps_trans s _ m1 bl); [exact K1 | intros; assumption | exact K2]. }
  unfold s1 in D2, HR2. rewrite set_mem_set_mem in D2, HR2.
  set (s2 := set_mem s m2) in *.
  assert (Hout2 : forall k y sz0, 0 <= k <= 6 -> In y (fl2 k) ->
            ~ In (y, sz0, false) (cells (mem_lo s2 + 72 + total l1)
                                        [(ps, false); (sz, false); (ns, false)])).
  { intros k y sz0 Hk Hy Hy'. destruct (Hsub2 k y Hk Hy) as (Hy1 & M1).
    destruct (Hsub k y Hk Hy1) as (Hy2 & M2).
    unfold s2 in Hy'. proj. fold pv in Hy'. cbn [cells] in Hy'.
    destruct Hy' as [Hy'|[Hy'|[Hy'|[]]]]; injection Hy' as Ey _.
    - apply M2. symmetry. exact Ey.
    - apply (Hout k Hk). rewrite Ey. assumption.
    - apply M1. symmetry. exact Ey. }
  pose proof (rep_tiles _ _ _ HR) as Htl.
  apply tiles_app in Htl. destruct Htl as [T1 T2]. destruct T2 as [_ [_ [_ T3]]].
  pose proof (tiles_total _ _ _ T1) as N1. pose proof (tiles_total _ _ _ T3) as N3.
  assert (Hlf : last_free l1 = false /\ adjacent_free l1 = false).
  { rewrite adjacent_free_app in Hl. cbn [adjacent_free first_free negb andb orb] in Hl.
    destruct (last_free l1), (adjacent_free l1); try discriminate. split; reflexivity. }
  destruct Hlf as (Hlf & Ha1).
  assert (Hff : first_free l2 = false /\ adjacent_free l2 = false).
  { cbn [adjacent_free] in Hr. destruct l2 as [|[? [|]] ?]; cbn [first_free negb andb orb] in *;
      try discriminate; split; try reflexivity; assumption. }
  destruct Hff as (Hf2 & Ha2).
  pose proof (mod8_add _ _ (mod8_add _ _ G8 F8) I8) as H8.
  unfold coalesce_cases.
  change (negb (0 =? 0) && negb (0 =? 0)) with false.
  change (negb (0 =? 0) && (0 =? 0)) with false.
  change ((0 =? 0) && negb (0 =? 0)) with false. cbv iota.
  rewrite (bind_Ok _ _ _ _ _ (PREV_BLKP_cell _ _ _ _ _ _ HR Hp)).
  rewrite (bind_Ok _ _ _ _ _ (cell_GET_SIZE _ _ _ HR _ _ _ Hp)).
  rewrite (bind_Ok _ _ _ _ _ (cell_NEXT_BLKP _ _ _ HR _ _ _ Hc)).
  rewrite (bind_Ok _ _ _ _ _ (cell_FTRP _ _ _ HR _ _ _ Hn)).
  erewrite bind_Ok by (apply (GET_SIZE_tag _ _ ns false); try lia; exact I10).
  rewrite (u32_small (ps + ns)) by lia. rewrite (u32_small (sz + (ps + ns))) by lia.
  rewrite (bind_Ok _ _ _ _ _ D1).
  rewrite (bind_Ok _ _ _ _ _ D2).
  rewrite (bind_Ok _ _ _ _ _ (PREV_BLKP_cell _ _ _ _ _ _ HR2 Hp)).
  unfold PACK. rewrite Z.lor_0_r.
  rewrite HDRP_small by lia.
  erewrite bind_Ok by (apply PUT_ok; unfold s2; proj; lia).
  set (m3 := store32 (mem s2) (pv - 4) (sz + (ps + ns))).
  destruct (cell_facts _ _ _ HR2 _ _ _ Hc) as (_ & _ & _ & _ & _ & _ & _ & _ & Q9 & _).
  destruct (cell_facts _ _ _ HR2 _ _ _ Hn) as (_ & _ & _ & _ & _ & _ & _ & _ & R9 & _).
  destruct (cell_facts _ _ _ HR2 _ _ _ Hp) as (_ & _ & _ & _ & _ & _ & _ & _ & _ & P10).
  erewrite bind_Ok.
  2:{ apply (NEXT_BLKP_raw _ _ sz false); unfold s2; proj; try lia.
      unfold m3. rewrite load32_store32_other by lia. exact Q9. }
  erewrite bind_Ok.
  2:{ apply (FTRP_raw _ _ ns false); unfold s2; proj; try lia.
      unfold m3. rewrite load32_store32_other by lia. exact R9. }
  erewrite bind_Ok by (apply PUT_ok; unfold s2; proj; lia).
  proj. fold m3.
  set (m4 := store32 m3 (pv + ps + sz + ns - 8) (sz + (ps + ns))).
  erewrite bind_Ok.
  2:{ apply (PREV_BLKP_raw _ _ ps false); unfold s2; proj; try lia.
      unfold m4, m3. rewrite !load32_store32_other by lia. exact P10. }
  replace (pv + ps - ps) with pv by lia.
  assert (HR4 : Rep (set_mem s2 m4) (l1 ++ [(ps + sz + ns, false)] ++ l2) fl2).
  { apply (Rep_retile s2 l1 [(ps, false); (sz, false); (ns, false)] l2 fl2); try assumption.
    - cbn [total]. lia.
    - intros b Hb. unfold s2 in Hb. proj. cbn [total] in Hb. fold pv in Hb.
      unfold m4, m3. rewrite !store32_other by lia. reflexivity.
    - unfold s2. proj. fold pv. cbn [tiles]. split; [|exact I].
      unfold tagged. split; [lia|]. split; [exact H8|].
      unfold m4, m3. rewrite load32_store32_other by lia. rewrite load32_store32_same.
      replace (pv + (ps + sz + ns) - 8) with (pv + ps + sz + ns - 8) by lia.
      rewrite load32_store32_same. rewrite u32_small by lia. cbn [b2z]. split; lia. }
  assert (K4 : keeps_payloads s2 (l1 ++ [(ps, false); (sz, false); (ns, false)] ++ l2) m4).
  { apply (keeps_retile s2 l1 [(ps, false); (sz, false); (ns, false)] l2 fl2 m4 HR2);
      [|reflexivity|apply no_alloc_3].
    intros b Hb. unfold s2 in Hb. proj. cbn [total] in Hb. fold pv in Hb.
    unfold m4, m3. rewrite !store32_other by lia. reflexivity. }
  assert (Hc4 : In (pv, ps + sz + ns, false)
                   (cells (mem_lo s + 72) (l1 ++ [(ps + sz + ns, false)] ++ l2)))
    by apply cells_middle.
  assert (Hn4 : ~ In pv (fl2 (bucket_of (ps + sz + ns)))).
  { intros Hy. destruct (Hsub2 _ _ (bucket_of_range _) Hy) as (Hy1 & _).
    destruct (Hsub _ _ (bucket_of_range _) Hy1) as (_ & N). congruence. }
  destruct (append_arm_full _ _ _ _ _ _ HR4 (bucket_of_range _) Hc4 eq_refl Hn4)
    as (m5 & A5 & HR5 & K5).
  rewrite append_to_class_arm, i32_size by lia.
  replace (sz + (ps + ns)) with (ps + sz + ns) in * by lia.
  unfold s2 in *. rewrite !set_mem_set_mem in *. rewrite (bind_Ok _ _ _ _ _ A5). unfold ret.
  exists m5, (upd fl2 (bucket_of (ps + sz + ns)) (pv :: fl2 (bucket_of (ps + sz + ns)))).
  split; [reflexivity|].
  split; [|split; [|rewrite upd_same; reflexivity]].
  2:{ apply (keeps_trans s _ m4 (l1 ++ [(ps + sz + ns, false)] ++ l2));
        [|intros x sz0 Hx|exact K5].
      - apply (keeps_trans s _ m2 (l1 ++ [(ps, false); (sz, false); (ns, false)] ++ l2));
          [exact K12 | intros; assumption | exact K4].
      - apply (allocs_retile _ l1 [(ps, false); (sz, false); (ns, false)]);
          [cbn [total]; lia | apply no_alloc_3 | exact Hx]. }
  constructor; [exact HR5| |].
  - proj. intros y sz0 Hy.
    destruct (Z.eq_dec y pv) as [->|Hne].
    + destruct (cell_size_unique _ _ _ HR4 _ _ _ _ _ Hy Hc4) as [-> _]. apply upd_cons_new.
    + apply upd_cons_keep.
      rewrite cells_app in Hy. apply in_app_or in Hy. destruct Hy as [Hy|Hy].
      * destruct (cells_inside _ _ _ _ _ _ T1 Hy) as (_ & ? & ? & _). fold pv in H.
        apply Hkeep2; [apply bucket_of_range| |lia].
        apply Hkeep; [apply bucket_of_range| |lia].
        apply Hcomp; [|lia]. unfold bl. rewrite cells_app. apply in_or_app. left. assumption.
      * cbn [app cells] in Hy.
        destruct Hy as [Hy|Hy];
          [injection Hy as Ey _; exfalso; apply Hne; symmetry; exact Ey|].
        fold pv in Hy. replace (pv + (ps + sz + ns)) with (pv + ps + sz + ns) in Hy by lia.
        destruct (cells_inside _ _ _ _ _ _ T3 Hy) as (? & _). fold pv in H.
        apply Hkeep2; [apply bucket_of_range| |lia].
        apply Hkeep; [apply bucket_of_range| |lia].
        apply Hcomp; [|lia]. unfold bl. rewrite cells_app. apply in_or_app.
        right. right. right. right. fold pv. assumption.
  - rewrite !adjacent_free_app. cbn [adjacent_free last_free first_free negb andb orb].
    fold (first_free l2). rewrite Ha1, Ha2, Hlf, Hf2. reflexivity.
Qed.

Lemma coalesce_case4 s l1 ps sz ns l2 fl :
  Pending s (l1 ++ [(ps, false)]) sz ((ns, false) :: l2) fl ->
  exists m' fl',
    coalesce_cases (mem_lo s + 72 + total (l1 ++ [(ps, false)])) 0 0 sz s
    = Ok (mem_lo s + 72 + total l1) (set_mem s m') /\
    Heap (set_mem s m') (l1 ++ (ps + sz + ns, false) :: l2) fl'.
Proof.
  intros HP.
  destruct (coalesce_case4_full _ _ _ _ _ _ _ HP) as (m' & fl' & C & HH & _).
  exists m', fl'. split; assumption.
Qed.

Lemma take_first_free_none l : first_free l = false -> take_first_free l = (l, 0).
Proof. destruct l as [|[ns [|]] l']; intros H; try reflexivity. discriminate. Qed.

(** [coalesce] merges the pending block with its free neighbours and
    puts the result on its list. *)
Lemma coalesce_full s l1 sz l2 fl :
  Pending s l1 sz l2 fl ->
  exists m' fl',
    coalesce (mem_lo s + 72 + total l1) s
    = Ok (mem_lo s + 72 + total l1 - snd (take_last_free l1)) (set_mem s m') /\
    Heap (set_mem s m') (coalesced l1 sz l2) fl' /\
    keeps_payloads s (l1 ++ (sz, false) :: l2) m' /\
    hd NULL (fl' (bucket_of (snd (take_last_free l1) + sz + snd (take_first_free l2))))
    = mem_lo s + 72 + total l1 - snd (take_last_free l1).
Proof.
  intros HP. rewrite (coalesce_reads _ _ _ _ _ _ (pend_rep _ _ _ _ _ HP)).
  unfold coalesced.
  destruct (layout_last_case l1) as [Hl|(l1' & ps & ->)];
    destruct (layout_first_case l2) as [Hf|(ns & l2' & ->)].
  - rewrite Hl, Hf, (take_last_free_none _ Hl), (take_first_free_none _ Hf).
    cbn [fst snd negb b2z]. replace (0 + sz + 0) with sz by lia.
    replace (mem_lo s + 72 + total l1 - 0) with (mem_lo s + 72 + total l1) by lia.
    apply (coalesce_case1_full _ _ _ _ fl); assumption.
  - rewrite Hl, (take_last_free_none _ Hl). cbn [first_free take_first_free fst snd negb b2z].
    replace (0 + sz + ns) with (sz + ns) by lia.
    replace (mem_lo s + 72 + total l1 - 0) with (mem_lo s + 72 + total l1) by lia.
    apply (coalesce_case2_full _ _ _ _ _ fl); assumption.
  - rewrite last_free_snoc, Hf, take_last_free_snoc, (take_first_free_none _ Hf).
    cbn [fst snd negb b2z]. replace (ps + sz + 0) with (ps + sz) by lia.
    replace (mem_lo s + 72 + total (l1' ++ [(ps, false)]) - ps) with (mem_lo s + 72 + total l1')
      by (rewrite total_app; cbn [total]; lia).
    rewrite <- (app_assoc l1' [(ps, false)] ((sz, false) :: l2)). cbn [app].
    apply (coalesce_case3_full _ _ _ _ _ fl); assumption.
  - rewrite last_free_snoc, take_last_free_snoc. cbn [first_free take_first_free fst snd negb b2z].
    replace (mem_lo s + 72 + total (l1' ++ [(ps, false)]) - ps) with (mem_lo s + 72 + total l1')
      by (rewrite total_app; cbn [total]; lia).
    rewrite <- (app_assoc l1' [(ps, false)] ((sz, false) :: (ns, false) :: l2')). cbn [app].
    apply (coalesce_case4_full _ _ _ _ _ _ fl); assumption.
Qed.

Lemma coalesce_spec s l1 sz l2 fl :
  Pending s l1 sz l2 fl ->
  exists m' fl',
    coalesce (mem_lo s + 72 + total l1) s
    = Ok (mem_lo s + 72 + total l1 - snd (take_last_free l1)) (set_mem s m') /\
    Heap (set_mem s m') (coalesced l1 sz l2) fl'.
Proof.
  intros HP.
  destruct (coalesce_full _ _ _ _ _ HP) as (m' & fl' & C & HH & _).
  exists m', fl'. split; assumption.
Qed.

(** ** [mm_free] *)

Lemma mm_free_full s l1 sz l2 fl :
  Heap s (l1 ++ (sz, true) :: l2) fl ->
  exists m' fl',
    mm_free (mem_lo s + 72 + total l1) s = Ok tt (set_mem s m') /\
    Heap (set_mem s m') (coalesced l1 sz l2) fl' /\
    keeps_payloads s (l1 ++ (sz, false) :: l2) m' /\
    hd NULL (fl' (bucket_of (snd (take_last_free l1) + sz + snd (take_first_free l2))))
    = mem_lo s + 72 + total l1 - snd (take_last_free l1).
Proof.
  intros [HR Hcomp Hadj].
  set (bp := mem_lo s + 72 + total l1) in *.
  assert (Hc : In (bp, sz, true) (cells (mem_lo s + 72) (l1 ++ (sz, true) :: l2)))
    by apply cells_middle.
  destruct (cell_facts _ _ _ HR _ _ _ Hc) as (F1 & F2 & F3 & F4 & F5 & F6 & F7 & F8 & F9 & F10).
  pose proof (rep_tiles _ _ _ HR) as Htl.
  apply tiles_app in Htl. destruct Htl as [T1 T2]. destruct T2 as [_ T3].
  pose proof (tiles_total _ _ _ T1) as N1. pose proof (tiles_total _ _ _ T3) as N3.
  assert (Hout : forall k y sz0, 0 <= k <= 6 -> In y (fl k) ->
            ~ In (y, sz0, false) (cells (mem_lo s + 72 + total l1) [(sz, true)])).
  { intros k y sz0 Hk Hy [Hy'|[]]. discriminate. }
  set (m1 := retag (mem s) bp sz false).
  assert (HR1 : Rep (set_mem s m1) (l1 ++ [(sz, false)] ++ l2) fl).
  { apply (Rep_retile s l1 [(sz, true)] l2 fl); try assumption.
    - reflexivity.
    - intros b Hb. cbn [total] in Hb. fold bp in Hb.
      unfold m1. rewrite !retag_other by lia. reflexivity.
    - fold bp. cbn [tiles]. split; [|exact I]. apply retag_tagged; [lia | assumption]. }
  assert (HP : Pending (set_mem s m1) l1 sz l2 fl).
  { constructor; proj.
    - exact HR1.
    - intros k Hk Hy.
      pose proof (members_outside s l1 [(sz, true)] l2 fl HR Hout k _ Hk Hy) as Ho.
      cbn [total] in Ho. lia.
    - intros x sz' Hx Hne. apply Hcomp.
      rewrite cells_app in *. apply in_app_or in Hx. apply in_or_app.
      destruct Hx as [Hx|Hx]; [left; assumption|]. right.
      cbn [cells] in *. destruct Hx as [Hx|Hx]; [|right; assumption].
      injection Hx as Ex _. exfalso. apply Hne. symmetry. exact Ex.
    - change (l1 ++ (sz, true) :: l2) with (l1 ++ [(sz, true)] ++ l2) in Hadj.
      rewrite !adjacent_free_app in Hadj.
      destruct (adjacent_free l1); [discriminate | reflexivity].
    - change (l1 ++ (sz, true) :: l2) with (l1 ++ [(sz, true)] ++ l2) in Hadj.
      rewrite !adjacent_free_app in Hadj.
      destruct (adjacent_free l1), (adjacent_free l2); try discriminate; try reflexivity. }
  assert (K1 : keeps_payloads s (l1 ++ [(sz, false)] ++ l2) m1).
  { apply (keeps_retile s l1 [(sz, true)] l2 fl m1 HR); [|reflexivity|apply no_alloc_1].
    intros b Hb. cbn [total] in Hb. fold bp in Hb.
    unfold m1. rewrite !retag_other by lia. reflexivity. }
  destruct (coalesce_full _ _ _ _ _ HP) as (m2 & fl2 & C2 & H2 & K2 & Hd2).
  unfold mm_free.
  rewrite (bind_Ok _ _ _ _ _ (cell_GET_SIZE _ _ _ HR _ _ _ Hc)).
  change 0 with (b2z false) at 1 2.
  rewrite (put_tags s bp sz false) by lia.
  fold m1. proj. fold bp in C2. rewrite (bind_Ok _ _ _ _ _ C2). unfold ret.
  rewrite set_mem_set_mem in *.
  exists m2, fl2. split; [reflexivity|]. split; [assumption|]. split; [|exact Hd2].
  apply (keeps_trans s _ m1 (l1 ++ (sz, false) :: l2));
    [exact K1 | intros; assumption | exact K2].
Qed.

Lemma mm_free_spec s l1 sz l2 fl :
  Heap s (l1 ++ (sz, true) :: l2) fl ->
  exists m' fl',
    mm_free (mem_lo s + 72 + total l1) s = Ok tt (set_mem s m') /\
    Heap (set_mem s m') (coalesced l1 sz l2) fl'.
Proof.
  intros HH.
  destruct (mm_free_full _ _ _ _ _ HH) as (m' & fl' & C & HH' & _).
  exists m', fl'. split; assumption.
Qed.

(** ** [extend_heap] *)

Lemma Rep_extend s bl fl size :
  Rep s bl fl -> 16 <= size < 2 ^ 31 -> size mod 8 = 0 -> mem_brk s + size <= mem_hi s ->
  Rep (set_mem (set_brk s (mem_brk s + size))
               (store32 (retag (mem s) (mem_brk s) size false) (mem_brk s + size - 4) 1))
      (bl ++ [(size, false)]) fl.
Proof.
  intros HR Hs H8 Hroom.
  pose proof (rep_brk _ _ _ HR) as Hbrk.
  pose proof (tiles_total _ _ _ (rep_tiles _ _ _ HR)) as N.
  assert (F : forall b, b < mem_brk s - 4 ->
            store32 (retag (mem s) (mem_brk s) size false) (mem_brk s + size - 4) 1 b = mem s b).
  { intros b Hb. rewrite store32_other by lia. apply retag_other; lia. }
  constructor; proj; try apply HR.
  - rewrite total_app. cbn [total]. lia.
  - assumption.
  - destruct (rep_prologue _ _ _ HR) as [P1 P2].
    rewrite (load32_agree (mem s) _ (mem_lo s + 60)) by (intros; apply F; lia).
    rewrite (load32_agree (mem s) _ (mem_lo s + 64)) by (intros; apply F; lia).
    split; assumption.
  - replace (mem_brk s + size - 4) with (mem_brk s + size - 4) by lia.
    rewrite load32_store32_same. reflexivity.
  - apply tiles_app. split.
    + apply (tiles_agree (mem s)); [|apply HR]. intros; apply F; lia.
    + cbn [tiles]. split; [|exact I]. rewrite <- Hbrk.
      apply (tagged_agree (retag (mem s) (mem_brk s) size false)).
      * intros. apply store32_other. lia.
      * apply retag_tagged; [lia | assumption].
  - intros k Hk. rewrite <- (rep_heads _ _ _ HR k Hk). apply load64_agree.
    intros; apply F; lia.
  - intros k Hk. apply (chain_agree (mem s)); [|apply HR; assumption].
    intros y Hy a Ha. destruct (member_cell _ _ _ HR k y Hk Hy) as (sz & _ & _ & ? & ? & ?).
    apply F. lia.
  - intros k x Hk Hx. destruct (rep_sound _ _ _ HR k x Hk Hx) as (sz & Hc & Hb).
    exists sz. split; [|assumption]. rewrite cells_app. apply in_or_app. left. assumption.
Qed.

Lemma extend_heap_full s bl fl words :
  Heap s bl fl -> words mod 2 = 0 -> 4 <= words <= 16384 ->
  (mem_brk s + 4 * words <= mem_hi s ->
   exists m' fl',
     extend_heap words s
     = Ok (mem_brk s - snd (take_last_free bl))
          (set_mem (set_brk s (mem_brk s + 4 * words)) m') /\
     Heap (set_mem (set_brk s (mem_brk s + 4 * words)) m') (coalesced bl (4 * words) []) fl' /\
     keeps_payloads s bl m') /\
  (mem_hi s < mem_brk s + 4 * words -> extend_heap words s = Ok NULL s).
Proof.
  intros [HR Hcomp Hadj] Heven Hw.
  pose proof (rep_brk _ _ _ HR) as Hbrk.
  pose proof (rep_room _ _ _ HR). pose proof (rep_lo _ _ _ HR).
  pose proof (rep_hi _ _ _ HR). pose proof (rep_span _ _ _ HR).
  pose proof (tiles_total _ _ _ (rep_tiles _ _ _ HR)) as N.
  assert (H8 : (4 * words) mod 8 = 0).
  { pose proof (Z.div_mod words 2 ltac:(lia)) as D. rewrite Heven in D.
    symmetry. apply Z.mod_unique with (q := words / 2); lia. }
  unfold extend_heap. rewrite Heven. cbn [Z.eqb negb]. unfold WSIZE.
  rewrite (u64_small (words * 4)) by lia. rewrite u32_small by lia.
  replace (words * 4) with (4 * words) by lia.
  rewrite i32_size by lia.
  split.
  - intros Hroom.
    erewrite bind_Ok.
    2:{ unfold mem_sbrk.
        replace ((4 * words <? 0) || (mem_hi s <? mem_brk s + 4 * words)) with false; [reflexivity|].
        symmetry. apply orb_false_iff. split; [apply Z.ltb_ge | apply Z.ltb_ge]; lia. }
    cbv beta iota.
    set (s1 := set_brk s (mem_brk s + 4 * words)).
    change (PACK (4 * words) 0) with (PACK (4 * words) (b2z false)).
    rewrite (put_tags s1 (mem_brk s) (4 * words) false) by (unfold s1; proj; lia).
    unfold s1 at 2. proj.
    set (m2 := retag (mem s) (mem_brk s) (4 * words) false).
    erewrite bind_Ok.
    2:{ apply (NEXT_BLKP_raw _ _ (4 * words) false); unfold s1; proj; try lia.
        apply retag_tagged; [lia | assumption]. }
    rewrite HDRP_small by lia.
    erewrite bind_Ok by (apply PUT_ok; unfold s1; proj; lia).
    proj. change (PACK 0 1) with 1.
    pose proof (Rep_extend s bl fl (4 * words) HR ltac:(lia) H8 Hroom) as HR3.
    fold m2 in HR3. fold s1 in HR3.
    set (m3 := store32 m2 (mem_brk s + 4 * words - 4) 1) in *.
    assert (HP : Pending (set_mem s1 m3) bl (4 * words) [] fl).
    { constructor; proj.
      - exact HR3.
      - unfold s1; proj. intros k Hk Hy.
        destruct (member_cell _ _ _ HR k _ Hk Hy) as (sz & _ & _ & ? & ? & ?). lia.
      - unfold s1; proj. intros x sz' Hx Hne. apply Hcomp.
        rewrite cells_app in Hx. apply in_app_or in Hx.
        destruct Hx as [Hx|Hx]; [assumption|].
        cbn [cells] in Hx. destruct Hx as [Hx|[]].
        injection Hx as Ex _. exfalso. apply Hne. symmetry. exact Ex.
      - assumption.
      - reflexivity. }
    assert (K3 : keeps_payloads s bl m3).
    { intros x sz a Hx Ha.
      destruct (cell_bounds _ _ _ HR _ _ _ Hx) as (_ & ? & ? & _).
      unfold m3. rewrite store32_other by lia. unfold m2. apply retag_other; lia. }
    destruct (coalesce_full _ _ _ _ _ HP) as (m4 & fl4 & C4 & H4 & K4 & _).
    assert (K : keeps_payloads s bl m4).
    { apply (keeps_step s bl (set_mem s1 m3) (bl ++ (4 * words, false) :: []) m4);
        [exact K3 | reflexivity | | exact K4].
      intros x sz Hx. rewrite cells_app. apply in_or_app. left. assumption. }
    unfold s1 in C4, H4. proj. rewrite <- Hbrk in C4.
    unfold s1. rewrite set_mem_set_mem. rewrite C4. rewrite set_mem_set_mem in *.
    exists m4, fl4. split; [reflexivity | split; assumption].
  - intros Hfull.
    erewrite bind_Ok.
    2:{ unfold mem_sbrk.
        replace ((4 * words <? 0) || (mem_hi s <? mem_brk s + 4 * words)) with true; [reflexivity|].
        symmetry. apply orb_true_iff. right. apply Z.ltb_lt. lia. }
    reflexivity.
Qed.

Lemma extend_heap_spec s bl fl words :
  Heap s bl fl -> words mod 2 = 0 -> 4 <= words <= 16384 ->
  (mem_brk s + 4 * words <= mem_hi s ->
   exists m' fl',
     extend_heap words s
     = Ok (mem_brk s - snd (take_last_free bl))
          (set_mem (set_brk s (mem_brk s + 4 * words)) m') /\
     Heap (set_mem (set_brk s (mem_brk s + 4 * words)) m') (coalesced bl (4 * words) []) fl') /\
  (mem_hi s < mem_brk s + 4 * words -> extend_heap words s = Ok NULL s).
Proof.
  intros HH Heven Hw.
  destruct (extend_heap_full s bl fl words HH Heven Hw) as [Hgrow Hfull].
  split; [|exact Hfull].
  intros Hroom. destruct (Hgrow Hroom) as (m' & fl' & X & HH' & _).
  exists m', fl'. split; assumption.
Qed.

(** ** [find_fit] *)

Section FindFit.
Variables (s : state) (asize : Z).
Hypothesis table_ok :
  0 <= ptr_classes s /\ ptr_classes s + 56 <= 2 ^ 64 /\
  mem_lo s <= ptr_classes s /\ ptr_classes s + 56 <= mem_hi s.
Hypothesis heads_ok :
  forall k, 0 <= k <= 6 -> bucket_head s k <> NULL ->
    4 <= bucket_head s k /\ mem_lo s <= bucket_head s k - 4 /\ bucket_head s k <= mem_hi s.

Lemma head_size k :
  0 <= k <= 6 -> bucket_head s k <> NULL ->
  GET_SIZE (HDRP (bucket_head s k)) s = Ok (size_of s (bucket_head s k)) s.
Proof.
  intros Hk Hh. destruct (heads_ok k Hk Hh) as (H1 & H2 & H3).
  pose proof (load64_range (mem s) (ptr_classes s + 8 * k)) as R. fold (bucket_head s k) in R.
  unfold size_of, hdr. apply GET_SIZE_ok; rewrite HDRP_small; try lia.
Qed.

Lemma fit_loop_scan base todo : forall increment,
  0 <= base + increment -> base + increment + Z.of_nat todo <= 6 ->
  fit_loop asize base increment todo s
  = Ok (scan_heads s (code_fits s asize) (base + increment) todo) s.
Proof.
  induction todo as [|todo IH]; intros increment H0 H6.
  - cbn [fit_loop scan_heads].
    rewrite (bind_Ok _ _ _ _ _ (get_class_ok s (base + increment)
               ltac:(lia) ltac:(lia) ltac:(lia))).
    destruct (bucket_head s (base + increment) =? NULL) eqn:E; cbn [negb andb].
    + reflexivity.
    + apply Z.eqb_neq in E.
      erewrite bind_Ok.
      2:{ rewrite (bind_Ok _ _ _ _ _ (head_size (base + increment) ltac:(lia) E)). reflexivity. }
      fold (code_fits s asize (bucket_head s (base + increment))).
      destruct (code_fits s asize (bucket_head s (base + increment))); reflexivity.
  - cbn [fit_loop scan_heads].
    rewrite (bind_Ok _ _ _ _ _ (get_class_ok s (base + increment)
               ltac:(lia) ltac:(lia) ltac:(lia))).
    destruct (bucket_head s (base + increment) =? NULL) eqn:E; cbn [negb andb].
    + unfold ret at 1. unfold bind at 1.
      rewrite IH by lia. replace (base + (increment + 1)) with (base + increment + 1) by lia.
      reflexivity.
    + apply Z.eqb_neq in E.
      erewrite bind_Ok.
      2:{ rewrite (bind_Ok _ _ _ _ _ (head_size (base + increment) ltac:(lia) E)). reflexivity. }
      fold (code_fits s asize (bucket_head s (base + increment))).
      destruct (code_fits s asize (bucket_head s (base + increment))); [reflexivity|].
      rewrite IH by lia. replace (base + (increment + 1)) with (base + increment + 1) by lia.
      reflexivity.
Qed.

(** [find_fit] scans the heads of the buckets from [bucket_of asize]
    up to bucket 6 and nothing else. *)
Lemma find_fit_scan :
  find_fit asize s
  = Ok (scan_heads s (code_fits s asize) (bucket_of asize)
                   (Z.to_nat (6 - bucket_of asize))) s.
Proof.
  unfold find_fit, bucket_of.
  destruct (asize <=? 512); [apply (fit_loop_scan 0 6 0); lia|].
  destruct (asize <=? 1024); [apply (fit_loop_scan 1 5 0); lia|].
  destruct (asize <=? 2048); [apply (fit_loop_scan 2 4 0); lia|].
  destruct (asize <=? 4096); [apply (fit_loop_scan 3 3 0); lia|].
  destruct (asize <=? 8192); [apply (fit_loop_scan 4 2 0); lia|].
  destruct (asize <=? 16384); [apply (fit_loop_scan 5 1 0); lia|].
  change (Z.to_nat (6 - 6)) with O. cbn [scan_heads].
  rewrite (bind_Ok _ _ _ _ _ (get_class_ok s 6 ltac:(lia) ltac:(lia) ltac:(lia))).
  destruct (bucket_head s 6 =? NULL) eqn:E; cbn [negb andb]; [reflexivity|].
  apply Z.eqb_neq in E.
  rewrite (bind_Ok _ _ _ _ _ (head_size 6 ltac:(lia) E)).
  fold (code_fits s asize (bucket_head s 6)).
  destruct (code_fits s asize (bucket_head s 6)); reflexivity.
Qed.

End FindFit.

Lemma scan_heads_result s fits n : forall k,
  scan_heads s fits k n = NULL \/
  exists j, k <= j <= k + Z.of_nat n /\ scan_heads s fits k n = bucket_head s j /\
            bucket_head s j <> NULL /\ fits (bucket_head s j) = true.
Proof.
  induction n as [|n IH]; intros k; cbn [scan_heads].
  - destruct (bucket_head s k =? NULL) eqn:E; cbn [negb andb]; [left; reflexivity|].
    destruct (fits (bucket_head s k)) eqn:F; [|left; reflexivity].
    right. exists k. apply Z.eqb_neq in E. repeat split; try assumption; lia.
  - destruct (negb (bucket_head s k =? NULL) && fits (bucket_head s k)) eqn:E.
    + apply andb_true_iff in E. destruct E as [E F]. apply negb_true_iff, Z.eqb_neq in E.
      right. exists k. repeat split; try assumption; lia.
    + destruct (IH (k + 1)) as [H|(j & Hj & H1 & H2 & H3)]; [left; assumption|].
      right. exists j. repeat split; try assumption; lia.
Qed.

Lemma cell_size_of s bl fl x sz a :
  Rep s bl fl -> In (x, sz, a) (cells (mem_lo s + 72) bl) ->
  size_of s x = sz /\ alloc_of s x = b2z a.
Proof.
  intros HR Hc.
  destruct (cell_facts _ _ _ HR _ _ _ Hc) as (F1 & F2 & F3 & F4 & F5 & F6 & F7 & F8 & F9 & F10).
  unfold size_of, alloc_of, hdr. rewrite HDRP_small by lia. rewrite F9. split.
  - apply tag_size; [lia | assumption].
  - apply tag_alloc. assumption.
Qed.

Lemma head_member s bl fl k :
  Rep s bl fl -> 0 <= k <= 6 -> bucket_head s k <> NULL -> In (bucket_head s k) (fl k).
Proof.
  intros HR Hk Hh. unfold bucket_head in *.
  rewrite (rep_table _ _ _ HR), (rep_heads _ _ _ HR k Hk) in *.
  destruct (fl k) as [|h t]; [contradiction | left; reflexivity].
Qed.

Lemma find_fit_Heap s bl fl asize :
  Rep s bl fl ->
  exists p, find_fit asize s = Ok p s /\
    (p = NULL \/
     exists csz, In (p, csz, false) (cells (mem_lo s + 72) bl) /\ 0 <= i32 (csz - asize)).
Proof.
  intros HR.
  pose proof (rep_room _ _ _ HR). pose proof (rep_lo _ _ _ HR).
  pose proof (rep_hi _ _ _ HR). pose proof (rep_brk _ _ _ HR).
  pose proof (tiles_total _ _ _ (rep_tiles _ _ _ HR)).
  pose proof (rep_table _ _ _ HR) as Ht.
  rewrite find_fit_scan.
  - eexists. split; [reflexivity|].
    destruct (scan_heads_result s (code_fits s asize) (Z.to_nat (6 - bucket_of asize))
                (bucket_of asize)) as [E|(j & Hj & E & Hn & Hf)]; [left; assumption|].
    right. pose proof (bucket_of_range asize).
    rewrite Z2Nat.id in Hj by lia.
    assert (Hj6 : 0 <= j <= 6) by lia.
    pose proof (head_member _ _ _ _ HR Hj6 Hn) as Hm.
    destruct (member_cell _ _ _ HR j _ Hj6 Hm) as (csz & Hc & _).
    exists csz. rewrite E. split; [assumption|].
    unfold code_fits in Hf. rewrite (proj1 (cell_size_of _ _ _ _ _ _ HR Hc)) in Hf.
    apply Z.leb_le. assumption.
  - rewrite Ht. lia.
  - intros k Hk Hn. pose proof (head_member _ _ _ _ HR Hk Hn) as Hm.
    destruct (member_valid _ _ _ _ HR Hk _ Hm) as (? & ? & _). lia.
Qed.

(** ** [place] into a block that is too small *)

Lemma PUT_cases p v s :
  PUT p v s = if valid s p 4 then Ok tt (set_mem s (store32 (mem s) p v)) else Segv.
Proof. reflexivity. Qed.

Lemma valid_false_hi s p n : mem_hi s < p + n -> valid s p n = false.
Proof.
  intros H. unfold valid. apply andb_false_iff. right. apply Z.leb_gt. assumption.
Qed.

Lemma u64_neg x : - 2 ^ 64 <= x < 0 -> u64 x = x + 2 ^ 64.
Proof. intros H. unfold u64. symmetry. apply Z.mod_unique with (q := -1); lia. Qed.

Lemma u32_wrap x : - 2 ^ 32 <= x < 0 -> u32 (x + 2 ^ 64) = x + 2 ^ 32.
Proof.
  intros H. unfold u32. symmetry. apply Z.mod_unique with (q := 2 ^ 32 - 1); lia.
Qed.

Lemma place_overrun s l1 csz l2 fl asize :
  Heap s (l1 ++ (csz, false) :: l2) fl ->
  csz < asize < 2 ^ 32 -> asize mod 8 = 0 ->
  place (mem_lo s + 72 + total l1) asize s = Segv.
Proof.
  intros [HR Hcomp Hadj] Has Ha8.
  set (bp := mem_lo s + 72 + total l1) in *.
  assert (Hc : In (bp, csz, false) (cells (mem_lo s + 72) (l1 ++ (csz, false) :: l2)))
    by apply cells_middle.
  destruct (cell_facts _ _ _ HR _ _ _ Hc) as (F1 & F2 & F3 & F4 & F5 & F6 & F7 & F8 & F9 & F10).
  pose proof (Hcomp _ _ Hc) as Hin. apply in_split in Hin. destruct Hin as (la & lb & E).
  destruct (delete_from_class_self _ _ _ _ _ _ _ HR Hc E) as (m1 & D1 & HR1).
  assert (Hmax : asize <= 2 ^ 32 - 8).
  { pose proof (Z.div_mod asize 8 ltac:(lia)) as D. rewrite Ha8 in D.
    assert (asize / 8 < 2 ^ 29) by (apply Z.div_lt_upper_bound; lia). lia. }
  assert (Hgap : csz + 8 <= asize).
  { pose proof (mod8_sub _ _ Ha8 F8) as G.
    pose proof (Z.div_mod (asize - csz) 8 ltac:(lia)) as D. rewrite G in D. lia. }
  set (rem := csz - asize + 2 ^ 32).
  assert (Hr8 : rem mod 8 = 0).
  { unfold rem. apply mod8_add; [apply mod8_sub; assumption | reflexivity]. }
  unfold place.
  rewrite (bind_Ok _ _ _ _ _ (cell_GET_SIZE _ _ _ HR _ _ _ Hc)).
  rewrite (bind_Ok _ _ _ _ _ D1).
  unfold DSIZE, OVERHEAD. rewrite u64_neg by lia.
  replace (8 + 8 <=? csz - asize + 2 ^ 64) with true by (symmetry; apply Z.leb_le; lia).
  change 1 with (b2z true). rewrite PACK_tag by lia.
  rewrite HDRP_small by lia.
  erewrite bind_Ok by (apply PUT_ok; proj; lia).
  set (m2 := store32 (mem (set_mem s m1)) (bp - 4) (asize + b2z true)).
  assert (L2 : load32 m2 (bp - 4) = asize + b2z true).
  { unfold m2. rewrite load32_store32_same. apply u32_small. cbn [b2z]. lia. }
  erewrite bind_Ok by (apply (FTRP_raw _ _ asize true); proj; try lia; exact L2).
  unfold bind at 1. rewrite PUT_cases.
  destruct (valid _ (bp + asize - 8) 4) eqn:V1; [|reflexivity].
  apply valid_elim in V1. proj. destruct V1 as [V1a V1b]. fold m2.
  set (m3 := store32 m2 (bp + asize - 8) (asize + b2z true)).
  assert (L3 : load32 m3 (bp - 4) = asize + b2z true).
  { unfold m3. rewrite load32_store32_other by lia. exact L2. }
  erewrite bind_Ok by (apply (NEXT_BLKP_raw _ _ asize true); proj; try lia; exact L3).
  rewrite HDRP_small by lia.
  unfold bind at 1. rewrite PUT_cases.
  destruct (valid _ (bp + asize - 4) 4) eqn:V2; [|reflexivity].
  apply valid_elim in V2. proj. destruct V2 as [V2a V2b].
  unfold PACK. rewrite !Z.lor_0_r.
  set (m4 := store32 m3 (bp + asize - 4) (csz - asize + 2 ^ 64)).
  assert (L4 : load32 m4 (bp + asize - 4) = rem + b2z false).
  { unfold m4. rewrite load32_store32_same. rewrite u32_wrap by lia.
    unfold rem. cbn [b2z]. lia. }
  erewrite bind_Ok.
  2:{ apply (FTRP_raw _ _ rem false); proj; try exact L4; try exact Hr8; unfold rem; lia. }
  apply bind_Segv. unfold PUT. rewrite valid_false_hi; [reflexivity|].
  proj. unfold rem. lia.
Qed.

(** ** [mm_malloc] *)

Lemma adjusted_props size :
  0 < size -> size + 15 < 2 ^ 32 ->
  16 <= adjusted size /\ adjusted size mod 8 = 0 /\
  size + 8 <= adjusted size /\ adjusted size < 2 ^ 32.
Proof.
  intros H0 H. unfold adjusted, roundup8.
  destruct (size <=? 8) eqn:E.
  - apply Z.leb_le in E. repeat split; try lia.
  - apply Z.leb_gt in E.
    pose proof (Z.div_mod (size + 8 + 7) 8 ltac:(lia)) as D.
    pose proof (Z.mod_pos_bound (size + 8 + 7) 8 ltac:(lia)) as B.
    repeat split; try lia.
    rewrite Z.mul_comm. apply Z.mod_mul. lia.
Qed.

Lemma code_adjusted size :
  0 < size -> size + 15 < 2 ^ 32 ->
  (if size <=? DSIZE then DSIZE + OVERHEAD
   else u32 (u64 (DSIZE * (u64 (size + OVERHEAD + (DSIZE - 1)) / DSIZE))))
  = adjusted size.
Proof.
  intros H0 H. unfold adjusted, roundup8, DSIZE, OVERHEAD.
  destruct (size <=? 8) eqn:E; [reflexivity|].
  apply Z.leb_gt in E.
  change (8 - 1) with 7.
  pose proof (Z.div_mod (size + 8 + 7) 8 ltac:(lia)) as D.
  pose proof (Z.mod_pos_bound (size + 8 + 7) 8 ltac:(lia)) as B.
  rewrite (u64_small (size + 8 + 7)) by lia.
  rewrite u64_small by lia. apply u32_small. lia.
Qed.

Lemma take_last_free_total l :
  total (fst (take_last_free l)) + snd (take_last_free l) = total l.
Proof.
  destruct (layout_last_case l) as [H|(l' & ps & ->)].
  - rewrite (take_last_free_none _ H). cbn [fst snd]. lia.
  - rewrite take_last_free_snoc, total_app. cbn [fst snd total]. lia.
Qed.

(** Coalescing leaves the allocated blocks where they are. *)
Lemma coalesced_allocs b l1 sz a l2 x s0 :
  In (x, s0, true) (cells b (l1 ++ (sz, a) :: l2)) -> x <> b + total l1 ->
  In (x, s0, true) (cells b (coalesced l1 sz l2)).
Proof.
  intros Hin Hne. unfold coalesced.
  rewrite cells_app in Hin. apply in_app_or in Hin.
  rewrite cells_app. apply in_or_app.
  destruct Hin as [Hin|Hin].
  - left. destruct (layout_last_case l1) as [H|(l' & ps & ->)].
    + rewrite (take_last_free_none _ H). assumption.
    + rewrite take_last_free_snoc. cbn [fst].
      rewrite cells_app in Hin. apply in_app_or in Hin.
      destruct Hin as [Hin|[Hin|[]]]; [assumption | discriminate].
  - right. cbn [cells] in Hin. destruct Hin as [Hin|Hin].
    + injection Hin as E _. exfalso. apply Hne. symmetry. exact E.
    + cbn [cells]. right.
      pose proof (take_last_free_total l1) as T.
      destruct (layout_first_case l2) as [H|(ns & l2' & ->)].
      * rewrite (take_first_free_none _ H). cbn [fst snd].
        replace (b + total (fst (take_last_free l1)) + (snd (take_last_free l1) + sz + 0))
          with (b + total l1 + sz) by lia. assumption.
      * cbn [take_first_free fst snd]. cbn [cells] in Hin.
        destruct Hin as [Hin|Hin]; [discriminate|].
        replace (b + total (fst (take_last_free l1)) + (snd (take_last_free l1) + sz + ns))
          with (b + total l1 + sz + ns) by lia. assumption.
Qed.

Lemma placed_allocs b l1 csz l2 asize x s0 :
  In (x, s0, true) (cells b (l1 ++ (csz, false) :: l2)) ->
  In (x, s0, true) (cells b (l1 ++ placed csz asize ++ l2)).
Proof.
  intros Hin. rewrite cells_app in *. apply in_app_or in Hin. apply in_or_app.
  destruct Hin as [Hin|Hin]; [left; assumption|]. right.
  cbn [cells] in Hin. destruct Hin as [Hin|Hin]; [discriminate|].
  rewrite cells_app. apply in_or_app. right.
  replace (total (placed csz asize)) with csz; [assumption|].
  unfold placed. destruct (16 <=? csz - asize); cbn [total]; lia.
Qed.

Lemma placed_block b l1 csz l2 asize :
  asize <= csz ->
  exists sz, In (b + total l1, sz, true) (cells b (l1 ++ placed csz asize ++ l2)) /\ asize <= sz.
Proof.
  intros Hle. unfold placed. destruct (16 <=? csz - asize).
  - exists asize. split; [|lia]. apply (cells_middle l1 asize true).
  - exists csz. split; [|lia]. apply (cells_middle l1 csz true).
Qed.

(** Placing into a free block of the heap, whatever its size: either
    the block is big enough and [place] succeeds, or the call faults. *)
Lemma place_any s l1 csz l2 fl asize :
  Heap s (l1 ++ (csz, false) :: l2) fl ->
  16 <= asize < 2 ^ 32 -> asize mod 8 = 0 ->
  (asize <= csz /\
   exists m' fl',
     place (mem_lo s + 72 + total l1) asize s = Ok tt (set_mem s m') /\
     Heap (set_mem s m') (l1 ++ placed csz asize ++ l2) fl') \/
  (csz < asize /\ place (mem_lo s + 72 + total l1) asize s = Segv).
Proof.
  intros HH Ha Ha8. destruct (Z_le_gt_dec asize csz) as [Hle|Hgt].
  - left. split; [assumption|]. apply (place_spec _ _ _ _ fl); try assumption; lia.
  - right. split; [lia|]. apply (place_overrun s l1 csz l2 fl); try assumption; lia.
Qed.

Lemma coalesced_allocs_inv b l1 sz l2 x s0 :
  In (x, s0, true) (cells b (coalesced l1 sz l2)) ->
  In (x, s0, true) (cells b (l1 ++ (sz, false) :: l2)).
Proof.
  unfold coalesced. intros Hin.
  rewrite cells_app in *. apply in_app_or in Hin. apply in_or_app.
  destruct (layout_last_case l1) as [H|(l' & ps & E)].
  - rewrite (take_last_free_none _ H) in *. cbn [fst snd] in *.
    destruct Hin as [Hin|Hin]; [left; assumption|right].
    cbn [cells] in *. destruct Hin as [Hin|Hin]; [discriminate|]. right.
    destruct (layout_first_case l2) as [H2|(ns & l2' & ->)].
    + rewrite (take_first_free_none _ H2) in Hin. cbn [fst snd] in Hin.
      replace (b + total l1 + (0 + sz + 0)) with (b + total l1 + sz) in Hin by lia.
      assumption.
    + cbn [take_first_free fst snd] in Hin. cbn [cells]. right.
      replace (b + total l1 + (0 + sz + ns)) with (b + total l1 + sz + ns) in Hin by lia.
      assumption.
  - subst l1. rewrite take_last_free_snoc in *. cbn [fst snd] in *.
    destruct Hin as [Hin|Hin].
    + left. rewrite cells_app. apply in_or_app. left. assumption.
    + right. cbn [cells] in *. destruct Hin as [Hin|Hin]; [discriminate|]. right.
      rewrite total_app. cbn [total].
      destruct (layout_first_case l2) as [H2|(ns & l2' & ->)].
      * rewrite (take_first_free_none _ H2) in Hin. cbn [fst snd] in Hin.
        replace (b + (total l' + (ps + 0)) + sz) with (b + total l' + (ps + sz + 0)) by lia.
        assumption.
      * cbn [take_first_free fst snd] in Hin. cbn [cells]. right.
        replace (b + (total l' + (ps + 0)) + sz + ns) with (b + total l' + (ps + sz + ns))
          by lia.
        assumption.
Qed.

(** The allocated blocks after [place]: those of before and the new
    one. *)
Lemma placed_cells_iff b l1 csz l2 asize x s0 :
  In (x, s0, true) (cells b (l1 ++ placed csz asize ++ l2)) <->
  In (x, s0, true) (cells b (l1 ++ (csz, false) :: l2)) \/
  (x = b + total l1 /\ s0 = placed_size csz asize).
Proof.
  assert (T : total (placed csz asize) = csz)
    by (unfold placed; destruct (16 <=? csz - asize); cbn [total]; lia).
  rewrite !cells_app, T. cbn [cells]. rewrite !in_app_iff. cbn [In].
  unfold placed, placed_size. destruct (16 <=? csz - asize); cbn [cells In].
  - split.
    + intros [H|[[H|[H|[]]]|H]].
      * left. left. assumption.
      * right. injection H as <- <-. split; reflexivity.
      * discriminate H.
      * left. right. right. assumption.
    + intros [[H|[H|H]]|[-> ->]].
      * left. assumption.
      * discriminate H.
      * right. right. assumption.
      * right. left. left. reflexivity.
  - split.
    + intros [H|[[H|[]]|H]].
      * left. left. assumption.
      * right. injection H as <- <-. split; reflexivity.
      * left. right. right. assumption.
    + intros [[H|[H|H]]|[-> ->]].
      * left. assumption.
      * discriminate H.
      * right. right. assumption.
      * right. left. left. reflexivity.
Qed.

Lemma placed_size_bound csz asize :
  asize <= csz -> asize <= placed_size csz asize < asize + 16.
Proof.
  intros H. unfold placed_size. destruct (16 <=? csz - asize) eqn:E.
  - lia.
  - apply Z.leb_gt in E. lia.
Qed.

Lemma place_any_full s l1 csz l2 fl asize :
  Heap s (l1 ++ (csz, false) :: l2) fl ->
  16 <= asize < 2 ^ 32 -> asize mod 8 = 0 ->
  (asize <= csz /\
   exists m' fl',
     place (mem_lo s + 72 + total l1) asize s = Ok tt (set_mem s m') /\
     Heap (set_mem s m') (l1 ++ placed csz asize ++ l2) fl' /\
     keeps_payloads s (l1 ++ (csz, false) :: l2) m') \/
  (csz < asize /\ place (mem_lo s + 72 + total l1) asize s = Segv).
Proof.
  intros HH Ha Ha8. destruct (Z_le_gt_dec asize csz) as [Hle|Hgt].
  - left. split; [assumption|]. apply (place_full _ _ _ _ fl); try assumption; lia.
  - right. split; [lia|]. apply (place_overrun s l1 csz l2 fl); try assumption; lia.
Qed.

(** [mm_malloc] on a well-formed heap: the allocated blocks afterwards
    are those of before and the block returned, which was not allocated
    before and exceeds the adjusted size by less than a minimal block;
    the payloads of the blocks of before are untouched. *)
Lemma mm_malloc_full s bl fl size p s' :
  Heap s bl fl -> 0 < size -> size + 15 < 2 ^ 32 ->
  mm_malloc size s = Ok p s' ->
  exists bl' fl',
    Heap s' bl' fl' /\ mem_lo s' = mem_lo s /\ mem_hi s' = mem_hi s /\
    keeps_payloads s bl (mem s') /\
    ((p = NULL /\ s' = s /\ bl' = bl /\
      mem_hi s < mem_brk s + MIN (adjusted size) CHUNKSIZE) \/
     (exists sz,
        adjusted size <= sz < adjusted size + 16 /\
        (forall s0, ~ In (p, s0, true) (cells (mem_lo s + 72) bl)) /\
        (forall x s0, In (x, s0, true) (cells (mem_lo s + 72) bl') <->
                      In (x, s0, true) (cells (mem_lo s + 72) bl) \/ (x = p /\ s0 = sz)) /\
        (mem_brk s' = mem_brk s ->
         exists l1 csz l2,
           bl = l1 ++ (csz, false) :: l2 /\ bl' = l1 ++ placed csz (adjusted size) ++ l2 /\
           p = mem_lo s + 72 + total l1 /\ adjusted size <= csz))).
Proof.
  intros HH H0 Hsz Hm.
  destruct (adjusted_props size H0 Hsz) as (A16 & A8 & Asz & A32).
  pose proof (heap_rep _ _ _ HH) as HR.
  pose proof (rep_brk _ _ _ HR) as Hbrk.
  pose proof (rep_room _ _ _ HR). pose proof (rep_lo _ _ _ HR).
  pose proof (rep_hi _ _ _ HR). pose proof (rep_span _ _ _ HR).
  pose proof (tiles_total _ _ _ (rep_tiles _ _ _ HR)) as N.
  unfold mm_malloc in Hm.
  replace (size <=? 0) with false in Hm by (symmetry; apply Z.leb_gt; lia).
  rewrite code_adjusted in Hm by assumption.
  destruct (find_fit_Heap s bl fl (adjusted size) HR) as (p0 & Hf & Hp0).
  rewrite (bind_Ok _ _ _ _ _ Hf) in Hm.
  destruct Hp0 as [->|(csz & Hc & _)].
  - (* no fit: extend the heap *)
    cbn [Z.eqb negb NULL] in Hm.
    set (ext := MIN (adjusted size) CHUNKSIZE) in *.
    assert (Hext : 16 <= ext <= 65536 /\ ext mod 8 = 0 /\
                   (ext = adjusted size \/ adjusted size > ext)).
    { unfold ext, MIN, CHUNKSIZE. change (Z.shiftl 1 16) with 65536.
      destruct (adjusted size >? 65536) eqn:E.
      - apply Z.gtb_lt in E. repeat split; first [lia | right; lia].
      - rewrite Z.gtb_ltb in E. apply Z.ltb_ge in E.
        repeat split; first [lia | left; reflexivity]. }
    destruct Hext as (E1 & E8 & E3).
    pose proof (Z.div_mod ext 8 ltac:(lia)) as D8. rewrite E8 in D8.
    assert (Hw : ext / WSIZE = 2 * (ext / 8)).
    { unfold WSIZE. symmetry. apply Z.div_unique with (r := 0); lia. }
    assert (Hw4 : 4 * (ext / WSIZE) = ext) by lia.
    assert (Hweven : (ext / WSIZE) mod 2 = 0).
    { rewrite Hw. rewrite Z.mul_comm. apply Z.mod_mul. lia. }
    destruct (extend_heap_full s bl fl (ext / WSIZE) HH Hweven ltac:(lia)) as [Hgrow Hfull].
    rewrite Hw4 in Hgrow, Hfull.
    destruct (Z_le_gt_dec (mem_brk s + ext) (mem_hi s)) as [Hroom|Hnoroom].
    + destruct (Hgrow Hroom) as (m1 & fl1 & X1 & HH1 & K1).
      rewrite (bind_Ok _ _ _ _ _ X1) in Hm.
      pose proof (take_last_free_total bl) as TT.
      set (l1' := fst (take_last_free bl)) in *.
      set (ps := snd (take_last_free bl)) in *.
      assert (Hps : 0 <= ps).
      { unfold ps. destruct (layout_last_case bl) as [Hl|(l' & q & ->)].
        - rewrite (take_last_free_none _ Hl). cbn [snd]. lia.
        - rewrite take_last_free_snoc. cbn [snd].
          pose proof (rep_tiles _ _ _ HR) as T. apply tiles_app in T.
          destruct T as [_ [[T _] _]]. lia. }
      assert (Hl1' : 0 <= total l1').
      { unfold l1'. destruct (layout_last_case bl) as [Hl|(l' & q & ->)].
        - rewrite (take_last_free_none _ Hl). cbn [fst]. lia.
        - rewrite take_last_free_snoc. cbn [fst].
          pose proof (rep_tiles _ _ _ HR) as T. apply tiles_app in T.
          destruct T as [T _]. apply (tiles_total _ _ _ T). }
      replace (mem_brk s - ps =? NULL) with false in Hm
        by (symmetry; apply Z.eqb_neq; unfold NULL; lia).
      set (s1 := set_mem (set_brk s (mem_brk s + ext)) m1) in *.
      unfold coalesced in HH1. cbn [take_first_free fst snd] in HH1.
      fold l1' ps in HH1.
      replace (mem_brk s - ps) with (mem_lo s1 + 72 + total l1') in Hm
        by (unfold s1; proj; lia).
      assert (Hco : forall x s0,
                In (x, s0, true) (cells (mem_lo s + 72) (l1' ++ (ps + ext + 0, false) :: []))
                <-> In (x, s0, true) (cells (mem_lo s + 72) bl)).
      { intros x s0. split; intros Hx.
        - apply (coalesced_allocs_inv _ bl ext []) in Hx.
          rewrite cells_app in Hx. apply in_app_or in Hx.
          destruct Hx as [Hx|[Hx|[]]]; [assumption | discriminate Hx].
        - assert (Hx' : In (x, s0, true) (cells (mem_lo s + 72) (bl ++ (ext, false) :: []))).
          { rewrite cells_app. apply in_or_app. left. assumption. }
          pose proof (coalesced_allocs _ _ _ _ _ _ _ Hx') as Q.
          unfold coalesced in Q. cbn [take_first_free fst snd] in Q. apply Q.
          destruct (cell_bounds _ _ _ HR _ _ _ Hx) as (_ & ? & ? & _). lia. }
      assert (Hfresh : forall s0,
                ~ In (mem_lo s + 72 + total l1', s0, true) (cells (mem_lo s + 72) bl)).
      { intros s0 Hx. destruct (layout_last_case bl) as [Hl|(l' & q & E)].
        - unfold l1' in Hx. rewrite (take_last_free_none _ Hl) in Hx. cbn [fst] in Hx.
          destruct (cell_bounds _ _ _ HR _ _ _ Hx) as (_ & ? & ? & _). lia.
        - unfold l1' in Hx. rewrite E, take_last_free_snoc in Hx. cbn [fst] in Hx.
          rewrite <- E in Hx.
          assert (Hq : In (mem_lo s + 72 + total l', q, false) (cells (mem_lo s + 72) bl))
            by (rewrite E; apply cells_middle).
          destruct (cell_size_unique _ _ _ HR _ _ _ _ _ Hx Hq) as [_ Q]. discriminate Q. }
      destruct (place_any_full s1 l1' (ps + ext + 0) [] fl1 (adjusted size) HH1 ltac:(lia) A8)
        as [(Hle & m2 & fl2 & P2 & HH2 & K2)|(Hgt & P2)].
      * rewrite (bind_Ok _ _ _ _ _ P2) in Hm. unfold ret in Hm.
        injection Hm as <- <-.
        exists (l1' ++ placed (ps + ext + 0) (adjusted size) ++ []), fl2.
        split; [exact HH2|]. split; [reflexivity|]. split; [reflexivity|].
        split.
        -- proj. apply (keeps_step s bl s1 (l1' ++ (ps + ext + 0, false) :: []) m2);
             [exact K1 | reflexivity | intros x s0 Hx; apply Hco; exact Hx | exact K2].
        -- right. exists (placed_size (ps + ext + 0) (adjusted size)).
           split; [apply placed_size_bound; assumption|].
           unfold s1; proj. split; [exact Hfresh|]. split.
           ++ intros x s0. rewrite placed_cells_iff, Hco. reflexivity.
           ++ intros Hbk. exfalso. lia.
      * rewrite (bind_Segv _ _ _ P2) in Hm. discriminate.
    + rewrite (bind_Ok _ _ _ _ _ (Hfull ltac:(lia))) in Hm.
      cbn [Z.eqb NULL] in Hm. unfold ret in Hm. injection Hm as <- <-.
      exists bl, fl. split; [assumption|]. split; [reflexivity|]. split; [reflexivity|].
      split; [apply keeps_refl|]. left. repeat split. lia.
  - (* a head fits *)
    destruct (cells_split _ _ _ _ _ Hc) as (l1 & l2 & -> & ->).
    replace (negb (mem_lo s + 72 + total l1 =? NULL)) with true in Hm
      by (symmetry; apply negb_true_iff, Z.eqb_neq; unfold NULL;
          pose proof (tiles_total _ _ _ (proj1 (proj1 (tiles_app _ _ _ _) (rep_tiles _ _ _ HR))));
          lia).
    destruct (place_any_full s l1 csz l2 fl (adjusted size) HH ltac:(lia) A8)
      as [(Hle & m2 & fl2 & P2 & HH2 & K2)|(Hgt & P2)].
    + rewrite (bind_Ok _ _ _ _ _ P2) in Hm. unfold ret in Hm. injection Hm as <- <-.
      exists (l1 ++ placed csz (adjusted size) ++ l2), fl2.
      split; [exact HH2|]. split; [reflexivity|]. split; [reflexivity|]. split.
      * proj. exact K2.
      * right. exists (placed_size csz (adjusted size)).
        split; [apply placed_size_bound; assumption|]. split.
        -- intros s0 Hx.
           destruct (cell_size_unique _ _ _ HR _ _ _ _ _ Hx Hc) as [_ Q]. discriminate Q.
        -- split; [intros x s0; apply placed_cells_iff|].
           intros _. exists l1, csz, l2. repeat split; try reflexivity. exact Hle.
    + rewrite (bind_Segv _ _ _ P2) in Hm. discriminate.
Qed.

Lemma mm_malloc_spec s bl fl size p s' :
  Heap s bl fl -> 0 < size -> size + 15 < 2 ^ 32 ->
  mm_malloc size s = Ok p s' ->
  exists bl' fl',
    Heap s' bl' fl' /\ mem_lo s' = mem_lo s /\ mem_hi s' = mem_hi s /\
    (forall x s0, In (x, s0, true) (cells (mem_lo s + 72) bl) ->
                  In (x, s0, true) (cells (mem_lo s + 72) bl')) /\
    ((p = NULL /\ s' = s /\ mem_hi s < mem_brk s + MIN (adjusted size) CHUNKSIZE) \/
     (exists sz, In (p, sz, true) (cells (mem_lo s + 72) bl') /\ adjusted size <= sz)).
Proof.
  intros HH H0 Hsz Hm.
  destruct (mm_malloc_full s bl fl size p s' HH H0 Hsz Hm)
    as (bl' & fl' & HH' & Elo & Ehi & _ & Hcase).
  exists bl', fl'. split; [exact HH'|]. split; [exact Elo|]. split; [exact Ehi|].
  destruct Hcase as [(-> & -> & -> & Hroom)|(sz & Hsz' & _ & Hiff & _)].
  - split; [intros; assumption|]. left. repeat split. exact Hroom.
  - split.
    + intros x s0 Hx. apply Hiff. left. exact Hx.
    + right. exists sz. split; [|lia]. apply Hiff. right. split; reflexivity.
Qed.

(** ** Writes into the payload of an allocated block *)

Lemma Heap_payload_write s bl fl x sz m' :
  Heap s bl fl -> In (x, sz, true) (cells (mem_lo s + 72) bl) ->
  (forall a, a < x \/ x + sz - 8 <= a -> m' a = mem s a) ->
  Heap (set_mem s m') bl fl.
Proof.
  intros [HR Hcomp Hadj] Hc F.
  destruct (cells_split _ _ _ _ _ Hc) as (l1 & l2 & -> & ->).
  destruct (cell_facts _ _ _ HR _ _ _ Hc) as (F1 & F2 & F3 & F4 & F5 & F6 & F7 & F8 & F9 & F10).
  constructor; try assumption.
  apply (Rep_retile s l1 [(sz, true)] l2 fl [(sz, true)]); try assumption.
  - reflexivity.
  - intros a Ha. cbn [total] in Ha. apply F. lia.
  - cbn [tiles]. split; [|exact I].
    unfold tagged. rewrite !(load32_agree (mem s) m') by (intros; apply F; lia).
    repeat split; assumption.
  - intros k y sz0 Hk Hy [Hy'|[]]. discriminate.
Qed.

Lemma Heap_log_copy s bl fl e : Heap s bl fl -> Heap (log_copy s e) bl fl.
Proof.
  intros [HR Hcomp Hadj]. constructor; try assumption.
  destruct HR. constructor; assumption.
Qed.

Lemma copy_bytes_other m dst src n a :
  a < dst \/ dst + n <= a -> copy_bytes m dst src n a = m a.
Proof.
  intros H. unfold copy_bytes.
  destruct (dst <=? a) eqn:E1; destruct (a <? dst + n) eqn:E2; cbn [andb]; try reflexivity.
  apply Z.leb_le in E1. apply Z.ltb_lt in E2. lia.
Qed.

(** ** [mm_realloc] *)

Lemma mm_realloc_spec s bl fl ptr psz size newp s' :
  Heap s bl fl -> In (ptr, psz, true) (cells (mem_lo s + 72) bl) ->
  0 < size -> size + 15 < 2 ^ 32 ->
  mm_realloc ptr size s = Ok newp s' ->
  exists s1 bl' fl',
    mm_malloc size s = Ok newp s1 /\ size_of s1 ptr = psz /\
    Heap s' bl' fl' /\ mem_lo s' = mem_lo s /\ mem_hi s' = mem_hi s.
Proof.
  intros HH Hp H0 Hsz Hr.
  unfold mm_realloc in Hr.
  apply bind_inv in Hr. destruct Hr as (p & s1 & Hm & Hr).
  destruct (p =? NULL) eqn:Ep; [discriminate|]. apply Z.eqb_neq in Ep.
  destruct (mm_malloc_spec _ _ _ _ _ _ HH H0 Hsz Hm)
    as (bl1 & fl1 & HH1 & Elo & Ehi & Hkeep & [(-> & _)|(sz1 & Hc1 & Hle)]); [contradiction|].
  pose proof (heap_rep _ _ _ HH1) as HR1.
  pose proof (Hkeep _ _ Hp) as Hp1. rewrite <- Elo in Hp1, Hc1.
  destruct (cell_facts _ _ _ HR1 _ _ _ Hp1) as (F1 & F2 & F3 & F4 & F5 & F6 & F7 & F8 & F9 & F10).
  destruct (cell_facts _ _ _ HR1 _ _ _ Hc1) as (G1 & G2 & _ & _ & _ & _ & G7 & G8 & G9 & G10).
  destruct (adjusted_props size H0 Hsz) as (A16 & A8 & Asz & A32).
  rewrite (bind_Ok _ _ _ _ _ (cell_GET_SIZE _ _ _ HR1 _ _ _ Hp1)) in Hr.
  set (n := if size <? psz then size else psz) in *.
  assert (Hn : 0 <= n <= size /\ n <= psz).
  { unfold n. destruct (size <? psz) eqn:E; [apply Z.ltb_lt in E | apply Z.ltb_ge in E]; lia. }
  apply bind_inv in Hr. destruct Hr as ([] & s2 & Hc & Hr).
  unfold memcpy in Hc.
  destruct (valid s1 p n && valid s1 ptr n); [|discriminate].
  injection Hc as <-.
  assert (HH2 : Heap (log_copy (set_mem s1 (copy_bytes (mem s1) p ptr n)) (p, ptr, n)) bl1 fl1).
  { apply Heap_log_copy. apply (Heap_payload_write _ _ _ p sz1); try assumption.
    intros a Ha. apply copy_bytes_other. lia. }
  set (s2 := log_copy (set_mem s1 (copy_bytes (mem s1) p ptr n)) (p, ptr, n)) in *.
  destruct (cells_split _ _ _ _ _ Hp1) as (l1 & l2 & E & Eptr).
  rewrite E in HH2.
  destruct (mm_free_spec s2 l1 psz l2 fl1 HH2) as (m3 & fl3 & Hf & HH3).
  replace (mem_lo s2 + 72 + total l1) with ptr in Hf by (unfold s2; proj; lia).
  rewrite (bind_Ok _ _ _ _ _ Hf) in Hr. unfold ret in Hr. injection Hr as <- <-.
  exists s1, (coalesced l1 psz l2), fl3.
  split; [assumption|]. split.
  - apply (proj1 (cell_size_of _ _ _ _ _ _ HR1 Hp1)).
  - split; [exact HH3|]. unfold s2; proj. split; assumption.
Qed.

(** [mm_realloc] returns whenever its allocation returns a block. *)
Lemma mm_realloc_returns s bl fl ptr psz size newp s1 :
  Heap s bl fl -> In (ptr, psz, true) (cells (mem_lo s + 72) bl) ->
  0 < size -> size + 15 < 2 ^ 32 ->
  mm_malloc size s = Ok newp s1 -> newp <> NULL ->
  exists s', mm_realloc ptr size s = Ok newp s'.
Proof.
  intros HH Hp H0 Hsz Hm Hnn.
  unfold mm_realloc. rewrite (bind_Ok _ _ _ _ _ Hm).
  replace (newp =? NULL) with false by (symmetry; apply Z.eqb_neq; assumption).
  destruct (mm_malloc_spec _ _ _ _ _ _ HH H0 Hsz Hm)
    as (bl1 & fl1 & HH1 & Elo & Ehi & Hkeep & [(-> & _)|(sz1 & Hc1 & Hle)]); [contradiction|].
  pose proof (heap_rep _ _ _ HH1) as HR1.
  pose proof (Hkeep _ _ Hp) as Hp1. rewrite <- Elo in Hp1, Hc1.
  destruct (cell_facts _ _ _ HR1 _ _ _ Hp1) as (F1 & F2 & F3 & F4 & F5 & F6 & F7 & F8 & F9 & F10).
  destruct (cell_facts _ _ _ HR1 _ _ _ Hc1) as (G1 & G2 & _ & _ & _ & _ & G7 & G8 & G9 & G10).
  destruct (adjusted_props size H0 Hsz) as (A16 & A8 & Asz & A32).
  rewrite (bind_Ok _ _ _ _ _ (cell_GET_SIZE _ _ _ HR1 _ _ _ Hp1)).
  set (n := if size <? psz then size else psz) in *.
  assert (Hn : 0 <= n <= size /\ n <= psz).
  { unfold n. destruct (size <? psz) eqn:E; [apply Z.ltb_lt in E | apply Z.ltb_ge in E]; lia. }
  assert (Hcopy : memcpy newp ptr n s1
                  = Ok tt (log_copy (set_mem s1 (copy_bytes (mem s1) newp ptr n)) (newp, ptr, n))).
  { unfold memcpy. rewrite !valid_intro by lia. reflexivity. }
  rewrite (bind_Ok _ _ _ _ _ Hcopy).
  assert (HH2 : Heap (log_copy (set_mem s1 (copy_bytes (mem s1) newp ptr n)) (newp, ptr, n))
                     bl1 fl1).
  { apply Heap_log_copy. apply (Heap_payload_write _ _ _ newp sz1); try assumption.
    intros a Ha. apply copy_bytes_other. lia. }
  set (s2 := log_copy (set_mem s1 (copy_bytes (mem s1) newp ptr n)) (newp, ptr, n)) in *.
  destruct (cells_split _ _ _ _ _ Hp1) as (l1 & l2 & E & Eptr).
  rewrite E in HH2.
  destruct (mm_free_spec s2 l1 psz l2 fl1 HH2) as (m3 & fl3 & Hf & HH3).
  replace (mem_lo s2 + 72 + total l1) with ptr in Hf by (unfold s2; proj; lia).
  rewrite (bind_Ok _ _ _ _ _ Hf). eexists. reflexivity.
Qed.

(** ** [mm_init] *)

Lemma mem_sbrk_ok s n :
  0 <= n -> mem_brk s + n <= mem_hi s ->
  mem_sbrk n s = Ok (Some (mem_brk s)) (set_brk s (mem_brk s + n)).
Proof.
  intros H0 H. unfold mem_sbrk.
  replace ((n <? 0) || (mem_hi s <? mem_brk s + n)) with false; [reflexivity|].
  symmetry. apply orb_false_iff. split; apply Z.ltb_ge; lia.
Qed.

Lemma mm_init_before_extend_boot m lo hi :
  0 <= lo -> hi <= 2 ^ 62 -> lo + 72 <= hi ->
  mm_init_before_extend (boot m lo hi)
  = Ok 0 (mkState (init_mem m lo) lo (lo + 72) hi (lo + 64) lo []).
Proof.
  intros Hlo Hhi Hroom. unfold mm_init_before_extend, boot.
  erewrite bind_Ok by (apply mem_sbrk_ok; proj; unfold DSIZE; lia).
  cbv beta iota zeta delta [sbrk_ptr]. unfold set_global_ptr_classes at 1. unfold bind at 1.
  unfold set_brk, set_ptr_classes. proj.
  erewrite bind_Ok by (apply set_class_ok; proj; lia).
  erewrite bind_Ok by (apply set_class_ok; proj; lia).
  erewrite bind_Ok by (apply set_class_ok; proj; lia).
  erewrite bind_Ok by (apply set_class_ok; proj; lia).
  erewrite bind_Ok by (apply set_class_ok; proj; lia).
  erewrite bind_Ok by (apply set_class_ok; proj; lia).
  unfold set_mem at 1 2 3 4 5 6. proj.
  erewrite bind_Ok by (apply mem_sbrk_ok; proj; unfold WSIZE, DSIZE; lia).
  cbv beta iota zeta delta [sbrk_ptr]. unfold set_global_heap_listp at 1. unfold bind at 1.
  unfold set_brk, set_heap_listp. proj. unfold WSIZE, DSIZE, OVERHEAD.
  rewrite !padd_small by lia.
  erewrite bind_Ok by (apply PUT_ok; proj; lia).
  erewrite bind_Ok by (apply PUT_ok; proj; lia).
  erewrite bind_Ok by (apply PUT_ok; proj; lia).
  erewrite bind_Ok by (apply PUT_ok; proj; lia).
  unfold set_global_heap_listp, bind, ret, set_mem, set_heap_listp. proj.
  unfold init_mem. change (PACK 8 1) with 9. change (PACK 0 1) with 1.
  replace (lo + 8 * 0) with lo by lia.
  replace (lo + 8 * 1) with (lo + 8) by lia. replace (lo + 8 * 2) with (lo + 16) by lia.
  replace (lo + 8 * 3) with (lo + 24) by lia. replace (lo + 8 * 4) with (lo + 32) by lia.
  replace (lo + 8 * 5) with (lo + 40) by lia.
  replace (lo + 7 * 8) with (lo + 56) by lia.
  replace (lo + 56 + 4 * 4) with (lo + 72) by lia.
  replace (lo + 56 + 4) with (lo + 60) by lia. replace (lo + 56 + 8) with (lo + 64) by lia.
  replace (lo + 60 + 8) with (lo + 68) by lia.
  reflexivity.
Qed.

Lemma init_mem_slot m lo k :
  0 <= k <= 5 -> load64 (init_mem m lo) (lo + 8 * k) = NULL.
Proof.
  intros Hk. unfold init_mem, NULL.
  rewrite !load64_store32_other by lia.
  assert (E : k = 0 \/ k = 1 \/ k = 2 \/ k = 3 \/ k = 4 \/ k = 5) by lia.
  destruct E as [-> | [-> | [-> | [-> | [-> | ->]]]]];
    repeat first [ rewrite load64_store64_other by lia
                 | replace (lo + 8 * 0) with lo by lia
                 | replace (lo + 8 * 1) with (lo + 8) by lia
                 | replace (lo + 8 * 2) with (lo + 16) by lia
                 | replace (lo + 8 * 3) with (lo + 24) by lia
                 | replace (lo + 8 * 4) with (lo + 32) by lia
                 | replace (lo + 8 * 5) with (lo + 40) by lia ];
    apply load64_store64_same; lia.
Qed.

Lemma init_mem_slot6 m lo : load64 (init_mem m lo) (lo + 48) = load64 m (lo + 48).
Proof.
  unfold init_mem.
  rewrite !load64_store32_other by lia.
  rewrite !load64_store64_other by lia. reflexivity.
Qed.

Lemma init_mem_words m lo :
  load32 (init_mem m lo) (lo + 60) = 9 /\ load32 (init_mem m lo) (lo + 64) = 9 /\
  load32 (init_mem m lo) (lo + 68) = 1.
Proof.
  unfold init_mem. repeat split.
  - rewrite !load32_store32_other by lia. rewrite load32_store32_same. reflexivity.
  - rewrite !load32_store32_other by lia. rewrite load32_store32_same. reflexivity.
  - rewrite load32_store32_same. reflexivity.
Qed.

(** Before the first extension the heap is empty, provided the host
    left zero in the bytes of slot 6. *)
Lemma init_mem_Heap m lo hi :
  0 <= lo -> hi <= 2 ^ 62 -> hi - lo < 2 ^ 31 -> lo + 72 <= hi ->
  load64 m (lo + 48) = NULL ->
  Heap (mkState (init_mem m lo) lo (lo + 72) hi (lo + 64) lo []) [] (fun _ => []).
Proof.
  intros Hlo Hhi Hspan Hroom H6.
  destruct (init_mem_words m lo) as (P1 & P2 & P3).
  split; [split|..]; proj; cbn [total cells hd chain In]; try lia; try tauto.
  - replace (lo + 72 - 4) with (lo + 68) by lia. exact P3.
  - exact I.
  - intros k Hk. destruct (Z.eq_dec k 6) as [->|Hne].
    + replace (lo + 8 * 6) with (lo + 48) by lia. rewrite init_mem_slot6. exact H6.
    + apply init_mem_slot. lia.
  - intros. constructor.
Qed.

Lemma Rep_single_lists s sz fl k :
  Rep s [(sz, false)] fl -> 0 <= k <= 6 -> k <> bucket_of sz -> fl k = [].
Proof.
  intros HR Hk Hne.
  assert (E : fl k = [] \/ exists h t, fl k = h :: t)
    by (destruct (fl k) as [|h t]; [left; reflexivity | right; eauto]).
  destruct E as [E | (h & t & E)]; [exact E | exfalso].
  destruct (rep_sound _ _ _ HR k h Hk) as (sz' & Hin & Hb).
  { rewrite E. left. reflexivity. }
  cbn [cells In] in Hin. destruct Hin as [Hin | []].
  injection Hin as _ Hsz. subst sz'. congruence.
Qed.

(** [mm_init] on an arena with room for the initial chunk, whose bytes
    of slot 6 the host left zero: it returns 0, the heap is the single
    free block of [CHUNKSIZE] bytes, and that block alone is on list 6
    with both link words zero. *)
Lemma mm_init_spec m lo hi :
  0 <= lo -> hi <= 2 ^ 62 -> hi - lo < 2 ^ 31 -> lo + 72 + 65536 <= hi ->
  load64 m (lo + 48) = NULL ->
  exists m' fl,
    mm_init (boot m lo hi) = Ok 0 (mkState m' lo (lo + 72 + 65536) hi (lo + 64) lo []) /\
    Heap (mkState m' lo (lo + 72 + 65536) hi (lo + 64) lo []) [(65536, false)] fl /\
    (forall k, 0 <= k <= 5 -> fl k = []) /\ fl 6 = [lo + 72] /\
    load32 m' (lo + 72) = 0 /\ load32 m' (lo + 76) = 0.
Proof.
  intros Hlo Hhi Hspan Hroom H6.
  pose proof (init_mem_Heap m lo hi Hlo Hhi Hspan ltac:(lia) H6) as H1.
  destruct (extend_heap_spec _ [] _ 16384 H1 eq_refl ltac:(lia)) as [Hext _].
  destruct Hext as (m2 & fl2 & Ex & H2); [proj; lia|].
  change (coalesced [] (4 * 16384) []) with [(65536, false)] in H2.
  change (snd (take_last_free [])) with 0 in Ex.
  unfold set_mem, set_brk in Ex, H2. proj.
  replace (lo + 72 - 0) with (lo + 72) in Ex by lia.
  replace (lo + 72 + 4 * 16384) with (lo + 72 + 65536) in * by lia.
  set (s2 := mkState m2 lo (lo + 72 + 65536) hi (lo + 64) lo []) in *.
  set (m3 := store32 (store32 (store64 m2 (lo + 48) (lo + 72)) (lo + 72) 0) (lo + 76) 0).
  assert (L6 : load64 (store64 m2 (lo + 48) (lo + 72)) (lo + 48) = lo + 72)
    by (apply load64_store64_same; lia).
  assert (Run : mm_init (boot m lo hi) = Ok 0 (set_mem s2 m3)).
  { unfold mm_init.
    rewrite (bind_Ok _ _ _ _ _ (mm_init_before_extend_boot m lo hi Hlo Hhi ltac:(lia))).
    change (negb (0 =? 0)) with false. cbv iota.
    change (CHUNKSIZE / WSIZE) with 16384.
    rewrite (bind_Ok _ _ _ _ _ Ex).
    replace (lo + 72 =? NULL) with false by (symmetry; apply Z.eqb_neq; unfold NULL; lia).
    unfold get_heap_listp at 1. unfold bind at 1.
    replace (heap_listp s2) with (lo + 64) by reflexivity.
    rewrite padd_small by lia. replace (lo + 64 + 8) with (lo + 72) by lia.
    erewrite bind_Ok by (apply set_class_ok; unfold s2; cbn [mem_lo mem_hi ptr_classes]; lia).
    erewrite bind_Ok by (apply get_class_ok; unfold s2; unfold set_mem; cbn [mem mem_lo mem_hi ptr_classes]; lia).
    unfold bucket_head. unfold s2. unfold set_mem; cbn [mem mem_lo mem_hi ptr_classes].
    replace (lo + 8 * 6) with (lo + 48) by lia. rewrite L6.
    erewrite bind_Ok by (apply PUT_ok; unfold set_mem; cbn [mem mem_lo mem_hi ptr_classes]; lia).
    erewrite bind_Ok by (apply get_class_ok; unfold set_mem; cbn [mem mem_lo mem_hi ptr_classes]; lia).
    unfold bucket_head. unfold set_mem; cbn [mem mem_lo mem_hi ptr_classes].
    replace (lo + 8 * 6) with (lo + 48) by lia.
    rewrite load64_store32_other by lia. rewrite L6.
    rewrite padd_small by lia. replace (lo + 72 + 4) with (lo + 76) by lia.
    erewrite bind_Ok by (apply PUT_ok; unfold set_mem; cbn [mem mem_lo mem_hi ptr_classes]; lia).
    reflexivity. }
  exists m3, (upd fl2 6 [lo + 72]).
  change (mkState m3 lo (lo + 72 + 65536) hi (lo + 64) lo []) with (set_mem s2 m3).
  split; [exact Run|].
  assert (HR3 : Rep (set_mem s2 m3) [(65536, false)] (upd fl2 6 [lo + 72])).
  { apply (Rep_update_list s2 _ fl2 6 [lo + 72] m3 (heap_rep _ _ _ H2)); [lia|..].
    - intros a Ha Hy. specialize (Hy (lo + 72) (or_intror (or_introl eq_refl))).
      unfold m3, s2 in *. cbn [mem mem_lo] in *.
      rewrite !store32_other by lia. apply store64_other. lia.
    - unfold m3, s2. cbn [mem mem_lo hd]. replace (lo + 8 * 6) with (lo + 48) by lia.
      rewrite !load64_store32_other by lia. exact L6.
    - cbn [chain]. unfold m3. replace (lo + 72 + 4) with (lo + 76) by lia.
      rewrite load32_store32_same. reflexivity.
    - constructor; [intros []|constructor].
    - intros y [<- | []]. exists 65536. split; [|reflexivity].
      unfold s2. cbn [mem_lo cells]. left. reflexivity. }
  split; [split|].
  - exact HR3.
  - intros x sz Hin. unfold s2, set_mem in Hin. cbn [mem_lo cells In] in Hin.
    destruct Hin as [Hin | []]. injection Hin as <- <-.
    change (bucket_of 65536) with 6. unfold upd. rewrite Z.eqb_refl. left. reflexivity.
  - reflexivity.
  - split; [|split; [|split]].
    + intros k Hk. unfold upd.
      replace (k =? 6) with false by (symmetry; apply Z.eqb_neq; lia).
      apply (Rep_single_lists s2 65536 fl2 k (heap_rep _ _ _ H2)); [lia|].
      change (bucket_of 65536) with 6. lia.
    + unfold upd. rewrite Z.eqb_refl. reflexivity.
    + unfold m3. rewrite load32_store32_other by lia. rewrite load32_store32_same. reflexivity.
    + unfold m3. rewrite load32_store32_same. reflexivity.
Qed.

(** ** The walk over the blocks *)

Section Walk.
Variables (s : state) (bl : layout) (fl : Z -> list Z).
Hypothesis HR : Rep s bl fl.

Lemma prologue_size_of : size_of s (heap_listp s) = 8 /\ alloc_of s (heap_listp s) = 1.
Proof.
  pose proof (rep_lo _ _ _ HR). pose proof (rep_hi _ _ _ HR).
  pose proof (rep_room _ _ _ HR). pose proof (rep_brk _ _ _ HR).
  pose proof (tiles_total _ _ _ (rep_tiles _ _ _ HR)).
  destruct (rep_prologue _ _ _ HR) as [P _].
  unfold size_of, alloc_of, hdr. rewrite (rep_listp _ _ _ HR).
  rewrite HDRP_small by lia. replace (mem_lo s + 64 - 4) with (mem_lo s + 60) by lia.
  rewrite P. split; reflexivity.
Qed.

Lemma epilogue_size_of : size_of s (mem_brk s) = 0 /\ alloc_of s (mem_brk s) = 1.
Proof.
  pose proof (rep_lo _ _ _ HR). pose proof (rep_hi _ _ _ HR).
  pose proof (rep_room _ _ _ HR). pose proof (rep_brk _ _ _ HR).
  pose proof (tiles_total _ _ _ (rep_tiles _ _ _ HR)).
  unfold size_of, alloc_of, hdr.
  rewrite HDRP_small by lia. rewrite (rep_epilogue _ _ _ HR). split; reflexivity.
Qed.

(** What follows a block of the layout: the next block, or the
    epilogue. *)
Lemma cells_next x sz a :
  In (x, sz, a) (cells (mem_lo s + 72) bl) ->
  x + sz = mem_brk s \/ exists sz' a', In (x + sz, sz', a') (cells (mem_lo s + 72) bl).
Proof.
  intros Hc. destruct (cells_split _ _ _ _ _ Hc) as (l1 & l2 & E & Ex).
  destruct l2 as [|[sz' a'] l2].
  - left. rewrite (rep_brk _ _ _ HR), E, total_app. cbn [total]. lia.
  - right. exists sz', a'. rewrite E.
    replace (l1 ++ (sz, a) :: (sz', a') :: l2)
      with ((l1 ++ [(sz, a)]) ++ (sz', a') :: l2) by (rewrite <- app_assoc; reflexivity).
    replace (x + sz) with (mem_lo s + 72 + total (l1 ++ [(sz, a)]))
      by (rewrite total_app; cbn [total]; lia).
    apply cells_middle.
Qed.

Lemma first_block :
  mem_lo s + 72 = mem_brk s \/ exists sz a, In (mem_lo s + 72, sz, a) (cells (mem_lo s + 72) bl).
Proof.
  assert (E : bl = [] \/ exists sz a r, bl = (sz, a) :: r)
    by (destruct bl as [|[sz a] r]; [left; reflexivity | right; eauto]).
  destruct E as [E | (sz & a & r & E)].
  - left. rewrite (rep_brk _ _ _ HR), E. cbn [total]. lia.
  - right. exists sz, a. rewrite E. cbn [cells]. left. reflexivity.
Qed.

Lemma block_at_cases b :
  block_at s b ->
  b = heap_listp s \/ b = mem_brk s \/
  exists sz a, In (b, sz, a) (cells (mem_lo s + 72) bl).
Proof.
  induction 1 as [|b Hb IH Hpos].
  - left. reflexivity.
  - right. destruct IH as [E | [E | (sz & a & Hc)]].
    + subst b. destruct prologue_size_of as [E _]. rewrite E.
      rewrite (rep_listp _ _ _ HR). replace (mem_lo s + 64 + 8) with (mem_lo s + 72) by lia.
      destruct first_block as [F|F]; [left; exact F | right; exact F].
    + subst b. destruct epilogue_size_of as [E _]. lia.
    + destruct (cell_size_of _ _ _ _ _ _ HR Hc) as [E _]. rewrite E.
      destruct (cells_next _ _ _ Hc) as [F|F]; [left; exact F | right; exact F].
Qed.

Lemma prefix_block_at l1 : forall l2, bl = l1 ++ l2 -> block_at s (mem_lo s + 72 + total l1).
Proof.
  induction l1 as [|[sz a] l1 IH] using rev_ind; intros l2 E.
  - cbn [total]. replace (mem_lo s + 72 + 0) with (heap_listp s + size_of s (heap_listp s)).
    + apply block_next; [apply block_first|].
      destruct prologue_size_of as [P _]. lia.
    + destruct prologue_size_of as [P _]. rewrite P, (rep_listp _ _ _ HR). lia.
  - rewrite <- app_assoc in E. cbn [app] in E.
    pose proof (IH _ E) as Hb.
    assert (Hc : In (mem_lo s + 72 + total l1, sz, a) (cells (mem_lo s + 72) bl))
      by (rewrite E; apply cells_middle).
    destruct (cell_size_of _ _ _ _ _ _ HR Hc) as [Es _].
    destruct (cell_bounds _ _ _ HR _ _ _ Hc) as (_ & _ & T16 & _).
    rewrite total_app. cbn [total].
    replace (mem_lo s + 72 + (total l1 + (sz + 0)))
      with (mem_lo s + 72 + total l1 + size_of s (mem_lo s + 72 + total l1)) by lia.
    apply block_next; [exact Hb | lia].
Qed.

Lemma cells_block_at x sz a :
  In (x, sz, a) (cells (mem_lo s + 72) bl) -> block_at s x.
Proof.
  intros Hc. destruct (cells_split _ _ _ _ _ Hc) as (l1 & l2 & E & ->).
  apply (prefix_block_at l1 _ E).
Qed.

Lemma live_cell p :
  live s p ->
  exists l1 sz l2, bl = l1 ++ (sz, true) :: l2 /\ p = mem_lo s + 72 + total l1.
Proof.
  intros (Hb & Hne & Hpos & Ha).
  destruct (block_at_cases _ Hb) as [E | [E | (sz & a & Hc)]].
  - contradiction.
  - subst p. destruct epilogue_size_of as [E _]. lia.
  - destruct (cell_size_of _ _ _ _ _ _ HR Hc) as [_ Ea].
    destruct a; [|rewrite Ha in Ea; discriminate].
    destruct (cells_split _ _ _ _ _ Hc) as (l1 & l2 & E & Ex).
    exists l1, sz, l2. split; assumption.
Qed.

End Walk.

(** [mm_init] returns 0 only when the arena has room for the class
    table, the prologue and epilogue, and the initial chunk. *)
Lemma mem_sbrk_fail s n : mem_hi s < mem_brk s + n -> mem_sbrk n s = Ok None s.
Proof.
  intros H. unfold mem_sbrk.
  replace (mem_hi s <? mem_brk s + n) with true by (symmetry; apply Z.ltb_lt; lia).
  rewrite orb_true_r. reflexivity.
Qed.

Lemma set_class_refused s v :
  ptr_classes s = SBRK_FAILED -> mem_hi s <= 2 ^ 62 -> set_class 0 v s = Segv.
Proof.
  intros E Hhi.
  unfold set_class, class_slot, get_ptr_classes, bind, ret, PUTP, valid.
  rewrite E. change (padd SBRK_FAILED (DSIZE * 0)) with (2 ^ 64 - 1).
  replace (2 ^ 64 - 1 + 8 <=? mem_hi s) with false by (symmetry; apply Z.leb_gt; lia).
  rewrite andb_false_r. reflexivity.
Qed.

(** Without room for the class table and the sentinels [mm_init] does
    not return: a request is refused, the test against [NULL] lets the
    failure value through, and the first store through it faults. *)
Lemma mm_init_before_extend_no_room m lo hi :
  0 <= lo -> hi <= 2 ^ 62 -> hi < lo + 72 ->
  mm_init_before_extend (boot m lo hi) = Segv.
Proof.
  intros Hlo Hhi Hroom. unfold mm_init_before_extend, boot.
  destruct (Z_lt_le_dec hi (lo + 56)) as [Hs|Hs].
  - erewrite bind_Ok by (apply mem_sbrk_fail; proj; unfold DSIZE; lia).
    cbv beta iota zeta delta [sbrk_ptr].
    unfold set_global_ptr_classes at 1. unfold bind at 1.
    erewrite bind_Segv by (apply set_class_refused; [reflexivity | exact Hhi]).
    reflexivity.
  - erewrite bind_Ok by (apply mem_sbrk_ok; proj; unfold DSIZE; lia).
    cbv beta iota zeta delta [sbrk_ptr].
    unfold set_global_ptr_classes at 1. unfold bind at 1.
    unfold set_brk, set_ptr_classes. proj.
    erewrite bind_Ok by (apply set_class_ok; proj; unfold DSIZE; lia).
    erewrite bind_Ok by (apply set_class_ok; proj; unfold DSIZE; lia).
    erewrite bind_Ok by (apply set_class_ok; proj; unfold DSIZE; lia).
    erewrite bind_Ok by (apply set_class_ok; proj; unfold DSIZE; lia).
    erewrite bind_Ok by (apply set_class_ok; proj; unfold DSIZE; lia).
    erewrite bind_Ok by (apply set_class_ok; proj; unfold DSIZE; lia).
    unfold set_mem at 1 2 3 4 5 6. proj.
    erewrite bind_Ok by (apply mem_sbrk_fail; proj; unfold WSIZE, DSIZE; lia).
    cbv beta iota zeta delta [sbrk_ptr].
    unfold set_global_heap_listp at 1. unfold bind at 1.
    unfold PUT at 1, valid. unfold bind at 1. proj.
    change SBRK_FAILED with (2 ^ 64 - 1).
    replace (2 ^ 64 - 1 + 4 <=? hi) with false by (symmetry; apply Z.leb_gt; lia).
    rewrite andb_false_r. reflexivity.
Qed.

Lemma mm_init_room m lo hi s :
  0 <= lo -> hi <= 2 ^ 62 -> hi - lo < 2 ^ 31 -> load64 m (lo + 48) = NULL ->
  mm_init (boot m lo hi) = Ok 0 s -> lo + 72 + 65536 <= hi.
Proof.
  intros Hlo Hhi Hspan H6 Run.
  destruct (Z_lt_le_dec hi (lo + 72 + 65536)) as [Hs|Hs]; [exfalso | exact Hs].
  unfold mm_init in Run.
  destruct (Z_lt_le_dec hi (lo + 72)) as [Ht|Ht].
  - rewrite (bind_Segv _ _ _ (mm_init_before_extend_no_room m lo hi Hlo Hhi Ht)) in Run.
    discriminate Run.
  - rewrite (bind_Ok _ _ _ _ _ (mm_init_before_extend_boot m lo hi Hlo Hhi Ht)) in Run.
    change (negb (0 =? 0)) with false in Run. cbv iota in Run.
    change (CHUNKSIZE / WSIZE) with 16384 in Run.
    pose proof (init_mem_Heap m lo hi Hlo Hhi Hspan Ht H6) as H1.
    destruct (extend_heap_spec _ [] _ 16384 H1 eq_refl ltac:(lia)) as [_ Hext].
    rewrite (bind_Ok _ _ _ _ _ (Hext ltac:(proj; lia))) in Run.
    discriminate Run.
Qed.

(** ** Every quiescent state is a well-formed heap *)

Lemma reachable_Heap s : reachable s -> exists bl fl, Heap s bl fl.
Proof.
  induction 1 as [m lo hi s Hlo Hhi Hspan H6 Run
                 | s size p s' _ IH Hsz Hmax Run
                 | s p s' _ IH Hl Run
                 | s p size q s' _ IH Hl Hsz Hmax Run
                 | s p a v _ IH Hl Ha].
  - change (lo + 6 * DSIZE) with (lo + 48) in H6.
    pose proof (mm_init_room _ _ _ _ Hlo Hhi Hspan H6 Run) as Hroom.
    destruct (mm_init_spec m lo hi Hlo Hhi Hspan Hroom H6) as (m' & fl & E & HH & _).
    rewrite E in Run. injection Run as <-. eauto.
  - destruct IH as (bl & fl & HH).
    destruct (Z.eq_dec size 0) as [->|Hne].
    + injection Run as _ <-. eauto.
    + assert (Hpos : 0 < size) by lia.
      destruct (mm_malloc_spec _ _ _ _ _ _ HH Hpos Hmax Run) as (bl' & fl' & HH' & _).
      eauto.
  - destruct IH as (bl & fl & HH).
    destruct (live_cell _ _ _ (heap_rep _ _ _ HH) _ Hl) as (l1 & sz & l2 & -> & ->).
    destruct (mm_free_spec _ _ _ _ _ HH) as (m' & fl' & E & HH').
    rewrite E in Run. injection Run as <-. eauto.
  - destruct IH as (bl & fl & HH).
    destruct (live_cell _ _ _ (heap_rep _ _ _ HH) _ Hl) as (l1 & sz & l2 & E & ->).
    assert (Hc : In (mem_lo s + 72 + total l1, sz, true) (cells (mem_lo s + 72) bl))
      by (rewrite E; apply cells_middle).
    destruct (mm_realloc_spec _ _ _ _ _ _ _ _ HH Hc Hsz Hmax Run)
      as (s1 & bl' & fl' & _ & _ & HH' & _).
    eauto.
  - destruct IH as (bl & fl & HH).
    destruct (live_cell _ _ _ (heap_rep _ _ _ HH) _ Hl) as (l1 & sz & l2 & E & Ep).
    assert (Hc : In (p, sz, true) (cells (mem_lo s + 72) bl))
      by (rewrite E, Ep; apply cells_middle).
    destruct (cell_size_of _ _ _ _ _ _ (heap_rep _ _ _ HH) Hc) as [Es _].
    exists bl, fl. unfold poke.
    apply (Heap_payload_write s bl fl p sz _ HH Hc).
    intros x Hx. replace (x =? a) with false; [reflexivity|].
    symmetry. apply Z.eqb_neq. unfold DSIZE in Ha. lia.
Qed.

(** ** Removing the head of a list that has a successor *)



(** ** The scenarios are quiescent states *)

Lemma walk_to_sound s n : forall b p, walk_to s n b p = true -> block_at s b -> block_at s p.
Proof.
  induction n as [|n IH]; intros b p; cbn [walk_to];
    destruct (b =? p) eqn:E; try (apply Z.eqb_eq in E; subst; tauto); try discriminate.
  intros H Hb. apply andb_true_iff in H. destruct H as [Hs Hw]. apply Z.ltb_lt in Hs.
  apply (IH _ _ Hw). apply block_next; assumption.
Qed.

Lemma live_check_sound s p : live_check s p = true -> live s p.
Proof.
  unfold live_check, live. intros H.
  apply andb_true_iff in H. destruct H as [H H4].
  apply andb_true_iff in H. destruct H as [H H3].
  apply andb_true_iff in H. destruct H as [H1 H2].
  split; [apply (walk_to_sound _ _ _ _ H1); apply block_first|].
  split; [apply Z.eqb_neq; apply negb_true_iff; assumption|].
  split; [apply Z.ltb_lt; assumption | apply Z.eqb_eq; assumption].
Qed.

Lemma reach_malloc_after s size p :
  reachable s -> 0 <= size -> size + 15 < 2 ^ 32 ->
  value (mm_malloc size) s = Some p -> reachable (after (mm_malloc size) s).
Proof.
  intros Hr H0 H1 Hv. apply value_after in Hv.
  apply (reach_malloc s size p _ Hr H0 H1 Hv).
Qed.

Lemma reach_free_after s p :
  reachable s -> live_check s p = true ->
  value (mm_free p) s = Some tt -> reachable (after (mm_free p) s).
Proof.
  intros Hr Hl Hv. apply value_after in Hv.
  apply (reach_free s p _ Hr (live_check_sound _ _ Hl) Hv).
Qed.

Lemma reachable_initialised : reachable initialised.
Proof.
  apply (reach_init (fun _ => 0) 4096 (4096 + 20 * 1048576)).
  - lia.
  - vm_compute. discriminate.
  - vm_compute. reflexivity.
  - reflexivity.
  - apply (value_after mm_init fresh). vm_compute. reflexivity.
Qed.

Lemma reachable_one_small_block : reachable one_small_block.
Proof.
  apply (reach_malloc_after initialised 16 4168 reachable_initialised);
    [lia | vm_compute; reflexivity | vm_compute; reflexivity].
Qed.

Lemma reachable_ten_blocks : reachable ten_blocks.
Proof.
  unfold ten_blocks. cbn [allocate_n].
  do 10 (eapply reach_malloc_after;
         [ | lia | vm_compute; reflexivity | vm_compute; reflexivity ]).
  exact reachable_initialised.
Qed.

Lemma reachable_five_freed : reachable five_freed.
Proof.
  unfold five_freed, free_all. cbn [fold_left].
  do 5 (apply reach_free_after;
        [ | vm_compute; reflexivity | vm_compute; reflexivity ]).
  exact reachable_ten_blocks.
Qed.


(** ** Boundary tags and neighbours along the walk *)

Lemma cell_hdr_ftr s bl fl x sz a :
  Rep s bl fl -> In (x, sz, a) (cells (mem_lo s + 72) bl) ->
  hdr s x = sz + b2z a /\ ftr s x = sz + b2z a.
Proof.
  intros HR Hc.
  destruct (cell_facts _ _ _ HR _ _ _ Hc) as (F1 & F2 & F3 & F4 & F5 & F6 & F7 & F8 & F9 & F10).
  destruct (cell_size_of _ _ _ _ _ _ HR Hc) as [Es _].
  unfold ftr. rewrite Es. unfold hdr. rewrite HDRP_small by lia.
  unfold DSIZE. rewrite u32_small by lia. rewrite padd_small by lia.
  replace (x + (sz - 8)) with (x + sz - 8) by lia. split; assumption.
Qed.

Lemma prologue_hdr_ftr s bl fl :
  Rep s bl fl -> hdr s (heap_listp s) = 9 /\ ftr s (heap_listp s) = 9.
Proof.
  intros HR.
  pose proof (rep_lo _ _ _ HR). pose proof (rep_hi _ _ _ HR).
  pose proof (rep_room _ _ _ HR). pose proof (rep_brk _ _ _ HR).
  pose proof (tiles_total _ _ _ (rep_tiles _ _ _ HR)).
  destruct (rep_prologue _ _ _ HR) as [P1 P2].
  destruct (prologue_size_of _ _ _ HR) as [Es _].
  unfold ftr. rewrite Es. unfold hdr. rewrite (rep_listp _ _ _ HR).
  rewrite HDRP_small by lia. change (u32 (8 - DSIZE)) with 0.
  rewrite padd_small by lia.
  replace (mem_lo s + 64 - 4) with (mem_lo s + 60) by lia.
  replace (mem_lo s + 64 + 0) with (mem_lo s + 64) by lia. split; assumption.
Qed.

(** The block before position [x = base + total l1]: the last block of
    [l1], or the prologue. *)
Lemma prev_neighbour s l1 l2 fl :
  Rep s (l1 ++ l2) fl ->
  snd (take_last_free l1)
  = (if prev_free s (mem_lo s + 72 + total l1)
     then size_of s (prev_blk s (mem_lo s + 72 + total l1)) else 0) /\
  merged_start s (mem_lo s + 72 + total l1)
  = mem_lo s + 72 + total l1 - snd (take_last_free l1).
Proof.
  intros HR.
  pose proof (rep_lo _ _ _ HR). pose proof (rep_hi _ _ _ HR).
  pose proof (rep_room _ _ _ HR). pose proof (rep_brk _ _ _ HR).
  pose proof (tiles_total _ _ _ (rep_tiles _ _ _ HR)).
  destruct (rep_prologue _ _ _ HR) as [P1 P2].
  unfold merged_start, prev_free, prev_blk, DSIZE.
  destruct l1 as [|b l] using rev_ind.
  - cbn [total take_last_free snd].
    replace (mem_lo s + 72 + 0 - 8) with (mem_lo s + 64) by lia. rewrite P2.
    change (Z.land 9 (u32 (Z.lnot 7))) with 8.
    replace (mem_lo s + 72 + 0 - 8) with (heap_listp s) by (rewrite (rep_listp _ _ _ HR); lia).
    destruct (prologue_size_of _ _ _ HR) as [_ Ea]. rewrite Ea.
    cbn [Z.eqb]. split; [reflexivity | lia].
  - clear IHl. destruct b as [ps pa].
    rewrite <- app_assoc in HR. cbn [app] in HR.
    assert (Hc : In (mem_lo s + 72 + total l, ps, pa)
                    (cells (mem_lo s + 72) (l ++ (ps, pa) :: l2))) by apply cells_middle.
    destruct (cell_facts _ _ _ HR _ _ _ Hc) as (F1 & F2 & F3 & F4 & F5 & F6 & F7 & F8 & F9 & F10).
    destruct (cell_size_of _ _ _ _ _ _ HR Hc) as [Es Ea].
    rewrite total_app. cbn [total].
    replace (mem_lo s + 72 + (total l + (ps + 0)) - 8)
      with (mem_lo s + 72 + total l + ps - 8) by lia.
    rewrite F10. rewrite tag_size by (try assumption; lia).
    replace (mem_lo s + 72 + (total l + (ps + 0)) - ps) with (mem_lo s + 72 + total l) by lia.
    rewrite Ea, Es. destruct pa.
    + rewrite take_last_free_none by (rewrite last_free_snoc; reflexivity).
      cbn [snd b2z Z.eqb]. split; [reflexivity | lia].
    + rewrite take_last_free_snoc. cbn [snd b2z Z.eqb]. split; [reflexivity | lia].
Qed.

(** The block after the block at [x = base + total l1]: the first block
    of [l2], or the epilogue. *)
Lemma next_neighbour s l1 sz a l2 fl :
  Rep s (l1 ++ (sz, a) :: l2) fl ->
  next_blk s (mem_lo s + 72 + total l1) = mem_lo s + 72 + total l1 + sz /\
  next_free s (mem_lo s + 72 + total l1) = first_free l2 /\
  snd (take_first_free l2)
  = (if next_free s (mem_lo s + 72 + total l1)
     then size_of s (next_blk s (mem_lo s + 72 + total l1)) else 0).
Proof.
  intros HR.
  assert (Hc : In (mem_lo s + 72 + total l1, sz, a)
                  (cells (mem_lo s + 72) (l1 ++ (sz, a) :: l2))) by apply cells_middle.
  destruct (cell_size_of _ _ _ _ _ _ HR Hc) as [Es _].
  unfold next_free, next_blk. rewrite Es. split; [reflexivity|].
  destruct (cells_next _ _ _ HR _ _ _ Hc) as [E | (sz' & a' & Hn)].
  - rewrite E. destruct (epilogue_size_of _ _ _ HR) as [_ Ea]. rewrite Ea. cbn [Z.eqb].
    pose proof (rep_brk _ _ _ HR) as Hb. rewrite total_app in Hb. cbn [total] in Hb.
    destruct l2 as [|[ns na] r]; [split; reflexivity|].
    exfalso.
    pose proof (rep_tiles _ _ _ HR) as T. apply tiles_app in T. destruct T as [_ T].
    cbn [tiles] in T. destruct T as (_ & (T16 & _) & T).
    pose proof (tiles_total _ _ _ T). cbn [total] in Hb. lia.
  - destruct l2 as [|[ns na] r].
    + exfalso. destruct (cell_bounds _ _ _ HR _ _ _ Hn) as (_ & B & (T16 & _)).
      pose proof (rep_brk _ _ _ HR) as Hb. rewrite total_app in Hb. cbn [total] in Hb. lia.
    + assert (Hn' : In (mem_lo s + 72 + total l1 + sz, ns, na)
                       (cells (mem_lo s + 72) (l1 ++ (sz, a) :: (ns, na) :: r))).
      { replace (l1 ++ (sz, a) :: (ns, na) :: r)
          with ((l1 ++ [(sz, a)]) ++ (ns, na) :: r) by (rewrite <- app_assoc; reflexivity).
        replace (mem_lo s + 72 + total l1 + sz) with (mem_lo s + 72 + total (l1 ++ [(sz, a)]))
          by (rewrite total_app; cbn [total]; lia).
        apply cells_middle. }
      destruct (cell_size_of _ _ _ _ _ _ HR Hn') as [Ens Ena].
      rewrite Ena, Ens. destruct na; cbn [b2z Z.eqb first_free take_first_free snd negb];
        split; reflexivity.
Qed.

(** In a well-formed heap the walk never meets two free blocks in a
    row. *)
Lemma Heap_no_adjacent s bl fl b :
  Heap s bl fl -> block_at s b -> 0 < size_of s b -> alloc_of s b = 0 ->
  alloc_of s (next_blk s b) = 1.
Proof.
  intros [HR _ Hadj] Hb Hpos Ha.
  destruct (block_at_cases _ _ _ HR _ Hb) as [E | [E | (sz & a & Hc)]].
  - subst b. destruct (prologue_size_of _ _ _ HR) as [_ E]. rewrite E in Ha. discriminate.
  - subst b. destruct (epilogue_size_of _ _ _ HR) as [E _]. lia.
  - destruct (cell_size_of _ _ _ _ _ _ HR Hc) as [Es Ea].
    destruct a; [rewrite Ha in Ea; discriminate|].
    destruct (cells_split _ _ _ _ _ Hc) as (l1 & l2 & E & Ex). subst bl b.
    destruct (next_neighbour _ _ _ _ _ _ HR) as (_ & Enf & _).
    rewrite adjacent_free_app in Hadj.
    apply orb_false_iff in Hadj. destruct Hadj as [Hadj _].
    apply orb_false_iff in Hadj. destruct Hadj as [_ Hadj].
    cbn [adjacent_free negb andb] in Hadj.
    apply orb_false_iff in Hadj. destruct Hadj as [Hadj _].
    fold (first_free l2) in Hadj. rewrite <- Enf in Hadj.
    unfold next_free in Hadj. apply Z.eqb_neq in Hadj.
    revert Hadj. unfold alloc_of. rewrite alloc_mask.
    pose proof (Z.mod_pos_bound (hdr s (next_blk s (mem_lo s + 72 + total l1))) 2). lia.
Qed.

(** ** Allocation: what is returned *)

Lemma tiles_total_mod8 m bl : forall bp, tiles m bp bl -> total bl mod 8 = 0.
Proof.
  induction bl as [|[sz a] r IH]; cbn [tiles total]; intros bp H; [reflexivity|].
  destruct H as [(_ & H8 & _) Hr]. specialize (IH _ Hr).
  apply mod8_add; assumption.
Qed.

Lemma cell_live s bl fl p sz :
  Rep s bl fl -> In (p, sz, true) (cells (mem_lo s + 72) bl) ->
  live s p /\ size_of s p = sz /\ (p - mem_lo s) mod 8 = 0.
Proof.
  intros HR Hc.
  destruct (cell_size_of _ _ _ _ _ _ HR Hc) as [Es Ea].
  destruct (cell_bounds _ _ _ HR _ _ _ Hc) as (B1 & B2 & (T16 & _)).
  split; [|split; [exact Es|]].
  - split; [apply (cells_block_at _ _ _ HR _ _ _ Hc)|].
    split; [rewrite (rep_listp _ _ _ HR); lia|].
    split; [lia | exact Ea].
  - destruct (cells_split _ _ _ _ _ Hc) as (l1 & l2 & E & ->).
    pose proof (rep_tiles _ _ _ HR) as T. rewrite E in T.
    apply tiles_app in T. destruct T as [T _].
    pose proof (tiles_total_mod8 _ _ _ T) as M.
    replace (mem_lo s + 72 + total l1 - mem_lo s) with (72 + total l1) by lia.
    apply mod8_add; [reflexivity | exact M].
Qed.

(** A request whose adjusted size does not exceed the chunk size
    returns: with a block, or with [NULL] when the host refuses. *)
Lemma mm_malloc_returns s bl fl size :
  Heap s bl fl -> 0 < size -> adjusted size <= 65536 ->
  exists p s', mm_malloc size s = Ok p s'.
Proof.
  intros HH H0 Hchunk.
  assert (Hsz : size + 15 < 2 ^ 32).
  { unfold adjusted, roundup8 in Hchunk. destruct (size <=? 8) eqn:E.
    - apply Z.leb_le in E. lia.
    - pose proof (Z.div_mod (size + 8 + 7) 8 ltac:(lia)) as D.
      pose proof (Z.mod_pos_bound (size + 8 + 7) 8 ltac:(lia)) as B. lia. }
  destruct (adjusted_props size H0 Hsz) as (A16 & A8 & Asz & A32).
  pose proof (heap_rep _ _ _ HH) as HR.
  pose proof (rep_brk _ _ _ HR) as Hbrk.
  pose proof (rep_room _ _ _ HR). pose proof (rep_lo _ _ _ HR).
  pose proof (rep_hi _ _ _ HR). pose proof (rep_span _ _ _ HR).
  pose proof (tiles_total _ _ _ (rep_tiles _ _ _ HR)) as N.
  unfold mm_malloc.
  replace (size <=? 0) with false by (symmetry; apply Z.leb_gt; lia).
  rewrite code_adjusted by assumption.
  destruct (find_fit_Heap s bl fl (adjusted size) HR) as (p0 & Hf & Hp0).
  rewrite (bind_Ok _ _ _ _ _ Hf).
  destruct Hp0 as [->|(csz & Hc & Hfit)].
  - cbn [Z.eqb negb NULL].
    assert (Ext : MIN (adjusted size) CHUNKSIZE = adjusted size).
    { unfold MIN, CHUNKSIZE. change (Z.shiftl 1 16) with 65536.
      destruct (adjusted size >? 65536) eqn:E; [apply Z.gtb_lt in E; lia | reflexivity]. }
    rewrite Ext.
    pose proof (Z.div_mod (adjusted size) 8 ltac:(lia)) as D8. rewrite A8 in D8.
    assert (Hw : adjusted size / WSIZE = 2 * (adjusted size / 8)).
    { unfold WSIZE. symmetry. apply Z.div_unique with (r := 0); lia. }
    assert (Hw4 : 4 * (adjusted size / WSIZE) = adjusted size) by lia.
    assert (Hweven : (adjusted size / WSIZE) mod 2 = 0).
    { rewrite Hw. rewrite Z.mul_comm. apply Z.mod_mul. lia. }
    assert (Hwr : 4 <= adjusted size / WSIZE <= 16384) by lia.
    destruct (extend_heap_spec s bl fl (adjusted size / WSIZE) HH Hweven Hwr) as [Hgrow Hfull].
    rewrite Hw4 in Hgrow, Hfull.
    destruct (Z_le_gt_dec (mem_brk s + adjusted size) (mem_hi s)) as [Hroom|Hnoroom].
    + destruct (Hgrow Hroom) as (m1 & fl1 & X1 & HH1).
      rewrite (bind_Ok _ _ _ _ _ X1).
      pose proof (take_last_free_total bl) as TT.
      set (l1' := fst (take_last_free bl)) in *.
      set (ps := snd (take_last_free bl)) in *.
      assert (Hps : 0 <= ps).
      { unfold ps. destruct (layout_last_case bl) as [Hl|(l' & q & ->)].
        - rewrite (take_last_free_none _ Hl). cbn [snd]. lia.
        - rewrite take_last_free_snoc. cbn [snd].
          pose proof (rep_tiles _ _ _ HR) as T. apply tiles_app in T.
          destruct T as [_ [[T _] _]]. lia. }
      assert (Hl1' : 0 <= total l1').
      { unfold l1'. destruct (layout_last_case bl) as [Hl|(l' & q & ->)].
        - rewrite (take_last_free_none _ Hl). cbn [fst]. lia.
        - rewrite take_last_free_snoc. cbn [fst].
          pose proof (rep_tiles _ _ _ HR) as T. apply tiles_app in T.
          destruct T as [T _]. apply (tiles_total _ _ _ T). }
      replace (mem_brk s - ps =? NULL) with false
        by (symmetry; apply Z.eqb_neq; unfold NULL; lia).
      set (s1 := set_mem (set_brk s (mem_brk s + adjusted size)) m1) in *.
      unfold coalesced in HH1. cbn [take_first_free fst snd] in HH1.
      fold l1' ps in HH1.
      replace (mem_brk s - ps) with (mem_lo s1 + 72 + total l1')
        by (unfold s1; proj; lia).
      assert (Hrange : 16 <= adjusted size < 2 ^ 32) by lia.
      destruct (place_any s1 l1' (ps + adjusted size + 0) [] fl1 (adjusted size) HH1 Hrange A8)
        as [(Hle & m2 & fl2 & P2 & HH2)|(Hgt & P2)]; [|lia].
      rewrite (bind_Ok _ _ _ _ _ P2). eexists. eexists. reflexivity.
    + assert (Hno : mem_hi s < mem_brk s + adjusted size) by lia.
      rewrite (bind_Ok _ _ _ _ _ (Hfull Hno)).
      cbn [Z.eqb NULL]. eexists. eexists. reflexivity.
  - destruct (cells_split _ _ _ _ _ Hc) as (l1 & l2 & -> & ->).
    destruct (cell_bounds _ _ _ HR _ _ _ Hc) as (B1 & B2 & (T16 & _)).
    replace (negb (mem_lo s + 72 + total l1 =? NULL)) with true
      by (symmetry; apply negb_true_iff, Z.eqb_neq; unfold NULL; lia).
    rewrite i32_small in Hfit by lia.
    assert (Hrange : 16 <= adjusted size < 2 ^ 32) by lia.
    destruct (place_any s l1 csz l2 fl (adjusted size) HH Hrange A8)
      as [(Hle & m2 & fl2 & P2 & HH2)|(Hgt & P2)]; [|lia].
    rewrite (bind_Ok _ _ _ _ _ P2). eexists. eexists. reflexivity.
Qed.

(** * The properties of the design document *)

(** ** Reallocation: how many bytes are copied *)

(** C1, as stated, fails: reallocating the 24-byte block at 4168 to 100
    bytes copies 24 bytes, not [min 100 (24 - 8)]. *)
Lemma realloc_copy_count_counterexample :
  value (mm_malloc 16) initialised = Some 4168 /\
  size_of one_small_block 4168 = 24 /\
  alloc_of one_small_block 4168 = 1 /\
  value (mm_realloc 4168 100) one_small_block = Some 4192 /\
  copies (after (mm_realloc 4168 100) one_small_block) = [(4192, 4168, 24)] /\
  24 <> Z.min 100 (size_of one_small_block 4168 - 8).
Proof. vm_compute. repeat split; try reflexivity; discriminate. Qed.

Lemma realloc_copy_log ptr size s newp s' :
  mm_realloc ptr size s = Ok newp s' ->
  exists s1,
    mm_malloc size s = Ok newp s1 /\
    newp <> NULL /\
    copies s' = (newp, ptr, Z.min size (size_of s1 ptr)) :: copies s.
Proof.
  unfold mm_realloc. intros H.
  apply bind_inv in H. destruct H as (p & s1 & Hm & H).
  destruct (p =? NULL) eqn:Ep; [discriminate|].
  apply Z.eqb_neq in Ep.
  apply bind_inv in H. destruct H as (cs & s2 & Hg & H).
  apply bind_inv in H. destruct H as ([] & s3 & Hc & H).
  apply bind_inv in H. destruct H as ([] & s4 & Hf & H).
  inversion H; subst newp s'; clear H.
  exists s1. split; [assumption|]. split; [assumption|].
  rewrite (keeps_mm_free _ _ _ _ Hf).
  unfold GET_SIZE, GET, bind, ret in Hg.
  destruct (valid s1 (HDRP ptr) 4); [|discriminate].
  inversion Hg; subst cs s2; clear Hg.
  unfold memcpy in Hc.
  match type of Hc with (if ?b then _ else _) = _ => destruct b; [|discriminate] end.
  inversion Hc; subst s3; clear Hc. proj.
  rewrite (keeps_mm_malloc _ _ _ _ Hm).
  f_equal. f_equal. unfold size_of, hdr.
  destruct (size <? _) eqn:E.
  - apply Z.ltb_lt in E. rewrite Z.min_l by lia. reflexivity.
  - apply Z.ltb_ge in E. rewrite Z.min_r by lia. reflexivity.
Qed.

(** C1 (amended): whenever [reallocate(ptr, size)] returns, its internal
    allocation returned the new payload and exactly one [memcpy] was
    made, from the old payload to the new one.  At a quiescent moment,
    for a payload the client holds and a request below [2^32 - 15]
    bytes, the call does return once the internal allocation has
    returned a block, and the number of bytes copied is
    [min size (size_of old_block)]: the whole block size recorded in the
    old header, without subtracting the 8 bytes of header and footer. *)
Theorem realloc_copy_count s ptr size :
  (forall newp s', mm_realloc ptr size s = Ok newp s' ->
     exists s1, mm_malloc size s = Ok newp s1 /\ newp <> NULL /\
       copies s' = (newp, ptr, Z.min size (size_of s1 ptr)) :: copies s) /\
  (reachable s -> live s ptr -> 0 < size -> size + 15 < 2 ^ 32 ->
   forall newp s1, mm_malloc size s = Ok newp s1 -> newp <> NULL ->
     exists s', mm_realloc ptr size s = Ok newp s' /\ reachable s' /\
       copies s' = (newp, ptr, Z.min size (size_of s ptr)) :: copies s).
Proof.
  split; [intros newp s'; apply realloc_copy_log|].
  intros Hr Hl H0 Hsz newp s1 Hm Hnn.
  destruct (reachable_Heap _ Hr) as (bl & fl & HH).
  pose proof (heap_rep _ _ _ HH) as HR.
  destruct (live_cell _ _ _ HR _ Hl) as (l1 & psz & l2 & E & Ep).
  assert (Hc : In (ptr, psz, true) (cells (mem_lo s + 72) bl))
    by (rewrite E, Ep; apply cells_middle).
  destruct (mm_realloc_returns _ _ _ _ _ _ _ _ HH Hc H0 Hsz Hm Hnn) as (s' & Run).
  exists s'. split; [exact Run|].
  split; [apply (reach_realloc s ptr size newp s' Hr Hl H0 Hsz Run)|].
  destruct (realloc_copy_log _ _ _ _ _ Run) as (s1' & Hm' & _ & Hcp).
  destruct (mm_realloc_spec _ _ _ _ _ _ _ _ HH Hc H0 Hsz Run) as (s1'' & _ & _ & Hm'' & Es & _).
  rewrite Hm' in Hm''. injection Hm'' as <-.
  rewrite Hcp, Es, (proj1 (cell_size_of _ _ _ _ _ _ HR Hc)). reflexivity.
Qed.

Lemma realloc_copy_count_witness :
  exists s',
    mm_realloc 4168 100 one_small_block = Ok 4192 s' /\ reachable s' /\
    copies s' = (4192, 4168, Z.min 100 (size_of one_small_block 4168)) :: copies one_small_block.
Proof.
  apply (proj2 (realloc_copy_count one_small_block 4168 100) reachable_one_small_block)
    with (s1 := after (mm_malloc 100) one_small_block).
  - apply live_check_sound. vm_compute. reflexivity.
  - vm_compute. reflexivity.
  - vm_compute. reflexivity.
  - apply value_after. vm_compute. reflexivity.
  - vm_compute. discriminate.
Defined.

(** ** Freeing the null pointer *)

(** C2, as stated, fails: on the initialised heap [free(none)] does not
    return at all. *)
Lemma free_null_counterexample :
  mm_free NULL initialised <> Ok tt initialised.
Proof.
  assert (E : mm_free NULL initialised = Segv) by (vm_compute; reflexivity).
  rewrite E. discriminate.
Qed.

(** C2 (amended): [free] has no case for the null pointer.  It decodes
    the header word four bytes below its argument unconditionally; for
    [none] that word is the top word of the address space, which no
    host arena below 2^64 contains, and the call faults. *)
Theorem free_null_faults s :
  mem_hi s < 2 ^ 64 -> mm_free NULL s = Segv.
Proof.
  intros H. unfold mm_free. apply bind_Segv.
  unfold GET_SIZE. apply bind_Segv.
  unfold GET, valid.
  replace (HDRP NULL + 4 <=? mem_hi s) with false.
  - rewrite andb_false_r. reflexivity.
  - symmetry. apply Z.leb_gt. change (HDRP NULL) with (2 ^ 64 - 4). lia.
Qed.

Lemma free_null_faults_witness : mm_free NULL initialised = Segv.
Proof. apply (free_null_faults initialised). vm_compute. reflexivity. Defined.

(** ** Allocation *)

(** C3 holds for requests whose adjusted size does not exceed the chunk
    size, and fails in the code beyond.  [allocate(0)] returns [none].
    At a quiescent moment a request of [size > 0] bytes with
    [adjusted size <= CHUNKSIZE] returns; and whenever a request below
    [2^32 - 15] bytes returns, it returns either [none], the host having
    refused the extension, or a payload at a multiple of 8 bytes from
    the arena base, of an allocated block of the walk whose size is at
    least [adjusted size].  But with no fit the code extends the heap by
    [MIN asize CHUNKSIZE] bytes: once the initial chunk is taken, a
    request of 100000 bytes gets a new block of 65536 bytes, [place]
    carves 100008 bytes out of it, and the call runs off the arena
    instead of returning a block or [none]. *)
Theorem malloc_returns_block_or_overruns :
  (forall s, mm_malloc 0 s = Ok NULL s) /\
  (forall s size, reachable s -> 0 < size -> adjusted size <= CHUNKSIZE ->
     exists p s', mm_malloc size s = Ok p s') /\
  (forall s size p s', reachable s -> 0 < size -> size + 15 < 2 ^ 32 ->
     mm_malloc size s = Ok p s' ->
     (p = NULL /\ s' = s /\ mem_hi s < mem_brk s + MIN (adjusted size) CHUNKSIZE) \/
     ((p - mem_lo s') mod 8 = 0 /\ live s' p /\ adjusted size <= size_of s' p)) /\
  (value (mm_malloc 65528) initialised = Some 4168 /\
   value (find_fit 100008) chunk_taken = Some NULL /\
   value (extend_heap (MIN 100008 CHUNKSIZE / WSIZE)) chunk_taken = Some 69704 /\
   size_of (after (extend_heap (MIN 100008 CHUNKSIZE / WSIZE)) chunk_taken) 69704 = 65536 /\
   mm_malloc 100000 chunk_taken = Segv).
Proof.
  split; [reflexivity|].
  split; [|split; [|vm_compute; repeat split; reflexivity]].
  - intros s size Hr H0 Hc. destruct (reachable_Heap _ Hr) as (bl & fl & HH).
    apply (mm_malloc_returns _ _ _ _ HH H0 Hc).
  - intros s size p s' Hr H0 Hsz Hm. destruct (reachable_Heap _ Hr) as (bl & fl & HH).
    destruct (mm_malloc_spec _ _ _ _ _ _ HH H0 Hsz Hm)
      as (bl' & fl' & HH' & Elo & _ & _ & [Hnone | (sz & Hc & Hle)]); [left; exact Hnone|].
    right. rewrite <- Elo in Hc.
    destruct (cell_live _ _ _ _ _ (heap_rep _ _ _ HH') Hc) as (Hl & Es & Hal).
    split; [exact Hal|]. split; [exact Hl|]. rewrite Es. exact Hle.
Qed.

Lemma malloc_returns_block_or_overruns_witness :
  exists p s', mm_malloc 16 initialised = Ok p s'.
Proof.
  apply (proj1 (proj2 malloc_returns_block_or_overruns) initialised 16 reachable_initialised).
  - vm_compute. reflexivity.
  - vm_compute. discriminate.
Defined.

(** ** Boundary tags *)

(** The three calls of the scenario with a request whose adjusted size
    wraps all return. *)
Lemma wrapped_request_runs :
  value (mm_malloc 4294967295) initialised = Some 4168 /\
  value (mm_malloc 16) wrapped_taken = Some 4176 /\
  value (mm_free 4168) wrapped_pair = Some tt.
Proof. vm_compute. repeat split; reflexivity. Qed.

(** The block the wrapped request received is a block of the walk
    after it has been released, as is the block behind it. *)
Lemma wrapped_freed_blocks :
  block_at wrapped_freed 4168 /\ block_at wrapped_freed 4176.
Proof.
  split; apply (walk_to_sound wrapped_freed 64 (heap_listp wrapped_freed));
    try apply block_first; vm_compute; reflexivity.
Qed.

(** C8 does not hold of the code, by the slip that also breaks C7: the
    32-bit [asize] of [mm_malloc] wraps, a request of 4294967295 bytes
    is answered with an 8-byte block, which has no room for a payload,
    so its footer is the first word at the payload address, and
    [append_to_class] stores the [pred] offset there.  Second part: on
    the initialised heap [allocate(4294967295)] returns 4168,
    [allocate(16)] returns 4176 and [free(4168)] returns, and then the
    block 4168 of the walk has the header word 8 and the footer word 0.
    First part: in every state reached from [mm_init] on a fresh arena
    by requests of fewer than [2^32 - 15] bytes and releases of payloads
    the client holds ([reachable]), every block that the walk from the
    prologue visits before the epilogue carries a footer word equal to
    its header word; these states are closed under [mm_malloc],
    [mm_free] and [mm_realloc], so each operation that rewrites a
    block's tags there leaves them matching. *)
Theorem header_differs_from_footer_after_wrap :
  (forall s b, reachable s -> block_at s b -> 0 < size_of s b -> hdr s b = ftr s b) /\
  (value (mm_malloc 4294967295) initialised = Some 4168 /\
   value (mm_malloc 16) wrapped_taken = Some 4176 /\
   value (mm_free 4168) wrapped_pair = Some tt /\
   block_at wrapped_freed 4168 /\
   0 < size_of wrapped_freed 4168 /\
   hdr wrapped_freed 4168 = 8 /\
   ftr wrapped_freed 4168 = 0).
Proof.
  split;
    [|destruct wrapped_request_runs as (R1 & R2 & R3);
      repeat (split; [first [exact R1 | exact R2 | exact R3
                            | exact (proj1 wrapped_freed_blocks)
                            | vm_compute; reflexivity]|]);
      vm_compute; reflexivity].
  intros s b Hr Hb Hpos.
  destruct (reachable_Heap _ Hr) as (bl & fl & [HR _ _]).
  destruct (block_at_cases _ _ _ HR _ Hb) as [E | [E | (sz & a & Hc)]].
  - subst b. destruct (prologue_hdr_ftr _ _ _ HR) as [E1 E2]. rewrite E1, E2. reflexivity.
  - subst b. destruct (epilogue_size_of _ _ _ HR) as [E _]. lia.
  - destruct (cell_hdr_ftr _ _ _ _ _ _ HR Hc) as [E1 E2]. rewrite E1, E2. reflexivity.
Qed.

Lemma header_differs_from_footer_after_wrap_witness :
  hdr five_freed 12232 = ftr five_freed 12232.
Proof.
  apply (proj1 header_differs_from_footer_after_wrap).
  - exact reachable_five_freed.
  - apply (walk_to_sound five_freed 64 (heap_listp five_freed));
      [vm_compute; reflexivity | apply block_first].
  - vm_compute. reflexivity.
Defined.

(** ** Coalescing *)

(** C7 does not hold of the code.  [mm_malloc] keeps the adjusted size
    in the 32-bit [asize]; for a request of 4294967295 bytes it wraps to
    8, the request is answered with an 8-byte block, and the pointer
    words which [mm_free] later writes into that block overwrite its
    footer and the header of the block behind it.  Second part: on the
    initialised heap [allocate(4294967295)] returns 4168, [allocate(16)]
    returns 4176 and [free(4168)] returns, and then the walk meets the
    free block 4168, of 8 bytes, followed by the block 4176 whose
    allocated bit is 0.  First part: the claim holds of every state
    reached from [mm_init] on a fresh arena by requests of fewer than
    [2^32 - 15] bytes and releases of payloads the client holds
    ([reachable]): there the block after a free block is allocated,
    [mm_free] leaves at [merged_start] a free block as large as the
    freed block plus its free neighbours, and [extend_heap] returns the
    new block merged with a free last block, of the two sizes added. *)
Theorem two_free_blocks_in_a_row_after_wrap :
  (forall s, reachable s ->
     (forall b, block_at s b -> 0 < size_of s b -> alloc_of s b = 0 ->
                alloc_of s (next_blk s b) = 1) /\
     (forall p, live s p ->
        exists s', mm_free p s = Ok tt s' /\ reachable s' /\
          alloc_of s' (merged_start s p) = 0 /\
          size_of s' (merged_start s p) = merged_size s p (size_of s p)) /\
     (forall words, words mod 2 = 0 -> 4 <= words <= 16384 ->
        mem_brk s + 4 * words <= mem_hi s ->
        exists s', extend_heap words s = Ok (merged_start s (mem_brk s)) s' /\
          alloc_of s' (merged_start s (mem_brk s)) = 0 /\
          size_of s' (merged_start s (mem_brk s))
          = (if prev_free s (mem_brk s) then size_of s (prev_blk s (mem_brk s)) else 0)
            + 4 * words /\
          (forall b, block_at s' b -> 0 < size_of s' b -> alloc_of s' b = 0 ->
                     alloc_of s' (next_blk s' b) = 1))) /\
  (value (mm_malloc 4294967295) initialised = Some 4168 /\
   value (mm_malloc 16) wrapped_taken = Some 4176 /\
   value (mm_free 4168) wrapped_pair = Some tt /\
   block_at wrapped_freed 4168 /\
   size_of wrapped_freed 4168 = 8 /\
   alloc_of wrapped_freed 4168 = 0 /\
   next_blk wrapped_freed 4168 = 4176 /\
   alloc_of wrapped_freed (next_blk wrapped_freed 4168) = 0).
Proof.
  split;
    [|destruct wrapped_request_runs as (R1 & R2 & R3);
      repeat (split; [first [exact R1 | exact R2 | exact R3
                            | exact (proj1 wrapped_freed_blocks)
                            | vm_compute; reflexivity]|]);
      vm_compute; reflexivity].
  intros s Hr. destruct (reachable_Heap _ Hr) as (bl & fl & HH).
  pose proof (heap_rep _ _ _ HH) as HR.
  split; [|split].
  - intros b. apply (Heap_no_adjacent _ _ _ _ HH).
  - intros p Hl.
    destruct (live_cell _ _ _ HR _ Hl) as (l1 & sz & l2 & E & Ep). subst bl.
    destruct (mm_free_spec _ _ _ _ _ HH) as (m' & fl' & Run & HH').
    rewrite <- Ep in Run.
    exists (set_mem s m'). split; [exact Run|].
    split; [apply (reach_free s p _ Hr Hl Run)|].
    destruct (prev_neighbour _ _ _ _ HR) as [Ps Pm].
    destruct (next_neighbour _ _ _ _ _ _ HR) as (_ & _ & Ns).
    assert (Hc : In (p, sz, true) (cells (mem_lo s + 72) (l1 ++ (sz, true) :: l2)))
      by (rewrite Ep; apply cells_middle).
    destruct (cell_size_of _ _ _ _ _ _ HR Hc) as [Es _].
    rewrite <- Ep in Ps, Pm, Ns.
    assert (Hm : In (mem_lo s + 72 + total (fst (take_last_free l1)),
                     snd (take_last_free l1) + sz + snd (take_first_free l2), false)
                    (cells (mem_lo (set_mem s m') + 72) (coalesced l1 sz l2)))
      by (unfold coalesced; proj; apply cells_middle).
    destruct (cell_size_of _ _ _ _ _ _ (heap_rep _ _ _ HH') Hm) as [Es' Ea'].
    pose proof (take_last_free_total l1) as Tl.
    replace (mem_lo s + 72 + total (fst (take_last_free l1))) with (merged_start s p) in Es', Ea'
      by (rewrite Pm; lia).
    split; [exact Ea'|].
    rewrite Es'. unfold merged_size. rewrite Es, <- Ps, <- Ns. reflexivity.
  - intros words Heven Hw Hroom.
    destruct (extend_heap_spec _ _ _ words HH Heven Hw) as [Hext _].
    destruct (Hext Hroom) as (m' & fl' & Run & HH').
    assert (HR0 : Rep s (bl ++ []) fl) by (rewrite app_nil_r; exact HR).
    destruct (prev_neighbour _ _ _ _ HR0) as [Ps Pm].
    rewrite <- (rep_brk _ _ _ HR) in Ps, Pm.
    rewrite <- Pm in Run.
    eexists. split; [exact Run|].
    assert (Hm : In (mem_lo s + 72 + total (fst (take_last_free bl)),
                     snd (take_last_free bl) + 4 * words + snd (take_first_free []), false)
                    (cells (mem_lo (set_mem (set_brk s (mem_brk s + 4 * words)) m') + 72)
                           (coalesced bl (4 * words) [])))
      by (unfold coalesced; proj; apply cells_middle).
    destruct (cell_size_of _ _ _ _ _ _ (heap_rep _ _ _ HH') Hm) as [Es' Ea'].
    pose proof (take_last_free_total bl) as Tl.
    pose proof (rep_brk _ _ _ HR) as Hb.
    replace (mem_lo s + 72 + total (fst (take_last_free bl)))
      with (merged_start s (mem_brk s)) in Es', Ea' by (rewrite Pm; lia).
    split; [exact Ea'|]. split.
    + rewrite Es', <- Ps. cbn [take_first_free snd]. lia.
    + intros b. apply (Heap_no_adjacent _ _ _ _ HH').
Qed.

Lemma two_free_blocks_in_a_row_after_wrap_witness :
  alloc_of five_freed (next_blk five_freed 12232) = 1.
Proof.
  apply (proj1 (proj1 two_free_blocks_in_a_row_after_wrap five_freed reachable_five_freed)
               12232).
  - apply (walk_to_sound five_freed 64 (heap_listp five_freed));
      [vm_compute; reflexivity | apply block_first].
  - vm_compute. reflexivity.
  - vm_compute. reflexivity.
Defined.

(** ** The free lists *)




(** ** Initialisation: the class table *)

(** What [mm_init] does on a host arena whose bytes 48 to 55 hold a
    stale address: slot 6 still holds it when the heap is extended.  With
    the address 8, [append_to_class] writes outside the arena and
    [mm_init] faults; with the address of the class table itself,
    [mm_init] returns 0 and bucket 0 is left non-empty. *)
Lemma init_stale_slot_6 :
  bucket_head (after mm_init_before_extend (stale 8)) 6 = 8 /\
  mm_init (stale 8) = Segv /\
  value mm_init (stale 4096) = Some 0 /\
  bucket_head (after mm_init (stale 4096)) 0 = 72.
Proof. vm_compute. repeat split; reflexivity. Qed.

(** C5 does not hold of the code: when [mm_init] has set up the class
    table, the prologue and the epilogue and is about to extend the
    heap, slots 0 to 5 hold the empty sentinel, but slot 6 holds
    whatever the host left in its eight bytes; it is assigned only
    after the extension, which reads it. *)
Theorem init_leaves_slot_6 m lo hi :
  0 <= lo -> hi <= 2 ^ 62 -> lo + 72 <= hi ->
  exists s, mm_init_before_extend (boot m lo hi) = Ok 0 s /\
    (forall k, 0 <= k <= 5 -> bucket_head s k = NULL) /\
    bucket_head s 6 = load64 m (lo + 6 * DSIZE).
Proof.
  intros Hlo Hhi Hroom.
  eexists. split; [apply (mm_init_before_extend_boot m lo hi Hlo Hhi Hroom)|].
  unfold bucket_head. cbn [mem ptr_classes]. split.
  - intros k Hk. apply init_mem_slot. assumption.
  - change (lo + 8 * 6) with (lo + 48). change (lo + 6 * DSIZE) with (lo + 48).
    apply init_mem_slot6.
Qed.

Lemma init_leaves_slot_6_witness :
  exists s, mm_init_before_extend (stale 8) = Ok 0 s /\
    (forall k, 0 <= k <= 5 -> bucket_head s k = NULL) /\
    bucket_head s 6 = 8.
Proof.
  apply (init_leaves_slot_6 (store64 (fun _ => 0) (4096 + 48) 8) 4096 (4096 + 20 * 1048576)).
  - vm_compute. discriminate.
  - vm_compute. discriminate.
  - vm_compute. discriminate.
Defined.

(** ** Fit search *)

Lemma scan_heads_ext s f g n : forall k,
  (forall j, k <= j <= k + Z.of_nat n -> bucket_head s j <> NULL ->
             f (bucket_head s j) = g (bucket_head s j)) ->
  scan_heads s f k n = scan_heads s g k n.
Proof.
  induction n as [|n IH]; intros k H; cbn [scan_heads].
  - destruct (bucket_head s k =? NULL) eqn:E; cbn [negb andb]; [reflexivity|].
    apply Z.eqb_neq in E. rewrite (H k ltac:(lia) E). reflexivity.
  - destruct (bucket_head s k =? NULL) eqn:E; cbn [negb andb].
    + apply IH. intros j Hj. apply H. lia.
    + apply Z.eqb_neq in E. rewrite (H k ltac:(lia) E).
      destruct (g (bucket_head s k)); [reflexivity|].
      apply IH. intros j Hj. apply H. lia.
Qed.

Lemma find_fit_first_fit s bl fl asize :
  Rep s bl fl -> 0 <= asize <= 2 ^ 31 -> find_fit asize s = Ok (first_fit s asize) s.
Proof.
  intros HR Ha.
  pose proof (rep_room _ _ _ HR). pose proof (rep_lo _ _ _ HR).
  pose proof (rep_hi _ _ _ HR). pose proof (rep_brk _ _ _ HR).
  pose proof (tiles_total _ _ _ (rep_tiles _ _ _ HR)).
  pose proof (rep_table _ _ _ HR) as Ht.
  pose proof (bucket_of_range asize) as Hb.
  rewrite find_fit_scan.
  - unfold first_fit. f_equal. apply scan_heads_ext.
    intros j Hj Hn. rewrite Z2Nat.id in Hj by lia.
    assert (Hj6 : 0 <= j <= 6) by lia.
    pose proof (head_member _ _ _ _ HR Hj6 Hn) as Hm.
    destruct (member_cell _ _ _ HR j _ Hj6 Hm) as (csz & Hc & _ & B1 & B2 & B3).
    unfold code_fits. rewrite (proj1 (cell_size_of _ _ _ _ _ _ HR Hc)).
    pose proof (rep_span _ _ _ HR).
    rewrite i32_small by lia.
    destruct (Z.leb_spec 0 (csz - asize)); destruct (Z.leb_spec asize csz);
      try reflexivity; lia.
  - rewrite Ht. lia.
  - intros k Hk Hn. pose proof (head_member _ _ _ _ HR Hk Hn) as Hm.
    destruct (member_valid _ _ _ _ HR Hk _ Hm) as (? & ? & _). lia.
Qed.

(** C6 holds for adjusted sizes up to [2^31], and fails in the code
    beyond.  At a quiescent moment [find_fit] returns [first_fit]: the
    head of the first bucket, from [bucket_of asize] up to 6, that is not
    empty and whose head has [asize] bytes or more, and [NULL] when there
    is none; only heads are read.  In [deep_fit] the request of 900 bytes
    passes over bucket 1, whose second member has 1000 bytes, and is
    served from bucket 6.  But the code compares by the sign of the
    32-bit difference [(int)(size - asize)]: for [asize = 3221225480] the
    65536-byte head of bucket 6 is returned as a fit. *)
Theorem find_fit_examines_heads :
  (forall s asize, reachable s -> 0 <= asize <= 2 ^ 31 ->
     find_fit asize s = Ok (first_fit s asize) s) /\
  (bucket_list deep_fit 1 = [5192; 4168] /\
   map (size_of deep_fit) [5192; 4168] = [600; 1000] /\
   bucket_list deep_fit 6 = [5816] /\
   value (find_fit 900) deep_fit = Some 5816) /\
  (value (find_fit 3221225480) initialised = Some 4168 /\
   size_of initialised 4168 = 65536 /\
   first_fit initialised 3221225480 = NULL).
Proof.
  split; [|split].
  - intros s asize Hr Ha. destruct (reachable_Heap _ Hr) as (bl & fl & [HR _ _]).
    apply (find_fit_first_fit _ _ _ _ HR Ha).
  - vm_compute. repeat split; reflexivity.
  - vm_compute. repeat split; reflexivity.
Qed.

Lemma find_fit_examines_heads_witness :
  find_fit 1008 five_freed = Ok (first_fit five_freed 1008) five_freed.
Proof.
  apply (proj1 find_fit_examines_heads five_freed 1008 reachable_five_freed).
  split; vm_compute; discriminate.
Defined.

(** ** Insertion into a free list *)



(** ** The heap after initialisation *)

(** C10 does not hold of the code, by the slip that also breaks C5:
    [mm_init] clears slots 0 to 5 only and extends the heap before it
    assigns slot 6, so [append_to_class] finds in slot 6 what the host
    left there.  Second part: on an arena at 4096 whose bytes 48 to 55
    hold the address 4096, [mm_init] returns 0 and bucket 0 is not
    empty, it holds 72.  First part: on a fresh host arena (the eight
    bytes that become slot 6 are zero) [mm_init] returns 0 as soon as
    the arena has room for the class table, the prologue, the epilogue
    and the initial chunk; and whenever it returns 0 there, buckets 0 to
    5 are empty, bucket 6 holds the block right after the prologue,
    which is free, has 65536 bytes and both link offsets 0, is followed
    by the zero-sized allocated epilogue and preceded by the 8-byte
    allocated prologue. *)
Theorem init_state_unless_slot_6_stale :
  (forall m lo hi,
     0 <= lo -> hi <= 2 ^ 62 -> hi - lo < 2 ^ 31 ->
     load64 m (lo + 6 * DSIZE) = NULL ->
     (lo + 7 * DSIZE + 4 * WSIZE + CHUNKSIZE <= hi ->
      exists s, mm_init (boot m lo hi) = Ok 0 s) /\
     (forall s, mm_init (boot m lo hi) = Ok 0 s ->
        (forall k, 0 <= k <= 5 -> bucket_head s k = NULL) /\
        bucket_head s 6 = heap_listp s + DSIZE /\
        size_of s (heap_listp s + DSIZE) = CHUNKSIZE /\
        alloc_of s (heap_listp s + DSIZE) = 0 /\
        pred_offset s (heap_listp s + DSIZE) = 0 /\
        succ_offset s (heap_listp s + DSIZE) = 0 /\
        size_of s (next_blk s (heap_listp s + DSIZE)) = 0 /\
        alloc_of s (next_blk s (heap_listp s + DSIZE)) = 1 /\
        prev_blk s (heap_listp s + DSIZE) = heap_listp s /\
        size_of s (heap_listp s) = OVERHEAD /\
        alloc_of s (heap_listp s) = 1)) /\
  (exists s, mm_init (stale 4096) = Ok 0 s /\ bucket_head s 0 = 72).
Proof.
  split;
    [|exists (after mm_init (stale 4096)); split;
      [apply value_after; exact (proj1 (proj2 (proj2 init_stale_slot_6)))
      |exact (proj2 (proj2 (proj2 init_stale_slot_6)))]].
  intros m lo hi Hlo Hhi Hspan H6. change (lo + 6 * DSIZE) with (lo + 48) in H6.
  change (lo + 7 * DSIZE + 4 * WSIZE + CHUNKSIZE) with (lo + 7 * 8 + 4 * 4 + 65536).
  split.
  - intros Hroom.
    destruct (mm_init_spec m lo hi Hlo Hhi Hspan ltac:(lia) H6) as (m' & fl & E & _).
    eexists. exact E.
  - intros s Run.
    pose proof (mm_init_room _ _ _ _ Hlo Hhi Hspan H6 Run) as Hroom.
    destruct (mm_init_spec m lo hi Hlo Hhi Hspan Hroom H6)
      as (m' & fl & E & HH & Hfl & Hfl6 & P0 & P4).
    rewrite E in Run. injection Run as <-.
    pose proof (heap_rep _ _ _ HH) as HR.
    assert (Hc : In (lo + 72, 65536, false)
                    (cells (mem_lo (mkState m' lo (lo + 72 + 65536) hi (lo + 64) lo []) + 72)
                           [(65536, false)])) by (left; reflexivity).
    destruct (cell_size_of _ _ _ _ _ _ HR Hc) as [Es Ea].
    destruct (next_neighbour _ [] _ _ [] _ HR) as (En & _).
    destruct (epilogue_size_of _ _ _ HR) as [Ees Eea].
    destruct (prologue_size_of _ _ _ HR) as [Eps Epa].
    destruct (rep_prologue _ _ _ HR) as [_ Pf].
    cbn [total mem mem_lo mem_brk heap_listp] in *.
    replace (lo + 72 + 0) with (lo + 72) in En by lia.
    unfold DSIZE, OVERHEAD. replace (lo + 64 + 8) with (lo + 72) by lia.
    change CHUNKSIZE with 65536.
    split.
    { intros k Hk. unfold bucket_head. cbn [mem ptr_classes].
      pose proof (rep_heads _ _ _ HR k ltac:(lia)) as Hh. cbn [mem mem_lo] in Hh.
      rewrite Hh, (Hfl k Hk). reflexivity. }
    split.
    { unfold bucket_head. cbn [mem ptr_classes].
      pose proof (rep_heads _ _ _ HR 6 ltac:(lia)) as Hh. cbn [mem mem_lo] in Hh.
      rewrite Hh, Hfl6. reflexivity. }
    split; [exact Es|]. split; [exact Ea|].
    split; [unfold pred_offset; cbn [mem]; rewrite P0; reflexivity|].
    split; [unfold succ_offset; cbn [mem];
            replace (lo + 72 + 4) with (lo + 76) by lia; rewrite P4; reflexivity|].
    rewrite En.
    split; [exact Ees|]. split; [exact Eea|].
    split; [|split; [exact Eps | exact Epa]].
    unfold prev_blk, DSIZE. cbn [mem].
    replace (lo + 72 - 8) with (lo + 64) by lia. rewrite Pf.
    change (Z.land 9 (u32 (Z.lnot 7))) with 8. lia.
Qed.

Lemma init_state_unless_slot_6_stale_witness :
  bucket_head initialised 6 = heap_listp initialised + DSIZE /\
  size_of initialised (heap_listp initialised + DSIZE) = CHUNKSIZE /\
  pred_offset initialised (heap_listp initialised + DSIZE) = 0 /\
  succ_offset initialised (heap_listp initialised + DSIZE) = 0.
Proof.
  assert (Run : mm_init (boot (fun _ => 0) 4096 (4096 + 20 * 1048576)) = Ok 0 initialised)
    by (apply (value_after mm_init fresh); vm_compute; reflexivity).
  assert (A1 : 0 <= 4096) by (vm_compute; discriminate).
  assert (A2 : 4096 + 20 * 1048576 <= 2 ^ 62) by (vm_compute; discriminate).
  assert (A3 : 4096 + 20 * 1048576 - 4096 < 2 ^ 31) by (vm_compute; reflexivity).
  destruct (proj1 init_state_unless_slot_6_stale
                  (fun _ => 0) 4096 (4096 + 20 * 1048576) A1 A2 A3 eq_refl) as [_ H].
  destruct (H initialised Run) as (_ & H6 & Hs & _ & Hp & Hsu & _).
  repeat split; assumption.
Defined.

(** * Further properties of the code *)

(** ** Globals, arena bounds and the break *)

Lemma steady_ret {A} (a : A) : steady (ret a).
Proof. intros s a' s' H. inversion H. repeat split; lia. Qed.

Lemma steady_bind {A B} (c : M A) (k : A -> M B) :
  steady c -> (forall a, steady (k a)) -> steady (bind c k).
Proof.
  intros Hc Hk s b s'' H. apply bind_inv in H. destruct H as (a & s' & H1 & H2).
  destruct (Hc _ _ _ H1) as (A1 & A2 & A3 & A4 & A5).
  destruct (Hk a _ _ _ H2) as (B1 & B2 & B3 & B4 & B5).
  repeat split; try congruence. lia.
Qed.

Lemma steady_if {A} (b : bool) (c1 c2 : M A) :
  steady c1 -> steady c2 -> steady (if b then c1 else c2).
Proof. destruct b; auto. Qed.

Lemma steady_GET p : steady (GET p).
Proof.
  intros s a s'. unfold GET. destruct (valid s p 4); intros H; inversion H.
  repeat split; lia.
Qed.
Lemma steady_GET_I p : steady (GET_I p).
Proof.
  intros s a s'. unfold GET_I. destruct (valid s p 4); intros H; inversion H.
  repeat split; lia.
Qed.
Lemma steady_PUT p v : steady (PUT p v).
Proof.
  intros s a s'. unfold PUT. destruct (valid s p 4); intros H; inversion H.
  proj. repeat split; lia.
Qed.
Lemma steady_GETP p : steady (GETP p).
Proof.
  intros s a s'. unfold GETP. destruct (valid s p 8); intros H; inversion H.
  repeat split; lia.
Qed.
Lemma steady_PUTP p v : steady (PUTP p v).
Proof.
  intros s a s'. unfold PUTP. destruct (valid s p 8); intros H; inversion H.
  proj. repeat split; lia.
Qed.
Lemma steady_get_ptr_classes : steady get_ptr_classes.
Proof. intros s a s' H. inversion H. repeat split; lia. Qed.
Lemma steady_get_heap_listp : steady get_heap_listp.
Proof. intros s a s' H. inversion H. repeat split; lia. Qed.

(** The host primitive refuses a negative increment, so the break only
    grows. *)
Lemma steady_mem_sbrk n : steady (mem_sbrk n).
Proof.
  intros s a s'. unfold mem_sbrk.
  destruct (n <? 0) eqn:E; cbn [orb].
  - intros H. inversion H. repeat split; lia.
  - apply Z.ltb_ge in E. destruct (mem_hi s <? mem_brk s + n); intros H; inversion H;
      proj; repeat split; lia.
Qed.

Lemma steady_memcpy dst src n : steady (memcpy dst src n).
Proof.
  intros s a s'. unfold memcpy. destruct (valid s dst n && valid s src n);
    intros H; inversion H. proj. repeat split; lia.
Qed.

Lemma steady_exit1 {A} : steady (@exit1 A).
Proof. intros s a s' H. discriminate H. Qed.

Create HintDb steady.
#[local] Hint Resolve steady_ret steady_GET steady_GET_I steady_PUT steady_GETP steady_PUTP
  steady_get_ptr_classes steady_get_heap_listp steady_mem_sbrk steady_memcpy
  steady_exit1 : steady.

Ltac steady :=
  repeat match goal with
    | |- steady (bind _ _) => apply steady_bind; [ | intros ]
    | |- steady (if _ then _ else _) => apply steady_if
    | |- steady (match ?x with _ => _ end) => destruct x
    | |- steady _ => solve [ auto with steady ]
    end.

Lemma steady_GET_SIZE p : steady (GET_SIZE p).
Proof. unfold GET_SIZE. steady. Qed.
Lemma steady_GET_ALLOC p : steady (GET_ALLOC p).
Proof. unfold GET_ALLOC. steady. Qed.
#[local] Hint Resolve steady_GET_SIZE steady_GET_ALLOC : steady.
Lemma steady_FTRP p : steady (FTRP p).
Proof. unfold FTRP. steady. Qed.
Lemma steady_NEXT_BLKP p : steady (NEXT_BLKP p).
Proof. unfold NEXT_BLKP. steady. Qed.
Lemma steady_PREV_BLKP p : steady (PREV_BLKP p).
Proof. unfold PREV_BLKP. steady. Qed.
Lemma steady_SUCC p : steady (SUCC p).
Proof. unfold SUCC. steady. Qed.
Lemma steady_PRED p : steady (PRED p).
Proof. unfold PRED. steady. Qed.
Lemma steady_get_class k : steady (get_class k).
Proof. unfold get_class, class_slot. steady. Qed.
Lemma steady_set_class k v : steady (set_class k v).
Proof. unfold set_class, class_slot. steady. Qed.
#[local] Hint Resolve steady_FTRP steady_NEXT_BLKP steady_PREV_BLKP steady_SUCC steady_PRED
  steady_get_class steady_set_class : steady.
Lemma steady_append_arm k bp : steady (append_arm k bp).
Proof. unfold append_arm. steady. Qed.
Lemma steady_delete_arm k bp : steady (delete_arm k bp).
Proof. unfold delete_arm. steady. Qed.
#[local] Hint Resolve steady_append_arm steady_delete_arm : steady.
Lemma steady_append_to_class bp size : steady (append_to_class bp size).
Proof. unfold append_to_class. steady. Qed.
Lemma steady_delete_from_class bp prev : steady (delete_from_class bp prev).
Proof. unfold delete_from_class. steady. Qed.
#[local] Hint Resolve steady_append_to_class steady_delete_from_class : steady.
Lemma steady_fit_loop asize base todo : forall increment,
  steady (fit_loop asize base increment todo).
Proof. induction todo; intros; cbn [fit_loop]; steady. Qed.
#[local] Hint Resolve steady_fit_loop : steady.
Lemma steady_find_fit asize : steady (find_fit asize).
Proof. unfold find_fit. steady. Qed.
Lemma steady_coalesce bp : steady (coalesce bp).
Proof. unfold coalesce, coalesce_cases. steady. Qed.
#[local] Hint Resolve steady_find_fit steady_coalesce : steady.
Lemma steady_extend_heap words : steady (extend_heap words).
Proof. unfold extend_heap. steady. Qed.
Lemma steady_place bp asize : steady (place bp asize).
Proof. unfold place. steady. Qed.
#[local] Hint Resolve steady_extend_heap steady_place : steady.
Lemma steady_mm_malloc size : steady (mm_malloc size).
Proof. unfold mm_malloc. steady. Qed.
Lemma steady_mm_free bp : steady (mm_free bp).
Proof. unfold mm_free. steady. Qed.
#[local] Hint Resolve steady_mm_malloc steady_mm_free : steady.
Lemma steady_mm_realloc ptr size : steady (mm_realloc ptr size).
Proof. unfold mm_realloc. steady. Qed.

(** Whenever [mm_malloc], [mm_free] or [mm_realloc] returns, from any
    state whatever, the arena bounds and the globals [heap_listp] and
    [ptr_classes] are unchanged and the break is not lower than before:
    the allocator never gives memory back to the host. *)
Theorem public_calls_are_steady :
  (forall size s p s', mm_malloc size s = Ok p s' ->
     mem_lo s' = mem_lo s /\ mem_hi s' = mem_hi s /\
     heap_listp s' = heap_listp s /\ ptr_classes s' = ptr_classes s /\
     mem_brk s <= mem_brk s') /\
  (forall bp s u s', mm_free bp s = Ok u s' ->
     mem_lo s' = mem_lo s /\ mem_hi s' = mem_hi s /\
     heap_listp s' = heap_listp s /\ ptr_classes s' = ptr_classes s /\
     mem_brk s <= mem_brk s') /\
  (forall ptr size s p s', mm_realloc ptr size s = Ok p s' ->
     mem_lo s' = mem_lo s /\ mem_hi s' = mem_hi s /\
     heap_listp s' = heap_listp s /\ ptr_classes s' = ptr_classes s /\
     mem_brk s <= mem_brk s').
Proof.
  split; [|split].
  - intros size. apply steady_mm_malloc.
  - intros bp. apply steady_mm_free.
  - intros ptr size. apply steady_mm_realloc.
Qed.

Lemma public_calls_are_steady_witness :
  mem_lo head_reused = mem_lo five_freed /\ mem_hi head_reused = mem_hi five_freed /\
  heap_listp head_reused = heap_listp five_freed /\
  ptr_classes head_reused = ptr_classes five_freed /\
  mem_brk five_freed <= mem_brk head_reused.
Proof.
  apply (proj1 public_calls_are_steady 1000 five_freed 12232).
  apply value_after. vm_compute. reflexivity.
Defined.

(** ** Edge cases of [mm_realloc] *)

(** [mm_realloc] has no case for a zero size nor for a null pointer.
    With size 0 the internal [mm_malloc] returns [NULL], which is taken
    for a failed allocation: the process exits, whatever the state and
    the pointer.  With the null pointer, once the internal allocation
    has returned a block, the header word below address 0 is decoded and
    the call faults. *)
Theorem realloc_edge_cases :
  (forall s ptr, mm_realloc ptr 0 s = Exit1) /\
  (forall s size newp s1,
     mm_malloc size s = Ok newp s1 -> newp <> NULL -> mem_hi s < 2 ^ 64 ->
     mm_realloc NULL size s = Segv).
Proof.
  split; [reflexivity|].
  intros s size newp s1 Hm Hnn Hhi.
  unfold mm_realloc. rewrite (bind_Ok _ _ _ _ _ Hm).
  replace (newp =? NULL) with false by (symmetry; apply Z.eqb_neq; assumption).
  apply bind_Segv. unfold GET_SIZE. apply bind_Segv.
  destruct (steady_mm_malloc _ _ _ _ Hm) as (_ & Ehi & _).
  unfold GET, valid.
  replace (HDRP NULL + 4 <=? mem_hi s1) with false.
  - rewrite andb_false_r. reflexivity.
  - symmetry. apply Z.leb_gt. change (HDRP NULL) with (2 ^ 64 - 4). lia.
Qed.

Lemma realloc_edge_cases_witness : mm_realloc NULL 16 initialised = Segv.
Proof.
  apply (proj2 realloc_edge_cases initialised 16 4168 (after (mm_malloc 16) initialised)).
  - apply value_after. vm_compute. reflexivity.
  - vm_compute. discriminate.
  - vm_compute. reflexivity.
Defined.

(** ** [mm_init] on an arena that is too small *)





(** ** The heap checker on a well-formed heap *)

Lemma u32_mod8 x : u32 x mod 8 = x mod 8.
Proof.
  unfold u32. apply Z.mod_mod_divide. exists (2 ^ 29). reflexivity.
Qed.

(** One block with matching tags, be it the prologue or a block of the
    layout. *)
Section CheckedBlock.
Variables (s : state) (x sz : Z) (a : bool).
Hypothesis lo_ok : 0 <= mem_lo s.
Hypothesis hi_ok : mem_hi s <= 2 ^ 62.
Hypothesis x_lo : mem_lo s <= x - 4.
Hypothesis x_hi : x + sz - 4 <= mem_hi s.
Hypothesis sz_ok : 8 <= sz < 2 ^ 31.
Hypothesis sz_8 : sz mod 8 = 0.
Hypothesis x_hdr : load32 (mem s) (x - 4) = sz + b2z a.
Hypothesis x_ftr : load32 (mem s) (x + sz - 8) = sz + b2z a.

Lemma checked_GET_SIZE : GET_SIZE (HDRP x) s = Ok sz s.
Proof. rewrite HDRP_small by lia. apply (GET_SIZE_tag _ _ _ a); try assumption; lia. Qed.

Lemma checked_GET_ALLOC : GET_ALLOC (HDRP x) s = Ok (b2z a) s.
Proof. rewrite HDRP_small by lia. apply (GET_ALLOC_tag _ _ sz); try assumption; lia. Qed.

Lemma checked_FTRP : FTRP x s = Ok (x + sz - 8) s.
Proof. apply (FTRP_raw _ _ _ a); try assumption; lia. Qed.

Lemma checked_NEXT_BLKP : NEXT_BLKP x s = Ok (x + sz) s.
Proof. apply (NEXT_BLKP_raw _ _ _ a); try assumption; lia. Qed.

Lemma checked_checkblock :
  checkblock x s = Ok (if negb (x mod 8 =? 0) then [NotAligned x] else []) s.
Proof.
  unfold checkblock. rewrite HDRP_small by lia.
  erewrite bind_Ok by (apply GET_ok; lia).
  rewrite (bind_Ok _ _ _ _ _ checked_FTRP).
  erewrite bind_Ok by (apply GET_ok; lia).
  rewrite x_hdr, x_ftr, Z.eqb_refl, u32_mod8. cbn [negb]. rewrite app_nil_r. reflexivity.
Qed.

Lemma checked_printblock :
  printblock x s = Ok [BlockLine x sz (b2z a) sz (b2z a)] s.
Proof.
  unfold printblock.
  rewrite (bind_Ok _ _ _ _ _ checked_GET_SIZE).
  rewrite (bind_Ok _ _ _ _ _ checked_GET_ALLOC).
  rewrite (bind_Ok _ _ _ _ _ checked_FTRP).
  erewrite bind_Ok by (apply (GET_SIZE_tag _ _ sz a); try assumption; lia).
  rewrite (bind_Ok _ _ _ _ _ checked_FTRP).
  erewrite bind_Ok by (apply (GET_ALLOC_tag _ _ sz a); try assumption; lia).
  replace (sz =? 0) with false by (symmetry; apply Z.eqb_neq; lia).
  reflexivity.
Qed.

(** One iteration of the loop. *)
Lemma checked_step fuel verbose :
  exists o,
    checkheap_loop (S fuel) verbose x s
    = (r <- checkheap_loop fuel verbose (x + sz) ;;
       ret (match r with
            | Some (e, o') => Some (e, o ++ o')
            | None => None
            end)) s /\
    (verbose = 0 -> x mod 8 = 0 -> o = []).
Proof.
  exists ((if negb (verbose =? 0) then [BlockLine x sz (b2z a) sz (b2z a)] else [])
          ++ (if negb (x mod 8 =? 0) then [NotAligned x] else [])).
  split.
  - cbn [checkheap_loop].
    rewrite (bind_Ok _ _ _ _ _ checked_GET_SIZE).
    replace (0 <? sz) with true by (symmetry; apply Z.ltb_lt; lia).
    assert (P : (if negb (verbose =? 0) then printblock x else ret []) s
                = Ok (if negb (verbose =? 0)
                      then [BlockLine x sz (b2z a) sz (b2z a)] else []) s)
      by (destruct (negb (verbose =? 0)); [apply checked_printblock | reflexivity]).
    rewrite (bind_Ok _ _ _ _ _ P).
    rewrite (bind_Ok _ _ _ _ _ checked_checkblock).
    rewrite (bind_Ok _ _ _ _ _ checked_NEXT_BLKP).
    unfold bind. destruct (checkheap_loop fuel verbose (x + sz) s) as [[[e o']|] s'| |];
      try reflexivity.
    unfold ret. rewrite <- app_assoc.
    destruct (negb (verbose =? 0)); reflexivity.
  - intros -> E. rewrite E. reflexivity.
Qed.

End CheckedBlock.

Section CheckHeap.
Variables (s : state) (bl : layout) (fl : Z -> list Z).
Hypothesis HR : Rep s bl fl.

Lemma epilogue_GET_SIZE :
  GET_SIZE (HDRP (mem_brk s)) s = Ok 0 s /\ GET_ALLOC (HDRP (mem_brk s)) s = Ok 1 s.
Proof.
  pose proof (rep_lo _ _ _ HR). pose proof (rep_hi _ _ _ HR).
  pose proof (rep_room _ _ _ HR). pose proof (rep_brk _ _ _ HR).
  pose proof (tiles_total _ _ _ (rep_tiles _ _ _ HR)).
  pose proof (rep_epilogue _ _ _ HR) as E.
  rewrite HDRP_small by lia. split.
  - apply (GET_SIZE_tag _ _ 0 true); try lia; [exact E | reflexivity].
  - apply (GET_ALLOC_tag _ _ 0 true); try lia; [exact E | reflexivity].
Qed.

Lemma checkheap_loop_layout verbose : forall l2 l1 fuel,
  bl = l1 ++ l2 -> (length l2 <= fuel)%nat ->
  exists o,
    checkheap_loop fuel verbose (mem_lo s + 72 + total l1) s
    = Ok (Some (mem_brk s, o)) s /\
    (verbose = 0 -> mem_lo s mod 8 = 0 -> o = []).
Proof.
  induction l2 as [|[sz a] r IH]; intros l1 fuel E Hf.
  - exists []. split; [|reflexivity].
    replace (mem_lo s + 72 + total l1) with (mem_brk s)
      by (rewrite (rep_brk _ _ _ HR), E, app_nil_r; reflexivity).
    destruct epilogue_GET_SIZE as [G _].
    destruct fuel; cbn [checkheap_loop]; rewrite (bind_Ok _ _ _ _ _ G); reflexivity.
  - destruct fuel as [|fuel]; [cbn [length] in Hf; lia|].
    assert (Hc : In (mem_lo s + 72 + total l1, sz, a) (cells (mem_lo s + 72) bl))
      by (rewrite E; apply cells_middle).
    destruct (cell_facts _ _ _ HR _ _ _ Hc)
      as (F1 & F2 & F3 & F4 & F5 & F6 & F7 & F8 & F9 & F10).
    assert (X1 : mem_lo s <= mem_lo s + 72 + total l1 - 4) by lia.
    assert (X2 : mem_lo s + 72 + total l1 + sz - 4 <= mem_hi s) by lia.
    assert (X3 : 8 <= sz < 2 ^ 31) by lia.
    destruct (checked_step s _ sz a F4 F5 X1 X2 X3 F8 F9 F10 fuel verbose)
      as (o1 & Eq & Ho1).
    assert (E' : bl = (l1 ++ [(sz, a)]) ++ r) by (rewrite <- app_assoc; exact E).
    assert (Hf' : (length r <= fuel)%nat) by (cbn [length] in Hf; lia).
    destruct (IH _ fuel E' Hf') as (o2 & Eq2 & Ho2).
    rewrite total_app in Eq2. cbn [total] in Eq2.
    replace (mem_lo s + 72 + (total l1 + (sz + 0))) with (mem_lo s + 72 + total l1 + sz)
      in Eq2 by lia.
    exists (o1 ++ o2). split.
    + rewrite Eq. rewrite (bind_Ok _ _ _ _ _ Eq2). reflexivity.
    + intros Hv Hal. rewrite (Ho2 Hv Hal), app_nil_r. apply (Ho1 Hv).
      pose proof (rep_tiles _ _ _ HR) as T. rewrite E in T.
      apply tiles_app in T. destruct T as [T _].
      pose proof (tiles_total_mod8 _ _ _ T) as M.
      replace (mem_lo s + 72 + total l1) with (mem_lo s + (72 + total l1)) by lia.
      apply mod8_add; [exact Hal|]. apply mod8_add; [reflexivity | exact M].
Qed.

(** The whole loop, started at the prologue. *)
Lemma checkheap_loop_Rep verbose fuel :
  (S (length bl) <= fuel)%nat ->
  exists o,
    checkheap_loop fuel verbose (heap_listp s) s = Ok (Some (mem_brk s, o)) s /\
    (verbose = 0 -> mem_lo s mod 8 = 0 -> o = []).
Proof.
  intros Hf. destruct fuel as [|fuel]; [lia|].
  pose proof (rep_lo _ _ _ HR). pose proof (rep_hi _ _ _ HR).
  pose proof (rep_room _ _ _ HR). pose proof (rep_brk _ _ _ HR).
  pose proof (tiles_total _ _ _ (rep_tiles _ _ _ HR)).
  destruct (rep_prologue _ _ _ HR) as [P1 P2].
  rewrite (rep_listp _ _ _ HR).
  destruct (checked_step s (mem_lo s + 64) 8 true) with (fuel := fuel) (verbose := verbose)
    as (o1 & Eq & Ho1); try lia; try reflexivity.
  { replace (mem_lo s + 64 - 4) with (mem_lo s + 60) by lia. exact P1. }
  { replace (mem_lo s + 64 + 8 - 8) with (mem_lo s + 64) by lia. exact P2. }
  assert (Hf' : (length bl <= fuel)%nat) by lia.
  destruct (checkheap_loop_layout verbose bl [] fuel eq_refl Hf') as (o2 & Eq2 & Ho2).
  cbn [total] in Eq2.
  replace (mem_lo s + 72 + 0) with (mem_lo s + 64 + 8) in Eq2 by lia.
  exists (o1 ++ o2). split.
  - rewrite Eq. rewrite (bind_Ok _ _ _ _ _ Eq2). reflexivity.
  - intros Hv Hal. rewrite (Ho2 Hv Hal), app_nil_r. apply (Ho1 Hv).
    apply mod8_add; [exact Hal | reflexivity].
Qed.

Lemma prologue_checks :
  GET_SIZE (HDRP (heap_listp s)) s = Ok 8 s /\
  GET_ALLOC (HDRP (heap_listp s)) s = Ok 1 s /\
  checkblock (heap_listp s) s
  = Ok (if negb (heap_listp s mod 8 =? 0) then [NotAligned (heap_listp s)] else []) s.
Proof.
  pose proof (rep_lo _ _ _ HR). pose proof (rep_hi _ _ _ HR).
  pose proof (rep_room _ _ _ HR). pose proof (rep_brk _ _ _ HR).
  pose proof (tiles_total _ _ _ (rep_tiles _ _ _ HR)).
  destruct (rep_prologue _ _ _ HR) as [P1 P2].
  rewrite (rep_listp _ _ _ HR).
  assert (Q1 : load32 (mem s) (mem_lo s + 64 - 4) = 8 + b2z true)
    by (replace (mem_lo s + 64 - 4) with (mem_lo s + 60) by lia; exact P1).
  assert (Q2 : load32 (mem s) (mem_lo s + 64 + 8 - 8) = 8 + b2z true)
    by (replace (mem_lo s + 64 + 8 - 8) with (mem_lo s + 64) by lia; exact P2).
  split; [|split].
  - apply (checked_GET_SIZE s _ 8 true); try lia; try reflexivity; assumption.
  - apply (checked_GET_ALLOC s _ 8 true); try lia; try reflexivity; assumption.
  - apply (checked_checkblock s _ 8 true); try lia; try reflexivity; assumption.
Qed.

(** Without [verbose] the checker prints nothing, provided the arena
    base is doubleword aligned. *)
Lemma mm_checkheap_silent fuel :
  mem_lo s mod 8 = 0 -> (S (length bl) <= fuel)%nat ->
  mm_checkheap fuel 0 s = Ok (Some []) s.
Proof.
  intros Hal Hf.
  destruct prologue_checks as (G1 & G2 & G3).
  destruct epilogue_GET_SIZE as [E1 E2].
  destruct (checkheap_loop_Rep 0 fuel Hf) as (o & L & Ho).
  rewrite (Ho eq_refl Hal) in L.
  assert (Hh : heap_listp s mod 8 = 0).
  { rewrite (rep_listp _ _ _ HR). apply mod8_add; [exact Hal | reflexivity]. }
  rewrite Hh in G3. cbn [Z.eqb negb] in G3.
  unfold mm_checkheap. unfold get_heap_listp at 1. unfold bind at 1.
  rewrite (bind_Ok _ _ _ _ _ G1).
  change (negb (8 =? DSIZE)) with false. cbv iota.
  erewrite bind_Ok by (rewrite (bind_Ok _ _ _ _ _ G2); reflexivity).
  rewrite (bind_Ok _ _ _ _ _ G3).
  rewrite (bind_Ok _ _ _ _ _ L).
  change (negb (0 =? 0)) with false. cbv iota.
  unfold ret at 1. unfold bind at 1.
  rewrite (bind_Ok _ _ _ _ _ E1).
  change (negb (0 =? 0)) with false. cbv iota.
  erewrite bind_Ok by (rewrite (bind_Ok _ _ _ _ _ E2); reflexivity).
  reflexivity.
Qed.


End CheckHeap.

(** ** What a silent check establishes, on any state *)

Lemma GET_inv p s v s' :
  GET p s = Ok v s' ->
  s' = s /\ v = load32 (mem s) p /\ mem_lo s <= p /\ p + 4 <= mem_hi s.
Proof.
  unfold GET. destruct (valid s p 4) eqn:E; [|discriminate].
  intros H. injection H as <- <-. apply valid_elim in E. tauto.
Qed.

Lemma GET_SIZE_HDRP_inv bp s v s' :
  GET_SIZE (HDRP bp) s = Ok v s' ->
  s' = s /\ v = size_of s bp /\ mem_lo s <= HDRP bp /\ HDRP bp + 4 <= mem_hi s.
Proof.
  unfold GET_SIZE. intros H. apply bind_inv in H. destruct H as (w & s1 & G & H).
  apply GET_inv in G. destruct G as (-> & -> & V1 & V2).
  injection H as <- <-. unfold size_of, hdr. tauto.
Qed.

Lemma GET_ALLOC_HDRP_inv bp s v s' :
  GET_ALLOC (HDRP bp) s = Ok v s' -> s' = s /\ v = alloc_of s bp.
Proof.
  unfold GET_ALLOC. intros H. apply bind_inv in H. destruct H as (w & s1 & G & H).
  apply GET_inv in G. destruct G as (-> & -> & V1 & V2).
  injection H as <- <-. unfold alloc_of, hdr. tauto.
Qed.

Lemma checkblock_inv bp s s' :
  checkblock bp s = Ok [] s' -> s' = s /\ bp mod 8 = 0 /\ hdr s bp = ftr s bp.
Proof.
  unfold checkblock. intros H.
  apply bind_inv in H. destruct H as (h & s1 & G1 & H).
  apply GET_inv in G1. destruct G1 as (-> & -> & _).
  apply bind_inv in H. destruct H as (f & s1 & G2 & H).
  unfold FTRP in G2. apply bind_inv in G2. destruct G2 as (sz & s2 & G2 & G3).
  apply GET_SIZE_HDRP_inv in G2. destruct G2 as (-> & -> & _).
  injection G3 as <- <-.
  apply bind_inv in H. destruct H as (w & s1 & G4 & H).
  apply GET_inv in G4. destruct G4 as (-> & -> & _).
  injection H as Hl <-. apply app_eq_nil in Hl. destruct Hl as [Ha Ht].
  split; [reflexivity|]. split.
  - rewrite <- u32_mod8. destruct (u32 bp mod 8 =? 0) eqn:E; [|discriminate Ha].
    apply Z.eqb_eq. exact E.
  - fold (hdr s bp) in Ht. fold (ftr s bp) in Ht.
    destruct (hdr s bp =? ftr s bp) eqn:E; [|discriminate Ht].
    apply Z.eqb_eq. exact E.
Qed.

Lemma size_of_nonneg s b : 0 <= size_of s b.
Proof.
  unfold size_of. apply Z.land_nonneg. left.
  unfold hdr. pose proof (load32_range (mem s) (HDRP b)). lia.
Qed.

Lemma size_of_bound s b : size_of s b < 2 ^ 32.
Proof.
  unfold size_of, hdr. pose proof (load32_range (mem s) (HDRP b)) as R.
  rewrite size_mask by assumption.
  pose proof (Z.div_mod (load32 (mem s) (HDRP b)) 8 ltac:(lia)) as D.
  pose proof (Z.mod_pos_bound (load32 (mem s) (HDRP b)) 8 ltac:(lia)). lia.
Qed.

Lemma walk_trans s a b c : walk s a b -> walk s b c -> walk s a c.
Proof.
  intros Hab Hbc. induction Hbc as [|c Hbc IH Hpos]; [exact Hab|].
  apply walk_next; assumption.
Qed.

Lemma walk_inv s a b :
  walk s a b -> 0 < size_of s a -> b = a \/ walk s (a + size_of s a) b.
Proof.
  intros H Ha. induction H as [|b H IH Hpos]; [left; reflexivity|].
  right. destruct IH as [->|IH]; [apply walk_here | apply walk_next; assumption].
Qed.

Lemma walk_zero s a b : walk s a b -> size_of s a = 0 -> b = a.
Proof.
  intros H Ha. induction H as [|b H IH Hpos]; [reflexivity|].
  subst b. lia.
Qed.

Lemma block_at_walk s b : block_at s b <-> walk s (heap_listp s) b.
Proof.
  split; intros H.
  - induction H as [|b H IH Hpos]; [apply walk_here | apply walk_next; assumption].
  - induction H as [|b H IH Hpos]; [apply block_first | apply block_next; assumption].
Qed.

Lemma checkheap_loop_inv s : forall fuel a e s',
  0 <= a < 2 ^ 64 -> mem_hi s <= 2 ^ 62 ->
  checkheap_loop fuel 0 a s = Ok (Some (e, [])) s' ->
  s' = s /\ walk s a e /\ size_of s e = 0 /\
  forall b, walk s a b -> 0 < size_of s b -> hdr s b = ftr s b /\ b mod 8 = 0.
Proof.
  induction fuel as [|fuel IH]; intros a e s' Ha Hhi H; cbn [checkheap_loop] in H;
    apply bind_inv in H; destruct H as (sz & s1 & G & H);
    apply GET_SIZE_HDRP_inv in G; destruct G as (-> & -> & V1 & V2);
    pose proof (size_of_nonneg s a) as N0;
    (destruct (0 <? size_of s a) eqn:E;
     [apply Z.ltb_lt in E | apply Z.ltb_ge in E]).
  - discriminate H.
  - injection H as <- <-. assert (Ez : size_of s a = 0) by lia.
    split; [reflexivity|]. split; [apply walk_here|]. split; [exact Ez|].
    intros b Hb Hpos. rewrite (walk_zero _ _ _ Hb Ez) in Hpos. lia.
  - change (negb (0 =? 0)) with false in H. cbv iota in H.
    unfold ret at 1 in H. unfold bind at 1 in H.
    apply bind_inv in H. destruct H as (o2 & s2 & C & H).
    apply bind_inv in H. destruct H as (nx & s3 & Nx & H).
    apply bind_inv in H. destruct H as (r & s4 & L & H).
    destruct r as [[e' o]|]; [|discriminate H].
    injection H as <- Ho <-. cbn [app] in Ho.
    apply app_eq_nil in Ho. destruct Ho as [-> ->].
    apply checkblock_inv in C. destruct C as (-> & Cal & Ctag).
    assert (Ha4 : 4 <= a).
    { destruct (Z_lt_le_dec a 4) as [Hlt|]; [|assumption].
      exfalso. unfold HDRP, padd, u64, WSIZE in V2.
      assert (Em : (a + - (4)) mod 2 ^ 64 = a - 4 + 2 ^ 64)
        by (symmetry; apply Z.mod_unique with (q := -1); lia).
      rewrite Em in V2. lia. }
    rewrite HDRP_small in V2 by lia.
    pose proof (size_of_bound s a) as Hb32.
    unfold NEXT_BLKP in Nx. change (padd a (- WSIZE)) with (HDRP a) in Nx.
    apply bind_inv in Nx. destruct Nx as (sz & s5 & G & Nx).
    apply GET_SIZE_HDRP_inv in G. destruct G as (-> & -> & _).
    injection Nx as <- <-. rewrite padd_small in L by lia.
    assert (Hnx : 0 <= a + size_of s a < 2 ^ 64) by lia.
    destruct (IH _ _ _ Hnx Hhi L) as (-> & W & Ez & Hall).
    split; [reflexivity|].
    split; [apply (walk_trans _ _ (a + size_of s a)); [apply walk_next; [apply walk_here|lia]|exact W]|].
    split; [exact Ez|].
    intros b Hb Hpos. destruct (walk_inv _ _ _ Hb E) as [->|Hb'].
    + split; assumption.
    + apply Hall; assumption.
  - injection H as <- <-. assert (Ez : size_of s a = 0) by lia.
    split; [reflexivity|]. split; [apply walk_here|]. split; [exact Ez|].
    intros b Hb Hpos. rewrite (walk_zero _ _ _ Hb Ez) in Hpos. lia.
Qed.

Lemma alloc_of_bit s b : alloc_of s b = 0 \/ alloc_of s b = 1.
Proof.
  unfold alloc_of. rewrite alloc_mask.
  pose proof (Z.mod_pos_bound (hdr s b) 2 ltac:(lia)). lia.
Qed.

(** In every state reached from [mm_init] returning 0 on a fresh arena
    by requests of fewer than [2^32 - 15] bytes, releases and
    reallocations of payloads the client holds and client writes inside
    them ([reachable]), when the arena's base is doubleword aligned,
    [mm_checkheap(0)] runs through the heap, prints nothing and changes
    nothing (the loop needs as many iterations as there are blocks). *)
Theorem checkheap_silent_when_reachable s :
  reachable s -> mem_lo s mod 8 = 0 ->
  exists n, forall fuel, (n <= fuel)%nat -> mm_checkheap fuel 0 s = Ok (Some []) s.
Proof.
  intros Hr Hal. destruct (reachable_Heap _ Hr) as (bl & fl & [HR _ _]).
  exists (S (length bl)). intros fuel Hf.
  apply (mm_checkheap_silent _ _ _ HR fuel Hal Hf).
Qed.

Lemma checkheap_silent_when_reachable_witness :
  exists n, forall fuel, (n <= fuel)%nat ->
    mm_checkheap fuel 0 five_freed = Ok (Some []) five_freed.
Proof.
  apply (checkheap_silent_when_reachable five_freed reachable_five_freed).
  vm_compute. reflexivity.
Defined.



(** Conversely, on any state whatever (with [heap_listp] a 64-bit
    address and the arena below [2^62]): if [mm_checkheap(0)] returns
    having printed nothing, then it changed nothing, the prologue header
    says 8 bytes, allocated, every block of the walk before the first
    zero-sized one is doubleword aligned and has a footer word equal to
    its header word, and the walk ends at a zero-sized allocated
    block. *)
Theorem checkheap_silence_is_sound s fuel s' :
  0 <= heap_listp s < 2 ^ 64 -> mem_hi s <= 2 ^ 62 ->
  mm_checkheap fuel 0 s = Ok (Some []) s' ->
  s' = s /\
  size_of s (heap_listp s) = DSIZE /\ alloc_of s (heap_listp s) = 1 /\
  (forall b, block_at s b -> 0 < size_of s b -> hdr s b = ftr s b /\ b mod 8 = 0) /\
  exists e, block_at s e /\ size_of s e = 0 /\ alloc_of s e = 1.
Proof.
  intros Hh Hhi H. unfold mm_checkheap in H.
  unfold get_heap_listp at 1 in H. unfold bind at 1 in H.
  apply bind_inv in H. destruct H as (sz & s1 & G & H).
  apply GET_SIZE_HDRP_inv in G. destruct G as (-> & -> & _).
  apply bind_inv in H. destruct H as (o1 & s1 & G1 & H).
  apply bind_inv in H. destruct H as (o2 & s2 & G2 & H).
  apply bind_inv in H. destruct H as (r & s3 & L & H).
  destruct r as [[e o3]|]; [|discriminate H].
  change (negb (0 =? 0)) with false in H. cbv iota in H.
  unfold ret at 1 in H. unfold bind at 1 in H.
  apply bind_inv in H. destruct H as (sz' & s4 & G4 & H).
  apply bind_inv in H. destruct H as (o5 & s5 & G5 & H).
  injection H as Ho <-. cbn [app] in Ho.
  apply app_eq_nil in Ho. destruct Ho as [-> Ho].
  apply app_eq_nil in Ho. destruct Ho as [-> Ho].
  apply app_eq_nil in Ho. destruct Ho as [-> ->].
  assert (P : s1 = s /\ size_of s (heap_listp s) = DSIZE /\ alloc_of s (heap_listp s) = 1).
  { destruct (size_of s (heap_listp s) =? DSIZE) eqn:E; cbn [negb] in G1; [|discriminate G1].
    apply Z.eqb_eq in E.
    apply bind_inv in G1. destruct G1 as (al & s6 & A & G1).
    apply GET_ALLOC_HDRP_inv in A. destruct A as (-> & ->).
    destruct (alloc_of s (heap_listp s) =? 0) eqn:Ea; [discriminate G1|].
    apply Z.eqb_neq in Ea. injection G1 as <-.
    destruct (alloc_of_bit s (heap_listp s)); [contradiction | tauto]. }
  destruct P as (-> & Ps & Pa).
  apply checkblock_inv in G2. destruct G2 as (-> & _).
  apply checkheap_loop_inv in L; try assumption.
  destruct L as (-> & W & Ez & Hall).
  apply GET_SIZE_HDRP_inv in G4. destruct G4 as (-> & -> & _).
  assert (Q : s5 = s /\ alloc_of s e = 1).
  { rewrite Ez in G5. change (negb (0 =? 0)) with false in G5. cbv iota in G5.
    apply bind_inv in G5. destruct G5 as (al & s6 & A & G5).
    apply GET_ALLOC_HDRP_inv in A. destruct A as (-> & ->).
    destruct (alloc_of s e =? 0) eqn:Ea; [discriminate G5|].
    apply Z.eqb_neq in Ea. injection G5 as <-.
    destruct (alloc_of_bit s e); [contradiction | tauto]. }
  destruct Q as (-> & Qa).
  split; [reflexivity|]. split; [exact Ps|]. split; [exact Pa|]. split.
  - intros b Hb Hpos. apply Hall; [apply block_at_walk; exact Hb | exact Hpos].
  - exists e. split; [apply block_at_walk; exact W|]. split; assumption.
Qed.

Lemma checkheap_silence_is_sound_witness :
  after (mm_checkheap 64 0) five_freed = five_freed /\
  size_of five_freed (heap_listp five_freed) = DSIZE /\
  alloc_of five_freed (heap_listp five_freed) = 1 /\
  (forall b, block_at five_freed b -> 0 < size_of five_freed b ->
             hdr five_freed b = ftr five_freed b /\ b mod 8 = 0) /\
  exists e, block_at five_freed e /\ size_of five_freed e = 0 /\ alloc_of five_freed e = 1.
Proof.
  apply (checkheap_silence_is_sound five_freed 64).
  - split; vm_compute; [discriminate | reflexivity].
  - vm_compute. discriminate.
  - apply value_after. vm_compute. reflexivity.
Defined.

(** ** The blocks the client holds, across [mm_malloc] *)

Lemma live_iff s bl fl p :
  Rep s bl fl ->
  (live s p <-> In (p, size_of s p, true) (cells (mem_lo s + 72) bl)).
Proof.
  intros HR. split.
  - intros Hl. destruct (live_cell _ _ _ HR _ Hl) as (l1 & sz & l2 & E & Ep).
    assert (Hc : In (p, sz, true) (cells (mem_lo s + 72) bl))
      by (rewrite E, Ep; apply cells_middle).
    destruct (cell_live _ _ _ _ _ HR Hc) as (_ & Es & _). rewrite Es. exact Hc.
  - intros Hc. apply (cell_live _ _ _ _ _ HR Hc).
Qed.

(** In a state reached from [mm_init] returning 0 on a fresh arena by
    requests of fewer than [2^32 - 15] bytes, releases and reallocations
    of payloads the client holds and client writes inside them
    ([reachable]), when [mm_malloc] of a request of fewer than
    [2^32 - 15] bytes returns: the payloads the client holds afterwards are those it held before and, unless the
    call returned [NULL], the payload returned; the blocks held before
    keep their size and every byte of their payload; the block returned
    was not held before, overlaps none of the blocks held, has room for
    the request besides its header and footer, and its size is the
    adjusted size of the request plus less than a minimal block (16
    bytes) of internal fragmentation. *)
Theorem malloc_keeps_live_blocks s size p s' :
  reachable s -> 0 <= size -> size + 15 < 2 ^ 32 ->
  mm_malloc size s = Ok p s' ->
  (forall q, live s' q <-> live s q \/ (q = p /\ p <> NULL)) /\
  (forall q, live s q ->
     size_of s' q = size_of s q /\
     forall a, q <= a < q + size_of s q - DSIZE -> mem s' a = mem s a) /\
  (p <> NULL ->
     ~ live s p /\ adjusted size <= size_of s' p < adjusted size + 16 /\
     size + DSIZE <= size_of s' p /\
     forall q, live s q -> q + size_of s q <= p \/ p + size_of s' p <= q).
Proof.
  intros Hr H0 Hsz Hm.
  assert (Hsame : p = NULL -> s' = s ->
    (forall q, live s' q <-> live s q \/ (q = p /\ p <> NULL)) /\
    (forall q, live s q ->
       size_of s' q = size_of s q /\
       forall a, q <= a < q + size_of s q - DSIZE -> mem s' a = mem s a) /\
    (p <> NULL ->
       ~ live s p /\ adjusted size <= size_of s' p < adjusted size + 16 /\
       size + DSIZE <= size_of s' p /\
       forall q, live s q -> q + size_of s q <= p \/ p + size_of s' p <= q)).
  { intros -> ->. split; [|split].
    - intros q. split; [intros H; left; exact H | intros [H|[_ H]]; [exact H | contradiction]].
    - intros q _. split; [reflexivity | intros; reflexivity].
    - intros H. contradiction. }
  destruct (Z.eq_dec size 0) as [E0|Hne].
  { subst size. unfold mm_malloc in Hm. change (0 <=? 0) with true in Hm. cbv iota in Hm.
    injection Hm as <- <-. apply Hsame; reflexivity. }
  destruct (reachable_Heap _ Hr) as (bl & fl & HH).
  pose proof (heap_rep _ _ _ HH) as HR.
  destruct (mm_malloc_full s bl fl size p s' HH ltac:(lia) Hsz Hm)
    as (bl' & fl' & HH' & Elo & Ehi & K & [(Ep & Es & _)|(sz & Hb & Hfresh & Hiff & _)]);
    [apply Hsame; assumption|].
  pose proof (heap_rep _ _ _ HH') as HR'.
  assert (Hp : In (p, sz, true) (cells (mem_lo s + 72) bl'))
    by (apply Hiff; right; split; reflexivity).
  assert (Hp' : live s' p /\ size_of s' p = sz).
  { rewrite <- Elo in Hp. destruct (cell_live _ _ _ _ _ HR' Hp) as (L & S & _).
    split; assumption. }
  destruct Hp' as (Lp & Sp).
  assert (Hnn : p <> NULL).
  { rewrite <- Elo in Hp.
    destruct (cell_facts _ _ _ HR' _ _ _ Hp) as (F1 & _ & _ & F4 & _). unfold NULL. lia. }
  assert (Hold : forall q, live s q ->
            In (q, size_of s q, true) (cells (mem_lo s + 72) bl') /\
            live s' q /\ size_of s' q = size_of s q).
  { intros q Hq. apply (live_iff _ _ _ _ HR) in Hq.
    assert (Hq' : In (q, size_of s q, true) (cells (mem_lo s + 72) bl'))
      by (apply Hiff; left; exact Hq).
    split; [exact Hq'|]. rewrite <- Elo in Hq'.
    destruct (cell_live _ _ _ _ _ HR' Hq') as (L & S & _). split; assumption. }
  split; [|split].
  - intros q. split.
    + intros Hq. apply (live_iff _ _ _ _ HR') in Hq. rewrite Elo in Hq.
      apply Hiff in Hq. destruct Hq as [Hq|[Hq _]].
      * left. apply (cell_live _ _ _ _ _ HR Hq).
      * right. split; assumption.
    + intros [Hq|[-> _]]; [apply (Hold q Hq) | exact Lp].
  - intros q Hq. split; [apply (Hold q Hq)|].
    intros a Ha. apply (live_iff _ _ _ _ HR) in Hq.
    apply (K q (size_of s q) a Hq). unfold DSIZE in Ha. lia.
  - intros _. split; [|split; [|split]].
    + intros Hq. apply (live_iff _ _ _ _ HR) in Hq. apply (Hfresh _ Hq).
    + rewrite Sp. exact Hb.
    + rewrite Sp. destruct (adjusted_props size ltac:(lia) Hsz) as (_ & _ & A & _).
      unfold DSIZE. lia.
    + intros q Hq. rewrite Sp.
      destruct (Hold q Hq) as (Hq' & _).
      rewrite <- Elo in Hq', Hp.
      apply (free_cells_apart _ _ _ HR' _ _ _ _ _ _ Hq' Hp).
      intros ->. apply (live_iff _ _ _ _ HR) in Hq. apply (Hfresh _ Hq).
Qed.

Lemma malloc_keeps_live_blocks_witness :
  (forall q, live head_reused q <-> live five_freed q \/ (q = 12232 /\ 12232 <> NULL)) /\
  (forall q, live five_freed q ->
     size_of head_reused q = size_of five_freed q /\
     forall a, q <= a < q + size_of five_freed q - DSIZE ->
               mem head_reused a = mem five_freed a) /\
  (12232 <> NULL ->
     ~ live five_freed 12232 /\
     adjusted 1000 <= size_of head_reused 12232 < adjusted 1000 + 16 /\
     1000 + DSIZE <= size_of head_reused 12232 /\
     forall q, live five_freed q ->
               q + size_of five_freed q <= 12232 \/ 12232 + size_of head_reused 12232 <= q).
Proof.
  apply (malloc_keeps_live_blocks five_freed 1000 12232 head_reused reachable_five_freed).
  - lia.
  - vm_compute. reflexivity.
  - apply value_after. vm_compute. reflexivity.
Defined.

(** ** The blocks the client holds, across [mm_free] *)

Lemma other_allocs b l1 sz a a' l2 x s0 :
  In (x, s0, true) (cells b (l1 ++ (sz, a) :: l2)) -> x <> b + total l1 ->
  In (x, s0, true) (cells b (l1 ++ (sz, a') :: l2)).
Proof.
  intros H Hne. rewrite cells_app in *. apply in_app_or in H. apply in_or_app.
  destruct H as [H|H]; [left; exact H|]. right.
  cbn [cells] in *. destruct H as [H|H]; [|right; exact H].
  injection H as E _. exfalso. apply Hne. symmetry. exact E.
Qed.

Lemma freed_cells_iff s l1 sz l2 fl x s0 :
  Rep s (l1 ++ (sz, true) :: l2) fl ->
  (In (x, s0, true) (cells (mem_lo s + 72) (coalesced l1 sz l2)) <->
   In (x, s0, true) (cells (mem_lo s + 72) (l1 ++ (sz, true) :: l2)) /\
   x <> mem_lo s + 72 + total l1).
Proof.
  intros HR. split.
  - intros H. apply coalesced_allocs_inv in H.
    pose proof (rep_tiles _ _ _ HR) as T. apply tiles_app in T.
    destruct T as [T1 [Tg T2]]. destruct Tg as [Tg _].
    rewrite cells_app in *. apply in_app_or in H. destruct H as [H|[H|H]].
    + split; [apply in_or_app; left; exact H|].
      destruct (cells_inside _ _ _ _ _ _ T1 H) as (_ & ? & (? & _)). lia.
    + discriminate H.
    + split; [apply in_or_app; right; right; exact H|].
      destruct (cells_inside _ _ _ _ _ _ T2 H) as (? & _). lia.
  - intros [H Hne]. apply (coalesced_allocs _ _ _ true); assumption.
Qed.

(** In a state reached from [mm_init] returning 0 on a fresh arena by
    requests of fewer than [2^32 - 15] bytes, releases and reallocations
    of payloads the client holds and client writes inside them
    ([reachable]), [mm_free] of a payload the client holds
    returns; afterwards the client holds the same payloads but the one
    freed, and the other blocks keep their size and every byte of
    their payload. *)
Theorem free_keeps_other_blocks s p :
  reachable s -> live s p ->
  exists s', mm_free p s = Ok tt s' /\
    (forall q, live s' q <-> live s q /\ q <> p) /\
    (forall q, live s q -> q <> p ->
       size_of s' q = size_of s q /\
       forall a, q <= a < q + size_of s q - DSIZE -> mem s' a = mem s a).
Proof.
  intros Hr Hp.
  destruct (reachable_Heap _ Hr) as (bl & fl & HH).
  pose proof (heap_rep _ _ _ HH) as HR.
  destruct (live_cell _ _ _ HR _ Hp) as (l1 & sz & l2 & E & Ep). subst bl p.
  destruct (mm_free_full s l1 sz l2 fl HH) as (m' & fl' & Hf & HH' & K & _).
  pose proof (heap_rep _ _ _ HH') as HR'.
  exists (set_mem s m'). split; [exact Hf|].
  assert (Hold : forall q, live s q -> q <> mem_lo s + 72 + total l1 ->
            live (set_mem s m') q /\ size_of (set_mem s m') q = size_of s q).
  { intros q Hq Hne. apply (live_iff _ _ _ _ HR) in Hq.
    assert (Hq' : In (q, size_of s q, true)
                     (cells (mem_lo (set_mem s m') + 72) (coalesced l1 sz l2)))
      by (proj; apply (freed_cells_iff _ _ _ _ _ _ _ HR); split; assumption).
    destruct (cell_live _ _ _ _ _ HR' Hq') as (L & S & _). split; assumption. }
  split.
  - intros q. split.
    + intros Hq. apply (live_iff _ _ _ _ HR') in Hq. proj.
      apply (freed_cells_iff _ _ _ _ _ _ _ HR) in Hq. destruct Hq as [Hq Hne].
      split; [apply (cell_live _ _ _ _ _ HR Hq) | exact Hne].
    + intros [Hq Hne]. apply (Hold q Hq Hne).
  - intros q Hq Hne. split; [apply (Hold q Hq Hne)|].
    intros a Ha. proj. apply (live_iff _ _ _ _ HR) in Hq.
    apply (K q (size_of s q) a); [|unfold DSIZE in Ha; lia].
    apply (other_allocs _ _ _ true); assumption.
Qed.

Lemma free_keeps_other_blocks_witness :
  exists s', mm_free 4168 ten_blocks = Ok tt s' /\
    (forall q, live s' q <-> live ten_blocks q /\ q <> 4168) /\
    (forall q, live ten_blocks q -> q <> 4168 ->
       size_of s' q = size_of ten_blocks q /\
       forall a, q <= a < q + size_of ten_blocks q - DSIZE -> mem s' a = mem ten_blocks a).
Proof.
  apply (free_keeps_other_blocks ten_blocks 4168 reachable_ten_blocks).
  apply live_check_sound. vm_compute. reflexivity.
Defined.

(** ** Contents and blocks across [mm_realloc] *)

(** In a state reached from [mm_init] returning 0 on a fresh arena by
    requests of fewer than [2^32 - 15] bytes, releases and reallocations
    of payloads the client holds and client writes inside them
    ([reachable]), when [mm_realloc] of a payload the client holds, to a
    size above 0 and below [2^32 - 15], returns: the payload returned is another one, its block has
    the adjusted size of the request plus less than 16 bytes, and its
    first bytes are those of the old payload, up to the smaller of the
    request and the old payload; the old payload is no longer held; the
    other blocks are held as before, with their size and every byte of
    their payload. *)
Theorem realloc_moves_contents s p size q s' :
  reachable s -> live s p -> 0 < size -> size + 15 < 2 ^ 32 ->
  mm_realloc p size s = Ok q s' ->
  q <> p /\
  adjusted size <= size_of s' q < adjusted size + 16 /\
  (forall i, 0 <= i < Z.min size (size_of s p - DSIZE) -> mem s' (q + i) = mem s (p + i)) /\
  (forall r, live s' r <-> r = q \/ (live s r /\ r <> p)) /\
  (forall r, live s r -> r <> p ->
     size_of s' r = size_of s r /\
     forall a, r <= a < r + size_of s r - DSIZE -> mem s' a = mem s a).
Proof.
  intros Hr Hlp H0 Hsz Hre.
  destruct (reachable_Heap _ Hr) as (bl & fl & HH).
  pose proof (heap_rep _ _ _ HH) as HR.
  pose proof (proj1 (live_iff _ _ _ _ HR) Hlp) as Hp.
  set (psz := size_of s p) in *.
  destruct (adjusted_props size H0 Hsz) as (A16 & A8 & Asz & A32).
  unfold mm_realloc in Hre.
  apply bind_inv in Hre. destruct Hre as (q0 & s1 & Hm & Hre).
  destruct (q0 =? NULL) eqn:Eq; [discriminate Hre|]. apply Z.eqb_neq in Eq.
  destruct (mm_malloc_full s bl fl size q0 s1 HH H0 Hsz Hm)
    as (bl1 & fl1 & HH1 & Elo & Ehi & K1 & [(Ep & _)|(sz1 & Hb & Hfresh & Hiff & _)]);
    [contradiction|].
  pose proof (heap_rep _ _ _ HH1) as HR1.
  assert (Hp1 : In (p, psz, true) (cells (mem_lo s1 + 72) bl1))
    by (rewrite Elo; apply Hiff; left; exact Hp).
  assert (Hq1 : In (q0, sz1, true) (cells (mem_lo s1 + 72) bl1))
    by (rewrite Elo; apply Hiff; right; split; reflexivity).
  assert (Hqp : q0 <> p) by (intros ->; apply (Hfresh _ Hp)).
  rewrite (bind_Ok _ _ _ _ _ (cell_GET_SIZE _ _ _ HR1 _ _ _ Hp1)) in Hre.
  set (n := if size <? psz then size else psz) in *.
  destruct (cell_facts _ _ _ HR _ _ _ Hp) as (_ & _ & _ & _ & _ & _ & P16 & _).
  assert (Hn : 0 <= n <= size /\ n <= psz /\ Z.min size (psz - 8) <= n).
  { unfold n. destruct (size <? psz) eqn:E; [apply Z.ltb_lt in E | apply Z.ltb_ge in E]; lia. }
  apply bind_inv in Hre. destruct Hre as ([] & s2' & Hc & Hre).
  unfold memcpy in Hc.
  destruct (valid s1 q0 n && valid s1 p n); [|discriminate Hc].
  injection Hc as <-.
  set (m2 := copy_bytes (mem s1) q0 p n) in *.
  assert (HH2 : Heap (log_copy (set_mem s1 m2) (q0, p, n)) bl1 fl1).
  { apply Heap_log_copy. apply (Heap_payload_write _ _ _ q0 sz1); try assumption.
    intros a Ha. apply copy_bytes_other. lia. }
  set (s2 := log_copy (set_mem s1 m2) (q0, p, n)) in *.
  pose proof (heap_rep _ _ _ HH2) as HR2.
  destruct (cells_split _ _ _ _ _ Hp1) as (l1 & l2 & E & Eptr).
  rewrite E in HH2, HR2, Hp1, Hq1.
  destruct (mm_free_full s2 l1 psz l2 fl1 HH2) as (m3 & fl3 & Hf & HH3 & K3 & _).
  pose proof (heap_rep _ _ _ HH3) as HR3.
  replace (mem_lo s2 + 72 + total l1) with p in Hf by (unfold s2; proj; lia).
  rewrite (bind_Ok _ _ _ _ _ Hf) in Hre. unfold ret in Hre. injection Hre as <- <-.
  assert (Elo2 : mem_lo (set_mem s2 m3) = mem_lo s) by (unfold s2; proj; exact Elo).
  (* the blocks of the intermediate heap, other than the old one *)
  assert (Hstay : forall r rsz, In (r, rsz, true) (cells (mem_lo s1 + 72) (l1 ++ (psz, true) :: l2)) ->
            r <> p ->
            live (set_mem s2 m3) r /\ size_of (set_mem s2 m3) r = rsz /\
            forall a, r <= a < r + rsz - 8 -> m3 a = m2 a).
  { intros r rsz Hc Hne.
    assert (Hc3 : In (r, rsz, true) (cells (mem_lo (set_mem s2 m3) + 72) (coalesced l1 psz l2))).
    { unfold s2; proj. apply (coalesced_allocs _ _ _ true); [exact Hc | lia]. }
    destruct (cell_live _ _ _ _ _ HR3 Hc3) as (L & S & _).
    split; [exact L|]. split; [exact S|].
    intros a Ha. apply (K3 r rsz a); [|exact Ha].
    unfold s2; proj. apply (other_allocs _ _ _ true); [exact Hc | lia]. }
  destruct (Hstay q0 sz1 Hq1 Hqp) as (Lq & Sq & Fq).
  split; [exact Hqp|]. split; [rewrite Sq; exact Hb|]. split; [|split].
  - intros i Hi. unfold DSIZE in Hi. fold psz in Hi. proj.
    rewrite (Fq (q0 + i)) by lia.
    unfold m2, copy_bytes.
    replace ((q0 <=? q0 + i) && (q0 + i <? q0 + n)) with true
      by (symmetry; apply andb_true_iff; split; [apply Z.leb_le | apply Z.ltb_lt]; lia).
    replace (p + (q0 + i - q0)) with (p + i) by lia.
    apply (K1 p psz (p + i) Hp). lia.
  - intros r. split.
    + intros Hl. apply (live_iff _ _ _ _ HR3) in Hl.
      unfold s2 in Hl; proj.
      apply (freed_cells_iff _ _ _ _ _ _ _ HR2) in Hl. unfold s2 in Hl; proj.
      destruct Hl as [Hl Hne]. rewrite <- E, Elo in Hl. apply Hiff in Hl.
      destruct Hl as [Hl|[Hl _]]; [right | left; exact Hl].
      split; [apply (cell_live _ _ _ _ _ HR Hl) | lia].
    + intros [->|[Hl Hne]]; [exact Lq|].
      apply (live_iff _ _ _ _ HR) in Hl.
      assert (Hl1 : In (r, size_of s r, true) (cells (mem_lo s1 + 72) (l1 ++ (psz, true) :: l2)))
        by (rewrite <- E, Elo; apply Hiff; left; exact Hl).
      apply (Hstay _ _ Hl1 Hne).
  - intros r Hl Hne. apply (live_iff _ _ _ _ HR) in Hl.
    assert (Hl1 : In (r, size_of s r, true) (cells (mem_lo s1 + 72) (l1 ++ (psz, true) :: l2)))
      by (rewrite <- E, Elo; apply Hiff; left; exact Hl).
    destruct (Hstay _ _ Hl1 Hne) as (_ & S & F).
    split; [exact S|]. intros a Ha. unfold DSIZE in Ha. proj.
    rewrite (F a Ha).
    assert (Hrq : r <> q0) by (intros ->; apply (Hfresh _ Hl)).
    rewrite <- E in Hl1, Hq1.
    destruct (cell_facts _ _ _ HR1 _ _ _ Hl1) as (_ & _ & _ & _ & _ & _ & R16 & _).
    pose proof (free_cells_apart _ _ _ HR1 _ _ _ _ _ _ Hl1 Hq1 Hrq) as Hap.
    unfold m2. rewrite copy_bytes_other by lia.
    apply (K1 r (size_of s r) a Hl Ha).
Qed.

Lemma realloc_moves_contents_witness :
  4192 <> 4168 /\
  adjusted 100 <= size_of (after (mm_realloc 4168 100) one_small_block) 4192
               < adjusted 100 + 16 /\
  (forall i, 0 <= i < Z.min 100 (size_of one_small_block 4168 - DSIZE) ->
     mem (after (mm_realloc 4168 100) one_small_block) (4192 + i)
     = mem one_small_block (4168 + i)) /\
  (forall r, live (after (mm_realloc 4168 100) one_small_block) r <->
             r = 4192 \/ (live one_small_block r /\ r <> 4168)) /\
  (forall r, live one_small_block r -> r <> 4168 ->
     size_of (after (mm_realloc 4168 100) one_small_block) r = size_of one_small_block r /\
     forall a, r <= a < r + size_of one_small_block r - DSIZE ->
       mem (after (mm_realloc 4168 100) one_small_block) a = mem one_small_block a).
Proof.
  apply (realloc_moves_contents one_small_block 4168 100 4192 _ reachable_one_small_block).
  - apply live_check_sound. vm_compute. reflexivity.
  - lia.
  - vm_compute. reflexivity.
  - apply value_after. vm_compute. reflexivity.
Defined.

(** ** [mm_free] followed by [mm_malloc]: the freed block is reused *)

(** In a state reached from [mm_init] returning 0 on a fresh arena by
    requests of fewer than [2^32 - 15] bytes, releases and reallocations
    of payloads the client holds and client writes inside them
    ([reachable]), after [mm_free] of a payload the client
    holds, the block it leaves (the freed block merged with its free
    neighbours) is the head of the list of its size class, and a
    request that follows, above 0 and below [2^32 - 15] bytes, whose
    adjusted size falls in the same class
    and does not exceed the size of that block, is served from it:
    [mm_malloc] returns the start of the merged block. *)
Theorem free_then_malloc_reuses s p s1 size :
  reachable s -> live s p -> mm_free p s = Ok tt s1 ->
  0 < size -> size + 15 < 2 ^ 32 ->
  bucket_of (adjusted size) = bucket_of (merged_size s p (size_of s p)) ->
  adjusted size <= merged_size s p (size_of s p) ->
  bucket_head s1 (bucket_of (merged_size s p (size_of s p))) = merged_start s p /\
  exists s', mm_malloc size s1 = Ok (merged_start s p) s'.
Proof.
  intros Hr Hl Hfree H0 Hsz Hbk Hle.
  destruct (reachable_Heap _ Hr) as (bl & fl & HH).
  pose proof (heap_rep _ _ _ HH) as HR.
  destruct (live_cell _ _ _ HR _ Hl) as (l1 & sz & l2 & E & Ep). subst bl.
  destruct (mm_free_full s l1 sz l2 fl HH) as (m' & fl' & Hf & HH' & _ & Hd).
  rewrite <- Ep in Hf. rewrite Hf in Hfree. injection Hfree as <-.
  pose proof (heap_rep _ _ _ HH') as HR'.
  destruct (prev_neighbour _ _ _ _ HR) as [Ps Pm].
  destruct (next_neighbour _ _ _ _ _ _ HR) as (_ & _ & Ns).
  assert (Hc : In (p, sz, true) (cells (mem_lo s + 72) (l1 ++ (sz, true) :: l2)))
    by (rewrite Ep; apply cells_middle).
  destruct (cell_size_of _ _ _ _ _ _ HR Hc) as [Es _].
  rewrite <- Ep in Ps, Pm, Ns, Hd.
  assert (ES : merged_size s p (size_of s p)
               = snd (take_last_free l1) + sz + snd (take_first_free l2))
    by (unfold merged_size; rewrite Es, <- Ps, <- Ns; reflexivity).
  rewrite ES in *. rewrite Pm.
  set (S := snd (take_last_free l1) + sz + snd (take_first_free l2)) in *.
  set (start := p - snd (take_last_free l1)) in *.
  pose proof (take_last_free_total l1) as Tl.
  unfold coalesced in HH', HR'. fold S in HH', HR'.
  assert (Est : start = mem_lo (set_mem s m') + 72 + total (fst (take_last_free l1)))
    by (unfold start; proj; lia).
  assert (Hm : In (start, S, false)
                  (cells (mem_lo (set_mem s m') + 72)
                         (fst (take_last_free l1) ++ (S, false) :: fst (take_first_free l2))))
    by (rewrite Est; apply cells_middle).
  destruct (cell_size_of _ _ _ _ _ _ HR' Hm) as [Es' _].
  destruct (cell_facts _ _ _ HR' _ _ _ Hm) as (F1 & F2 & F3 & F4 & F5 & F6 & F7 & F8 & _).
  assert (Hhead : bucket_head (set_mem s m') (bucket_of S) = start).
  { unfold bucket_head. rewrite (rep_table _ _ _ HR').
    rewrite (rep_heads _ _ _ HR' _ (bucket_of_range _)). exact Hd. }
  split; [exact Hhead|].
  destruct (adjusted_props size H0 Hsz) as (A16 & A8 & Asz & A32).
  assert (Hfit : find_fit (adjusted size) (set_mem s m') = Ok start (set_mem s m')).
  { rewrite (find_fit_first_fit _ _ _ _ HR') by lia. f_equal.
    unfold first_fit. rewrite Hbk.
    assert (Hsel : negb (start =? NULL) && (adjusted size <=? size_of (set_mem s m') start)
                   = true).
    { apply andb_true_iff. split.
      - apply negb_true_iff, Z.eqb_neq. unfold NULL. lia.
      - rewrite Es'. apply Z.leb_le. exact Hle. }
    destruct (Z.to_nat (6 - bucket_of S)); cbn [scan_heads]; rewrite Hhead, Hsel; reflexivity. }
  destruct (place_full _ _ _ _ _ (adjusted size) HH' A16 A8 Hle) as (m2 & fl2 & P2 & _).
  rewrite <- Est in P2.
  exists (set_mem (set_mem s m') m2).
  unfold mm_malloc.
  replace (size <=? 0) with false by (symmetry; apply Z.leb_gt; lia).
  rewrite code_adjusted by assumption.
  rewrite (bind_Ok _ _ _ _ _ Hfit).
  replace (negb (start =? NULL)) with true
    by (symmetry; apply negb_true_iff, Z.eqb_neq; unfold NULL; lia).
  rewrite (bind_Ok _ _ _ _ _ P2). reflexivity.
Qed.

Lemma reachable_first_freed : reachable first_freed.
Proof.
  apply (reach_free_after ten_blocks 4168 reachable_ten_blocks);
    vm_compute; reflexivity.
Qed.

Lemma free_then_malloc_reuses_witness :
  bucket_head (after (mm_free 5176) first_freed)
              (bucket_of (merged_size first_freed 5176 (size_of first_freed 5176)))
  = merged_start first_freed 5176 /\
  exists s', mm_malloc 2000 (after (mm_free 5176) first_freed)
             = Ok (merged_start first_freed 5176) s'.
Proof.
  apply (free_then_malloc_reuses first_freed 5176 _ 2000 reachable_first_freed).
  - apply live_check_sound. vm_compute. reflexivity.
  - apply value_after. vm_compute. reflexivity.
  - lia.
  - vm_compute. reflexivity.
  - vm_compute. reflexivity.
  - vm_compute. discriminate.
Defined.

(** ** The blocks of the walk *)

(** In every state reached from [mm_init] returning 0 on a fresh arena
    by requests of fewer than [2^32 - 15] bytes, releases and
    reallocations of payloads the client holds and client writes inside
    them ([reachable]), a block of the walk other than the
    prologue and the epilogue has at least 16 bytes, a multiple of 8,
    starts a multiple of 8 bytes above the arena base and lies between
    the prologue and the break; the walk ends at the break, where the
    zero-sized allocated epilogue stands, and the break is within the
    arena. *)
Theorem blocks_lie_in_heap s :
  reachable s ->
  (forall b, block_at s b -> 0 < size_of s b -> b <> heap_listp s ->
     16 <= size_of s b /\ size_of s b mod 8 = 0 /\ (b - mem_lo s) mod 8 = 0 /\
     heap_listp s + DSIZE <= b /\ b + size_of s b <= mem_brk s) /\
  block_at s (mem_brk s) /\ size_of s (mem_brk s) = 0 /\ alloc_of s (mem_brk s) = 1 /\
  mem_lo s <= ptr_classes s /\ ptr_classes s + 7 * DSIZE <= heap_listp s /\
  mem_brk s <= mem_hi s.
Proof.
  intros Hr. destruct (reachable_Heap _ Hr) as (bl & fl & HH).
  pose proof (heap_rep _ _ _ HH) as HR.
  pose proof (rep_listp _ _ _ HR) as Hlp. pose proof (rep_table _ _ _ HR) as Htb.
  destruct (epilogue_size_of _ _ _ HR) as [Ez Ea].
  split; [|split; [|split; [exact Ez|split; [exact Ea|]]]].
  - intros b Hb Hpos Hne.
    destruct (block_at_cases _ _ _ HR _ Hb) as [E | [E | (sz & a & Hc)]].
    + contradiction.
    + subst b. lia.
    + destruct (cell_size_of _ _ _ _ _ _ HR Hc) as [Es _]. rewrite Es.
      destruct (cell_facts _ _ _ HR _ _ _ Hc)
        as (F1 & F2 & _ & _ & _ & _ & F7 & F8 & _).
      destruct (cells_split _ _ _ _ _ Hc) as (l1 & l2 & E & Eb).
      pose proof (rep_tiles _ _ _ HR) as T. rewrite E in T.
      apply tiles_app in T. destruct T as [T1 _].
      pose proof (tiles_total_mod8 _ _ _ T1) as M.
      split; [exact F7|]. split; [exact F8|]. split.
      * replace (b - mem_lo s) with (72 + total l1) by lia.
        apply mod8_add; [reflexivity | exact M].
      * unfold DSIZE. lia.
  - rewrite (rep_brk _ _ _ HR).
    replace (total bl) with (total (bl ++ [])) by (rewrite app_nil_r; reflexivity).
    destruct bl as [|c r] using rev_ind.
    + cbn [app total]. replace (mem_lo s + 72 + 0) with (heap_listp s + size_of s (heap_listp s)).
      * apply block_next; [apply block_first|].
        rewrite (proj1 (prologue_size_of _ _ _ HR)). lia.
      * rewrite (proj1 (prologue_size_of _ _ _ HR)). lia.
    + clear IHr. destruct c as [sz a]. rewrite app_nil_r, total_app. cbn [total].
      assert (Hc : In (mem_lo s + 72 + total r, sz, a) (cells (mem_lo s + 72) (r ++ [(sz, a)])))
        by apply cells_middle.
      destruct (cell_size_of _ _ _ _ _ _ HR Hc) as [Es _].
      destruct (cell_facts _ _ _ HR _ _ _ Hc) as (_ & _ & _ & _ & _ & _ & F7 & _).
      replace (mem_lo s + 72 + (total r + (sz + 0)))
        with (mem_lo s + 72 + total r + size_of s (mem_lo s + 72 + total r)) by lia.
      apply block_next; [apply (cells_block_at _ _ _ HR _ _ _ Hc) | lia].
  - unfold DSIZE. pose proof (rep_room _ _ _ HR). lia.
Qed.

Lemma blocks_lie_in_heap_witness :
  block_at five_freed (mem_brk five_freed) /\ size_of five_freed (mem_brk five_freed) = 0.
Proof.
  destruct (blocks_lie_in_heap five_freed reachable_five_freed) as (_ & B & Z0 & _).
  split; assumption.
Defined.

(** ** No free block is lost *)

(** In every state reached from [mm_init] returning 0 on a fresh arena
    by requests of fewer than [2^32 - 15] bytes, releases and
    reallocations of payloads the client holds and client writes inside
    them ([reachable]), each free block of the walk is a member
    of the list of the size class of its size, the list that starts at
    the head stored in the class table and follows the successor
    offsets. *)
Theorem free_blocks_are_listed s :
  reachable s ->
  exists fl : Z -> list Z,
    (forall k, 0 <= k <= 6 -> bucket_head s k = hd NULL (fl k) /\ chain (mem s) (fl k)) /\
    (forall b, block_at s b -> 0 < size_of s b -> alloc_of s b = 0 ->
               In b (fl (bucket_of (size_of s b)))).
Proof.
  intros Hr. destruct (reachable_Heap _ Hr) as (bl & fl & HH).
  pose proof (heap_rep _ _ _ HH) as HR.
  exists fl. split.
  - intros k Hk. split; [|apply (rep_chain _ _ _ HR k Hk)].
    unfold bucket_head. rewrite (rep_table _ _ _ HR). apply (rep_heads _ _ _ HR k Hk).
  - intros b Hb Hpos Ha.
    destruct (block_at_cases _ _ _ HR _ Hb) as [E | [E | (sz & a & Hc)]].
    + subst b. rewrite (proj2 (prologue_size_of _ _ _ HR)) in Ha. discriminate Ha.
    + subst b. rewrite (proj1 (epilogue_size_of _ _ _ HR)) in Hpos. lia.
    + destruct (cell_size_of _ _ _ _ _ _ HR Hc) as [Es Ea]. rewrite Es.
      destruct a; [rewrite Ha in Ea; discriminate Ea|].
      apply (heap_complete _ _ _ HH _ _ Hc).
Qed.

Lemma free_blocks_are_listed_witness :
  exists fl : Z -> list Z,
    (forall k, 0 <= k <= 6 ->
       bucket_head five_freed k = hd NULL (fl k) /\ chain (mem five_freed) (fl k)) /\
    (forall b, block_at five_freed b -> 0 < size_of five_freed b ->
               alloc_of five_freed b = 0 ->
               In b (fl (bucket_of (size_of five_freed b)))).
Proof. exact (free_blocks_are_listed five_freed reachable_five_freed). Defined.

(** ** [place] on a free block *)

(** In a state reached from [mm_init] returning 0 on a fresh arena by
    requests of fewer than [2^32 - 15] bytes, releases and reallocations
    of payloads the client holds and client writes inside them
    ([reachable]), [place] on a free block of the walk with a
    request of at least 16 bytes and less than [2^32], a multiple of 8: when the block is
    large enough the call returns and the block is allocated; it is
    cut to the request when the remainder has at least 16 bytes, and
    the remainder is then a free block right after it; otherwise the
    whole block is taken.  When the block is smaller than the request
    the call faults: the unsigned difference wraps, the split branch is
    taken and the tags are written past the block. *)
Theorem place_splits_or_fills s b asize :
  reachable s -> block_at s b -> 0 < size_of s b -> alloc_of s b = 0 ->
  16 <= asize < 2 ^ 32 -> asize mod 8 = 0 ->
  (asize <= size_of s b ->
   exists s', place b asize s = Ok tt s' /\ alloc_of s' b = 1 /\
     (16 <= size_of s b - asize ->
        size_of s' b = asize /\
        size_of s' (b + asize) = size_of s b - asize /\ alloc_of s' (b + asize) = 0) /\
     (size_of s b - asize < 16 -> size_of s' b = size_of s b)) /\
  (size_of s b < asize -> place b asize s = Segv).
Proof.
  intros Hr Hb Hpos Ha Has Ha8.
  destruct (reachable_Heap _ Hr) as (bl & fl & HH).
  pose proof (heap_rep _ _ _ HH) as HR.
  destruct (block_at_cases _ _ _ HR _ Hb) as [E | [E | (sz & a & Hc)]].
  - subst b. rewrite (proj2 (prologue_size_of _ _ _ HR)) in Ha. discriminate Ha.
  - subst b. rewrite (proj1 (epilogue_size_of _ _ _ HR)) in Hpos. lia.
  - destruct (cell_size_of _ _ _ _ _ _ HR Hc) as [Es Ea]. rewrite Es in *.
    destruct a; [rewrite Ha in Ea; discriminate Ea|].
    destruct (cells_split _ _ _ _ _ Hc) as (l1 & l2 & E & Eb). subst bl b.
    split.
    + intros Hle.
      destruct (place_full _ _ _ _ _ asize HH ltac:(lia) Ha8 Hle) as (m' & fl' & P & HH' & _).
      pose proof (heap_rep _ _ _ HH') as HR'.
      exists (set_mem s m'). split; [exact P|].
      unfold placed in HH', HR'.
      destruct (16 <=? sz - asize) eqn:E16;
        [apply Z.leb_le in E16 | apply Z.leb_gt in E16].
      * assert (H1 : In (mem_lo (set_mem s m') + 72 + total l1, asize, true)
                        (cells (mem_lo (set_mem s m') + 72)
                               (l1 ++ [(asize, true); (sz - asize, false)] ++ l2)))
          by apply cells_middle.
        assert (H2 : In (mem_lo (set_mem s m') + 72 + total l1 + asize, sz - asize, false)
                        (cells (mem_lo (set_mem s m') + 72)
                               (l1 ++ [(asize, true); (sz - asize, false)] ++ l2))).
        { rewrite cells_app. apply in_or_app. right. cbn [app cells]. right. left.
          reflexivity. }
        destruct (cell_size_of _ _ _ _ _ _ HR' H1) as [S1 A1].
        destruct (cell_size_of _ _ _ _ _ _ HR' H2) as [S2 A2].
        proj. split; [exact A1|]. split; [|intros; lia].
        intros _. split; [exact S1|]. split; [exact S2 | exact A2].
      * assert (H1 : In (mem_lo (set_mem s m') + 72 + total l1, sz, true)
                        (cells (mem_lo (set_mem s m') + 72) (l1 ++ [(sz, true)] ++ l2)))
          by apply cells_middle.
        destruct (cell_size_of _ _ _ _ _ _ HR' H1) as [S1 A1].
        proj. split; [exact A1|]. split; [intros; lia|]. intros _. exact S1.
    + intros Hlt. apply (place_overrun s l1 sz l2 fl); [exact HH | lia | exact Ha8].
Qed.

Lemma place_splits_or_fills_witness :
  (1008 <= size_of five_freed 12232 ->
   exists s', place 12232 1008 five_freed = Ok tt s' /\ alloc_of s' 12232 = 1 /\
     (16 <= size_of five_freed 12232 - 1008 ->
        size_of s' 12232 = 1008 /\
        size_of s' (12232 + 1008) = size_of five_freed 12232 - 1008 /\
        alloc_of s' (12232 + 1008) = 0) /\
     (size_of five_freed 12232 - 1008 < 16 -> size_of s' 12232 = size_of five_freed 12232)) /\
  (size_of five_freed 12232 < 1008 -> place 12232 1008 five_freed = Segv).
Proof.
  apply (place_splits_or_fills five_freed 12232 1008 reachable_five_freed).
  - apply (walk_to_sound five_freed 64 (heap_listp five_freed));
      [vm_compute; reflexivity | apply block_first].
  - vm_compute. reflexivity.
  - vm_compute. reflexivity.
  - split; [lia | vm_compute; reflexivity].
  - vm_compute. reflexivity.
Defined.

(** ** [mm_free] of a block that is already free *)

(** Writing on a block the tags it has. *)
Lemma Rep_retag s bl fl x sz a :
  Rep s bl fl -> In (x, sz, a) (cells (mem_lo s + 72) bl) ->
  Rep (set_mem s (retag (mem s) x sz a)) bl fl.
Proof.
  intros HR Hc.
  destruct (cell_facts _ _ _ HR _ _ _ Hc) as (F1 & F2 & F3 & F4 & F5 & F6 & F7 & F8 & F9 & F10).
  destruct (cells_split _ _ _ _ _ Hc) as (l1 & l2 & E & Ex).
  pose proof (rep_tiles _ _ _ HR) as Htl. rewrite E in Htl.
  apply tiles_app in Htl. destruct Htl as [T1 [_ T3]].
  pose proof (tiles_total _ _ _ T1) as N1. pose proof (tiles_total _ _ _ T3) as N3.
  pose proof (rep_brk _ _ _ HR) as Hbrk.
  assert (F : forall b, b < x - 4 \/ x <= b < x + sz - 8 \/ x + sz - 4 <= b ->
            retag (mem s) x sz a b = mem s b).
  { intros b [Hb|[Hb|Hb]]; [apply retag_other; lia | apply retag_inner; lia |
                             apply retag_other; lia]. }
  assert (Tx : tagged (retag (mem s) x sz a) x sz a)
    by (apply retag_tagged; [lia | assumption]).
  set (m' := retag (mem s) x sz a) in *.
  constructor; proj; try apply HR.
  - destruct (rep_prologue _ _ _ HR) as [P1 P2].
    rewrite !(load32_agree (mem s) m'); [split; assumption| |]; intros; apply F; lia.
  - rewrite (load32_agree (mem s) m'); [apply HR|]. intros; apply F; lia.
  - rewrite E. apply tiles_app. split; [|split].
    + apply (tiles_agree (mem s)); [|assumption]. intros; apply F; lia.
    + rewrite <- Ex. exact Tx.
    + apply (tiles_agree (mem s)); [|assumption]. intros; apply F; lia.
  - intros k Hk. rewrite <- (rep_heads _ _ _ HR k Hk).
    apply load64_agree. intros; apply F; lia.
  - intros k Hk. apply (chain_agree (mem s)); [|apply HR; assumption].
    intros y Hy b Hb.
    destruct (member_cell _ _ _ HR k y Hk Hy) as (sy & Hcy & _ & _ & _ & H16).
    apply F. destruct (Z.eq_dec y x) as [->|Hne]; [lia|].
    destruct (free_cells_apart _ _ _ HR _ _ _ _ _ _ Hcy Hc Hne); lia.
Qed.

Lemma links_succ_path m l : links m l -> succ_path m l.
Proof.
  induction l as [|x r IH]; [intros; exact I|].
  destruct r as [|y r']; [intros; exact I|].
  intros (H1 & H2 & _ & H4). split; [exact H2|]. split; [exact H1|]. apply IH. exact H4.
Qed.

Lemma succ_path_agree m m' z l :
  (forall y, In y l -> load32 m' (y + 4) = load32 m (y + 4)) ->
  succ_path m (l ++ [z]) -> succ_path m' (l ++ [z]).
Proof.
  induction l as [|x r IH]; intros Hag H; [exact I|].
  assert (Hx : load32 m' (x + 4) = load32 m (x + 4)) by (apply Hag; left; reflexivity).
  assert (Hr : forall y, In y r -> load32 m' (y + 4) = load32 m (y + 4))
    by (intros y Hy; apply Hag; right; exact Hy).
  destruct r as [|y r'].
  - cbn [app succ_path] in *. rewrite Hx. exact H.
  - change (load32 m (x + 4) <> 0 /\ i32 (load32 m (x + 4)) = y - x /\
            succ_path m ((y :: r') ++ [z])) in H.
    change (load32 m' (x + 4) <> 0 /\ i32 (load32 m' (x + 4)) = y - x /\
            succ_path m' ((y :: r') ++ [z])).
    rewrite Hx. destruct H as (H1 & H2 & H3).
    split; [exact H1|]. split; [exact H2|]. apply IH; assumption.
Qed.

(** [mm_free] has no guard against a second release.  In a state
    reached from [mm_init] returning 0 on a fresh arena by requests of
    fewer than [2^32 - 15] bytes, releases and reallocations of payloads
    the client holds and client writes inside them ([reachable]), a
    free block [p] of the walk is a member of the list
    of its class, [la ++ p :: lb].  [mm_free p] returns, and [p] is put
    at the head of that list once more, its successor offset leading to
    the head of before.  When [p] was that head ([la] is empty) its
    [succ] word is 0, the mark of the end of a list: the members [lb]
    are cut off from the class table.  Otherwise the successor offsets,
    followed from the new head, go through [la] and come back to [p]:
    the list has become a cycle. *)
Theorem double_free_undetected s p :
  reachable s -> block_at s p -> 0 < size_of s p -> alloc_of s p = 0 ->
  exists la lb s',
    bucket_head s (bucket_of (size_of s p)) = hd NULL (la ++ p :: lb) /\
    chain (mem s) (la ++ p :: lb) /\
    mm_free p s = Ok tt s' /\
    bucket_head s' (bucket_of (size_of s p)) = p /\
    succ_offset s' p = bucket_head s (bucket_of (size_of s p)) - p /\
    (la = [] -> load32 (mem s') (p + 4) = 0) /\
    (la <> [] -> succ_path (mem s') (p :: la ++ [p])).
Proof.
  intros Hr Hb Hpos Ha.
  destruct (reachable_Heap _ Hr) as (bl & fl & HH).
  pose proof (heap_rep _ _ _ HH) as HR.
  destruct (block_at_cases _ _ _ HR _ Hb) as [E | [E | (sz & a & Hc)]].
  { subst p. rewrite (proj2 (prologue_size_of _ _ _ HR)) in Ha. discriminate Ha. }
  { subst p. rewrite (proj1 (epilogue_size_of _ _ _ HR)) in Hpos. lia. }
  destruct (cell_size_of _ _ _ _ _ _ HR Hc) as [Es Ea]. rewrite Es in *.
  destruct a; [rewrite Ha in Ea; discriminate Ea|].
  pose proof (heap_complete _ _ _ HH _ _ Hc) as Hin.
  set (k := bucket_of sz) in *.
  assert (Hk : 0 <= k <= 6) by apply bucket_of_range.
  destruct (in_split _ _ Hin) as (la & lb & Efl).
  pose proof (rep_chain _ _ _ HR k Hk) as Hch0. rewrite Efl in Hch0.
  pose proof (rep_nodup _ _ _ HR k Hk) as Hnd. rewrite Efl in Hnd.
  destruct (cell_facts _ _ _ HR _ _ _ Hc) as (F1 & F2 & F3 & F4 & F5 & F6 & F7 & F8 & F9 & F10).
  pose proof (Rep_retag _ _ _ _ _ _ HR Hc) as HR1.
  set (m1 := retag (mem s) p sz false) in *.
  set (s1 := set_mem s m1) in *.
  destruct (cells_split _ _ _ _ _ Hc) as (l1 & l2 & E & Ep).
  pose proof (heap_merged _ _ _ HH) as Hadj. rewrite E in Hadj.
  change (l1 ++ (sz, false) :: l2) with (l1 ++ [(sz, false)] ++ l2) in Hadj.
  rewrite !adjacent_free_app in Hadj.
  cbn [adjacent_free last_free first_free negb andb orb] in Hadj.
  assert (Hn : last_free l1 = false /\ first_free l2 = false).
  { destruct (last_free l1), (first_free l2), (adjacent_free l1), (adjacent_free l2);
      cbn in Hadj; try discriminate Hadj; split; reflexivity. }
  destruct Hn as [Hlf Hff].
  (* the head of the list *)
  assert (Hh : bucket_head s k = hd NULL (fl k)).
  { unfold bucket_head. rewrite (rep_table _ _ _ HR). apply (rep_heads _ _ _ HR k Hk). }
  assert (Hh1 : bucket_head s1 k = hd NULL (fl k)).
  { unfold bucket_head. rewrite (rep_table _ _ _ HR1). apply (rep_heads _ _ _ HR1 k Hk). }
  assert (Hhm : In (bucket_head s k) (fl k)).
  { rewrite Hh. destruct (fl k) as [|y r]; [contradiction Hin | left; reflexivity]. }
  destruct (member_cell _ _ _ HR k _ Hk Hhm) as (sh & Hch & _ & B1 & B2 & B3).
  set (h := bucket_head s k) in *.
  assert (Hhp : h = p \/ h + 16 <= p \/ p + 16 <= h).
  { destruct (Z.eq_dec h p) as [->|Hne]; [left; reflexivity | right].
    destruct (free_cells_apart _ _ _ HR _ _ _ _ _ _ Hch Hc Hne); lia. }
  pose proof (rep_table _ _ _ HR) as Htb.
  (* the run *)
  exists la, lb,
    (set_mem s (store64 (store32 (store32 (store32 m1 p 0) (p + 4) (h - p))
                                 h (p - h)) (ptr_classes s + 8 * k) p)).
  assert (Hsucc : load32 (store64 (store32 (store32 (store32 m1 p 0) (p + 4) (h - p))
                                           h (p - h)) (ptr_classes s + 8 * k) p) (p + 4)
                  = u32 (h - p)).
  { rewrite load32_store64_other by lia.
    rewrite load32_store32_other by lia.
    apply load32_store32_same. }
  split; [rewrite <- Efl; exact Hh|]. split; [exact Hch0|].
  split; [|split; [|split; [|split]]].
  - unfold mm_free.
    rewrite (bind_Ok _ _ _ _ _ (cell_GET_SIZE _ _ _ HR _ _ _ Hc)).
    change 0 with (b2z false) at 1 2.
    rewrite (put_tags s p sz false) by lia.
    fold m1. fold s1.
    assert (A : append_arm k p s1
                = Ok tt (set_mem s1 (store64 (store32 (store32 (store32 (mem s1) p 0)
                                                        (p + 4) (h - p)) h (p - h))
                                             (ptr_classes s + 8 * k) p))).
    { apply (append_arm_nonempty s1 k p (ptr_classes s + 8 * k) h);
        try reflexivity; try (unfold s1; proj; lia).
      - rewrite Hh1. exact Hh.
      - unfold NULL. lia. }
    assert (C : coalesce (mem_lo s1 + 72 + total l1) s1
                = Ok p (set_mem s1 (store64 (store32 (store32 (store32 (mem s1) p 0)
                                                        (p + 4) (h - p)) h (p - h))
                                             (ptr_classes s + 8 * k) p))).
    { rewrite E in HR1.
      rewrite (coalesce_reads _ _ _ _ _ _ HR1). rewrite Hlf, Hff. cbn [negb b2z].
      unfold coalesce_cases. change (negb (1 =? 0) && negb (1 =? 0)) with true. cbv iota.
      rewrite append_to_class_arm, i32_size by lia. fold k.
      replace (mem_lo s1 + 72 + total l1) with p by (unfold s1; proj; lia).
      rewrite (bind_Ok _ _ _ _ _ A). reflexivity. }
    replace (mem_lo s1 + 72 + total l1) with p in C by (unfold s1; proj; lia).
    rewrite (bind_Ok _ _ _ _ _ C). reflexivity.
  - unfold bucket_head. proj. apply load64_store64_same. lia.
  - unfold succ_offset. proj. rewrite Hsucc. apply i32_u32_small. lia.
  - intros ->. proj. rewrite Hsucc.
    assert (Ehp : h = p) by (rewrite Efl in Hh; exact Hh).
    rewrite Ehp. replace (p - p) with 0 by lia. reflexivity.
  - intros Hla. proj.
    destruct la as [|h' la']; [contradiction Hla; reflexivity|].
    assert (Ehh : h = h') by (rewrite Efl in Hh; exact Hh).
    assert (Hnp : forall y, In y (h' :: la') -> y <> p).
    { intros y Hy ->. apply NoDup_remove_2 in Hnd. apply Hnd.
      apply in_or_app. left. exact Hy. }
    change (load32 (store64 (store32 (store32 (store32 m1 p 0) (p + 4) (h - p))
                                     h (p - h)) (ptr_classes s + 8 * k) p) (p + 4) <> 0 /\
            i32 (load32 (store64 (store32 (store32 (store32 m1 p 0) (p + 4) (h - p))
                                         h (p - h)) (ptr_classes s + 8 * k) p) (p + 4))
            = h' - p /\
            succ_path (store64 (store32 (store32 (store32 m1 p 0) (p + 4) (h - p))
                                        h (p - h)) (ptr_classes s + 8 * k) p)
                      ((h' :: la') ++ [p])).
    rewrite Hsucc.
    assert (Hne : h <> p) by (rewrite Ehh; apply Hnp; left; reflexivity).
    assert (Hi : i32 (u32 (h - p)) = h - p) by (apply i32_u32_small; lia).
    split; [intros Hz; rewrite Hz in Hi; change (i32 0) with 0 in Hi; lia|].
    split; [rewrite Hi, Ehh; reflexivity|].
    apply (succ_path_agree (mem s)).
    + intros y Hy.
      assert (Hyin : In y (fl k)) by (rewrite Efl; apply in_or_app; left; exact Hy).
      destruct (member_cell _ _ _ HR k y Hk Hyin) as (sy & Hcy & _ & Y1 & Y2 & Y3).
      pose proof (Hnp y Hy) as Hyp.
      assert (Hap : y + sy <= p \/ p + sz <= y)
        by (apply (free_cells_apart _ _ _ HR _ _ _ _ _ _ Hcy Hc Hyp)).
      assert (Hah : y = h \/ y + sy <= h \/ h + sh <= y).
      { destruct (Z.eq_dec y h) as [->|Hyh]; [left; reflexivity | right].
        apply (free_cells_apart _ _ _ HR _ _ _ _ _ _ Hcy Hch Hyh). }
      rewrite load32_store64_other by lia.
      rewrite !load32_store32_other by lia.
      apply load32_agree. intros b Hb'. unfold m1.
      apply retag_other; lia.
    + apply links_succ_path.
      apply chain_links_ended in Hch0. destruct Hch0 as [Hl _].
      apply (proj1 (links_app _ _ _ _)) in Hl. exact (proj1 Hl).
Qed.

Lemma double_free_undetected_witness :
  exists la lb s',
    bucket_head five_freed (bucket_of (size_of five_freed 12232)) = hd NULL (la ++ 12232 :: lb) /\
    chain (mem five_freed) (la ++ 12232 :: lb) /\
    mm_free 12232 five_freed = Ok tt s' /\
    bucket_head s' (bucket_of (size_of five_freed 12232)) = 12232 /\
    succ_offset s' 12232
    = bucket_head five_freed (bucket_of (size_of five_freed 12232)) - 12232 /\
    (la = [] -> load32 (mem s') (12232 + 4) = 0) /\
    (la <> [] -> succ_path (mem s') (12232 :: la ++ [12232])).
Proof.
  apply (double_free_undetected five_freed 12232 reachable_five_freed).
  - apply (walk_to_sound five_freed 64 (heap_listp five_freed));
      [vm_compute; reflexivity | apply block_first].
  - vm_compute. reflexivity.
  - vm_compute. reflexivity.
Defined.

(** ** What the calls leave alone *)

Section Preserves.
Variable R : state -> state -> Prop.
Hypothesis R_refl : forall s, R s s.
Hypothesis R_trans : forall s1 s2 s3, R s1 s2 -> R s2 s3 -> R s1 s3.

Lemma preserves_ret {A} (a : A) : preserves R (ret a).
Proof. intros s a' s' H. inversion H. subst. apply R_refl. Qed.

Lemma preserves_bind {A B} (c : M A) (k : A -> M B) :
  preserves R c -> (forall a, preserves R (k a)) -> preserves R (bind c k).
Proof.
  intros Hc Hk s b s'' H. apply bind_inv in H. destruct H as (a & s' & H1 & H2).
  apply (R_trans _ s'); [apply (Hc _ _ _ H1) | apply (Hk a _ _ _ H2)].
Qed.

Lemma preserves_if {A} (b : bool) (c1 c2 : M A) :
  preserves R c1 -> preserves R c2 -> preserves R (if b then c1 else c2).
Proof. destruct b; auto. Qed.

Lemma preserves_GET p : preserves R (GET p).
Proof.
  intros s a s'. unfold GET. destruct (valid s p 4); intros H; inversion H.
  subst. apply R_refl.
Qed.

Lemma preserves_GET_I p : preserves R (GET_I p).
Proof.
  intros s a s'. unfold GET_I. destruct (valid s p 4); intros H; inversion H.
  subst. apply R_refl.
Qed.

Lemma preserves_GETP p : preserves R (GETP p).
Proof.
  intros s a s'. unfold GETP. destruct (valid s p 8); intros H; inversion H.
  subst. apply R_refl.
Qed.

Lemma preserves_get_ptr_classes : preserves R get_ptr_classes.
Proof. intros s a s' H. inversion H. subst. apply R_refl. Qed.

Lemma preserves_get_heap_listp : preserves R get_heap_listp.
Proof. intros s a s' H. inversion H. subst. apply R_refl. Qed.

Lemma preserves_exit1 {A} : preserves R (@exit1 A).
Proof. intros s a s' H. discriminate H. Qed.

Create HintDb preserves.
#[local] Hint Resolve preserves_ret preserves_GET preserves_GET_I preserves_GETP
  preserves_get_ptr_classes preserves_get_heap_listp preserves_exit1 : preserves.

Ltac preserves :=
  repeat match goal with
    | |- preserves _ (bind _ _) => apply preserves_bind; [ | intros ]
    | |- preserves _ (if _ then _ else _) => apply preserves_if
    | |- preserves _ (match ?x with _ => _ end) => destruct x
    | |- preserves _ _ => solve [ auto with preserves ]
    end.

(** The readers. *)
Lemma preserves_GET_SIZE p : preserves R (GET_SIZE p).
Proof. unfold GET_SIZE. preserves. Qed.
Lemma preserves_GET_ALLOC p : preserves R (GET_ALLOC p).
Proof. unfold GET_ALLOC. preserves. Qed.
#[local] Hint Resolve preserves_GET_SIZE preserves_GET_ALLOC : preserves.

Lemma preserves_FTRP p : preserves R (FTRP p).
Proof. unfold FTRP. preserves. Qed.
Lemma preserves_NEXT_BLKP p : preserves R (NEXT_BLKP p).
Proof. unfold NEXT_BLKP. preserves. Qed.
Lemma preserves_PREV_BLKP p : preserves R (PREV_BLKP p).
Proof. unfold PREV_BLKP. preserves. Qed.
Lemma preserves_SUCC p : preserves R (SUCC p).
Proof. unfold SUCC. preserves. Qed.
Lemma preserves_PRED p : preserves R (PRED p).
Proof. unfold PRED. preserves. Qed.
Lemma preserves_get_class k : preserves R (get_class k).
Proof. unfold get_class, class_slot. preserves. Qed.
#[local] Hint Resolve preserves_FTRP preserves_NEXT_BLKP preserves_PREV_BLKP preserves_SUCC
  preserves_PRED preserves_get_class : preserves.

Lemma preserves_fit_loop asize base todo : forall increment,
  preserves R (fit_loop asize base increment todo).
Proof. induction todo; intros; cbn [fit_loop]; preserves. Qed.
#[local] Hint Resolve preserves_fit_loop : preserves.

Lemma preserves_find_fit asize : preserves R (find_fit asize).
Proof. unfold find_fit. preserves. Qed.

Lemma preserves_printblock bp : preserves R (printblock bp).
Proof. unfold printblock. preserves. Qed.
Lemma preserves_checkblock bp : preserves R (checkblock bp).
Proof. unfold checkblock. preserves. Qed.
#[local] Hint Resolve preserves_find_fit preserves_printblock preserves_checkblock : preserves.

Lemma preserves_checkheap_loop verbose fuel : forall bp,
  preserves R (checkheap_loop fuel verbose bp).
Proof. induction fuel; intros; cbn [checkheap_loop]; preserves. Qed.
#[local] Hint Resolve preserves_checkheap_loop : preserves.

Lemma preserves_mm_checkheap fuel verbose : preserves R (mm_checkheap fuel verbose).
Proof. unfold mm_checkheap. preserves. Qed.

(** The writers, for a relation that does not look at the memory
    contents nor at the copy log. *)
Hypothesis R_mem : forall s m, R s (set_mem s m).
Hypothesis R_log : forall s e, R s (log_copy s e).

Lemma preserves_PUT p v : preserves R (PUT p v).
Proof.
  intros s a s'. unfold PUT. destruct (valid s p 4); intros H; inversion H.
  apply R_mem.
Qed.

Lemma preserves_PUTP p v : preserves R (PUTP p v).
Proof.
  intros s a s'. unfold PUTP. destruct (valid s p 8); intros H; inversion H.
  apply R_mem.
Qed.

Lemma preserves_memcpy dst src n : preserves R (memcpy dst src n).
Proof.
  intros s a s'. unfold memcpy. destruct (valid s dst n && valid s src n);
    intros H; inversion H.
  apply (R_trans _ (set_mem s (copy_bytes (mem s) dst src n))); [apply R_mem | apply R_log].
Qed.
#[local] Hint Resolve preserves_PUT preserves_PUTP preserves_memcpy : preserves.

Lemma preserves_set_class k v : preserves R (set_class k v).
Proof. unfold set_class, class_slot. preserves. Qed.
#[local] Hint Resolve preserves_set_class : preserves.

Lemma preserves_append_arm k bp : preserves R (append_arm k bp).
Proof. unfold append_arm. preserves. Qed.
Lemma preserves_delete_arm k bp : preserves R (delete_arm k bp).
Proof. unfold delete_arm. preserves. Qed.
#[local] Hint Resolve preserves_append_arm preserves_delete_arm : preserves.

Lemma preserves_append_to_class bp size : preserves R (append_to_class bp size).
Proof. unfold append_to_class. preserves. Qed.
Lemma preserves_delete_from_class bp prev : preserves R (delete_from_class bp prev).
Proof. unfold delete_from_class. preserves. Qed.
#[local] Hint Resolve preserves_append_to_class preserves_delete_from_class : preserves.

Lemma preserves_coalesce bp : preserves R (coalesce bp).
Proof. unfold coalesce, coalesce_cases. preserves. Qed.
#[local] Hint Resolve preserves_coalesce : preserves.

Lemma preserves_place bp asize : preserves R (place bp asize).
Proof. unfold place. preserves. Qed.
Lemma preserves_mm_free bp : preserves R (mm_free bp).
Proof. unfold mm_free. preserves. Qed.
#[local] Hint Resolve preserves_place preserves_mm_free : preserves.

(** What [extend_heap] does once the host has moved the break, and
    what [mm_realloc] does once it has the new block. *)
Lemma preserves_extend_heap_tail bp size :
  preserves R (PUT (HDRP bp) (PACK size 0) ;;;
               f <- FTRP bp ;;
               PUT f (PACK size 0) ;;;
               nx <- NEXT_BLKP bp ;;
               PUT (HDRP nx) (PACK 0 1) ;;;
               coalesce bp).
Proof. preserves. Qed.

Lemma preserves_realloc_tail ptr size newp :
  preserves R (copySize <- GET_SIZE (HDRP ptr) ;;
               memcpy newp ptr (if size <? copySize then size else copySize) ;;;
               mm_free ptr ;;;
               ret newp).
Proof. preserves. Qed.

End Preserves.

Lemma unchanged_refl s : unchanged s s.
Proof. reflexivity. Qed.
Lemma unchanged_trans s1 s2 s3 : unchanged s1 s2 -> unchanged s2 s3 -> unchanged s1 s3.
Proof. unfold unchanged. congruence. Qed.

(** The fit search and the heap checker only read: whenever they
    return, from any state whatever, the state is the one they were
    called on. *)
Theorem observers_do_not_write :
  (forall asize s p s', find_fit asize s = Ok p s' -> s' = s) /\
  (forall fuel verbose s o s', mm_checkheap fuel verbose s = Ok o s' -> s' = s).
Proof.
  split.
  - intros asize s p s' H.
    apply (preserves_find_fit unchanged unchanged_refl unchanged_trans asize s p s' H).
  - intros fuel verbose s o s' H.
    apply (preserves_mm_checkheap unchanged unchanged_refl unchanged_trans
             fuel verbose s o s' H).
Qed.

Lemma observers_do_not_write_witness :
  after (find_fit 1008) five_freed = five_freed /\
  after (mm_checkheap 64 0) five_freed = five_freed.
Proof.
  split.
  - apply (proj1 observers_do_not_write 1008 five_freed 12232).
    apply value_after. vm_compute. reflexivity.
  - apply (proj2 observers_do_not_write 64%nat 0 five_freed (Some [])).
    apply value_after. vm_compute. reflexivity.
Defined.

Lemma same_brk_refl s : same_brk s s.
Proof. reflexivity. Qed.
Lemma same_brk_trans s1 s2 s3 : same_brk s1 s2 -> same_brk s2 s3 -> same_brk s1 s3.
Proof. unfold same_brk. congruence. Qed.
Lemma same_brk_mem s m : same_brk s (set_mem s m).
Proof. reflexivity. Qed.
Lemma same_brk_log s e : same_brk s (log_copy s e).
Proof. reflexivity. Qed.

Lemma extend_heap_brk words s a s' :
  0 <= words <= 16384 -> extend_heap words s = Ok a s' ->
  mem_brk s <= mem_brk s' <= mem_brk s + CHUNKSIZE.
Proof.
  intros Hw H. change CHUNKSIZE with 65536. unfold extend_heap in H.
  set (size := u32 (if negb (words mod 2 =? 0)
                    then u64 (u64 (words + 1) * WSIZE)
                    else u64 (words * WSIZE))) in H.
  assert (Hs : 0 <= size <= 65536).
  { unfold size, WSIZE. destruct (words mod 2 =? 0) eqn:E; cbn [negb].
    - rewrite (u64_small (words * 4)) by lia. rewrite u32_small by lia. lia.
    - apply Z.eqb_neq in E.
      assert (words <> 16384) by (intros ->; apply E; reflexivity).
      rewrite (u64_small (words + 1)) by lia. rewrite u64_small by lia.
      rewrite u32_small by lia. lia. }
  apply bind_inv in H. destruct H as (r & s1 & Hsb & H).
  unfold mem_sbrk in Hsb. rewrite i32_small in Hsb by lia.
  destruct ((size <? 0) || (mem_hi s <? mem_brk s + size)); injection Hsb as <- <-.
  - injection H as _ <-. lia.
  - apply (preserves_extend_heap_tail same_brk same_brk_refl same_brk_trans same_brk_mem)
      in H.
    unfold same_brk in H. rewrite H. proj. lia.
Qed.

(** Whenever they return, from any state whatever: [mm_free] leaves the
    break where it is, and [mm_malloc] and [mm_realloc] raise it by at
    most [CHUNKSIZE] bytes, however large the request. *)
Theorem break_moves_only_in_malloc :
  (forall bp s u s', mm_free bp s = Ok u s' -> mem_brk s' = mem_brk s) /\
  (forall size s p s', mm_malloc size s = Ok p s' ->
     mem_brk s <= mem_brk s' <= mem_brk s + CHUNKSIZE) /\
  (forall ptr size s p s', mm_realloc ptr size s = Ok p s' ->
     mem_brk s <= mem_brk s' <= mem_brk s + CHUNKSIZE).
Proof.
  assert (Hfree : forall bp s u s', mm_free bp s = Ok u s' -> mem_brk s' = mem_brk s).
  { intros bp s u s' H.
    apply (preserves_mm_free same_brk same_brk_refl same_brk_trans same_brk_mem
             bp s u s' H). }
  assert (Hmalloc : forall size s p s', mm_malloc size s = Ok p s' ->
            mem_brk s <= mem_brk s' <= mem_brk s + CHUNKSIZE).
  { intros size s p s' H. unfold mm_malloc in H.
    assert (Hc : 0 <= CHUNKSIZE) by (change CHUNKSIZE with 65536; lia).
    destruct (size <=? 0); [injection H as _ <-; lia|].
    set (asize := if size <=? DSIZE then DSIZE + OVERHEAD
                  else u32 (u64 (DSIZE * (u64 (size + OVERHEAD + (DSIZE - 1)) / DSIZE))))
      in H.
    assert (Ha : 0 <= asize).
    { unfold asize. destruct (size <=? DSIZE); [unfold DSIZE, OVERHEAD; lia|].
      unfold u32. apply Z.mod_pos_bound. lia. }
    apply bind_inv in H. destruct H as (bp & s1 & Hf & H).
    apply (preserves_find_fit same_brk same_brk_refl same_brk_trans) in Hf.
    unfold same_brk in Hf.
    destruct (negb (bp =? NULL)).
    - apply bind_inv in H. destruct H as (u & s2 & Hp & H). injection H as _ <-.
      apply (preserves_place same_brk same_brk_refl same_brk_trans same_brk_mem) in Hp.
      unfold same_brk in Hp. lia.
    - apply bind_inv in H. destruct H as (bp' & s2 & He & H).
      apply extend_heap_brk in He.
      2:{ unfold MIN, WSIZE. change CHUNKSIZE with 65536.
          destruct (asize >? 65536) eqn:E.
          - change (65536 / 4) with 16384. lia.
          - rewrite Z.gtb_ltb in E. apply Z.ltb_ge in E.
            split; [apply Z.div_pos; lia|]. apply Z.div_le_upper_bound; lia. }
      destruct (bp' =? NULL); [injection H as _ <-; lia|].
      apply bind_inv in H. destruct H as (u & s3 & Hp & H). injection H as _ <-.
      apply (preserves_place same_brk same_brk_refl same_brk_trans same_brk_mem) in Hp.
      unfold same_brk in Hp. lia. }
  split; [exact Hfree|]. split; [exact Hmalloc|].
  intros ptr size s p s' H. unfold mm_realloc in H.
  apply bind_inv in H. destruct H as (newp & s1 & Hm & H).
  apply Hmalloc in Hm.
  destruct (newp =? NULL); [discriminate H|].
  apply (preserves_realloc_tail same_brk same_brk_refl same_brk_trans same_brk_mem
           same_brk_log) in H.
  unfold same_brk in H. lia.
Qed.

Lemma break_moves_only_in_malloc_witness :
  mem_brk (after (mm_free 5176) first_freed) = mem_brk first_freed.
Proof.
  apply (proj1 break_moves_only_in_malloc 5176 first_freed tt).
  apply value_after. vm_compute. reflexivity.
Defined.

(** ** [delete_from_class] unlinks one block *)

(** In every state reached from [mm_init] returning 0 on a fresh arena
    by requests of fewer than [2^32 - 15] bytes, releases and
    reallocations of payloads the client holds and client writes inside
    them ([reachable]), for the free lists [fl] the class table
    holds: [delete_from_class] called for a member [x] of the list of
    class [k] (on [x] itself with selector 2, on the block after [x]
    with selector 1, on the block before [x], when that is not the
    prologue, with selector 0) returns,
    and the list of class [k] is then the one of before without [x],
    the other members in their order; the lists of the other classes
    and the payloads the client holds are as before. *)
Theorem delete_unlinks_the_block s :
  reachable s ->
  exists fl : Z -> list Z,
    (forall k, 0 <= k <= 6 -> bucket_head s k = hd NULL (fl k) /\ chain (mem s) (fl k)) /\
    (forall k la x lb, 0 <= k <= 6 -> fl k = la ++ x :: lb ->
       forall bp prev,
         (prev = 2 /\ bp = x) \/
         (prev = 1 /\ bp = x + size_of s x) \/
         (prev = 0 /\ block_at s bp /\ bp <> heap_listp s /\ 0 < size_of s bp /\
          bp + size_of s bp = x) ->
         exists s', delete_from_class bp prev s = Ok tt s' /\
           bucket_head s' k = hd NULL (la ++ lb) /\ chain (mem s') (la ++ lb) /\
           (forall j, 0 <= j <= 6 -> j <> k ->
              bucket_head s' j = bucket_head s j /\ chain (mem s') (fl j)) /\
           (forall q, live s q ->
              forall a, q <= a < q + size_of s q - DSIZE -> mem s' a = mem s a)).
Proof.
  intros Hr. destruct (reachable_Heap _ Hr) as (bl & fl & HH).
  pose proof (heap_rep _ _ _ HH) as HR.
  assert (Hhd : forall k, 0 <= k <= 6 -> bucket_head s k = hd NULL (fl k)).
  { intros k Hk. unfold bucket_head. rewrite (rep_table _ _ _ HR).
    apply (rep_heads _ _ _ HR k Hk). }
  exists fl. split.
  - intros k Hk. split; [apply Hhd; exact Hk | apply (rep_chain _ _ _ HR k Hk)].
  - intros k la x lb Hk E bp prev Hsel.
    assert (Hx : In x (fl k)) by (rewrite E; apply in_or_app; right; left; reflexivity).
    destruct (rep_sound _ _ _ HR k x Hk Hx) as (sx & Hc & Hbk).
    destruct (cell_size_of _ _ _ _ _ _ HR Hc) as [Es _].
    rewrite <- Hbk in E.
    assert (Hrun : exists m', delete_from_class bp prev s = Ok tt (set_mem s m') /\
                     Rep (set_mem s m') bl (upd fl (bucket_of sx) (la ++ lb)) /\
                     keeps_payloads s bl m').
    { destruct Hsel as [(-> & ->)|[(-> & ->)|(-> & Hb & Hne & Hpos & Enx)]].
      - apply (delete_from_class_self_full _ _ _ _ _ _ _ HR Hc E).
      - rewrite Es. apply (delete_from_class_prev_full _ _ _ _ _ _ _ HR Hc E).
      - destruct (block_at_cases _ _ _ HR _ Hb) as [E1 | [E1 | (sz & a & Hcb)]].
        + contradiction.
        + subst bp. rewrite (proj1 (epilogue_size_of _ _ _ HR)) in Hpos. lia.
        + destruct (cell_size_of _ _ _ _ _ _ HR Hcb) as [Esb _].
          rewrite Esb in Enx. subst x.
          apply (delete_from_class_next_full _ _ _ _ _ _ _ _ _ HR Hcb Hc E). }
    destruct Hrun as (m' & Run & HR' & K).
    exists (set_mem s m'). split; [exact Run|].
    assert (Hhd' : forall j, 0 <= j <= 6 ->
              bucket_head (set_mem s m') j = hd NULL (upd fl (bucket_of sx) (la ++ lb) j)).
    { intros j Hj. unfold bucket_head. rewrite (rep_table _ _ _ HR').
      apply (rep_heads _ _ _ HR' j Hj). }
    rewrite Hbk in *.
    split; [rewrite (Hhd' k Hk), upd_same; reflexivity|].
    split; [pose proof (rep_chain _ _ _ HR' k Hk) as Ch; rewrite upd_same in Ch; exact Ch|].
    split.
    + intros j Hj Hjk.
      assert (Eu : upd fl k (la ++ lb) j = fl j).
      { unfold upd. destruct (j =? k) eqn:Ej; [apply Z.eqb_eq in Ej; contradiction|].
        reflexivity. }
      split.
      * rewrite (Hhd' j Hj), Eu. symmetry. apply Hhd. exact Hj.
      * pose proof (rep_chain _ _ _ HR' j Hj) as Ch. rewrite Eu in Ch. exact Ch.
    + intros q Hq a Ha. proj. apply (live_iff _ _ _ _ HR) in Hq.
      apply (K q (size_of s q) a Hq). unfold DSIZE in Ha. lia.
Qed.

Lemma delete_unlinks_the_block_witness :
  exists fl : Z -> list Z,
    (forall k, 0 <= k <= 6 ->
       bucket_head five_freed k = hd NULL (fl k) /\ chain (mem five_freed) (fl k)) /\
    (forall k la x lb, 0 <= k <= 6 -> fl k = la ++ x :: lb ->
       forall bp prev,
         (prev = 2 /\ bp = x) \/
         (prev = 1 /\ bp = x + size_of five_freed x) \/
         (prev = 0 /\ block_at five_freed bp /\ bp <> heap_listp five_freed /\
          0 < size_of five_freed bp /\ bp + size_of five_freed bp = x) ->
         exists s', delete_from_class bp prev five_freed = Ok tt s' /\
           bucket_head s' k = hd NULL (la ++ lb) /\ chain (mem s') (la ++ lb) /\
           (forall j, 0 <= j <= 6 -> j <> k ->
              bucket_head s' j = bucket_head five_freed j /\ chain (mem s') (fl j)) /\
           (forall q, live five_freed q ->
              forall a, q <= a < q + size_of five_freed q - DSIZE ->
                        mem s' a = mem five_freed a)).
Proof. exact (delete_unlinks_the_block five_freed reachable_five_freed). Defined.

(** ** The walk of the heap checker ends *)

Lemma size_of_step s b : 0 < size_of s b -> 8 <= size_of s b.
Proof.
  unfold size_of, hdr. rewrite size_mask by apply load32_range. lia.
Qed.

Lemma checkheap_loop_ends s verbose : forall fuel a s',
  0 <= a < 2 ^ 64 -> mem_hi s <= 2 ^ 62 ->
  mem_hi s - a < 8 * Z.of_nat fuel ->
  checkheap_loop fuel verbose a s <> Ok None s'.
Proof.
  induction fuel as [|fuel IH]; intros a s' Ha Hhi Hm H; cbn [checkheap_loop] in H;
    apply bind_inv in H; destruct H as (sz & s1 & G & H);
    apply GET_SIZE_HDRP_inv in G; destruct G as (-> & -> & V1 & V2);
    assert (Ha4 : 4 <= a)
      by (destruct (Z_lt_le_dec a 4) as [Hlt|]; [|assumption];
          exfalso; unfold HDRP, padd, u64, WSIZE in V2;
          assert (Em : (a + - (4)) mod 2 ^ 64 = a - 4 + 2 ^ 64)
            by (symmetry; apply Z.mod_unique with (q := -1); lia);
          rewrite Em in V2; lia);
    rewrite HDRP_small in V2 by lia.
  - lia.
  - destruct (0 <? size_of s a) eqn:E; [apply Z.ltb_lt in E|discriminate H].
    apply bind_inv in H. destruct H as (o1 & s2 & P & H).
    assert (E2 : s2 = s).
    { destruct (negb (verbose =? 0)).
      - apply (preserves_printblock unchanged unchanged_refl unchanged_trans _ _ _ _ P).
      - injection P as _ <-. reflexivity. }
    subst s2.
    apply bind_inv in H. destruct H as (o2 & s3 & C & H).
    apply (preserves_checkblock unchanged unchanged_refl unchanged_trans) in C.
    unfold unchanged in C. subst s3.
    apply bind_inv in H. destruct H as (nx & s4 & Nx & H).
    pose proof (size_of_bound s a) as Hb32. pose proof (size_of_step s a E) as H8.
    unfold NEXT_BLKP in Nx. change (padd a (- WSIZE)) with (HDRP a) in Nx.
    apply bind_inv in Nx. destruct Nx as (sz & s5 & G & Nx).
    apply GET_SIZE_HDRP_inv in G. destruct G as (-> & -> & _).
    injection Nx as <- <-. rewrite padd_small in H by lia.
    apply bind_inv in H. destruct H as (r & s6 & L & H).
    destruct r as [[e o]|]; [discriminate H|].
    apply (IH (a + size_of s a) s6); [lia | assumption | lia | exact L].
Qed.

(** The loop of [mm_checkheap] ends on every heap, however corrupted:
    each step moves forward by a positive multiple of 8 and a header
    beyond the arena cannot be read.  On any state with [heap_listp]
    non-negative and the arena below [2^62] there is a number of steps
    from which on the checker never runs out of them: it returns its
    report or faults. *)
Theorem checkheap_walk_terminates s verbose :
  0 <= heap_listp s < 2 ^ 64 -> mem_hi s <= 2 ^ 62 ->
  exists n, forall fuel s', (n <= fuel)%nat -> mm_checkheap fuel verbose s <> Ok None s'.
Proof.
  intros Hh Hhi. exists (S (Z.to_nat (mem_hi s - heap_listp s))).
  intros fuel s' Hf H. unfold mm_checkheap in H.
  unfold get_heap_listp at 1 in H. unfold bind at 1 in H.
  apply bind_inv in H. destruct H as (sz & s1 & G & H).
  apply GET_SIZE_HDRP_inv in G. destruct G as (-> & -> & _).
  apply bind_inv in H. destruct H as (o1 & s1 & G1 & H).
  assert (E1 : s1 = s).
  { destruct (negb (size_of s (heap_listp s) =? DSIZE)).
    - injection G1 as _ <-. reflexivity.
    - apply bind_inv in G1. destruct G1 as (al & s2 & A & G1).
      apply GET_ALLOC_HDRP_inv in A. destruct A as (-> & _).
      injection G1 as _ <-. reflexivity. }
  subst s1.
  apply bind_inv in H. destruct H as (o2 & s2 & C & H).
  apply (preserves_checkblock unchanged unchanged_refl unchanged_trans) in C.
  unfold unchanged in C. subst s2.
  apply bind_inv in H. destruct H as (r & s3 & L & H).
  destruct r as [[bp o3]|].
  - apply bind_inv in H. destruct H as (o4 & s4 & _ & H).
    apply bind_inv in H. destruct H as (sz' & s5 & _ & H).
    apply bind_inv in H. destruct H as (o5 & s6 & _ & H).
    discriminate H.
  - apply (checkheap_loop_ends s verbose fuel (heap_listp s) s3); try assumption. lia.
Qed.

Lemma checkheap_walk_terminates_witness :
  exists n, forall fuel s', (n <= fuel)%nat -> mm_checkheap fuel 1 five_freed <> Ok None s'.
Proof.
  apply (checkheap_walk_terminates five_freed 1).
  - split; vm_compute; [discriminate | reflexivity].
  - vm_compute. discriminate.
Defined.

(** ** [mm_malloc] undone by [mm_free] *)

Lemma epilogue_block_at s bl fl : Rep s bl fl -> block_at s (mem_brk s).
Proof.
  intros HR. rewrite (rep_brk _ _ _ HR).
  pose proof (rep_listp _ _ _ HR) as Hlp.
  destruct bl as [|c r] using rev_ind.
  - cbn [total].
    replace (mem_lo s + 72 + 0) with (heap_listp s + size_of s (heap_listp s))
      by (rewrite (proj1 (prologue_size_of _ _ _ HR)); lia).
    apply block_next; [apply block_first|].
    rewrite (proj1 (prologue_size_of _ _ _ HR)). lia.
  - clear IHr. destruct c as [sz a]. rewrite total_app. cbn [total].
    assert (Hc : In (mem_lo s + 72 + total r, sz, a) (cells (mem_lo s + 72) (r ++ [(sz, a)])))
      by apply cells_middle.
    destruct (cell_size_of _ _ _ _ _ _ HR Hc) as [Es _].
    destruct (cell_facts _ _ _ HR _ _ _ Hc) as (_ & _ & _ & _ & _ & _ & F7 & _).
    replace (mem_lo s + 72 + (total r + (sz + 0)))
      with (mem_lo s + 72 + total r + size_of s (mem_lo s + 72 + total r)) by lia.
    apply block_next; [apply (cells_block_at _ _ _ HR _ _ _ Hc) | lia].
Qed.

(** Two heaps of the same layout have the same blocks. *)
Lemma same_layout_same_blocks s s' bl fl fl' :
  Rep s bl fl -> Rep s' bl fl' -> mem_lo s' = mem_lo s ->
  mem_brk s' = mem_brk s /\
  (forall b, block_at s' b <-> block_at s b) /\
  (forall b, block_at s b -> size_of s' b = size_of s b /\ alloc_of s' b = alloc_of s b).
Proof.
  intros HR HR' Elo.
  assert (Ebrk : mem_brk s' = mem_brk s)
    by (rewrite (rep_brk _ _ _ HR), (rep_brk _ _ _ HR'), Elo; reflexivity).
  assert (Elp : heap_listp s' = heap_listp s)
    by (rewrite (rep_listp _ _ _ HR), (rep_listp _ _ _ HR'), Elo; reflexivity).
  assert (Hto : forall t t' g g', Rep t bl g -> Rep t' bl g' -> mem_lo t' = mem_lo t ->
            forall b, block_at t b -> block_at t' b).
  { intros t t' g g' Ht Ht' El b Hb.
    destruct (block_at_cases _ _ _ Ht _ Hb) as [E | [E | (sz & a & Hc)]].
    - subst b. rewrite (rep_listp _ _ _ Ht), <- El, <- (rep_listp _ _ _ Ht').
      apply block_first.
    - subst b. rewrite (rep_brk _ _ _ Ht), <- El, <- (rep_brk _ _ _ Ht').
      apply (epilogue_block_at _ _ _ Ht').
    - rewrite <- El in Hc. apply (cells_block_at _ _ _ Ht' _ _ _ Hc). }
  split; [exact Ebrk|]. split.
  - intros b. split; [apply (Hto s' s fl' fl) | apply (Hto s s' fl fl')];
      try assumption. symmetry. exact Elo.
  - intros b Hb.
    destruct (block_at_cases _ _ _ HR _ Hb) as [E | [E | (sz & a & Hc)]].
    + subst b.
      destruct (prologue_size_of _ _ _ HR) as [P1 P2].
      destruct (prologue_size_of _ _ _ HR') as [P1' P2'].
      rewrite Elp in P1', P2'. rewrite P1, P2, P1', P2'. split; reflexivity.
    + subst b.
      destruct (epilogue_size_of _ _ _ HR) as [P1 P2].
      destruct (epilogue_size_of _ _ _ HR') as [P1' P2'].
      rewrite Ebrk in P1', P2'. rewrite P1, P2, P1', P2'. split; reflexivity.
    + destruct (cell_size_of _ _ _ _ _ _ HR Hc) as [P1 P2].
      rewrite <- Elo in Hc.
      destruct (cell_size_of _ _ _ _ _ _ HR' Hc) as [P1' P2'].
      rewrite P1, P2, P1', P2'. split; reflexivity.
Qed.

(** In a state reached from [mm_init] returning 0 on a fresh arena by
    requests of fewer than [2^32 - 15] bytes, releases and reallocations
    of payloads the client holds and client writes inside them
    ([reachable]), when [mm_malloc] has served a request above 0 and
    below [2^32 - 15] bytes without moving the break, [mm_free] of the payload returned restores the
    heap block for block: the walk meets the same blocks, with the same
    sizes and allocation bits as before the request, the free block
    the request was served from is the head of the list of its class
    again, and the payloads the client held have kept every byte. *)
Theorem malloc_free_round_trip s size p s1 :
  reachable s -> 0 < size -> size + 15 < 2 ^ 32 ->
  mm_malloc size s = Ok p s1 -> p <> NULL -> mem_brk s1 = mem_brk s ->
  exists s2, mm_free p s1 = Ok tt s2 /\
    mem_brk s2 = mem_brk s /\
    (forall b, block_at s2 b <-> block_at s b) /\
    (forall b, block_at s b -> size_of s2 b = size_of s b /\ alloc_of s2 b = alloc_of s b) /\
    bucket_head s2 (bucket_of (size_of s p)) = p /\
    (forall q, live s q ->
       forall a, q <= a < q + size_of s q - DSIZE -> mem s2 a = mem s a).
Proof.
  intros Hr H0 Hsz Hm Hnn Hbrk.
  destruct (reachable_Heap _ Hr) as (bl & fl & HH).
  pose proof (heap_rep _ _ _ HH) as HR.
  destruct (mm_malloc_full s bl fl size p s1 HH H0 Hsz Hm)
    as (bl1 & fl1 & HH1 & Elo & Ehi & K1 & [(Ep & _)|(sz1 & Hb & Hfresh & Hiff & Hshape)]);
    [contradiction|].
  destruct (Hshape Hbrk) as (l1 & csz & l2 & E & E1 & Ep & Hle).
  subst bl bl1.
  pose proof (heap_merged _ _ _ HH) as Hadj.
  change (l1 ++ (csz, false) :: l2) with (l1 ++ [(csz, false)] ++ l2) in Hadj.
  rewrite !adjacent_free_app in Hadj.
  cbn [adjacent_free last_free first_free negb andb orb] in Hadj.
  assert (Hn : last_free l1 = false /\ first_free l2 = false).
  { destruct (last_free l1), (first_free l2), (adjacent_free l1), (adjacent_free l2);
      cbn in Hadj; try discriminate Hadj; split; reflexivity. }
  destruct Hn as [Hlf Hff].
  assert (Hc : In (p, csz, false) (cells (mem_lo s + 72) (l1 ++ (csz, false) :: l2)))
    by (rewrite Ep; apply cells_middle).
  destruct (cell_size_of _ _ _ _ _ _ HR Hc) as [Esz _].
  assert (Ep1 : mem_lo s1 + 72 + total l1 = p) by (rewrite Elo; symmetry; exact Ep).
  assert (Hfree : exists m2 fl2,
            mm_free p s1 = Ok tt (set_mem s1 m2) /\
            Heap (set_mem s1 m2) (l1 ++ (csz, false) :: l2) fl2 /\
            hd NULL (fl2 (bucket_of csz)) = p /\
            (forall x sx a,
               In (x, sx, true) (cells (mem_lo s + 72) (l1 ++ (csz, false) :: l2)) ->
               x <= a < x + sx - 8 -> m2 a = mem s1 a)).
  { unfold placed in HH1. destruct (16 <=? csz - adjusted size) eqn:E16.
    - cbn [app] in HH1.
      destruct (mm_free_full s1 l1 (adjusted size) ((csz - adjusted size, false) :: l2)
                  fl1 HH1) as (m2 & fl2 & Hf & HH2 & K2 & Hd).
      unfold coalesced in HH2. rewrite (take_last_free_none _ Hlf) in HH2, Hd.
      cbn [take_first_free fst snd] in HH2, Hd.
      replace (0 + adjusted size + (csz - adjusted size)) with csz in HH2, Hd by lia.
      rewrite Ep1 in Hf, Hd. replace (p - 0) with p in Hd by lia.
      exists m2, fl2. split; [exact Hf|]. split; [exact HH2|]. split; [exact Hd|].
      intros x sx a Hx Ha. apply (K2 x sx a); [|exact Ha]. rewrite Elo.
      apply (allocs_retile _ l1 [(csz, false)]
               [(adjusted size, false); (csz - adjusted size, false)] l2);
        [cbn [total]; lia | apply no_alloc_1 | exact Hx].
    - cbn [app] in HH1.
      destruct (mm_free_full s1 l1 csz l2 fl1 HH1) as (m2 & fl2 & Hf & HH2 & K2 & Hd).
      unfold coalesced in HH2.
      rewrite (take_last_free_none _ Hlf), (take_first_free_none _ Hff) in HH2, Hd.
      cbn [fst snd] in HH2, Hd.
      replace (0 + csz + 0) with csz in HH2, Hd by lia.
      rewrite Ep1 in Hf, Hd. replace (p - 0) with p in Hd by lia.
      exists m2, fl2. split; [exact Hf|]. split; [exact HH2|]. split; [exact Hd|].
      intros x sx a Hx Ha. apply (K2 x sx a); [|exact Ha]. rewrite Elo. exact Hx. }
  destruct Hfree as (m2 & fl2 & Hf & HH2 & Hd & K2).
  pose proof (heap_rep _ _ _ HH2) as HR2.
  exists (set_mem s1 m2). split; [exact Hf|].
  assert (Elo2 : mem_lo (set_mem s1 m2) = mem_lo s) by (proj; exact Elo).
  destruct (same_layout_same_blocks _ _ _ _ _ HR HR2 Elo2) as (B1 & B2 & B3).
  split; [exact B1|]. split; [exact B2|]. split; [exact B3|]. split.
  - rewrite Esz. unfold bucket_head. rewrite (rep_table _ _ _ HR2).
    rewrite (rep_heads _ _ _ HR2 _ (bucket_of_range _)). exact Hd.
  - intros q Hq a Ha. apply (live_iff _ _ _ _ HR) in Hq. unfold DSIZE in Ha. proj.
    rewrite (K2 q (size_of s q) a Hq Ha). apply (K1 q (size_of s q) a Hq Ha).
Qed.

Lemma malloc_free_round_trip_witness :
  exists s2, mm_free 12232 head_reused = Ok tt s2 /\
    mem_brk s2 = mem_brk five_freed /\
    (forall b, block_at s2 b <-> block_at five_freed b) /\
    (forall b, block_at five_freed b ->
       size_of s2 b = size_of five_freed b /\ alloc_of s2 b = alloc_of five_freed b) /\
    bucket_head s2 (bucket_of (size_of five_freed 12232)) = 12232 /\
    (forall q, live five_freed q ->
       forall a, q <= a < q + size_of five_freed q - DSIZE -> mem s2 a = mem five_freed a).
Proof.
  apply (malloc_free_round_trip five_freed 1000 12232 head_reused reachable_five_freed).
  - lia.
  - vm_compute. reflexivity.
  - apply value_after. vm_compute. reflexivity.
  - vm_compute. discriminate.
  - vm_compute. reflexivity.
Defined.
